(* ===== verification/_CoqProject ===== *)
-Q . S2P
Prelude.v
GoLoop.v
GoStd.v
DnsNames.v
DnsMsg.v
DnsUtil.v
Request.v
Less.v
Elem.v
Tree.v
TreeBalance.v
TreeSpec.v
TreeWalk.v
TreeTheorems.v
Zone.v
ZoneSpec.v
GoNet.v
GoText.v
Plugin.v
Transfer.v
Server.v
Register.v
Secondary.v
SecondaryTheorems.v
Lookup.v
LookupSpec.v
LookupTheorems.v
FilePlugin.v
FileTheorems.v
TransferTheorems.v
ServerTheorems.v
RegisterTheorems.v
Response.v
PkgCache.v
GoFloat.v
GoTime.v
Normalize.v
CachePlugin.v
CacheTheorems.v
Hosts.v
HostsTheorems.v
NormalizeTheorems.v
Caddy.v
Service.v
Backend.v
Etcd.v
BackendTheorems.v
KubeObject.v
KubeController.v
Kubernetes.v
KubeExternal.v
KubeKeys.v
KubernetesTheorems.v
KubeCacheTheorems.v
KubeServing.v
KubeExamples.v
LoadBalance.v
LoadBalanceTheorems.v
Dns64.v
Acl.v
SmallPlugins.v
Metadata.v
Rewrite.v
RewriteRules.v
Concurrency.v
PkgTls.v
Forward.v
ForwardTheorems.v
ForwardServing.v
SetupPlugins.v
SetupZones.v
SetupForward.v
Chains.v
RewriteTheorems.v
SetupTheorems.v
