(* ===== verification/Prelude.v ===== *)
(** * A verification development for lightstream-prism-dns (a CoreDNS server)

    The program is a DNS server made of plugins.  A configuration is a list of
    server blocks; core/dnsserver groups them by listen address into servers
    and compiles the plugins of each block into a chain of handlers.  A query
    is routed by its name to the chain of the most specific zone and passed
    along it until a plugin answers.  Plugins answer from zone files (file),
    hosts files (hosts), services in a store (etcd) or the objects of a
    Kubernetes cluster (kubernetes, k8s_external), or ask other servers
    (forward); others change what passes
    through them (cache, rewrite, loadbalance, dns64, acl and smaller ones) or
    send zones to secondaries (transfer).  Lookups that leave their zone
    through a CNAME go through the server again (upstream).

    ** How the code is modelled

    A Go function is a Rocq function of the same name, prefixed with its
    receiver where that is needed to tell two apart; a struct is a record.
    [None] is a panic (a nil pointer, an index out of range) or the end of the
    fuel.  A method that changes its receiver returns the new one.  Go errors
    are strings or the left of a sum.  Integers are [Z] kept in their width,
    float64 is the Standard Library's specification of binary64, strings are
    byte strings, a Go map is a [gmap].  The order in which a map is ranged
    over is the class [GoRange] of Prelude: a theorem that has it as argument
    holds for every order.  Locks are not modelled, their critical sections
    are steps; logging and metrics are left out.

    Packages outside the repository are interfaces with their documented
    behaviour as laws: [DnsNames]/[DnsNamesOk] (DnsNames.v) for the name
    functions of github.com/miekg/dns, [DnsMsgs]/[DnsMsgsOk] (DnsMsg.v) for
    its messages.  [dns_reference] and [msgs_reference] implement them, with
    proofs of the laws, and are what closed examples are evaluated with.  The
    zone-file parser, the network, files, random numbers, the etcd client and
    the JSON decoder are arguments of the definitions that use them.  The
    stores of client-go are [Indexers]/[IndexersOk] (KubeController.v), and the
    answers of the controller to the plugin [ControllerOk] (KubernetesTheorems.v);
    regular expressions are [GoRegexp]/[GoRegexpOk] (GoText.v).  The arithmetic
    of networks is [Networks]/[NetworksOk] (Normalize.v), the controller that
    hands out the tokens of a Corefile [Caddy]/[CaddyOk] (Caddy.v), the network
    of the forward plugin [Network]/[NetworkOk] (Forward.v, ForwardServing.v).

    A plugin is a [Handler] (Plugin.v): it gets the context, the writer, the
    query and the state of the process, and gives the new state, the messages
    written, an rcode and an error.  [protocol_ok] is the contract of
    plugin/plugin.go: a message has been written exactly when the rcode says
    so.

    ** The files and the code they model

    - Prelude: notation, tactics, hints, lemmas on lists, options, integers and
      finite maps, the state monad [st] with its total-correctness
      predicate [wp].  GoLoop: loops that only the clock bounds.
    - GoStd, GoFloat, GoNet, GoText, GoTime: what the code uses of strings, net,
      math, strconv, encoding/hex, regexp and time.  Parsing a printed IP address gives the
      address back, and so does decoding a hexadecimal string.
    - DnsNames, DnsMsg: names, records and messages of miekg/dns.
    - DnsUtil: plugin/pkg/dnsutil (join, zone, cname), plugin/file/rrutil.
    - Request: request/*.go and plugin/pkg/edns.
    - Less, Elem, Tree: plugin/file/tree, the left-leaning red-black tree of a
      zone.  TreeBalance has its balance invariant, TreeSpec its refinement of
      a sorted list, TreeWalk its traversals, TreeTheorems the properties.
    - Zone, Lookup: plugin/file/zone.go, closest.go, wildcard.go, dname.go and
      lookup.go; ZoneSpec, LookupSpec, LookupTheorems their invariant, their
      specification and the properties.
    - FilePlugin, Secondary: plugin/file/file.go, xfr.go, reload.go,
      secondary.go and notify.go; properties in FileTheorems and
      SecondaryTheorems.
    - Plugin: plugin/plugin.go and the matching of plugin/normalize.go.
    - Normalize: the rest of plugin/normalize.go, plugin/pkg/cidr,
      plugin/pkg/parse/host.go and InspectServerBlocks of
      core/dnsserver/register.go; properties in NormalizeTheorems.
    - Transfer: plugin/transfer; properties in TransferTheorems.
    - Server, Register: core/dnsserver/server.go, config.go, register.go and
      address.go, plugin/pkg/upstream, nonwriter, parse and transport;
      properties in ServerTheorems and RegisterTheorems.
    - Response: plugin/pkg/response and plugin/pkg/dnsutil/ttl.go.
    - PkgCache, CachePlugin: plugin/pkg/cache, plugin/cache and its freq;
      properties in CacheTheorems.
    - Hosts: plugin/hosts, plugin/pkg/fall and plugin/pkg/dnsutil/reverse.go;
      properties in HostsTheorems.
    - Service, Backend, Etcd: plugin/etcd/msg, plugin/backend.go and
      backend_lookup.go, plugin/etcd; properties in BackendTheorems.
    - KubeObject, KubeController, Kubernetes, KubeExternal:
      plugin/kubernetes/object, plugin/kubernetes and plugin/k8s_external.  The
      objects and their conversion; the controller with its stores and the
      serial of the zone; the plugin; the zones for external addresses.
      KubeKeys has the laws of the index keys, KubernetesTheorems what a
      controller promises and what the plugin does with it, KubeCacheTheorems
      the watch caches, KubeServing the way from a reported service to an
      answer, KubeExamples closed examples.
    - LoadBalance: plugin/loadbalance; properties in LoadBalanceTheorems.
    - Dns64, Acl: plugin/dns64 and plugin/acl, with their properties.
    - SmallPlugins: plugin/any, local, whoami, chaos, header, bufsize, nsid,
      minimal, loop, erratic and autopath.
    - Metadata: plugin/metadata.
    - Rewrite, RewriteRules: plugin/rewrite, the rules at work and the reading
      of rules; properties in RewriteTheorems.
    - Concurrency: plugin/pkg/up and plugin/pkg/singleflight, as interleaved
      steps of goroutines.
    - Forward: plugin/forward; ForwardTheorems has the properties of its
      policies, connections and upstreams, ForwardServing those of a query.
    - Caddy, SetupPlugins, SetupZones, SetupForward, PkgTls: reading the Corefile, the parse
      functions of plugin/*/setup.go, plugin/pkg/fall, plugin/pkg/parse and
      plugin/pkg/tls; properties in SetupTheorems.
    - Chains: the plugins put together, and the server with them.

    ** What the theorems show

    - The zone tree: insertion and deletion never meet a nil pointer, keep the
      tree sorted and balanced, and refine the operations on a sorted list;
      its depth is at most 2 log2 (n + 1); the order is the canonical one of
      RFC 4034 on ordinary names; the authoritative walk finds the delegated
      names.
    - Zones: parsing and inserting keep a zone well formed.  A lookup in a
      well-formed zone always returns; existing names, missing names and
      delegations are answered as the zone says.
    - The file plugin serves from the most specific zone; a zone sent by a
      transfer is received unchanged; a reload keeps the old zone or replaces
      it by the new one.  A secondary zone expires only after failed refreshes.
    - Set-up: whatever the Corefile holds, reading it ends, with an error or a
      configuration in the range the handler works with; the zones of file and
      secondary are well formed; a network in CIDR notation stands for the
      reverse names of exactly its addresses.
    - The server writes exactly one reply to a query, also when a plugin
      panics; queries reach the right chain; set-up accepts exactly the
      configurations without overlap and serves each zone at its addresses.
      Chains of CNAMEs that run through the server end.
    - The cache refines a map that may forget; a reply is stored exactly when
      it may be and then answers requests with the TTL that is left.
    - Hosts: the answers are exactly the entries of the file, forward and
      reverse.  Services: every lookup returns and its records are typed; the
      key of a name leads back to it; a stored address is what is served.
    - Transfers: a zone asked for by an allowed client is sent without a panic
      and received with the same records.
    - Kubernetes: the stores hold the last reported state of each object; a
      service that was reported is served with its addresses; a request is
      parsed into the parts it was made of; an update that does not change the
      serial changes no answer; every question is answered or handed on, with
      typed records.
    - rewrite: a name rule that undoes itself is invisible to the client; TTL
      rules keep TTLs in a range of 32-bit numbers; every line is read or
      refused.
    - The plugins compose: a server whose chains are made of the modelled
      plugins, in any order, writes exactly one reply to every message that is
      not a NOTIFY.
    - loadbalance permutes the records and picks addresses in proportion to
      their weights; dns64 embeds addresses as RFC 6052 says; acl applies the
      first policy that matches.
    - At most one execution per key and nobody waits in vain (singleflight); a
      probe ends once its target is healthy (up).
    - forward: every policy orders all upstreams, round robin fairly; a
      connection is cached, handed out or closed, and none is handed out that
      has expired; an upstream that is down comes back when it is healthy; a
      query always ends, with one reply for the client's question or with a
      failure that has a reason.

    Closed examples show surprising behaviour of the code: a wildcard above
    an empty non-terminal, a zone that stays expired, a transfer mixed from two
    primaries, records changed by the cache, a reply lost by minimal, a
    transfer that panics on an empty batch, rewrites undone in the wrong order,
    a TTL rule that changes the flags of a reply, lines of a Corefile that are
    refused or ignored, upstreams that lose their transport.

    ** Fuel and bounds

    - The tree recursions descend on the tree itself, or take the tree's size
      as fuel; TreeSpec shows the size is enough.
    - The walk of [Lookup] down the labels of a name has the length of the name
      plus two as fuel, which [lookup_total] shows to be enough.  CNAMEs are
      bounded by the counter of the context, as in the code; the server that
      answers its own upstream lookups ([self_up]) nests nine levels, and
      deeper nesting is shown to change no answer.
    - [backend_rr] has fuel nine ([lookup_depth]): each nested lookup has one
      more record of the chain, the code stops above seven, and the lookups
      are shown to return with it.
    - String scans take the length of the string.
    - A loop over the tokens of a Corefile takes a token in every turn and has
      their number as fuel ([ends_while]).
    - The loops of the forward plugin are bounded by its deadlines: [until] unrolls
      them as often as there are nanoseconds before the deadline, times the
      number of upstreams, and [until_runs] shows that to be enough.

    ** Not modelled

    - Sockets, TLS, HTTP, gRPC, DoH and process start-up: they carry bytes to
      and from [ServeDNS].
    - The lexer of the Corefile, which is caddy's, and the setup functions that
      hand the handlers and the start-up hooks to caddy.
    - Plugins that are clients of a service or a third-party package (azure,
      clouddns, route53, geoip, view, dnstap, trace, dnssec, sign, tsig), and
      those that only log or count.
    - auto, template, errors, log: not modelled yet.  Metrics, tracing and dnstap
      of the forward plugin are left out.
    - The connection of the kubernetes plugin to the API server (InitKubeCache,
      the list and watch functions of client-go): the model starts from the
      deltas they report.  The metrics of programming latency are left out.
    - A rewrite changes the query for the plugins behind it only; that plugins
      in front share the message is not modelled.
    - Interleaving inside a handler: a step of a handler is atomic.  The cache's
      prefetches are jobs that run later; the tickers of a secondary zone are
      events of a step relation. *)

From stdpp Require Export base gmap sets list strings numbers option.
From Stdlib Require Export Ascii.
From stdpp Require Export list.

#[export] Set Default Goal Selector "!".

(** ** Notation and automation *)

Declare Scope go_scope.
Delimit Scope go_scope with go.

Notation "'slen' s" := (String.length s) (at level 9, s at level 8) : go_scope.
#[global] Open Scope go_scope.

(** [go] holds the lemmas that close routine side conditions, [gorw] the
    rewrite rules that normalise strings and lists. *)
Create HintDb go.

(** Split every conjunction and existential of the context, then clean up. *)
Ltac go_inv :=
  repeat match goal with
  | H : _ /\ _ |- _ => destruct H
  | H : exists _, _ |- _ => destruct H
  | H : Some _ = Some _ |- _ => injection H; clear H; intros
  | H : None = Some _ |- _ => discriminate H
  | H : Some _ = None |- _ => discriminate H
  | H : (_, _) = (_, _) |- _ => injection H; clear H; intros
  end; subst.

(** Case analysis on the scrutinee of the first [match] of the goal. *)
Ltac go_case :=
  match goal with
  | |- context [match ?x with _ => _ end] =>
      lazymatch x with
      | context [match _ with _ => _ end] => fail
      | _ => let E := fresh "E" in destruct x eqn:E
      end
  end.

(** A decidable proposition without variables, by evaluation. *)
Ltac decided := by apply (bool_decide_unpack _); vm_compute.

(** ** Comparison functions

    Go's [bytes.Compare] and the tree's [less] return a negative, zero or
    positive integer.  They are modelled with [comparison] and rendered as
    -1, 0 and 1. *)

Definition cmpZ (c : comparison) : Z :=
  match c with Lt => -1 | Eq => 0 | Gt => 1 end.

(** A three-way comparison that decides a total order. *)
Class TotalCompare {A : Type} (cmp : A -> A -> comparison) : Prop := {
  cmp_eq : forall x y, cmp x y = Eq <-> x = y;
  cmp_opp : forall x y, cmp y x = CompOpp (cmp x y);
  cmp_trans : forall x y z, cmp x y = Lt -> cmp y z = Lt -> cmp x z = Lt
}.

Lemma cmp_refl `{TotalCompare A cmp} x : cmp x x = Eq.
Proof. by apply (cmp_eq (cmp:=cmp)). Qed.

Lemma cmp_gt_lt `{TotalCompare A cmp} x y : cmp x y = Gt <-> cmp y x = Lt.
Proof. rewrite (cmp_opp (cmp:=cmp) x y). destruct (cmp x y); simpl; split; congruence. Qed.

Definition byte_cmp (a b : ascii) : comparison := N.compare (N_of_ascii a) (N_of_ascii b).
#[global] Arguments byte_cmp : simpl never.

#[export] Instance byte_cmp_total : TotalCompare byte_cmp.
Proof.
  unfold byte_cmp. split.
  - intros x y. rewrite N.compare_eq_iff. split; [|by intros ->].
    intros H. rewrite <- (ascii_N_embedding x), <- (ascii_N_embedding y). by rewrite H.
  - intros x y. apply N.compare_antisym.
  - intros x y z. rewrite !N.compare_lt_iff. lia.
Qed.

(** Lexicographic comparison of lists: a proper prefix is smaller. *)
Fixpoint lex_cmp {A : Type} (cmp : A -> A -> comparison) (l1 l2 : list A) : comparison :=
  match l1, l2 with
  | [], [] => Eq
  | [], _ :: _ => Lt
  | _ :: _, [] => Gt
  | x :: l1', y :: l2' =>
      match cmp x y with
      | Eq => lex_cmp cmp l1' l2'
      | c => c
      end
  end.

#[export] Instance lex_cmp_total {A : Type} (cmp : A -> A -> comparison) `{!TotalCompare cmp} :
  TotalCompare (lex_cmp cmp).
Proof.
  split.
  - intros l1; induction l1 as [|x l1 IH]; intros [|y l2]; simpl; try (split; congruence).
    destruct (cmp x y) eqn:E.
    + apply (cmp_eq (cmp:=cmp)) in E as ->. rewrite IH. split; congruence.
    + split; [congruence|]. intros [= -> ->]. rewrite (cmp_refl (cmp:=cmp)) in E. congruence.
    + split; [congruence|]. intros [= -> ->]. rewrite (cmp_refl (cmp:=cmp)) in E. congruence.
  - intros l1; induction l1 as [|x l1 IH]; intros [|y l2]; simpl; auto.
    rewrite (cmp_opp (cmp:=cmp) x y). destruct (cmp x y); simpl; auto.
  - intros l1; induction l1 as [|x l1 IH]; intros [|y l2] [|z l3]; simpl; try congruence.
    destruct (cmp x y) eqn:E1; destruct (cmp y z) eqn:E2; try congruence.
    + apply (cmp_eq (cmp:=cmp)) in E1 as ->. rewrite E2. apply IH.
    + apply (cmp_eq (cmp:=cmp)) in E1 as ->. by rewrite E2.
    + apply (cmp_eq (cmp:=cmp)) in E2 as ->. by rewrite E1.
    + by rewrite (cmp_trans (cmp:=cmp) _ _ _ E1 E2).
Qed.

(** [bytes.Compare]: lexicographic order on byte slices. *)
Definition bytes_cmp : list ascii -> list ascii -> comparison := lex_cmp byte_cmp.

Definition bytes_Compare (a b : list ascii) : Z := cmpZ (bytes_cmp a b).

(** ** Strings

    A Go string is a byte sequence: [string] of the Standard Library, whose
    characters are 8-bit.  [s[i:]] and [s[i:j]] panic when the bounds are not
    ordered or out of range; a panic is [None] throughout the development. *)

#[local] Arguments String.append _ _ : simpl nomatch.

Definition bytes_of (s : string) : list ascii := String.list_ascii_of_string s.

Fixpoint sdrop (n : nat) (s : string) : string :=
  match n, s with
  | S n', String _ s' => sdrop n' s'
  | O, _ => s
  | S _, EmptyString => EmptyString
  end.

Fixpoint stake (n : nat) (s : string) : string :=
  match n, s with
  | S n', String c s' => String c (stake n' s')
  | _, _ => EmptyString
  end.

Definition slice_from (s : string) (i : nat) : option string :=
  if decide (i <= slen s)%nat then Some (sdrop i s) else None.

Definition slice (s : string) (i j : nat) : option string :=
  if decide (i <= j <= slen s)%nat then Some (stake (j - i) (sdrop i s)) else None.

Lemma slen_app s t : slen (s +:+ t) = (slen s + slen t)%nat.
Proof. induction s as [|c s IH]; simpl; auto. Qed.

Lemma sapp_cons c s t : String c s +:+ t = String c (s +:+ t).
Proof. done. Qed.

Lemma sapp_nil_l t : EmptyString +:+ t = t.
Proof. done. Qed.

Lemma sapp_nil_r s : s +:+ EmptyString = s.
Proof. induction s as [|c s IH]; simpl; congruence. Qed.

Lemma sapp_assoc s t u : (s +:+ t) +:+ u = s +:+ (t +:+ u).
Proof. induction s as [|c s IH]; simpl; congruence. Qed.

Lemma sdrop_app s t : sdrop (slen s) (s +:+ t) = t.
Proof. induction s as [|c s IH]; simpl; auto. Qed.

Lemma slen_sdrop n s : slen (sdrop n s) = (slen s - n)%nat.
Proof. revert s. induction n as [|n IH]; intros [|c s]; simpl; auto. Qed.

Lemma stake_app s t : stake (slen s) (s +:+ t) = s.
Proof. induction s as [|c s IH]; simpl; [by destruct t | congruence]. Qed.

Lemma sdrop_0 s : sdrop 0 s = s.
Proof. by destruct s. Qed.

Lemma bytes_of_app s t : bytes_of (s +:+ t) = bytes_of s ++ bytes_of t.
Proof. induction s as [|c s IH]; simpl; [done|]. by rewrite IH. Qed.

Lemma bytes_of_inj s t : bytes_of s = bytes_of t -> s = t.
Proof.
  intros H. rewrite <- (String.string_of_list_ascii_of_string s),
    <- (String.string_of_list_ascii_of_string t). unfold bytes_of in H. by rewrite H.
Qed.

Lemma slice_from_app s t : slice_from (s +:+ t) (slen s) = Some t.
Proof.
  unfold slice_from. rewrite decide_True by (rewrite slen_app; lia). by rewrite sdrop_app.
Qed.

Lemma slice_from_0 s : slice_from s 0 = Some s.
Proof. unfold slice_from. by rewrite decide_True, sdrop_0 by lia. Qed.

Lemma slice_mid s t u : slice (s +:+ t +:+ u) (slen s) (slen (s +:+ t)) = Some t.
Proof.
  unfold slice. rewrite decide_True by (rewrite !slen_app; lia).
  rewrite sdrop_app, slen_app. replace (slen s + slen t - slen s)%nat with (slen t) by lia.
  by rewrite stake_app.
Qed.

(** ASCII case folding: the part of [strings.ToLower] that applies to the
    presentation form of domain names, whose non-ASCII bytes are escaped. *)
Definition lower_byte (c : ascii) : ascii :=
  let n := N_of_ascii c in
  if decide (65 <= n <= 90)%N then ascii_of_N (n + 32) else c.

Fixpoint ToLower (s : string) : string :=
  match s with
  | EmptyString => EmptyString
  | String c s' => String (lower_byte c) (ToLower s')
  end.

Lemma lower_byte_idem c : lower_byte (lower_byte c) = lower_byte c.
Proof. destruct c as [[] [] [] [] [] [] [] []]; vm_compute; reflexivity. Qed.

Lemma ToLower_idem s : ToLower (ToLower s) = ToLower s.
Proof. induction s as [|c s IH]; simpl; [done|]. by rewrite lower_byte_idem, IH. Qed.

Lemma ToLower_app s t : ToLower (s +:+ t) = ToLower s +:+ ToLower t.
Proof. induction s as [|c s IH]; simpl; congruence. Qed.

Lemma slen_ToLower s : slen (ToLower s) = slen s.
Proof. induction s as [|c s IH]; simpl; congruence. Qed.

(** [strings.EqualFold] on ASCII strings. *)
Definition EqualFold (s t : string) : bool := bool_decide (ToLower s = ToLower t).

(** ** Maps

    A Go [range] over a map visits every entry once, in an order the language
    leaves unspecified.  Code that ranges over a map takes that order from
    this class, so a theorem holds for every order. *)
Class GoRange := {
  go_range : forall {K : Type} `{Countable K} {V : Type}, gmap K V -> list (K * V);
  go_range_perm : forall {K : Type} `{Countable K} {V : Type} (m : gmap K V), go_range m ≡ₚ map_to_list m
}.

(** One possible order, for closed examples. *)
Definition range_sorted : GoRange := {|
  go_range := fun K _ _ V m => map_to_list m;
  go_range_perm := fun K _ _ V m => Permutation_refl _
|}.

Lemma go_range_elem `{GoRange} `{Countable K} {V} (m : gmap K V) k v :
  (k, v) ∈ go_range m <-> m !! k = Some v.
Proof. rewrite go_range_perm. apply elem_of_map_to_list. Qed.

Lemma go_range_nil `{GoRange} `{Countable K} {V} (m : gmap K V) : go_range m = [] <-> m = ∅.
Proof.
  split.
  - intros E. apply map_to_list_empty_iff. apply Permutation_nil_r.
    by rewrite <- go_range_perm, E.
  - intros ->. apply Permutation_nil_r. by rewrite go_range_perm, map_to_list_empty.
Qed.

(** ** Machine integers *)

Definition u8 (z : Z) : Z := z mod 2 ^ 8.
Definition u16 (z : Z) : Z := z mod 2 ^ 16.
Definition u32 (z : Z) : Z := z mod 2 ^ 32.
Definition u64 (z : Z) : Z := z mod 2 ^ 64.
Definition i64 (z : Z) : Z := (z + 2 ^ 63) mod 2 ^ 64 - 2 ^ 63.

(** ** Lists *)

Lemma last_app_cons {A} (l : list A) x r : last (l ++ x :: r) = last (x :: r).
Proof.
  induction l as [|y l IH]; [done|]. rewrite <- IH. by destruct l.
Qed.

(** ** A state monad with panics

    Code that acts on a state [W] outside of it: [None] is a panic.  [wp m Q]
    is its weakest precondition for total correctness: from every state [m]
    returns, with a value that satisfies [Q]. *)

Definition st (W A : Type) : Type := W -> option (W * A).

#[export] Instance st_ret {W} : MRet (st W) := fun A a w => Some (w, a).
#[export] Instance st_bind {W} : MBind (st W) := fun A B k m w => '(w', a) ← m w; k a w'.

Definition panic {W A} : st W A := fun _ => None.
Definition of_option {W A} (o : option A) : st W A := fun w => a ← o; Some (w, a).

Definition wp {W A} (m : st W A) (Q : A -> Prop) : Prop := forall w, exists w' a, m w = Some (w', a) /\ Q a.

Lemma wp_ret {W A} (a : A) (Q : A -> Prop) : Q a -> wp (mret a : st W A) Q.
Proof. intros Ha w. by exists w, a. Qed.

Lemma wp_bind {W A B} (m : st W A) (k : A -> st W B) (Q : B -> Prop) :
  wp m (fun a => wp (k a) Q) -> wp (m ≫= k) Q.
Proof.
  intros Hm w. destruct (Hm w) as (w1 & a & E & Hk). destruct (Hk w1) as (w2 & b & E2 & Hb).
  exists w2, b. unfold mbind, st_bind. by rewrite E.
Qed.

Lemma wp_mono {W A} (m : st W A) (P Q : A -> Prop) : wp m P -> (forall a, P a -> Q a) -> wp m Q.
Proof. intros Hm HPQ w. destruct (Hm w) as (w' & a & E & Ha). exists w', a. auto. Qed.

Lemma wp_option {W A} (o : option A) (Q : A -> Prop) a : o = Some a -> Q a -> wp (of_option o : st W A) Q.
Proof. intros -> Ha w. by exists w, a. Qed.

(** Partial correctness: if [m] returns, its value satisfies [Q]. *)
Definition wlp {W A} (m : st W A) (Q : A -> Prop) : Prop := forall w w' a, m w = Some (w', a) -> Q a.

Lemma wlp_ret {W A} (a : A) (Q : A -> Prop) : Q a -> wlp (mret a : st W A) Q.
Proof. intros Ha w w' a'. by intros [= _ <-]. Qed.

Lemma wlp_bind {W A B} (m : st W A) (k : A -> st W B) (P : A -> Prop) (Q : B -> Prop) :
  wlp m P -> (forall a, P a -> wlp (k a) Q) -> wlp (m ≫= k) Q.
Proof.
  intros Hm Hk w w' b. unfold mbind, st_bind. destruct (m w) as [[w1 a]|] eqn:E; [|done]. simpl.
  apply Hk. by apply (Hm w w1).
Qed.

Lemma wlp_any {W A B} (m : st W A) (k : A -> st W B) (Q : B -> Prop) : (forall a, wlp (k a) Q) -> wlp (m ≫= k) Q.
Proof. intros Hk. by apply (wlp_bind m k (fun _ => True)). Qed.

Lemma wlp_option {W A} (o : option A) (Q : A -> Prop) : (forall a, o = Some a -> Q a) -> wlp (of_option o : st W A) Q.
Proof. intros Ho w w' a. unfold of_option. destruct o as [x|]; [|done]. intros [= _ <-]. by apply Ho. Qed.
