(* ===== verification/GoLoop.v ===== *)
(** * Loops over a state

    Loops whose number of turns only the clock bounds: they are unrolled a
    binary number of times, which evaluates lazily, and end when a measure of
    the state is smaller than that number. *)

From S2P Require Import Prelude.

(** ** Total correctness from one state *)

Definition runs {W A} (m : st W A) (w : W) (Q : A -> W -> Prop) : Prop := exists w' a, m w = Some (w', a) /\ Q a w'.

Lemma runs_ret {W A} (a : A) (w : W) (Q : A -> W -> Prop) : Q a w -> runs (mret a) w Q.
Proof. intros Ha. by exists w, a. Qed.

Lemma runs_bind {W A B} (m : st W A) (k : A -> st W B) (w : W) (Q : B -> W -> Prop) :
  runs m w (fun a w' => runs (k a) w' Q) -> runs (m ≫= k) w Q.
Proof.
  intros (w1 & a & E & w2 & b & E2 & Hb). exists w2, b. unfold mbind, st_bind. by rewrite E.
Qed.

Lemma runs_mono {W A} (m : st W A) (w : W) (P Q : A -> W -> Prop) : runs m w P -> (forall a w', P a w' -> Q a w') -> runs m w Q.
Proof. intros (w' & a & E & Ha) Hi. exists w', a. auto. Qed.

Lemma runs_option {W A} (o : option A) (w : W) (Q : A -> W -> Prop) a : o = Some a -> Q a w -> runs (of_option o) w Q.
Proof. intros -> Ha. by exists w, a. Qed.

(** ** Loops *)

Section loops.
Context {W S R : Type} (body : S -> st W (S + R)).

(** At most [n] turns; a turn gives the state of the next one or a result. *)
Fixpoint loop_st (n : positive) (s : S) : st W (S + R) :=
  match n with
  | xH => body s
  | xO n' => r ← loop_st n' s; match r with inl s => loop_st n' s | inr _ => mret r end
  | xI n' =>
      r ← body s;
      match r with
      | inl s => r ← loop_st n' s; match r with inl s => loop_st n' s | inr _ => mret r end
      | inr _ => mret r
      end
  end.

Definition until (n : positive) (s : S) : st W R :=
  r ← loop_st n s; match r with inl _ => panic | inr r => mret r end.

Section total.
Context (I : S -> W -> Prop) (mu : S -> W -> Z) (Q : R -> W -> Prop).

Definition turned (bound : Z) (r : S + R) (w : W) : Prop :=
  match r with inl s => I s w /\ (0 <= mu s w <= bound)%Z | inr r => Q r w end.

Context (Hbody : forall s w, I s w -> runs (body s) w (turned (mu s w - 1))).

Lemma turned_mono bound bound' r w : (bound <= bound')%Z -> turned bound r w -> turned bound' r w.
Proof using Type. destruct r as [s|r]; simpl; [|done]. intros Hb [Hs Hm]. split; [done|lia]. Qed.

(** Two runs of a loop one behind the other. *)
Lemma loop_twice n m (s : S) (w : W) k :
  (forall s w, I s w -> runs (loop_st n s) w (turned (mu s w - Z.pos n))) ->
  runs m w (turned (mu s w - k)) ->
  runs (r ← m; match r with inl s => loop_st n s | inr _ => mret r end) w (turned (mu s w - k - Z.pos n)).
Proof using Type.
  intros Hn Hm. apply runs_bind. eapply runs_mono; [exact Hm|]. intros [s'|r] w' Hr; simpl in Hr.
  - destruct Hr as [Hi Hle]. eapply runs_mono; [by apply Hn|]. intros r w''. apply turned_mono. lia.
  - by apply runs_ret.
Qed.

Lemma loop_st_runs n s w : I s w -> runs (loop_st n s) w (turned (mu s w - Z.pos n)).
Proof using Hbody.
  revert s w. induction n as [n IH|n IH|]; intros s w Hs; cbn [loop_st].
  - apply runs_bind. eapply runs_mono; [by apply Hbody|]. intros [s'|r] w' Hr; simpl in Hr; [|by apply runs_ret].
    destruct Hr as [Hi Hle]. eapply runs_mono; [apply (loop_twice n _ s' w' (Z.pos n)); [done|by apply IH]|].
    intros r w''. apply turned_mono. lia.
  - eapply runs_mono; [apply (loop_twice n _ s w (Z.pos n)); [done|by apply IH]|]. intros r w'. apply turned_mono. lia.
  - by apply Hbody.
Qed.

Lemma until_runs n s w : I s w -> (mu s w < Z.pos n)%Z -> runs (until n s) w Q.
Proof using Hbody.
  intros Hs Hn. unfold until. apply runs_bind. eapply runs_mono; [by apply loop_st_runs|].
  intros [s'|r] w' Hr; simpl in Hr; [lia|by apply runs_ret].
Qed.
End total.

(** Partial correctness. *)
Section partial.
Context (I : S -> Prop) (Q : R -> Prop).
Definition turn_ok (r : S + R) : Prop := match r with inl s => I s | inr r => Q r end.
Context (Hbody : forall s, I s -> wlp (body s) turn_ok).

Lemma loop_st_wlp n s : I s -> wlp (loop_st n s) turn_ok.
Proof using Hbody.
  revert s. induction n as [n IH|n IH|]; intros s Hs; cbn [loop_st]; [| |by apply Hbody].
  - eapply wlp_bind; [by apply Hbody|]. intros [s1|r] H1; [|by apply wlp_ret].
    eapply wlp_bind; [by apply IH|]. intros [s2|r] H2; [by apply IH|by apply wlp_ret].
  - eapply wlp_bind; [by apply IH|]. intros [s2|r] H2; [by apply IH|by apply wlp_ret].
Qed.

Lemma until_wlp n s : I s -> wlp (until n s) Q.
Proof using Hbody.
  intros Hs. unfold until. eapply wlp_bind; [by apply loop_st_wlp|]. intros [s'|r] Hr; [by intros ? ? ?|by apply wlp_ret].
Qed.
End partial.
End loops.
