(* ===== verification/GoStd.v ===== *)
(** * The parts of Go's standard library that the code uses

    String searching and joining ([strings]), splitting a host and port
    ([net.SplitHostPort]) and IP addresses as byte slices ([net.IP]). *)

From stdpp Require Import sorting.
From S2P Require Import Prelude.

(** ** strings *)

Fixpoint IndexByte (c : ascii) (s : string) : option nat :=
  match s with
  | EmptyString => None
  | String d s' => if decide (d = c) then Some 0%nat else S <$> IndexByte c s'
  end.

Fixpoint LastIndexByte (c : ascii) (s : string) : option nat :=
  match s with
  | EmptyString => None
  | String d s' =>
      match LastIndexByte c s' with
      | Some i => Some (S i)
      | None => if decide (d = c) then Some 0%nat else None
      end
  end.

(** The bytes of a slice expression whose bounds hold. *)
Definition substr (s : string) (i j : nat) : string := stake (j - i) (sdrop i s).

Definition HasPrefix (s p : string) : bool := bool_decide (stake (slen p) s = p).
Definition HasSuffix (s p : string) : bool :=
  bool_decide (slen p <= slen s)%nat && bool_decide (sdrop (slen s - slen p) s = p).
Definition TrimSuffix (s p : string) : string :=
  if HasSuffix s p then stake (slen s - slen p) s else s.
Definition TrimPrefix (s p : string) : string :=
  if HasPrefix s p then sdrop (slen p) s else s.

Fixpoint strings_Join (l : list string) (sep : string) : string :=
  match l with
  | [] => EmptyString
  | [x] => x
  | x :: l' => x +:+ sep +:+ strings_Join l' sep
  end.

(** [strings.Split] at a separator of one byte. *)
Fixpoint split_at_byte (c : ascii) (cur s : string) : list string :=
  match s with
  | EmptyString => [cur]
  | String d s' =>
      if decide (d = c) then cur :: split_at_byte c EmptyString s'
      else split_at_byte c (cur +:+ String d EmptyString) s'
  end.
Definition strings_Split (c : ascii) (s : string) : list string := split_at_byte c EmptyString s.

(** The first place where [sep] occurs in [s]. *)
Fixpoint strings_Index (s sep : string) : option nat :=
  if HasPrefix s sep then Some 0%nat
  else match s with
       | EmptyString => None
       | String _ s' => S <$> strings_Index s' sep
       end.

Definition strings_Contains (s sep : string) : bool :=
  match strings_Index s sep with Some _ => true | None => false end.

(** [strings.Split] at a separator that is not empty: a turn drops at least
    one byte, so [slen s + 1] turns are enough. *)
Fixpoint split_str (fuel : nat) (s sep : string) : list string :=
  match fuel with
  | O => [s]
  | S fuel' =>
      match strings_Index s sep with
      | None => [s]
      | Some i => stake i s :: split_str fuel' (sdrop (i + slen sep) s) sep
      end
  end.
Definition strings_SplitStr (s sep : string) : list string := split_str (S (slen s)) s sep.

(** [%q] of a string of printable characters without quotes and backslashes. *)
Definition go_quote (s : string) : string := String "034" (s +:+ String "034" EmptyString).

Lemma HasSuffix_app s p : HasSuffix (s +:+ p) p = true.
Proof.
  unfold HasSuffix. rewrite slen_app. replace (slen s + slen p - slen p)%nat with (slen s) by lia.
  rewrite sdrop_app. rewrite !bool_decide_eq_true_2 by (done || lia). done.
Qed.

Lemma stake_sdrop n s : stake n s +:+ sdrop n s = s.
Proof.
  revert s. induction n as [|n IH]; intros s; [by destruct s|]. destruct s as [|c s]; [done|].
  simpl. by rewrite sapp_cons, IH.
Qed.

Lemma HasSuffix_inv s p : HasSuffix s p = true -> exists r, s = r +:+ p.
Proof.
  unfold HasSuffix. intros [_ H%bool_decide_eq_true]%andb_true_iff.
  exists (stake (slen s - slen p) s). rewrite <- H at 2. by rewrite stake_sdrop.
Qed.

Lemma TrimSuffix_app s p : TrimSuffix (s +:+ p) p = s.
Proof.
  unfold TrimSuffix. rewrite HasSuffix_app, slen_app.
  replace (slen s + slen p - slen p)%nat with (slen s) by lia. by rewrite stake_app.
Qed.

Lemma LastIndexByte_app c s t :
  IndexByte c t = None -> LastIndexByte c (s +:+ String c t) = Some (slen s).
Proof.
  intros Ht. induction s as [|d s IH].
  - rewrite sapp_nil_l. simpl.
    assert (LastIndexByte c t = None) as ->; [|by rewrite decide_True].
    induction t as [|e t IHt]; [done|]. simpl in *. case_decide; [done|].
    rewrite IHt; [done|]. by apply fmap_None in Ht.
  - rewrite sapp_cons. simpl. by rewrite IH.
Qed.

Lemma IndexByte_app c s t :
  IndexByte c s = None -> IndexByte c (s +:+ t) = Nat.add (slen s) <$> IndexByte c t.
Proof.
  induction s as [|d s IH]; intros Hs.
  - rewrite sapp_nil_l. simpl. by destruct (IndexByte c t).
  - rewrite sapp_cons. simpl in *. case_decide; [done|]. apply fmap_None in Hs.
    rewrite (IH Hs). by destruct (IndexByte c t).
Qed.

Lemma sdrop_app_le n s t : (n <= slen s)%nat -> sdrop n (s +:+ t) = sdrop n s +:+ t.
Proof.
  revert s. induction n as [|n IH]; intros s Hn; [by destruct s, t|].
  destruct s as [|c s]; simpl in Hn; [lia|]. rewrite sapp_cons. simpl. apply IH. lia.
Qed.

(** ** sort *)

(** [sort.Slice] is not stable: how it orders elements neither of which is less
    is left open. *)
Class GoSort := {
  go_sort : forall {A : Type}, (A -> A -> bool) -> list A -> list A;
  go_sort_perm : forall {A : Type} (less : A -> A -> bool) l, go_sort less l ≡ₚ l;
  go_sort_sorted : forall {A : Type} (less : A -> A -> bool) l,
    (forall x y, less x y = true -> less y x = false) ->
    Transitive (fun x y => less y x = false) ->
    StronglySorted (fun x y => less y x = false) (go_sort less l)
}.

(** ** net *)

Definition ch_colon : ascii := ":"%char.
Definition ch_lbracket : ascii := "["%char.
Definition ch_rbracket : ascii := "]"%char.

(** [net.SplitHostPort]; [None] is its error. *)
Definition SplitHostPort (hostport : string) : option (string * string) :=
  match LastIndexByte ch_colon hostport with
  | None => None
  | Some i =>
      let finish (host : string) (j k : nat) :=
        if decide (IndexByte ch_lbracket (sdrop j hostport) <> None) then None
        else if decide (IndexByte ch_rbracket (sdrop k hostport) <> None) then None
        else Some (host, sdrop (i + 1) hostport) in
      match hostport with
      | EmptyString => None
      | String c0 _ =>
          if decide (c0 = ch_lbracket) then
            match IndexByte ch_rbracket hostport with
            | None => None
            | Some e =>
                if decide ((e + 1)%nat = i) then finish (substr hostport 1 e) 1%nat (e + 1)%nat
                else None
            end
          else
            let host := stake i hostport in
            if decide (IndexByte ch_colon host <> None) then None
            else finish host 0%nat 0%nat
      end
  end.

(** An address without colons and brackets splits into its parts. *)
Lemma SplitHostPort_plain host port :
  host <> EmptyString ->
  IndexByte ch_colon host = None -> IndexByte ch_lbracket host = None -> IndexByte ch_rbracket host = None ->
  IndexByte ch_colon port = None -> IndexByte ch_lbracket port = None -> IndexByte ch_rbracket port = None ->
  SplitHostPort (host +:+ String ch_colon port) = Some (host, port).
Proof.
  intros Hne Hc Hl Hr Pc Pl Pr. unfold SplitHostPort. rewrite LastIndexByte_app by done.
  assert (Hb : forall b, b <> ch_colon -> IndexByte b host = None -> IndexByte b port = None ->
    IndexByte b (host +:+ String ch_colon port) = None).
  { intros b Hb H1 H2. rewrite IndexByte_app by done. simpl. by rewrite decide_False, H2 by done. }
  pose proof (Hb ch_lbracket ltac:(done) Hl Pl) as Bl.
  pose proof (Hb ch_rbracket ltac:(done) Hr Pr) as Br.
  assert (Hd : sdrop (slen host + 1) (host +:+ String ch_colon port) = port).
  { replace (host +:+ String ch_colon port) with ((host +:+ String ch_colon EmptyString) +:+ port)
      by (by rewrite sapp_assoc).
    replace (slen host + 1)%nat with (slen (host +:+ String ch_colon EmptyString))
      by (rewrite slen_app; done).
    apply sdrop_app. }
  rewrite stake_app, !sdrop_0, Hd, Hc, Bl, Br.
  destruct host as [|c0 host]; [done|]. rewrite sapp_cons.
  rewrite decide_False; [done|]. intros ->. by vm_compute in Hl.
Qed.

(** ** net.IP: an address is a slice of 4 or 16 bytes. *)

Definition IP := list Z.

(** [net.JoinHostPort]: a host with a colon is taken for an IPv6 address. *)
Definition JoinHostPort (host port : string) : string :=
  match IndexByte ch_colon host with
  | Some _ => "[" +:+ host +:+ "]:" +:+ port
  | None => host +:+ ":" +:+ port
  end.

Definition v4prefix : list Z := [0; 0; 0; 0; 0; 0; 0; 0; 0; 0; 255; 255]%Z.

Definition To4 (ip : IP) : option IP :=
  if decide (length ip = 4%nat) then Some ip
  else if decide (length ip = 16%nat /\ take 12 ip = v4prefix) then Some (drop 12 ip)
  else None.

Definition To16 (ip : IP) : option IP :=
  if decide (length ip = 4%nat) then Some (v4prefix ++ ip)
  else if decide (length ip = 16%nat) then Some ip
  else None.

Lemma To4_To16 ip : length ip = 4%nat -> (To16 ip ≫= To4) = Some ip.
Proof. by do 5 (destruct ip as [|? ip]; try done). Qed.

(** The transport address of a peer: UDP, TCP or some other kind, with its
    printed form. *)
Inductive Addr :=
  | UDPAddr (ip : IP) (str : string)
  | TCPAddr (ip : IP) (str : string)
  | OtherAddr (str : string).

Definition Addr_String (a : Addr) : string :=
  match a with UDPAddr _ s | TCPAddr _ s | OtherAddr s => s end.

(** ** path/filepath (Unix) *)

Definition ch_slash : ascii := "/"%char.

(** [Clean] over the elements of a path: [out] is the result so far, reversed. *)
Fixpoint clean_go (rooted : bool) (out elems : list string) : list string :=
  match elems with
  | [] => rev out
  | e :: elems' =>
      if decide (e = EmptyString \/ e = "."%string) then clean_go rooted out elems'
      else if decide (e = ".."%string) then
        match out with
        | o :: out' =>
            if decide (o = ".."%string) then clean_go rooted (e :: out) elems'
            else clean_go rooted out' elems'
        | [] => if rooted then clean_go rooted out elems' else clean_go rooted [e] elems'
        end
      else clean_go rooted (e :: out) elems'
  end.

Definition Clean (path : string) : string :=
  let rooted := HasPrefix path "/" in
  let r := strings_Join (clean_go rooted [] (strings_Split ch_slash path)) "/" in
  if rooted then String ch_slash r else if decide (r = EmptyString) then "."%string else r.

(** ** time *)

(** Times and durations count nanoseconds. *)
Definition Second : Z := 1000000000.
Definition Minute : Z := 60 * Second.
Definition Hour : Z := 60 * Minute.

(** A zero time.Time is the start of the year 1; times count from 1970. *)
Definition zeroTime : Z := -62135596800 * Second.

(** [int(d.Seconds())]: whole seconds, towards zero.  The float64 in between
    is exact enough for durations below 2^22 seconds. *)
Definition seconds (d : Z) : Z := Z.quot d Second.

Lemma seconds_mul n : seconds (n * Second) = n.
Proof. unfold seconds, Second. apply Z.quot_mul. lia. Qed.

Lemma seconds_nonneg d : (0 <= d)%Z -> (0 <= seconds d)%Z.
Proof. intros Hd. unfold seconds, Second. apply Z.quot_pos; lia. Qed.

Lemma seconds_mono d d' : (d <= d')%Z -> (seconds d <= seconds d')%Z.
Proof. intros Hd. unfold seconds, Second. apply Z.quot_le_mono; lia. Qed.
