(* ===== verification/DnsNames.v ===== *)
(** * Domain names and the name functions of github.com/miekg/dns

    The server manipulates names in presentation form, as strings, through
    the label functions of the miekg/dns package, which is not part of the
    repository.  This file gives

    - the presentation form itself: [labels] splits a name at its unescaped
      dots, [dotted] writes a list of labels back, [valid_name] is a name of
      at least one label;
    - [DnsNames], the interface through which the model calls the package,
      and [DnsNamesOk], its documented behaviour on valid names;
    - [dns_reference], a concrete implementation with a proof of
      [DnsNamesOk], used to evaluate closed examples. *)

From S2P Require Import Prelude.

Definition ch_dot : ascii := ascii_of_N 46.
Definition ch_bslash : ascii := ascii_of_N 92.
Definition dot : string := String ch_dot EmptyString.
#[global] Arguments dot : simpl never.
#[global] Arguments ch_dot : simpl never.
#[global] Arguments ch_bslash : simpl never.

Lemma slen_dot : slen dot = 1%nat.
Proof. done. Qed.

(** Lengths of concatenated strings. *)
Ltac slen_norm := simpl in *; rewrite ?slen_app, ?slen_dot in *; simpl in *.

(** ** Presentation form *)

(** The characters of one label: no unescaped dot, and every backslash
    escapes the character after it. *)
Fixpoint label_chars (s : string) : bool :=
  match s with
  | EmptyString => true
  | String c s' =>
      if decide (c = ch_dot) then false
      else if decide (c = ch_bslash)
           then match s' with EmptyString => false | String _ s'' => label_chars s'' end
           else label_chars s'
  end.

Definition label_ok (l : string) : Prop := l <> EmptyString /\ label_chars l = true.

#[export] Instance label_ok_dec l : Decision (label_ok l).
Proof. unfold label_ok. apply _. Defined.

(** Labels without escapes. *)
Definition plain_label (l : string) : Prop :=
  l <> EmptyString /\ Forall (fun c => c <> ch_dot /\ c <> ch_bslash) (bytes_of l).

#[export] Instance plain_label_dec l : Decision (plain_label l).
Proof. unfold plain_label. apply _. Defined.

(** The labels followed each by a dot: a fully qualified name. *)
Fixpoint dotted (ls : list string) : string :=
  match ls with
  | [] => EmptyString
  | l :: ls' => l +:+ dot +:+ dotted ls'
  end.

(** The name with the given labels; the root is a single dot. *)
Definition name_of (ls : list string) : string :=
  match ls with [] => dot | _ => dotted ls end.

Fixpoint split_go (cur s : string) : list string :=
  match s with
  | EmptyString => match cur with EmptyString => [] | _ => [cur] end
  | String c s' =>
      if decide (c = ch_dot) then cur :: split_go EmptyString s'
      else if decide (c = ch_bslash)
           then match s' with
                | EmptyString => [cur +:+ String c EmptyString]
                | String d s'' => split_go (cur +:+ String c (String d EmptyString)) s''
                end
           else split_go (cur +:+ String c EmptyString) s'
  end.

(** The labels of a name, from left to right. *)
Definition labels (s : string) : list string :=
  if decide (s = dot) then [] else split_go EmptyString s.

(** A fully qualified name of at least one label. *)
Definition valid_name (s : string) : Prop :=
  labels s <> [] /\ Forall label_ok (labels s) /\ s = dotted (labels s).

#[export] Instance valid_name_dec s : Decision (valid_name s).
Proof. unfold valid_name. apply _. Defined.

(** A valid name or the root. *)
Definition fq_name (s : string) : Prop := s = dot \/ valid_name s.

#[export] Instance fq_name_dec s : Decision (fq_name s).
Proof. unfold fq_name. apply _. Defined.

(** A fully qualified name or the empty string. *)
Definition name_or_empty (s : string) : Prop := s = EmptyString \/ fq_name s.

(** The pieces of a name that end in a dot: its labels, and for the root the
    empty one. *)
Definition dlabels (s : string) : list string :=
  if decide (s = dot) then [EmptyString] else labels s.

(** A valid name without escapes. *)
Definition plain_name (s : string) : Prop :=
  valid_name s /\ Forall plain_label (labels s).

#[export] Instance plain_name_dec s : Decision (plain_name s).
Proof. unfold plain_name. apply _. Defined.

Lemma dotted_app ls ks : dotted (ls ++ ks) = dotted ls +:+ dotted ks.
Proof.
  induction ls as [|l ls IH]; [done|]. simpl. by rewrite IH, !sapp_assoc.
Qed.

Lemma dotted_nil ls : dotted ls = EmptyString <-> ls = [].
Proof. split; [|by intros ->]. destruct ls as [|l ls]; [done|]. by destruct l. Qed.

Lemma dotted_slen_lt l ls : (slen (dotted ls) < slen (dotted (l :: ls)))%nat.
Proof. slen_norm. lia. Qed.

Lemma split_go_label l cur t :
  label_chars l = true ->
  split_go cur (l +:+ dot +:+ t) = (cur +:+ l) :: split_go EmptyString t.
Proof.
  remember (slen l) as n eqn:Hn. revert l Hn cur.
  induction n as [n IH] using lt_wf_ind. intros l -> cur Hl.
  destruct l as [|c l]; rewrite ?sapp_cons; simpl in *.
  { by rewrite sapp_nil_r. }
  destruct (decide (c = ch_dot)); [done|].
  destruct (decide (c = ch_bslash)) as [->|].
  - destruct l as [|d l]; [done|]. rewrite sapp_cons. simpl in *.
    rewrite (IH (slen l)) by (auto with lia). by rewrite sapp_assoc.
  - rewrite (IH (slen l)) by (auto with lia). by rewrite sapp_assoc.
Qed.

Lemma split_go_dotted_app ls t :
  Forall label_ok ls -> split_go EmptyString (dotted ls +:+ t) = ls ++ split_go EmptyString t.
Proof.
  induction 1 as [|l ls [_ Hl] _ IH]; [done|]. simpl. rewrite !sapp_assoc.
  rewrite split_go_label by done. by rewrite IH.
Qed.

Lemma split_go_dotted ls : Forall label_ok ls -> split_go EmptyString (dotted ls) = ls.
Proof.
  intros Hls. rewrite <- (sapp_nil_r (dotted ls)), split_go_dotted_app by done.
  by rewrite app_nil_r.
Qed.

Lemma labels_dotted ls : ls <> [] -> Forall label_ok ls -> labels (dotted ls) = ls.
Proof.
  intros Hne Hls. unfold labels. rewrite decide_False; [by apply split_go_dotted|].
  destruct Hls as [|l ls [Hl _] Hls]; [done|]. simpl.
  destruct l as [|c l]; [done|]. intros [= _ E]. by destruct l.
Qed.

Lemma valid_name_dotted ls : ls <> [] -> Forall label_ok ls -> valid_name (dotted ls).
Proof. intros Hne Hls. unfold valid_name. by rewrite labels_dotted. Qed.

Lemma valid_name_inv s :
  valid_name s -> exists ls, ls <> [] /\ Forall label_ok ls /\ s = dotted ls /\ labels s = ls.
Proof. intros (H1 & H2 & H3). by exists (labels s). Qed.

Lemma labels_dot : labels dot = [].
Proof. unfold labels. by rewrite decide_True. Qed.

Lemma valid_name_not_dot s : valid_name s -> s <> dot.
Proof. intros (H & _) ->. by rewrite labels_dot in H. Qed.

Lemma dlabels_valid s : valid_name s -> dlabels s = labels s.
Proof. intros Hv. unfold dlabels. by rewrite decide_False by (by apply valid_name_not_dot). Qed.

Lemma dlabels_ne s : fq_name s -> dlabels s <> [].
Proof.
  intros [->|Hv]; [done|]. rewrite dlabels_valid by done. by destruct Hv.
Qed.

Lemma name_or_empty_dotted s : name_or_empty s -> s = dotted (dlabels s).
Proof.
  intros [->|[->|Hv]]; [done|done|]. rewrite dlabels_valid by done. by destruct Hv as (_ & _ & E).
Qed.

Lemma fq_name_ne s : fq_name s -> s <> EmptyString.
Proof. by intros [->|(Hne & _)] E; [|subst]. Qed.

Lemma fq_name_of s : fq_name s -> s = name_of (labels s).
Proof.
  intros [->|(H1 & _ & H3)]; [done|]. unfold name_of. by destruct (labels s) eqn:E.
Qed.

Lemma plain_label_ok l : plain_label l -> label_ok l.
Proof.
  intros [Hne Hl]. split; [done|]. clear Hne. induction l as [|c l IH]; [done|]. simpl.
  inversion Hl as [|? ? [Hd Hb] Hl']; subst. rewrite !decide_False by done. by apply IH.
Qed.

Lemma valid_name_len s : valid_name s -> (1 < slen s)%nat.
Proof.
  intros (Hne & Hok & ->). destruct Hok as [|l ls [Hl _] _]; [done|].
  destruct l; [done|]. slen_norm. lia.
Qed.

(** The offset of the [k]-th label (from the left) in a name. *)
Definition label_start (ls : list string) (k : nat) : nat := slen (dotted (take k ls)).

Lemma label_start_mono ls i j :
  (i < j <= length ls)%nat -> (label_start ls i < label_start ls j)%nat.
Proof.
  unfold label_start. revert i j. induction ls as [|l ls IH]; intros i j Hij; simpl in *; [lia|].
  destruct j as [|j]; [lia|]. slen_norm.
  destruct i as [|i]; slen_norm; [lia|].
  assert (slen (dotted (take i ls)) < slen (dotted (take j ls)))%nat by (apply IH; lia). lia.
Qed.

Lemma label_start_le ls i j : (i <= j)%nat -> (label_start ls i <= label_start ls j)%nat.
Proof.
  unfold label_start. revert i j. induction ls as [|l ls IH]; intros i j Hij.
  { by rewrite !take_nil. }
  destruct i, j; slen_norm; try lia.
  specialize (IH i j). lia.
Qed.

Lemma label_start_full ls : label_start ls (length ls) = slen (dotted ls).
Proof. unfold label_start. by rewrite firstn_all. Qed.

Lemma label_start_drop ls k : slice_from (dotted ls) (label_start ls k) = Some (dotted (drop k ls)).
Proof.
  unfold label_start. rewrite <- (take_drop k ls) at 1. rewrite dotted_app. apply slice_from_app.
Qed.

Lemma label_start_slice ls k l :
  ls !! k = Some l ->
  slice (dotted ls) (label_start ls k) (label_start ls (S k)) = Some (l +:+ dot).
Proof.
  intros Hk. unfold label_start. rewrite (take_S_r _ _ _ Hk), dotted_app. simpl.
  rewrite <- (take_drop_middle ls k l Hk) at 1. rewrite dotted_app. simpl.
  rewrite <- (sapp_assoc l dot). rewrite sapp_nil_r. apply slice_mid.
Qed.

(** Every offset inside a name lies in one of its labels. *)
Lemma label_at ls i :
  (i < slen (dotted ls))%nat ->
  exists k, (k < length ls)%nat /\ (label_start ls k <= i < label_start ls (S k))%nat.
Proof.
  revert i. induction ls as [|l ls IH]; intros i Hi; [simpl in Hi; lia|].
  assert (Hs : forall k, label_start (l :: ls) (S k) = (slen l + 1 + label_start ls k)%nat).
  { intros k. unfold label_start. rewrite firstn_cons. slen_norm. lia. }
  destruct (decide (i < slen l + 1)%nat) as [Hlt|Hge].
  - exists 0%nat. rewrite Hs. unfold label_start. simpl. lia.
  - destruct (IH (i - (slen l + 1))%nat) as (k & Hk & Hb); [slen_norm; lia|].
    exists (S k). rewrite !Hs. simpl. lia.
Qed.

(** ** The interface *)

(** The functions of miekg/dns on names that the model calls.  Indices are
    non-negative Go ints. *)
Class DnsNames := {
  PrevLabel : string -> nat -> nat * bool;
  NextLabel : string -> nat -> nat * bool;
  CountLabel : string -> nat;
  SplitDomainName : string -> list string;
  IsSubDomain : string -> string -> bool;
  Fqdn : string -> string;
  IsDomainName : string -> bool
}.

(** [ps] is a suffix of [cs], letter case aside. *)
Definition label_suffix (ps cs : list string) : Prop :=
  map ToLower ps `suffix_of` map ToLower cs.

(** Documented behaviour:
    - PrevLabel "returns the index of the label when starting from the right
      and jumping n labels to the left", an index into the string; its flag is set "when the start of
      the string has been overshot", which the empty string always is; the root counts as one (empty)
      label;
    - NextLabel "returns the index of the start of the next label in the
      string s starting at offset", an index into the string; its flag is set "when the end of the
      string has been reached".  Escapes are recognised from the offset on,
      so a name with escapes needs an offset at the start of a label;
    - CountLabel counts labels, SplitDomainName splits a name into them (the
      root has none), with or without a dot at the end;
    - IsSubDomain "checks if child is indeed a child of the parent. If child
      and parent are the same domain true is returned as well", letter case
      aside;
    - Fqdn is the identity on a fully qualified name and adds the final dot
      to any other;
    - IsDomainName "checks if each label fits in 63 characters and that the
      entire name will fit into the 255 octet wire format limit". *)
Class DnsNamesOk `{DnsNames} : Prop := {
  PrevLabel_in s n : fq_name s -> (n <= length (dlabels s))%nat ->
    PrevLabel s n = (label_start (dlabels s) (length (dlabels s) - n), false);
  PrevLabel_over s n : fq_name s -> (length (dlabels s) < n)%nat ->
    PrevLabel s n = (0%nat, true);
  PrevLabel_empty n : (0 < n)%nat -> PrevLabel EmptyString n = (0%nat, true);
  PrevLabel_index s n : (fst (PrevLabel s n) <= slen s)%nat;
  NextLabel_start s k : valid_name s -> (S k < length (labels s))%nat ->
    NextLabel s (label_start (labels s) k) = (label_start (labels s) (S k), false);
  NextLabel_last s k : valid_name s -> length (labels s) = S k ->
    snd (NextLabel s (label_start (labels s) k)) = true;
  NextLabel_plain s k off : plain_name s -> (S k < length (labels s))%nat ->
    (label_start (labels s) k <= off < label_start (labels s) (S k))%nat ->
    NextLabel s off = (label_start (labels s) (S k), false);
  NextLabel_plain_end s k off : plain_name s -> length (labels s) = S k ->
    (label_start (labels s) k <= off)%nat -> snd (NextLabel s off) = true;
  NextLabel_index s off : valid_name s -> (off <= slen s)%nat -> (fst (NextLabel s off) <= slen s)%nat;
  NextLabel_root : snd (NextLabel dot 0) = true;
  NextLabel_empty off : snd (NextLabel EmptyString off) = true;
  CountLabel_ok s : fq_name s -> CountLabel s = length (labels s);
  SplitDomainName_ok s : fq_name s -> SplitDomainName s = labels s;
  SplitDomainName_relative s : valid_name (s +:+ dot) -> SplitDomainName s = labels (s +:+ dot);
  IsSubDomain_ok p c : fq_name p -> fq_name c ->
    IsSubDomain p c = true <-> label_suffix (labels p) (labels c);
  Fqdn_id s : fq_name s -> Fqdn s = s;
  Fqdn_add s : valid_name (s +:+ dot) -> Fqdn s = s +:+ dot;
  IsDomainName_ok s : valid_name s -> Forall (fun l => slen l <= 63)%nat (labels s) -> (slen s <= 254)%nat -> IsDomainName s = true
}.

Section names_laws.
Context `{Ok : DnsNamesOk}.

Lemma PrevLabel_valid s n : valid_name s -> (n <= length (labels s))%nat ->
  PrevLabel s n = (label_start (labels s) (length (labels s) - n), false).
Proof. intros Hv. rewrite <- (dlabels_valid s Hv). apply PrevLabel_in. by right. Qed.

Lemma PrevLabel_valid_over s n : valid_name s -> (length (labels s) < n)%nat ->
  PrevLabel s n = (0%nat, true).
Proof. intros Hv. rewrite <- (dlabels_valid s Hv). apply PrevLabel_over. by right. Qed.
End names_laws.

(** ** A concrete implementation *)

(** The start of the first label after offset [off], for labels written from
    position [pos] on. *)
Fixpoint next_start (pos : nat) (ls : list string) (off : nat) : option nat :=
  match ls with
  | [] | [_] => None
  | l :: ls' =>
      let p := (pos + slen l + 1)%nat in
      if decide (off < p)%nat then Some p else next_start p ls' off
  end.

Lemma next_start_in ls pos k off :
  (S k < length ls)%nat ->
  (pos + label_start ls k <= off < pos + label_start ls (S k))%nat ->
  next_start pos ls off = Some (pos + label_start ls (S k))%nat.
Proof.
  revert pos k. induction ls as [|l ls IH]; intros pos k Hk Hoff; simpl in *; [lia|].
  destruct ls as [|l' ls]; [simpl in *; lia|].
  assert (Hs : forall i, label_start (l :: l' :: ls) (S i) = (slen l + 1 + label_start (l' :: ls) i)%nat).
  { intros i. unfold label_start. rewrite firstn_cons. slen_norm. lia. }
  rewrite Hs in *. destruct k as [|k].
  - unfold label_start at 2 in Hoff. simpl in Hoff. rewrite decide_True by lia.
    f_equal. unfold label_start. simpl. lia.
  - rewrite Hs in Hoff. rewrite decide_False by lia.
    rewrite IH with (k := k); [f_equal; lia|simpl in *; lia|lia].
Qed.

Lemma next_start_end ls pos k off :
  length ls = S k -> (pos + label_start ls k <= off)%nat -> next_start pos ls off = None.
Proof.
  revert pos k. induction ls as [|l ls IH]; intros pos k Hk Hoff; simpl in *; [lia|].
  destruct ls as [|l' ls]; [done|]. destruct k as [|k]; [simpl in *; lia|].
  assert (label_start (l :: l' :: ls) (S k) = (slen l + 1 + label_start (l' :: ls) k)%nat) as E.
  { unfold label_start. rewrite firstn_cons. slen_norm. lia. }
  rewrite E in Hoff. rewrite decide_False by lia. apply (IH _ k); [simpl in *; lia|lia].
Qed.

Definition dns_reference : DnsNames := {|
  PrevLabel := fun s n =>
    let ls := dlabels s in
    if decide (n <= length ls)%nat then (Nat.min (label_start ls (length ls - n)) (slen s), false) else (0%nat, true);
  NextLabel := fun s off =>
    match next_start 0 (labels s) off with Some p => (p, false) | None => (slen s, true) end;
  CountLabel := fun s => length (labels s);
  SplitDomainName := labels;
  IsSubDomain := fun p c =>
    bool_decide (map ToLower (labels p) `suffix_of` map ToLower (labels c));
  Fqdn := fun s => if decide (fq_name s) then s else s +:+ dot;
  IsDomainName := fun s => bool_decide (s <> EmptyString /\ Forall (fun l => slen l <= 63)%nat (labels s) /\ (slen s <= 254)%nat)
|}.

Lemma valid_name_dot_dot s : fq_name s -> ~ valid_name (s +:+ dot).
Proof.
  intros Hs (_ & Hok & _).
  assert (Forall label_ok (labels s ++ [EmptyString])) as H.
  { destruct Hs as [->|(Hne & Hls & Es)]; [vm_compute in Hok |- *; by inversion Hok|].
    rewrite Es in Hok at 1. unfold labels in Hok at 1. rewrite decide_False in Hok.
    - by rewrite split_go_dotted_app in Hok.
    - rewrite <- Es. intros E. apply (f_equal String.length) in E.
      destruct s; [by rewrite Es in Hne || done|]. slen_norm. lia. }
  apply Forall_app in H as [_ H]. inversion H as [|? ? [H' _]]. done.
Qed.

Lemma split_go_last l cur : label_chars l = true -> l <> EmptyString -> split_go cur l = [cur +:+ l].
Proof.
  remember (slen l) as n eqn:Hn. revert l Hn cur. induction n as [n IH] using lt_wf_ind. intros l -> cur Hl Hne.
  assert (forall cur l', (slen l' < slen l)%nat -> label_chars l' = true -> cur <> EmptyString -> split_go cur l' = [cur +:+ l']) as Hrec.
  { intros cur' l' Hlt Hl' Hc. destruct l' as [|c l']; [by destruct cur'; rewrite ?sapp_nil_r|]. by apply (IH (slen (String c l'))). }
  destruct l as [|c l]; [done|]. simpl in *. destruct (decide (c = ch_dot)); [done|].
  destruct (decide (c = ch_bslash)) as [->|].
  - destruct l as [|d l]; [done|]. simpl in *. rewrite Hrec by (done || lia || by destruct cur). by rewrite sapp_assoc.
  - rewrite Hrec by (done || lia || by destruct cur). by rewrite sapp_assoc.
Qed.

Lemma labels_relative s : valid_name (s +:+ dot) -> labels s = labels (s +:+ dot).
Proof.
  intros (Hne & Hls & E). destruct (labels (s +:+ dot)) as [|l ls _] eqn:El using rev_ind; [done|].
  apply Forall_app in Hls as [Hls [[Hl1 Hl2] _]%Forall_cons]. rewrite dotted_app in E. simpl in E. rewrite <- !sapp_assoc in E.
  rewrite sapp_nil_r in E.
  assert (s = dotted ls +:+ l) as ->.
  { apply (f_equal (fun x => stake (slen x - 1) x)) in E. rewrite !slen_app, slen_dot in E.
    replace (slen s + 1 - 1)%nat with (slen s) in E by lia.
    replace (slen (dotted ls) + slen l + 1 - 1)%nat with (slen (dotted ls +:+ l)) in E by (rewrite slen_app; lia).
    by rewrite !stake_app in E. }
  unfold labels. rewrite decide_False.
  - by rewrite split_go_dotted_app, split_go_last.
  - intros Ed. apply (f_equal String.length) in Ed as Hd. rewrite slen_app, slen_dot in Hd.
    destruct ls as [|k ls]; [|destruct l; [done|]; slen_norm; lia]. simpl in Ed. rewrite sapp_nil_l in Ed. by subst l.
Qed.

Lemma label_start_in_name s k : fq_name s -> (label_start (dlabels s) k <= slen s)%nat.
Proof.
  intros Hs. assert (slen (dotted (dlabels s)) = slen s) as <-.
  { destruct Hs as [->|Hv]; [done|]. rewrite dlabels_valid by done. destruct Hv as (_ & _ & E). by rewrite <- E. }
  unfold label_start. rewrite <- (take_drop k (dlabels s)) at 2. rewrite dotted_app, slen_app. lia.
Qed.

Lemma next_start_le pos ls off p : next_start pos ls off = Some p -> (p <= pos + slen (dotted ls))%nat.
Proof.
  revert pos. induction ls as [|l [|l' ls] IH]; intros pos; [done..|]. cbn [next_start]. case_decide.
  - intros [= <-]. cbn [dotted]. slen_norm. lia.
  - intros E%IH. cbn [dotted] in *. slen_norm. lia.
Qed.

#[export] Instance dns_reference_ok : @DnsNamesOk dns_reference.
Proof.
  split; simpl.
  - intros s n Hs Hn. rewrite decide_True by done. f_equal. apply Nat.min_l. by apply label_start_in_name.
  - intros s n _ Hn. by rewrite decide_False by lia.
  - intros n Hn. rewrite decide_False; [done|]. change (~ (n <= 0)%nat). lia.
  - intros s n. case_decide; simpl; lia.
  - intros s k _ Hk. rewrite (next_start_in _ 0 k); auto.
    split; [done|]. apply label_start_mono. lia.
  - intros s k _ Hk. by rewrite (next_start_end _ 0 k).
  - intros s k off _ Hk Hoff. by rewrite (next_start_in _ 0 k).
  - intros s k off _ Hk Hoff. by rewrite (next_start_end _ 0 k).
  - intros s off (_ & _ & E) Hoff. destruct (next_start 0 (labels s) off) as [p|] eqn:Ep; [|done]. simpl.
    apply next_start_le in Ep. by rewrite <- E in Ep.
  - done.
  - done.
  - done.
  - done.
  - intros s Hs. by apply labels_relative.
  - intros p c _ _. unfold label_suffix. by rewrite bool_decide_eq_true.
  - intros s Hs. by rewrite decide_True.
  - intros s Hs. rewrite decide_False; [done|]. intros Hq. by apply (valid_name_dot_dot s).
  - intros s (Hne & _) Hl Hs. apply bool_decide_eq_true. split; [by intros ->|done].
Qed.
