(* ===== verification/DnsMsg.v ===== *)
(** * Resource records and messages

    The data of github.com/miekg/dns that the server reads and writes: the
    resource record header, the record data the code inspects by type
    assertion, and the message.  Numbers are the protocol's own (RFC 1035,
    2136, 4034, 6672, 6891 and the IANA registries), kept in [Z] inside
    their field width. *)

From S2P Require Import Prelude.
From S2P Require Import GoStd.
From S2P Require Import DnsNames.

(** ** Numbers *)

Definition TypeA : Z := 1.
Definition TypeNS : Z := 2.
Definition TypeCNAME : Z := 5.
Definition TypeSOA : Z := 6.
Definition TypePTR : Z := 12.
Definition TypeHINFO : Z := 13.
Definition TypeMX : Z := 15.
Definition TypeTXT : Z := 16.
Definition TypeAAAA : Z := 28.
Definition TypeSRV : Z := 33.
Definition TypeDNAME : Z := 39.
Definition TypeNAPTR : Z := 35.
Definition TypeOPT : Z := 41.
Definition TypeDS : Z := 43.
Definition TypeRRSIG : Z := 46.
Definition TypeNSEC : Z := 47.
Definition TypeDNSKEY : Z := 48.
Definition TypeNSEC3 : Z := 50.
Definition TypeNSEC3PARAM : Z := 51.
Definition TypeIXFR : Z := 251.
Definition TypeAXFR : Z := 252.
Definition TypeANY : Z := 255.

Definition RcodeSuccess : Z := 0.
Definition RcodeFormatError : Z := 1.
Definition RcodeServerFailure : Z := 2.
Definition RcodeNameError : Z := 3.
Definition RcodeNotImplemented : Z := 4.
Definition RcodeRefused : Z := 5.
Definition RcodeBadVers : Z := 16.

Definition OpcodeQuery : Z := 0.
Definition OpcodeNotify : Z := 4.
Definition OpcodeUpdate : Z := 5.

Definition ClassINET : Z := 1.
Definition ClassCHAOS : Z := 3.

Definition MinMsgSize : Z := 512.
Definition MaxMsgSize : Z := 65535.

(** EDNS0 option codes. *)
Definition EDNS0NSID : Z := 3.
Definition EDNS0SUBNET : Z := 8.
Definition EDNS0EXPIRE : Z := 9.
Definition EDNS0COOKIE : Z := 10.
Definition EDNS0TCPKEEPALIVE : Z := 11.
Definition EDNS0PADDING : Z := 12.

(** ** Resource records *)

(** An EDNS0 option: one constructor per Go type the code asserts; the others
    are their code and their payload. *)
Inductive EDNS0 :=
  | EDNS0_NSID (Nsid : string)
  | EDNS0_SUBNET (Family SourceNetmask SourceScope : Z) (Address : IP)
  | EDNS0_LOCAL (Code : Z) (Data : string)
  | EDNS0_other (Code : Z) (Data : string).

Definition optCode (o : EDNS0) : Z :=
  match o with
  | EDNS0_NSID _ => EDNS0NSID
  | EDNS0_SUBNET _ _ _ _ => EDNS0SUBNET
  | EDNS0_LOCAL c _ | EDNS0_other c _ => c
  end.

#[export] Instance EDNS0_eq_dec : EqDecision EDNS0.
Proof. solve_decision. Defined.

(** The record data, one constructor per Go type the code asserts; data the
    code never looks into is [OtherData]. *)
Inductive RData :=
  | A (addr : IP)
  | AAAA (addr : IP)
  | NS (Ns : string)
  | CNAME (Target : string)
  | DNAME (Target : string)
  | PTR (Ptr : string)
  | SOA (Ns Mbox : string) (Serial Refresh Retry Expire Minttl : Z)
  | MX (Preference : Z) (Mx : string)
  | SRV (Priority Weight Port : Z) (Target : string)
  | TXT (Txt : list string)
  | HINFO (Cpu Os : string)
  | RRSIG (TypeCovered Expiration Inception : Z) (Signature : string)
  | OPT (Option : list EDNS0)
  | NAPTR (fields Replacement : string)
  | OtherData (data : string).

#[export] Instance RData_eq_dec : EqDecision RData.
Proof. solve_decision. Defined.

Record RR := mkRR {
  hName : string;
  hRrtype : Z;
  hClass : Z;
  hTtl : Z;
  rdata : RData
}.

#[export] Instance RR_eq_dec : EqDecision RR.
Proof. solve_decision. Defined.

Definition set_hName (n : string) (r : RR) : RR :=
  mkRR n (hRrtype r) (hClass r) (hTtl r) (rdata r).
Definition set_hClass (c : Z) (r : RR) : RR :=
  mkRR (hName r) (hRrtype r) c (hTtl r) (rdata r).
Definition set_hRrtype (t : Z) (r : RR) : RR :=
  mkRR (hName r) t (hClass r) (hTtl r) (rdata r).
Definition set_hTtl (t : Z) (r : RR) : RR :=
  mkRR (hName r) (hRrtype r) (hClass r) t (rdata r).
Definition set_rdata (d : RData) (r : RR) : RR :=
  mkRR (hName r) (hRrtype r) (hClass r) (hTtl r) d.

(** The Rrtype that belongs to a Go record type. *)
Definition rdata_type (d : RData) : option Z :=
  match d with
  | A _ => Some TypeA
  | AAAA _ => Some TypeAAAA
  | NS _ => Some TypeNS
  | CNAME _ => Some TypeCNAME
  | DNAME _ => Some TypeDNAME
  | PTR _ => Some TypePTR
  | SOA _ _ _ _ _ _ _ => Some TypeSOA
  | MX _ _ => Some TypeMX
  | SRV _ _ _ _ => Some TypeSRV
  | TXT _ => Some TypeTXT
  | HINFO _ _ => Some TypeHINFO
  | RRSIG _ _ _ _ => Some TypeRRSIG
  | OPT _ => Some TypeOPT
  | NAPTR _ _ => Some TypeNAPTR
  | OtherData _ => None
  end.

Definition asserted_types : list Z :=
  [TypeA; TypeAAAA; TypeNS; TypeCNAME; TypeDNAME; TypePTR; TypeSOA; TypeMX; TypeSRV;
   TypeTXT; TypeHINFO; TypeRRSIG; TypeOPT; TypeNAPTR].

(** Header and data agree, as they do for every record the parser or the wire
    decoder builds: a type assertion on the data succeeds exactly when the
    header says so. *)
Definition rr_typed (r : RR) : Prop :=
  match rdata_type (rdata r) with
  | Some t => hRrtype r = t
  | None => hRrtype r ∉ asserted_types
  end.

#[export] Instance rr_typed_dec r : Decision (rr_typed r).
Proof. unfold rr_typed. destruct (rdata_type (rdata r)); apply _. Defined.

(** ** Messages *)

Record Question := mkQuestion { qName : string; qType : Z; qClass : Z }.

#[export] Instance Question_eq_dec : EqDecision Question.
Proof. solve_decision. Defined.

Record Msg := mkMsg {
  mId : Z;
  mResponse : bool;
  mOpcode : Z;
  mAuthoritative : bool;
  mTruncated : bool;
  mRecursionDesired : bool;
  mRecursionAvailable : bool;
  mAuthenticatedData : bool;
  mCheckingDisabled : bool;
  mRcode : Z;
  mCompress : bool;
  mQuestion : list Question;
  mAnswer : list RR;
  mNs : list RR;
  mExtra : list RR
}.

#[export] Instance Msg_eq_dec : EqDecision Msg.
Proof. solve_decision. Defined.

(** Field updates. *)
Definition set_mAuthoritative (b : bool) (m : Msg) : Msg :=
  mkMsg (mId m) (mResponse m) (mOpcode m) b (mTruncated m) (mRecursionDesired m)
    (mRecursionAvailable m) (mAuthenticatedData m) (mCheckingDisabled m) (mRcode m)
    (mCompress m) (mQuestion m) (mAnswer m) (mNs m) (mExtra m).
Definition set_mAuthenticatedData (b : bool) (m : Msg) : Msg :=
  mkMsg (mId m) (mResponse m) (mOpcode m) (mAuthoritative m) (mTruncated m)
    (mRecursionDesired m) (mRecursionAvailable m) b (mCheckingDisabled m) (mRcode m)
    (mCompress m) (mQuestion m) (mAnswer m) (mNs m) (mExtra m).
Definition set_mRecursionAvailable (b : bool) (m : Msg) : Msg :=
  mkMsg (mId m) (mResponse m) (mOpcode m) (mAuthoritative m) (mTruncated m)
    (mRecursionDesired m) b (mAuthenticatedData m) (mCheckingDisabled m) (mRcode m)
    (mCompress m) (mQuestion m) (mAnswer m) (mNs m) (mExtra m).
Definition set_mRcode (rc : Z) (m : Msg) : Msg :=
  mkMsg (mId m) (mResponse m) (mOpcode m) (mAuthoritative m) (mTruncated m)
    (mRecursionDesired m) (mRecursionAvailable m) (mAuthenticatedData m)
    (mCheckingDisabled m) rc (mCompress m) (mQuestion m) (mAnswer m) (mNs m) (mExtra m).
Definition set_mCompress (b : bool) (m : Msg) : Msg :=
  mkMsg (mId m) (mResponse m) (mOpcode m) (mAuthoritative m) (mTruncated m)
    (mRecursionDesired m) (mRecursionAvailable m) (mAuthenticatedData m)
    (mCheckingDisabled m) (mRcode m) b (mQuestion m) (mAnswer m) (mNs m) (mExtra m).
Definition set_mTruncated (b : bool) (m : Msg) : Msg :=
  mkMsg (mId m) (mResponse m) (mOpcode m) (mAuthoritative m) b
    (mRecursionDesired m) (mRecursionAvailable m) (mAuthenticatedData m)
    (mCheckingDisabled m) (mRcode m) (mCompress m) (mQuestion m) (mAnswer m) (mNs m) (mExtra m).
Definition set_mQuestion (q : list Question) (m : Msg) : Msg :=
  mkMsg (mId m) (mResponse m) (mOpcode m) (mAuthoritative m) (mTruncated m)
    (mRecursionDesired m) (mRecursionAvailable m) (mAuthenticatedData m)
    (mCheckingDisabled m) (mRcode m) (mCompress m) q (mAnswer m) (mNs m) (mExtra m).
Definition set_sections (answer ns extra : list RR) (m : Msg) : Msg :=
  mkMsg (mId m) (mResponse m) (mOpcode m) (mAuthoritative m) (mTruncated m)
    (mRecursionDesired m) (mRecursionAvailable m) (mAuthenticatedData m)
    (mCheckingDisabled m) (mRcode m) (mCompress m) (mQuestion m) answer ns extra.

(** [new(dns.Msg)]. *)
Definition zeroMsg : Msg :=
  mkMsg 0 false 0 false false false false false false 0 false [] [] [] [].

(** ** The interface to the message functions of miekg/dns *)

(** [IsEdns0] returns a pointer into the additional section: here, the
    position of the record.  A method that changes a record or a message
    returns the new value. *)
Class DnsMsgs := {
  Name_String : string -> string;
  SetReply : Msg -> Msg -> Msg;
  SetRcode : Msg -> Msg -> Z -> Msg;
  SetEdns0 : Z -> bool -> Msg -> Msg;
  IsEdns0 : Msg -> option nat;
  OPT_Do : RR -> bool;
  OPT_SetDo : RR -> RR;
  OPT_UDPSize : RR -> Z;
  OPT_SetUDPSize : Z -> RR -> RR;
  OPT_Version : RR -> Z;
  OPT_SetVersion : Z -> RR -> RR;
  OPT_SetExtendedRcode : Z -> RR -> RR;
  Msg_Truncate : Z -> Msg -> Msg;
  Msg_Len : Msg -> Z;
  ValidityPeriod : RR -> Z -> bool
}.

(** A name of letters, digits, hyphens, underscores and asterisks, which
    prints as itself. *)
Definition host_char (c : ascii) : bool :=
  let n := N_of_ascii c in
  ((48 <=? n) && (n <=? 57) || (65 <=? n) && (n <=? 90) || (97 <=? n) && (n <=? 122)
   || (n =? 45) || (n =? 95) || (n =? 42))%N.
Definition host_name (s : string) : Prop :=
  valid_name s /\ Forall (fun l => forallb host_char (bytes_of l) = true) (labels s).

#[export] Instance host_name_dec s : Decision (host_name s).
Proof. unfold host_name. apply _. Defined.

(** The OPT record of RFC 6891: the class is the sender's UDP payload size;
    the TTL holds the upper eight bits of the extended rcode, the version and
    the flags, of which the first is DO. *)
Definition opt_version (ttl : Z) : Z := Z.land (Z.shiftr ttl 16) 255.
Definition opt_put_version (v ttl : Z) : Z := Z.lor (Z.land ttl 0xFF00FFFF) (Z.shiftl v 16).
Definition opt_put_rcode (rc ttl : Z) : Z := Z.lor (Z.land ttl 0x00FFFFFF) (Z.shiftl (Z.shiftr rc 4) 24).

(** Documented behaviour:
    - a Name's String is its presentation form: that of a name of letters,
      digits, dashes and underscores is the name itself;
    - SetReply "creates a reply message from a request message": same id,
      opcode and first question, the response flag, no error, the RD and CD
      bits of a query; nothing else changes;
    - SetRcode "creates an error message suitable for the request";
    - SetEdns0 "appends a EDNS0 OPT RR to the message", with the UDP size and
      the DO bit given;
    - IsEdns0 "checks if the message has a EDNS0 (OPT) record, any EDNS0
      record in the additional section will do";
    - the OPT accessors read and write the fields of RFC 6891;
    - Truncate "ensures the reply message will fit into the requested buffer
      size by removing records that exceed the requested size", and "the TC
      bit will be set if any records were excluded from the message";
      it keeps the TC bit that is set, and never removes the OPT record;
    - a compressed message is no longer than the plain one. *)
Class DnsMsgsOk `{DnsMsgs} : Prop := {
  Name_String_host s : host_name s -> Name_String s = s;
  Name_String_fq s : fq_name s -> fq_name (Name_String s);
  SetReply_ok m r : SetReply m r =
    mkMsg (mId r) true (mOpcode r) (mAuthoritative m) (mTruncated m)
      (if decide (mOpcode r = OpcodeQuery) then mRecursionDesired r else mRecursionDesired m)
      (mRecursionAvailable m) (mAuthenticatedData m)
      (if decide (mOpcode r = OpcodeQuery) then mCheckingDisabled r else mCheckingDisabled m)
      RcodeSuccess (mCompress m)
      (match mQuestion r with q :: _ => [q] | [] => mQuestion m end)
      (mAnswer m) (mNs m) (mExtra m);
  SetRcode_ok m r c : SetRcode m r c = set_mRcode c (SetReply m r);
  SetEdns0_ok size do m : SetEdns0 size do m =
    set_sections (mAnswer m) (mNs m)
      (mExtra m ++ [mkRR dot TypeOPT size (if do then 2 ^ 15 else 0) (OPT [])]) m;
  IsEdns0_Some m i : IsEdns0 m = Some i ->
    exists r, mExtra m !! i = Some r /\ hRrtype r = TypeOPT;
  IsEdns0_None m : IsEdns0 m = None -> Forall (fun r => hRrtype r <> TypeOPT) (mExtra m);
  OPT_Do_ok r : OPT_Do r = Z.testbit (hTtl r) 15;
  OPT_SetDo_ok r : OPT_SetDo r = set_hTtl (Z.lor (hTtl r) (2 ^ 15)) r;
  OPT_UDPSize_ok r : OPT_UDPSize r = hClass r;
  OPT_SetUDPSize_ok n r : OPT_SetUDPSize n r = set_hClass n r;
  OPT_Version_ok r : OPT_Version r = opt_version (hTtl r);
  OPT_SetVersion_ok v r : OPT_SetVersion v r = set_hTtl (opt_put_version v (hTtl r)) r;
  OPT_SetExtendedRcode_ok rc r :
    OPT_SetExtendedRcode rc r = set_hTtl (opt_put_rcode rc (hTtl r)) r;
  Msg_Truncate_len n m : (MinMsgSize <= n)%Z -> (Msg_Len (Msg_Truncate n m) <= n)%Z;
  Msg_Truncate_head n m : let m' := Msg_Truncate n m in
    mId m' = mId m /\ mResponse m' = mResponse m /\ mRcode m' = mRcode m /\
    mQuestion m' = mQuestion m;
  Msg_Truncate_tc n m : let m' := Msg_Truncate n m in
    mTruncated m' = false ->
    mTruncated m = false /\ mAnswer m' = mAnswer m /\ mNs m' = mNs m /\ mExtra m' ≡ₚ mExtra m;
  Msg_Truncate_sub n m : let m' := Msg_Truncate n m in
    mAnswer m' ⊆ mAnswer m /\ mNs m' ⊆ mNs m /\ mExtra m' ⊆ mExtra m;
  Msg_Len_compress m : (Msg_Len (set_mCompress true m) <= Msg_Len m)%Z
}.

(** A concrete implementation. *)
Definition find_opt (l : list RR) : option nat :=
  fst <$> list_find (fun r => hRrtype r = TypeOPT) l.

Definition msgs_SetReply (m r : Msg) : Msg :=
  mkMsg (mId r) true (mOpcode r) (mAuthoritative m) (mTruncated m)
    (if decide (mOpcode r = OpcodeQuery) then mRecursionDesired r else mRecursionDesired m)
    (mRecursionAvailable m) (mAuthenticatedData m)
    (if decide (mOpcode r = OpcodeQuery) then mCheckingDisabled r else mCheckingDisabled m)
    RcodeSuccess (mCompress m)
    (match mQuestion r with q :: _ => [q] | [] => mQuestion m end)
    (mAnswer m) (mNs m) (mExtra m).

Definition msgs_Len (m : Msg) : Z :=
  (12 + 64 * Z.of_nat (length (mAnswer m ++ mNs m ++ mExtra m)))%Z.

Definition msgs_reference : DnsMsgs := {|
  Name_String := fun s => s;
  SetReply := msgs_SetReply;
  SetRcode := fun m r c => set_mRcode c (msgs_SetReply m r);
  SetEdns0 := fun size do m => set_sections (mAnswer m) (mNs m)
    (mExtra m ++ [mkRR dot TypeOPT size (if do then 2 ^ 15 else 0) (OPT [])]) m;
  IsEdns0 := fun m => find_opt (mExtra m);
  OPT_Do := fun r => Z.testbit (hTtl r) 15;
  OPT_SetDo := fun r => set_hTtl (Z.lor (hTtl r) (2 ^ 15)) r;
  OPT_UDPSize := hClass;
  OPT_SetUDPSize := set_hClass;
  OPT_Version := fun r => opt_version (hTtl r);
  OPT_SetVersion := fun v r => set_hTtl (opt_put_version v (hTtl r)) r;
  OPT_SetExtendedRcode := fun rc r => set_hTtl (opt_put_rcode rc (hTtl r)) r;
  Msg_Truncate := fun n m =>
    if decide (msgs_Len m <= n)%Z then m
    else set_mTruncated true (set_sections [] [] (filter (fun r => hRrtype r = TypeOPT) (take 1 (mExtra m))) m);
  Msg_Len := msgs_Len;
  ValidityPeriod := fun r now =>
    match rdata r with
    | RRSIG _ e i _ => bool_decide (i <= now <= e)%Z
    | _ => false
    end
|}.

#[export] Instance msgs_reference_ok : @DnsMsgsOk msgs_reference.
Proof.
  split; try done; simpl.
  - intros m i. unfold find_opt. intros (p & E & ->)%fmap_Some.
    destruct p as [j r]. apply list_find_Some in E as (E & Ht & _). by exists r.
  - intros m. unfold find_opt. intros E%fmap_None. by apply list_find_None in E.
  - intros n m Hn. case_decide; [done|]. unfold msgs_Len. simpl. unfold MinMsgSize in Hn.
    destruct (mExtra m) as [|r l]; simpl; [lia|]. rewrite take_0, filter_cons. case_decide; simpl; lia.
  - intros n m. by case_decide.
  - intros n m. by case_decide.
  - intros n m. case_decide; [done|]. simpl. split; [apply list_subseteq_nil|].
    split; [apply list_subseteq_nil|]. intros x (_ & Hx)%list_elem_of_filter.
    by apply elem_of_take in Hx as (i & Hi%list_elem_of_lookup_2 & _).
Qed.
