(* ===== verification/DnsUtil.v ===== *)
(** * plugin/pkg/dnsutil and plugin/file/rrutil: helpers on names and records *)

From S2P Require Import Prelude.
From S2P Require Import GoStd.
From S2P Require Import DnsNames.
From S2P Require Import DnsMsg.

Definition IP4arpa : string := ".in-addr.arpa.".
Definition IP6arpa : string := ".ip6.arpa.".

Definition IsReverse (name : string) : Z :=
  if HasSuffix name IP4arpa then 1 else if HasSuffix name IP6arpa then 2 else 0.

(** [DuplicateCNAME] compares targets only. *)
Definition DuplicateCNAME (r : RR) (records : list RR) : bool :=
  match rdata r with
  | CNAME t =>
      existsb (fun rec => match rdata rec with CNAME t' => bool_decide (t' = t) | _ => false end) records
  | _ => false
  end.

Definition SubTypeSignature (rrs : list RR) (subtype : Z) : list RR :=
  filter (fun sig => match rdata sig with RRSIG c _ _ _ => bool_decide (c = subtype) | _ => false end = true) rrs.

Section dnsutil.
Context `{DnsNames}.

(** [labels[ll-1]] panics when there is no label. *)
Definition Join (ls : list string) : option string :=
  x ← last ls;
  if decide (x = dot) then Some (strings_Join (removelast ls) dot +:+ dot)
  else Some (Fqdn (strings_Join ls dot)).

(** The error carries a message. *)
Definition TrimZone (q z : string) : option (string + string) :=
  let zl := CountLabel z in
  let '(i, ok) := PrevLabel q zl in
  if (ok || bool_decide (Z.of_nat i - 1 < 0)%Z)%bool
  then Some (inr ("trimzone: overshot qname: " +:+ q +:+ "for zone " +:+ z))
  else s ← slice q 0 (i - 1); Some (inl s).
End dnsutil.

(** ** Properties *)

Lemma SubTypeSignature_elem rrs t r :
  r ∈ SubTypeSignature rrs t <-> r ∈ rrs /\ exists e i s, rdata r = RRSIG t e i s.
Proof.
  unfold SubTypeSignature. rewrite list_elem_of_filter. split.
  - intros [Hr Hin]. split; [done|]. destruct (rdata r); try done. apply bool_decide_eq_true in Hr as ->. eauto.
  - intros [Hin (e & i & s & ->)]. split; [|done]. by apply bool_decide_eq_true.
Qed.

Lemma strings_Join_dotted ls : ls <> [] -> strings_Join ls dot +:+ dot = dotted ls.
Proof.
  induction ls as [|l ls IH]; [done|]. intros _. destruct ls as [|l' ls].
  - simpl. by rewrite sapp_nil_r.
  - change (strings_Join (l :: l' :: ls) dot) with (l +:+ dot +:+ strings_Join (l' :: ls) dot).
    rewrite !sapp_assoc, IH by done. done.
Qed.

Lemma label_ok_not_dot l : label_ok l -> l <> dot.
Proof. by intros [_ Hl] ->. Qed.

Section dnsutil_proofs.
Context `{Ok : DnsNamesOk}.

(** Joining labels gives the name they are the labels of. *)
Lemma Join_dotted ls : ls <> [] -> Forall label_ok ls -> Join ls = Some (dotted ls).
Proof.
  intros Hne Hls. unfold Join. destruct (last ls) as [x|] eqn:El; [|by apply last_None in El].
  assert (label_ok x) as Hx.
  { rewrite Forall_forall in Hls. apply Hls. by apply last_Some_elem_of. }
  simpl. rewrite decide_False by (by apply label_ok_not_dot).
  rewrite Fqdn_add by (rewrite strings_Join_dotted by done; by apply valid_name_dotted).
  by rewrite strings_Join_dotted.
Qed.

(** Trimming a zone leaves the labels in front of it, without the final dot;
    the zone's own name and anything shorter is an error. *)
Lemma TrimZone_ok q z pre :
  valid_name q -> fq_name z -> labels q = pre ++ labels z -> pre <> [] ->
  TrimZone q z = Some (inl (strings_Join pre dot)).
Proof.
  intros Hq Hz Hl Hp. pose proof Hq as (_ & _ & Eq). unfold TrimZone. rewrite CountLabel_ok by done.
  rewrite PrevLabel_valid by (try done; rewrite Hl, length_app; lia).
  assert (label_start (labels q) (length (labels q) - length (labels z)) = slen (strings_Join pre dot) + 1)%nat as E.
  { rewrite Hl, length_app. replace (length pre + length (labels z) - length (labels z))%nat with (length pre) by lia.
    unfold label_start. rewrite take_app_length, <- strings_Join_dotted by done. by rewrite slen_app. }
  rewrite E. simpl. rewrite bool_decide_eq_false_2 by lia.
  replace (slen (strings_Join pre dot) + 1 - 1)%nat with (slen (strings_Join pre dot)) by lia.
  rewrite Eq, Hl, dotted_app, <- strings_Join_dotted by done. rewrite sapp_assoc.
  pose proof (slice_mid EmptyString (strings_Join pre dot) (dot +:+ dotted (labels z))) as Hs.
  rewrite !sapp_nil_l in Hs. simpl in Hs. by rewrite Hs.
Qed.

Lemma TrimZone_err q z :
  valid_name q -> fq_name z -> (length (labels q) <= length (labels z))%nat ->
  exists e, TrimZone q z = Some (inr e).
Proof.
  intros Hq Hz Hl. unfold TrimZone. rewrite CountLabel_ok by done.
  destruct (decide (length (labels q) < length (labels z))%nat) as [Hlt|Hge].
  - rewrite PrevLabel_valid_over by done. simpl. by eexists.
  - rewrite PrevLabel_valid by (done || lia).
    replace (length (labels q) - length (labels z))%nat with 0%nat by lia.
    unfold label_start. simpl. by eexists.
Qed.
End dnsutil_proofs.
