(* ===== verification/Request.v ===== *)
(** * The client's request

    request/request.go, request/edns0.go and plugin/pkg/edns/edns.go: the
    accessors of a request with their caches, the OPT record of a reply and
    the fitting of a reply into the client's buffer.  A method that fills a
    cache or changes the request returns the new request. *)

From S2P Require Import Prelude.
From S2P Require Import GoStd.
From S2P Require Import DnsNames.
From S2P Require Import DnsMsg.

(** ** plugin/pkg/edns *)

Section edns.
Context `{DnsMsgs}.

(** The set of extra option codes that plugins registered. *)
Definition SetSupportedOption (option : Z) (sup : gset Z) : gset Z := {[ option ]} ∪ sup.
Definition SupportedOption (sup : gset Z) (option : Z) : bool := bool_decide (option ∈ sup).

(** [new(dns.OPT)] with the name and type the code sets. *)
Definition newOPT : RR := mkRR dot TypeOPT 0 0 (OPT []).

(** A reply and an error, or nothing. *)
Definition Version (req : Msg) : option (Msg * string) :=
  match IsEdns0 req ≫= (fun i => mExtra req !! i) with
  | None => None
  | Some opt =>
      if decide (OPT_Version opt = 0%Z) then None
      else
        let m := SetReply zeroMsg req in
        let o := OPT_SetVersion 0 newOPT in
        let m := set_mRcode RcodeBadVers m in
        let o := OPT_SetExtendedRcode RcodeBadVers o in
        let m := set_sections (mAnswer m) (mNs m) [o] m in
        Some (m, "EDNS0 BADVERS"%string)
  end.

Definition edns_Size (proto : string) (size : Z) : Z :=
  if decide (proto = "tcp"%string) then MaxMsgSize
  else if decide (size < MinMsgSize)%Z then MinMsgSize
  else size.
End edns.

(** ** The request *)

(** The addresses a [dns.ResponseWriter] reports. *)
Record Writer := mkWriter { RemoteAddr : Addr; LocalAddr : Addr }.

(** A client for closed examples. *)
Definition example_client : Writer :=
  mkWriter (UDPAddr [10; 0; 0; 99]%Z "10.0.0.99:4000") (UDPAddr [10; 0; 0; 1]%Z "10.0.0.1:53").

Record Request := mkRequest {
  Req : option Msg;
  rW : Writer;
  rZone : string;
  r_size : Z;
  r_do : bool;
  r_family : Z;
  r_name : string;
  r_ip : string;
  r_port : string;
  r_localPort : string;
  r_localIP : string
}.

(** [Request{W: w, Req: req}]: empty caches. *)
Definition newRequest (w : Writer) (req : option Msg) : Request :=
  mkRequest req w EmptyString 0 false 0 EmptyString EmptyString EmptyString EmptyString EmptyString.

Definition set_size (n : Z) (b : bool) (r : Request) : Request :=
  mkRequest (Req r) (rW r) (rZone r) n b (r_family r) (r_name r) (r_ip r) (r_port r)
    (r_localPort r) (r_localIP r).
Definition set_family (f : Z) (r : Request) : Request :=
  mkRequest (Req r) (rW r) (rZone r) (r_size r) (r_do r) f (r_name r) (r_ip r) (r_port r)
    (r_localPort r) (r_localIP r).
Definition set_name (n : string) (r : Request) : Request :=
  mkRequest (Req r) (rW r) (rZone r) (r_size r) (r_do r) (r_family r) n (r_ip r) (r_port r)
    (r_localPort r) (r_localIP r).
Definition set_remote (ip port : string) (r : Request) : Request :=
  mkRequest (Req r) (rW r) (rZone r) (r_size r) (r_do r) (r_family r) (r_name r) ip port
    (r_localPort r) (r_localIP r).
Definition set_local (ip port : string) (r : Request) : Request :=
  mkRequest (Req r) (rW r) (rZone r) (r_size r) (r_do r) (r_family r) (r_name r) (r_ip r) (r_port r)
    port ip.
Definition set_Req (m : Msg) (r : Request) : Request :=
  mkRequest (Some m) (rW r) (rZone r) (r_size r) (r_do r) (r_family r) (r_name r) (r_ip r) (r_port r)
    (r_localPort r) (r_localIP r).
Definition set_rZone (z : string) (r : Request) : Request :=
  mkRequest (Req r) (rW r) z (r_size r) (r_do r) (r_family r) (r_name r) (r_ip r) (r_port r)
    (r_localPort r) (r_localIP r).

Section request.
Context `{DnsNames} `{DnsMsgs}.

(** Assigning [Question[0]] panics when there is no question. *)
Definition NewWithQuestion (r : Request) (name : string) (typ : Z) : option Request :=
  m ← Req r;
  match mQuestion m with
  | [] => None
  | _ :: qs => Some (newRequest (rW r) (Some (set_mQuestion (mkQuestion (Fqdn name) typ ClassINET :: qs) m)))
  end.

Definition Request_IP (r : Request) : Request * string :=
  if decide (r_ip r <> EmptyString) then (r, r_ip r)
  else match SplitHostPort (Addr_String (RemoteAddr (rW r))) with
       | None => let ip := Addr_String (RemoteAddr (rW r)) in (set_remote ip (r_port r) r, ip)
       | Some (ip, _) => (set_remote ip (r_port r) r, ip)
       end.

Definition Request_LocalIP (r : Request) : Request * string :=
  if decide (r_localIP r <> EmptyString) then (r, r_localIP r)
  else match SplitHostPort (Addr_String (LocalAddr (rW r))) with
       | None => let ip := Addr_String (LocalAddr (rW r)) in (set_local ip (r_localPort r) r, ip)
       | Some (ip, _) => (set_local ip (r_localPort r) r, ip)
       end.

Definition Request_Port (r : Request) : Request * string :=
  if decide (r_port r <> EmptyString) then (r, r_port r)
  else match SplitHostPort (Addr_String (RemoteAddr (rW r))) with
       | None => (set_remote (r_ip r) "0" r, "0"%string)
       | Some (_, port) => (set_remote (r_ip r) port r, port)
       end.

Definition Request_LocalPort (r : Request) : Request * string :=
  if decide (r_localPort r <> EmptyString) then (r, r_localPort r)
  else match SplitHostPort (Addr_String (LocalAddr (rW r))) with
       | None => (set_local (r_localIP r) "0" r, "0"%string)
       | Some (_, port) => (set_local (r_localIP r) port r, port)
       end.

Definition Request_RemoteAddr (r : Request) : string := Addr_String (RemoteAddr (rW r)).
Definition Request_LocalAddr (r : Request) : string := Addr_String (LocalAddr (rW r)).

Definition Proto (r : Request) : string :=
  match RemoteAddr (rW r) with
  | UDPAddr _ _ => "udp"
  | TCPAddr _ _ => "tcp"
  | OtherAddr _ => "udp"
  end.

(** A nil [net.IP] has no IPv4 form. *)
Definition Family (r : Request) : Request * Z :=
  if decide (r_family r <> 0%Z) then (r, r_family r)
  else
    let a := match RemoteAddr (rW r) with UDPAddr ip _ | TCPAddr ip _ => ip | OtherAddr _ => [] end in
    match To4 a with
    | Some _ => (set_family 1 r, 1%Z)
    | None => (set_family 2 r, 2%Z)
    end.

(** Reading the OPT record of a nil message panics. *)
Definition Size (r : Request) : option (Request * Z) :=
  if decide (r_size r <> 0%Z) then Some (r, r_size r)
  else
    m ← Req r;
    let '(do, size) :=
      match IsEdns0 m ≫= (fun i => mExtra m !! i) with
      | Some o => (OPT_Do o, OPT_UDPSize o)
      | None => (r_do r, 0%Z)
      end in
    let size := edns_Size (Proto r) size in
    Some (set_size size do r, size).

Definition Do (r : Request) : option (Request * bool) :=
  if decide (r_size r <> 0%Z) then Some (r, r_do r)
  else '(r, _) ← Size r; Some (r, r_do r).

Definition Request_Len (r : Request) : option Z := m ← Req r; Some (Msg_Len m).

Definition supportedOptions (sup : gset Z) (o : list EDNS0) : list EDNS0 :=
  filter (fun opt => optCode opt = EDNS0NSID \/ optCode opt = EDNS0EXPIRE \/
                     optCode opt = EDNS0COOKIE \/ optCode opt = EDNS0TCPKEEPALIVE \/
                     optCode opt = EDNS0PADDING \/ SupportedOption sup (optCode opt) = true) o.

(** The record in place [i] of the additional section, changed. *)
Definition upd_extra (i : nat) (o : RR) (m : Msg) : Msg :=
  set_sections (mAnswer m) (mNs m) (<[i := o]> (mExtra m)) m.

Definition clear_flags (o : RR) : RR := set_hTtl (Z.land (hTtl o) 0xff00) o.

(** The request's OPT record is the one that is put in the reply, so its
    changes are visible in both. *)
Definition SizeAndDo (sup : gset Z) (r : Request) (m : Msg) : option (Request * Msg * bool) :=
  req ← Req r;
  match IsEdns0 req with
  | None => Some (r, m, false)
  | Some i =>
      o ← mExtra req !! i;
      match IsEdns0 m with
      | Some j =>
          mo ← mExtra m !! j;
          let mo := set_hRrtype TypeOPT (set_hName dot mo) in
          let mo := OPT_SetVersion 0 mo in
          let mo := OPT_SetUDPSize (OPT_UDPSize o) mo in
          let mo := clear_flags mo in
          let mo := if OPT_Do o then OPT_SetDo mo else mo in
          Some (r, upd_extra j mo m, true)
      | None =>
          let o := set_hRrtype TypeOPT (set_hName dot o) in
          let o := OPT_SetVersion 0 o in
          let o := clear_flags o in
          let o := match rdata o with
                   | OPT ((_ :: _) as opts) => set_rdata (OPT (supportedOptions sup opts)) o
                   | _ => o
                   end in
          Some (set_Req (upd_extra i o req) r,
                set_sections (mAnswer m) (mNs m) (mExtra m ++ [o]) m, true)
      end
  end.

Definition Scrub (r : Request) (reply : Msg) : option (Request * Msg) :=
  '(r, size) ← Size r;
  let reply := Msg_Truncate size reply in
  if mCompress reply then Some (r, reply)
  else if decide (Proto r = "udp"%string) then
    let rl := Msg_Len reply in
    let '(r, reply) :=
      if decide (1480 < rl)%Z then
        let '(r, f) := Family r in (r, if decide (f = 1%Z) then set_mCompress true reply else reply)
      else (r, reply) in
    let '(r, reply) :=
      if decide (1220 < rl)%Z then
        let '(r, f) := Family r in (r, if decide (f = 2%Z) then set_mCompress true reply else reply)
      else (r, reply) in
    Some (r, reply)
  else Some (r, reply).

(** [Type] and [Class] print the numbers; the printing is miekg/dns's. *)
Definition Request_Type (type_string : Z -> string) (r : Request) : string :=
  match Req r with
  | None => EmptyString
  | Some m => match mQuestion m with [] => EmptyString | q :: _ => type_string (qType q) end
  end.

Definition QType (r : Request) : Z :=
  match Req r with
  | None => 0
  | Some m => match mQuestion m with [] => 0 | q :: _ => qType q end
  end.

Definition Name (r : Request) : Request * string :=
  if decide (r_name r <> EmptyString) then (r, r_name r)
  else
    let n := match Req r with
             | None => dot
             | Some m => match mQuestion m with [] => dot | q :: _ => ToLower (Name_String (qName q)) end
             end in
    (set_name n r, n).

Definition QName (r : Request) : string :=
  match Req r with
  | None => dot
  | Some m => match mQuestion m with [] => dot | q :: _ => Name_String (qName q) end
  end.

Definition Request_Class (class_string : Z -> string) (r : Request) : string :=
  match Req r with
  | None => EmptyString
  | Some m => match mQuestion m with [] => EmptyString | q :: _ => class_string (qClass q) end
  end.

Definition QClass (r : Request) : Z :=
  match Req r with
  | None => 0
  | Some m => match mQuestion m with [] => 0 | q :: _ => qClass q end
  end.

Definition Clear (r : Request) : Request :=
  mkRequest (Req r) (rW r) (rZone r) 0 false 0 EmptyString EmptyString EmptyString EmptyString EmptyString.

Definition Match (r : Request) (reply : Msg) : bool :=
  match mQuestion reply with
  | [q] =>
      if negb (mResponse reply) then false
      else if decide (ToLower (qName q) <> (Name r).2) then false
      else if decide (qType q <> QType r) then false
      else true
  | _ => false
  end.

(** ScrubWriter.WriteMsg: what reaches the wrapped writer. *)
Definition ScrubWriter_WriteMsg (sup : gset Z) (w : Writer) (req m : Msg) : option Msg :=
  let state := newRequest w (Some req) in
  '(state, m, _) ← SizeAndDo sup state m;
  '(_, m) ← Scrub state m;
  Some m.
End request.

(** ** Properties *)

Section request_proofs.
Context `{Nm : DnsNames} `{Ok : DnsMsgsOk}.

(** The OPT record of a message, if it has one. *)
Definition opt_of (m : Msg) : option RR := IsEdns0 m ≫= (fun i => mExtra m !! i).

Lemma edns_Size_bounds proto n :
  (0 <= n <= MaxMsgSize)%Z -> (MinMsgSize <= edns_Size proto n <= MaxMsgSize)%Z.
Proof. unfold edns_Size, MinMsgSize, MaxMsgSize. intros Hn. repeat case_decide; lia. Qed.

Lemma edns_Size_min proto n : (MinMsgSize <= edns_Size proto n)%Z.
Proof. unfold edns_Size, MinMsgSize, MaxMsgSize. repeat case_decide; lia. Qed.

(** The first call computes the size and the DO bit from the OPT record. *)
Lemma Size_first r m :
  Req r = Some m -> r_size r = 0%Z ->
  Size r = Some (set_size (edns_Size (Proto r) (from_option OPT_UDPSize 0%Z (opt_of m)))
                   (from_option OPT_Do (r_do r) (opt_of m)) r,
                 edns_Size (Proto r) (from_option OPT_UDPSize 0%Z (opt_of m))).
Proof.
  intros Hm Hs. unfold Size. rewrite decide_False by (by intros []). rewrite Hm. simpl.
  fold (opt_of m). by destruct (opt_of m).
Qed.

Lemma Size_cached r m :
  Req r = Some m -> (r_size r = 0 \/ MinMsgSize <= r_size r)%Z ->
  exists r' n, Size r = Some (r', n) /\ r_size r' = n /\ (MinMsgSize <= n)%Z /\
    Req r' = Req r /\ rW r' = rW r /\ Size r' = Some (r', n).
Proof.
  intros Hm Hs. destruct (decide (r_size r = 0%Z)) as [H0|H0].
  - rewrite (Size_first r m Hm H0). eexists _, _. split; [reflexivity|]. simpl.
    pose proof (edns_Size_min (Proto r) (from_option OPT_UDPSize 0%Z (opt_of m))) as Hn.
    unfold Size at 1. simpl. rewrite decide_True; [done|]. unfold MinMsgSize in Hn. lia.
  - assert (Size r = Some (r, r_size r)) as E by (unfold Size; by rewrite decide_True).
    rewrite E. exists r, (r_size r). repeat split; try done. by destruct Hs.
Qed.

Lemma Family_same r : rW (Family r).1 = rW r /\ Req (Family r).1 = Req r.
Proof. unfold Family. case_decide; [done|]. by destruct (To4 _). Qed.

(** Compressing for the transport only ever sets the compression flag. *)
Lemma Scrub_inv r reply r' m' :
  Scrub r reply = Some (r', m') ->
  exists r1 n, Size r = Some (r1, n) /\
    (m' = Msg_Truncate n reply \/ m' = set_mCompress true (Msg_Truncate n reply)).
Proof.
  unfold Scrub. intros Hs. destruct (Size r) as [[r1 n]|]; [|done]. simpl in Hs.
  exists r1, n. split; [done|].
  destruct (mCompress (Msg_Truncate n reply)); [simplify_eq; by left|].
  destruct (decide (Proto r1 = "udp"%string)); [|simplify_eq; by left].
  repeat case_decide; repeat (destruct (Family _) as [? ?]; simpl in * );
    repeat case_decide; simplify_eq; auto.
Qed.

Lemma Scrub_total r m reply :
  Req r = Some m -> (r_size r = 0 \/ MinMsgSize <= r_size r)%Z ->
  exists r' m', Scrub r reply = Some (r', m').
Proof.
  intros Hm Hs. destruct (Size_cached r m Hm Hs) as (r1 & n & E & _). unfold Scrub. rewrite E. simpl.
  destruct (mCompress _); [by eauto|]. case_decide; [|by eauto].
  repeat case_decide; repeat (destruct (Family _) as [? ?]; simpl); eauto.
Qed.

(** A scrubbed reply fits the client's buffer; unless it is marked truncated
    it has all its records. *)
Lemma Scrub_fits r m reply :
  Req r = Some m -> (r_size r = 0 \/ MinMsgSize <= r_size r)%Z ->
  exists r' m' r1 n, Scrub r reply = Some (r', m') /\ Size r = Some (r1, n) /\
    (Msg_Len m' <= n)%Z /\ mId m' = mId reply /\ mRcode m' = mRcode reply /\
    mQuestion m' = mQuestion reply /\
    (mTruncated m' = false ->
     mAnswer m' = mAnswer reply /\ mNs m' = mNs reply /\ mExtra m' ≡ₚ mExtra reply).
Proof.
  intros Hm Hs. destruct (Scrub_total r m reply Hm Hs) as (r' & m' & E).
  destruct (Scrub_inv _ _ _ _ E) as (r1 & n & Es & Hm').
  assert (MinMsgSize <= n)%Z as Hn.
  { destruct (Size_cached r m Hm Hs) as (? & ? & ? & _ & ? & _). by simplify_eq. }
  exists r', m', r1, n. split; [done|]. split; [done|].
  pose proof (Msg_Truncate_len n reply Hn) as Hl.
  pose proof (Msg_Truncate_head n reply) as (Hid & _ & Hrc & Hq).
  pose proof (Msg_Truncate_tc n reply) as Htc. simpl in *.
  pose proof (Msg_Len_compress (Msg_Truncate n reply)) as Hc.
  destruct Hm' as [-> | ->]; simpl; (split; [lia|]); repeat (split; [done|]); intros Ht;
    by destruct (Htc Ht) as (_ & ?).
Qed.

(** ** The OPT record of a reply *)

Lemma opt_version_masked x : opt_version (Z.land x 0xff00) = 0%Z.
Proof. unfold opt_version. by rewrite Z.shiftr_land, Z.land_0_r. Qed.

Lemma opt_version_masked_do x : opt_version (Z.lor (Z.land x 0xff00) (2 ^ 15)) = 0%Z.
Proof. unfold opt_version. by rewrite Z.shiftr_lor, Z.shiftr_land, Z.land_0_r. Qed.

Lemma opt_do_kept x : Z.testbit (Z.land (opt_put_version 0 x) 0xff00) 15 = Z.testbit x 15.
Proof.
  unfold opt_put_version. rewrite Z.land_spec, Z.lor_spec, Z.land_spec, Z.shiftl_0_l, Z.bits_0.
  change (Z.testbit 0xFF00FFFF 15) with true. change (Z.testbit 0xff00 15) with true.
  by rewrite !andb_true_r, orb_false_r.
Qed.

(** What the OPT record put in a reply looks like, for a client that sent one:
    version 0, the client's buffer size, and the DO bit if the client set it
    or if the OPT record the reply came with had it. *)
Lemma SizeAndDo_opt sup r req m o :
  Req r = Some req -> opt_of req = Some o ->
  exists r' m' o', SizeAndDo sup r m = Some (r', m', true) /\
    mAnswer m' = mAnswer m /\ mNs m' = mNs m /\ o' ∈ mExtra m' /\
    hName o' = dot /\ hRrtype o' = TypeOPT /\ OPT_Version o' = 0%Z /\
    OPT_UDPSize o' = OPT_UDPSize o /\
    OPT_Do o' = (OPT_Do o || from_option OPT_Do false (opt_of m))%bool.
Proof.
  intros Hr Ho. unfold opt_of in Ho. destruct (IsEdns0 req) as [i|] eqn:Ei; [|done]. simpl in Ho.
  unfold SizeAndDo, opt_of. rewrite Hr. simpl. rewrite Ei, Ho. simpl.
  destruct (IsEdns0 m) as [j|] eqn:Ej; simpl.
  - destruct (IsEdns0_Some m j Ej) as (mo & Hmo & _). rewrite Hmo. simpl.
    rewrite OPT_SetVersion_ok, OPT_SetUDPSize_ok. eexists _, _, _. split; [reflexivity|].
    split; [done|]. split; [done|]. split.
    { simpl. apply list_elem_of_lookup. exists j. apply list_lookup_insert_eq. by eapply lookup_lt_Some. }
    destruct (OPT_Do o); rewrite ?OPT_SetDo_ok, OPT_Version_ok, !OPT_UDPSize_ok, !OPT_Do_ok;
      cbn -[opt_version Z.testbit opt_put_version Z.land Z.lor Z.pow dot].
    + rewrite opt_version_masked_do, Z.lor_spec, Z.pow2_bits_true, orb_true_r by lia. done.
    + rewrite opt_version_masked, opt_do_kept. done.
  - rewrite OPT_SetVersion_ok. eexists _, _, _. split; [reflexivity|].
    split; [done|]. split; [done|]. split; [apply elem_of_app; right; apply list_elem_of_singleton; reflexivity|].
    rewrite OPT_Version_ok, !OPT_UDPSize_ok, !OPT_Do_ok, orb_false_r. cbn [clear_flags set_hTtl rdata set_hRrtype set_hName].
    destruct (rdata o) as [| | | | | | | | | | | |[|? ?]| |]; cbn -[opt_version Z.testbit opt_put_version Z.land dot];
      by rewrite opt_version_masked, opt_do_kept.
Qed.

(** Without an OPT record in the request the reply is left alone. *)
Lemma SizeAndDo_none sup r req m :
  Req r = Some req -> opt_of req = None -> SizeAndDo sup r m = Some (r, m, false).
Proof.
  intros Hr Ho. unfold SizeAndDo. rewrite Hr. simpl. unfold opt_of in Ho.
  destruct (IsEdns0 req) as [i|] eqn:Ei; [|done]. simpl in Ho.
  destruct (IsEdns0_Some req i Ei) as (o & E & _). congruence.
Qed.

(** The name of a request is lower case and is computed once. *)
Lemma Name_cached r n r' : Name r = (r', n) -> n <> EmptyString -> Name r' = (r', n).
Proof.
  unfold Name. intros E Hn. case_decide as Hc; simplify_eq; [by rewrite decide_True|]. simpl.
  by rewrite decide_True.
Qed.

Lemma Req_Name (r : Request) : Req (Name r).1 = Req r.
Proof. unfold Name. by case_decide. Qed.

Lemma Req_Do (r r' : Request) b : Do r = Some (r', b) -> Req r' = Req r.
Proof.
  unfold Do, Size. destruct (decide (r_size r <> 0%Z)); [by intros [= <- _]|]. destruct (Req r) eqn:E; [|done]. simpl.
  destruct (match _ with Some _ => _ | None => _ end). by intros [= <- _].
Qed.

Lemma Name_host r m q qs :
  r_name r = EmptyString -> Req r = Some m -> mQuestion m = q :: qs -> host_name (qName q) ->
  (Name r).2 = ToLower (qName q).
Proof.
  intros Hn Hr Hq Hh. unfold Name. rewrite decide_False by (by intros []). rewrite Hr, Hq. simpl.
  by rewrite Name_String_host.
Qed.

(** [Match] accepts exactly the responses to the question asked. *)
Lemma Match_spec r reply :
  Match r reply = true <->
  exists q, mQuestion reply = [q] /\ mResponse reply = true /\ ToLower (qName q) = (Name r).2 /\
            qType q = QType r.
Proof.
  unfold Match. split.
  - destruct (mQuestion reply) as [|q [|? ?]]; try done. destruct (mResponse reply); try done. simpl.
    case_decide as Hn; [done|]. case_decide as Ht; [done|]. intros _. exists q.
    done.
  - intros (q & -> & -> & Hn & Ht). simpl. by rewrite !decide_False by (by intros []).
Qed.
End request_proofs.
