(* ===== verification/Less.v ===== *)
(** * The owner-name order of the zone tree (plugin/file/tree/less.go)

    [less] walks two names from their last label to their first, decodes the
    [\DDD] escapes of each label with [doDDD] and compares the bytes.  The
    file models both functions, characterises [less] on valid names as the
    lexicographic order of the reversed, decoded labels, and compares that
    order with the canonical order of RFC 4034 section 6.1. *)

From S2P Require Import Prelude.
From S2P Require Import DnsNames.

(** ** Escapes *)

Definition byteZ (b : ascii) : Z := Z.of_N (N_of_ascii b).
Definition Zbyte (z : Z) : ascii := ascii_of_N (Z.to_N (u8 z)).

Definition isDigit (b : ascii) : bool := bool_decide (48 <= byteZ b <= 57)%Z.

(** [(s[1]-'0')*100 + (s[2]-'0')*10 + (s[3]-'0')] in 8-bit arithmetic. *)
Definition dddToByte (s1 s2 s3 : ascii) : ascii :=
  Zbyte ((byteZ s1 - 48) * 100 + (byteZ s2 - 48) * 10 + (byteZ s3 - 48)).

(** The inner loop: [n] times [b[j] = b[j+3]] from [j] on.  The caller keeps
    [j + 3] inside the slice. *)
Fixpoint doDDD_shift (n j : nat) (b : list ascii) : list ascii :=
  match n with
  | O => b
  | S n' => doDDD_shift n' (S j) (<[j := nth (j + 3) b Ascii.zero]> b)
  end.

(** The outer loop at index [i] with [lb] bytes left to read; the slice keeps
    its length, so the bytes from [lb] on are left-overs of the shifts. *)
Fixpoint doDDD_go (fuel i lb : nat) (b : list ascii) : list ascii :=
  match fuel with
  | O => b
  | S fuel' =>
      if decide (i < lb)%nat then
        match b !! i, b !! (i + 1)%nat, b !! (i + 2)%nat, b !! (i + 3)%nat with
        | Some c0, Some c1, Some c2, Some c3 =>
            if decide (i + 3 < lb)%nat then
              if (bool_decide (c0 = ch_bslash) && isDigit c1 && isDigit c2 && isDigit c3)%bool
              then doDDD_go fuel' (S i) (lb - 3)
                     (doDDD_shift (lb - 3 - (i + 1)) (i + 1) (<[i := dddToByte c1 c2 c3]> b))
              else doDDD_go fuel' (S i) lb b
            else doDDD_go fuel' (S i) lb b
        | _, _, _, _ => doDDD_go fuel' (S i) lb b
        end
      else b
  end.

Definition doDDD (b : list ascii) : list ascii := doDDD_go (length b) 0 (length b) b.

Lemma doDDD_shift_length n j b : length (doDDD_shift n j b) = length b.
Proof. revert j b. induction n as [|n IH]; intros j b; simpl; [done|]. by rewrite IH, length_insert. Qed.

Lemma doDDD_go_length fuel i lb b : length (doDDD_go fuel i lb b) = length b.
Proof.
  revert i lb b. induction fuel as [|fuel IH]; intros i lb b; simpl; [done|].
  repeat go_case; rewrite ?IH, ?doDDD_shift_length, ?length_insert; done.
Qed.

Lemma doDDD_length b : length (doDDD b) = length b.
Proof. apply doDDD_go_length. Qed.

(** Without a backslash there is nothing to decode. *)
Lemma doDDD_plain b : Forall (fun c => c <> ch_bslash) b -> doDDD b = b.
Proof.
  intros Hb. unfold doDDD. generalize (length b) at 2 as lb. generalize 0%nat as i.
  induction (length b) as [|fuel IH]; intros i lb; simpl; [done|].
  repeat go_case; rewrite ?IH; try done.
  exfalso. assert (a = ch_bslash) as ->.
  { destruct (bool_decide (a = ch_bslash)) eqn:E'; [by apply bool_decide_eq_true in E'|].
    by destruct (isDigit a0). }
  rewrite Forall_lookup in Hb. by apply (Hb i ch_bslash).
Qed.

(** ** The comparison *)

Section less.
Context `{DnsNames}.

(** The loop of [less] at label [i] from the right, the labels compared so far
    starting at [aj] and [bj].  [None] is a slice panic or no result. *)
Fixpoint less_go (fuel : nat) (a b : string) (i aj bj : nat) : option Z :=
  match fuel with
  | O => None
  | S fuel' =>
      let '(ai, oka) := PrevLabel a i in
      let '(bi, okb) := PrevLabel b i in
      if (oka && okb)%bool then Some 0%Z
      else
        ab ← slice a ai aj;
        bb ← slice b bi bj;
        let res := bytes_Compare (doDDD (bytes_of ab)) (doDDD (bytes_of bb)) in
        if decide (res = 0%Z) then less_go fuel' a b (S i) ai bi else Some res
  end.

(** A name has fewer labels than bytes, so the loop ends within this fuel. *)
Definition less (a b : string) : option Z :=
  less_go (slen a + slen b + 2) a b 1 (slen a) (slen b).
End less.

(** ** Specification *)

(** The sort key of a name: its labels from the right, each with its dot and
    its escapes decoded in place. *)
Definition key_of (ls : list string) : list (list ascii) :=
  map (fun l => doDDD (bytes_of (l +:+ dot))) (reverse ls).
Definition key (s : string) : list (list ascii) := key_of (dlabels s).

Definition key_cmp : list (list ascii) -> list (list ascii) -> comparison := lex_cmp bytes_cmp.

#[export] Instance key_cmp_total : TotalCompare key_cmp.
Proof. unfold key_cmp, bytes_cmp. apply _. Qed.

(** The canonical order of RFC 4034: labels from the right, each as a
    left-justified octet string. *)
Definition canon_of (ls : list string) : list (list ascii) := map bytes_of (reverse ls).
Definition canonical_cmp (a b : string) : comparison :=
  lex_cmp bytes_cmp (canon_of (labels a)) (canon_of (labels b)).

Lemma length_key_of ls : length (key_of ls) = length ls.
Proof. unfold key_of. by rewrite length_map, length_reverse. Qed.

Lemma key_valid s : valid_name s -> key s = key_of (labels s).
Proof. intros Hv. unfold key. by rewrite dlabels_valid. Qed.

Lemma key_dotted ls : ls <> [] -> Forall label_ok ls -> key (dotted ls) = key_of ls.
Proof.
  intros Hne Hls. rewrite key_valid by (by apply valid_name_dotted). by rewrite labels_dotted.
Qed.

Lemma key_of_app l1 l2 : key_of (l1 ++ l2) = key_of l2 ++ key_of l1.
Proof. unfold key_of. by rewrite reverse_app, map_app. Qed.

Lemma key_of_lookup ls i :
  (i < length ls)%nat ->
  exists l, ls !! (length ls - S i)%nat = Some l /\
            key_of ls !! i = Some (doDDD (bytes_of (l +:+ dot))).
Proof.
  intros Hi. destruct (lookup_lt_is_Some_2 ls (length ls - S i)) as [l Hl]; [lia|].
  exists l. split; [done|]. unfold key_of.
  by rewrite list_lookup_fmap, reverse_lookup, Hl by done.
Qed.

Lemma doDDD_label_ne l : doDDD (bytes_of (l +:+ dot)) <> [].
Proof.
  intros E. apply (f_equal length) in E. rewrite doDDD_length, bytes_of_app, length_app in E.
  simpl in E. lia.
Qed.

(** A name and its key determine each other up to the escapes of its labels. *)
Lemma key_nil s : fq_name s -> key s <> [].
Proof.
  intros Hne%dlabels_ne E. apply (f_equal length) in E. unfold key in E. rewrite length_key_of in E.
  by destruct (dlabels s).
Qed.

Lemma labels_length_le s : name_or_empty s -> (length (dlabels s) <= slen s)%nat.
Proof.
  intros Es%name_or_empty_dotted. rewrite Es at 2. clear Es. induction (dlabels s) as [|l ls IH]; simpl; [lia|].
  slen_norm. lia.
Qed.

(** A proper prefix of a key comes first. *)
Lemma key_cmp_app k1 k2 : k2 <> [] -> key_cmp k1 (k1 ++ k2) = Lt.
Proof.
  intros Hne. unfold key_cmp. induction k1 as [|x k1 IH]; simpl; [by destruct k2|].
  by rewrite (cmp_refl (cmp:=bytes_cmp)).
Qed.

(** Between a key and its extensions there are only extensions. *)
Lemma key_cmp_between k x s :
  key_cmp k x <> Gt -> key_cmp x (k ++ s) <> Gt -> exists s', x = k ++ s'.
Proof.
  unfold key_cmp. revert x. induction k as [|a k IH]; intros x H1 H2; [by exists x|].
  destruct x as [|b x]; simpl in *; [done|].
  destruct (bytes_cmp a b) eqn:E1; [| |done].
  - apply (cmp_eq (cmp:=bytes_cmp)) in E1 as <-. rewrite (cmp_refl (cmp:=bytes_cmp)) in H2.
    destruct (IH x H1 H2) as [s' ->]. by exists s'.
  - rewrite (cmp_opp (cmp:=bytes_cmp) a b), E1 in H2. done.
Qed.

(** Without escapes a name is determined by its key. *)
Lemma doDDD_plain_label l : plain_label l -> doDDD (bytes_of (l +:+ dot)) = bytes_of l ++ [ch_dot].
Proof.
  intros [_ Hl]. rewrite bytes_of_app. apply doDDD_plain. apply Forall_app. split; [|by repeat constructor].
  eapply Forall_impl; [exact Hl|]. by intros c [_ Hc].
Qed.

Lemma key_of_plain_inj ls ls' :
  Forall plain_label ls -> Forall plain_label ls' -> key_of ls = key_of ls' -> ls = ls'.
Proof.
  unfold key_of. intros H1%Forall_reverse H2%Forall_reverse E.
  enough (reverse ls = reverse ls') as Hr by (by apply (inj reverse)). revert H1 H2 E.
  generalize (reverse ls) as l1, (reverse ls') as l2. intros l1 l2 H1. revert l2.
  induction H1 as [|x l1 Hx H1 IH]; intros l2 H2 E; destruct H2 as [|y l2 Hy H2]; try done.
  simpl in E. injection E as E1 E2. rewrite !doDDD_plain_label in E1 by done.
  apply app_inj_tail in E1 as [E1%bytes_of_inj _]. subst. f_equal. by apply IH.
Qed.

Lemma key_of_prefix ls ls' k :
  Forall plain_label ls -> Forall plain_label ls' -> key_of ls = key_of ls' ++ k ->
  exists pre, ls = pre ++ ls'.
Proof.
  intros H1 H2 E. assert (length ls' <= length ls)%nat as Hl.
  { apply (f_equal length) in E. rewrite length_app, !length_key_of in E. lia. }
  exists (take (length ls - length ls') ls).
  rewrite <- (take_drop (length ls - length ls') ls) in E at 1. rewrite key_of_app in E.
  apply app_inj_1 in E as [E _]; [|rewrite !length_key_of, length_drop; lia].
  apply key_of_plain_inj in E; [|by apply Forall_drop|done].
  rewrite <- (take_drop (length ls - length ls') ls) at 1. by rewrite E.
Qed.

Section less_proofs.
Context `{Ok : DnsNamesOk}.

(** One step of the loop reads the next component of the key, or nothing once
    the name is used up. *)
Lemma less_slice s i ai ok :
  name_or_empty s -> PrevLabel s (S i) = (ai, ok) ->
  let n := length (dlabels s) in
  ai = label_start (dlabels s) (n - S i) /\ ok = bool_decide (n <= i)%nat /\
  exists t, slice s ai (label_start (dlabels s) (n - i)) = Some t /\
            doDDD (bytes_of t) = default [] (key s !! i).
Proof.
  intros Hq HP n. pose proof (name_or_empty_dotted s Hq) as Es. unfold n.
  destruct (decide (S i <= length (dlabels s))%nat) as [Hi|Hi].
  - destruct Hq as [->|Hv]; [vm_compute in Hi; lia|]. rewrite PrevLabel_in in HP by done. injection HP as <- <-.
    split; [done|]. split; [by rewrite bool_decide_eq_false_2 by lia|].
    destruct (key_of_lookup (dlabels s) i Hi) as (l & Hl & Hk).
    exists (l +:+ dot). unfold key. rewrite Hk. split; [|done].
    rewrite Es at 1. replace (length (dlabels s) - i)%nat with (S (length (dlabels s) - S i)) by lia.
    by apply label_start_slice.
  - assert (PrevLabel s (S i) = (0%nat, true)) as E.
    { destruct Hq as [->|Hv]; [apply PrevLabel_empty; lia|]. apply PrevLabel_over; [done|lia]. }
    rewrite E in HP. injection HP as <- <-.
    replace (length (dlabels s) - S i)%nat with 0%nat by lia.
    replace (length (dlabels s) - i)%nat with 0%nat by lia.
    split; [done|]. split; [by rewrite bool_decide_eq_true_2 by lia|].
    exists EmptyString. unfold key. rewrite lookup_ge_None_2 by (rewrite length_key_of; lia).
    split; [|done]. unfold slice. by rewrite decide_True by (unfold label_start; simpl; lia).
Qed.

Lemma key_lookup_ge s i : (length (dlabels s) <= i)%nat -> key s !! i = None.
Proof. intros Hi. apply lookup_ge_None_2. unfold key. by rewrite length_key_of. Qed.

Lemma key_drop s i x : key s !! i = Some x -> drop i (key s) = x :: drop (S i) (key s).
Proof. apply drop_S. Qed.

Lemma key_elem_ne s i x : key s !! i = Some x -> x <> [].
Proof.
  intros Hx. assert (i < length (dlabels s))%nat as Hi.
  { apply lookup_lt_Some in Hx. unfold key in Hx. by rewrite length_key_of in Hx. }
  destruct (key_of_lookup _ _ Hi) as (l & _ & Hk). unfold key in Hx. rewrite Hk in Hx.
  injection Hx as <-. apply doDDD_label_ne.
Qed.

(** Comparing components, with a missing one read as the empty string, is
    comparing the keys. *)
Lemma key_cmp_step a b i :
  key_cmp (drop i (key a)) (drop i (key b)) =
  match bytes_cmp (default [] (key a !! i)) (default [] (key b !! i)) with
  | Eq => key_cmp (drop (S i) (key a)) (drop (S i) (key b))
  | c => c
  end.
Proof.
  destruct (key a !! i) as [x|] eqn:Ea; destruct (key b !! i) as [y|] eqn:Eb; simpl.
  - by rewrite (key_drop _ _ _ Ea), (key_drop _ _ _ Eb).
  - rewrite (key_drop _ _ _ Ea), (drop_ge (key b) i) by (by apply lookup_ge_None).
    apply key_elem_ne in Ea. by destruct x.
  - rewrite (key_drop _ _ _ Eb), (drop_ge (key a) i) by (by apply lookup_ge_None).
    apply key_elem_ne in Eb. by destruct y.
  - apply lookup_ge_None in Ea, Eb. by rewrite !drop_ge by lia.
Qed.

Lemma less_go_spec fuel a b i :
  name_or_empty a -> name_or_empty b ->
  (i <= max (length (dlabels a)) (length (dlabels b)) < fuel + i)%nat ->
  less_go fuel a b (S i) (label_start (dlabels a) (length (dlabels a) - i))
                         (label_start (dlabels b) (length (dlabels b) - i)) =
  Some (cmpZ (key_cmp (drop i (key a)) (drop i (key b)))).
Proof.
  intros Ha Hb. revert i. induction fuel as [|fuel IH]; intros i Hf; [lia|].
  simpl. destruct (PrevLabel a (S i)) as [ai oka] eqn:Pa.
  destruct (PrevLabel b (S i)) as [bi okb] eqn:Pb.
  destruct (less_slice a i ai oka Ha Pa) as (-> & -> & ta & Sa & Ka).
  destruct (less_slice b i bi okb Hb Pb) as (-> & -> & tb & Sb & Kb).
  clear Pa Pb. rewrite <- bool_decide_and. case_bool_decide as Hend.
  { rewrite !drop_ge by (unfold key; rewrite length_key_of; lia). done. }
  rewrite Sa, Sb. simpl. rewrite Ka, Kb, key_cmp_step. unfold bytes_Compare.
  destruct (bytes_cmp _ _); [|done|done].
  rewrite decide_True by done. apply IH. lia.
Qed.

(** [less] returns, and compares the keys. *)
Lemma less_spec a b :
  name_or_empty a -> name_or_empty b -> less a b = Some (cmpZ (key_cmp (key a) (key b))).
Proof.
  intros Ha Hb. unfold less.
  rewrite <- (drop_0 (key a)), <- (drop_0 (key b)) at 1.
  rewrite <- (less_go_spec (slen a + slen b + 2) a b 0) by
    (try done; pose proof (labels_length_le a Ha); pose proof (labels_length_le b Hb); lia).
  rewrite !Nat.sub_0_r, !label_start_full.
  by rewrite <- (name_or_empty_dotted a Ha), <- (name_or_empty_dotted b Hb).
Qed.
End less_proofs.

(** ** The order and RFC 4034 *)

(** A byte that sorts after the dot that ends a label. *)
Definition after_dot (c : ascii) : Prop := (46 < byteZ c)%Z /\ c <> ch_bslash.

#[export] Instance after_dot_dec c : Decision (after_dot c).
Proof. unfold after_dot. apply _. Defined.

(** The labels of the name hold letters, digits, '_' and other bytes above the
    dot, and no escapes. *)
Definition after_dot_name (s : string) : Prop :=
  valid_name s /\ Forall (fun l => Forall after_dot (bytes_of l)) (labels s).

#[export] Instance after_dot_name_dec s : Decision (after_dot_name s).
Proof. unfold after_dot_name. apply _. Defined.

Lemma bytes_cmp_dot x y :
  Forall after_dot x -> Forall after_dot y ->
  bytes_cmp (x ++ [ch_dot]) (y ++ [ch_dot]) = bytes_cmp x y.
Proof.
  assert (forall c, after_dot c -> byte_cmp ch_dot c = Lt) as Hlt.
  { intros c [Hc _]. unfold byte_cmp. apply N.compare_lt_iff. unfold byteZ in Hc.
    change (N_of_ascii ch_dot) with 46%N. lia. }
  unfold bytes_cmp. intros Hx. revert y. induction Hx as [|c x Hc Hx IH]; intros y Hy; destruct Hy as [|d y Hd Hy].
  - done.
  - simpl. by rewrite Hlt.
  - simpl. rewrite (cmp_opp (cmp:=byte_cmp) ch_dot c). by rewrite Hlt.
  - simpl. destruct (byte_cmp c d); [|done|done]. by apply IH.
Qed.

Lemma doDDD_after_dot l :
  Forall after_dot (bytes_of l) -> doDDD (bytes_of (l +:+ dot)) = bytes_of l ++ [ch_dot].
Proof.
  intros Hl. rewrite bytes_of_app. apply doDDD_plain. apply Forall_app. split.
  - eapply Forall_impl; [exact Hl|]. by intros c [_ Hc].
  - by repeat constructor.
Qed.

Lemma key_canon a b :
  after_dot_name a -> after_dot_name b -> key_cmp (key a) (key b) = canonical_cmp a b.
Proof.
  intros [Va Ha] [Vb Hb]. unfold key, key_of, canonical_cmp, canon_of. rewrite !dlabels_valid by done.
  apply Forall_reverse in Ha, Hb. revert Ha Hb.
  generalize (reverse (labels a)) as la, (reverse (labels b)) as lb.
  intros la lb Ha. revert lb. unfold key_cmp.
  induction Ha as [|x la Hx Ha IH]; intros lb Hb; destruct Hb as [|y lb Hy Hb]; simpl; try done.
  rewrite !doDDD_after_dot, bytes_cmp_dot by done.
  destruct (bytes_cmp _ _); [|done|done]. by apply IH.
Qed.
