(* ===== verification/Elem.v ===== *)
(** * Elements of the zone tree (plugin/file/tree/elem.go)

    An element holds every record of one owner name, grouped by type in a
    map, and the owner name once it has been asked for. *)

From S2P Require Import Prelude.
From S2P Require Import DnsNames.
From S2P Require Import DnsMsg.
From S2P Require Import Less.

(** A nil map and an empty one behave alike in every operation below, so both
    are the empty [gmap]. *)
Record Elem := mkElem { em : gmap Z (list RR); ename : string }.

Definition newElem (rr : RR) : Elem := mkElem {[ hRrtype rr := [rr] ]} EmptyString.

(** [e.m[qtype]]: nil when the type is absent.  No entry of the map is an
    empty slice ([elem_ok] below), so a nil test is a test for []. *)
Definition Elem_Type (e : Elem) (qtype : Z) : list RR := default [] (em e !! qtype).

(** [dns.Copy] makes a fresh record, on which the owner name is replaced. *)
Definition Elem_TypeForWildcard (e : Elem) (qtype : Z) (qname : string) : list RR :=
  set_hName qname <$> Elem_Type e qtype.

Definition Elem_Empty (e : Elem) : bool := bool_decide (em e = ∅).

Definition Elem_Insert (e : Elem) (rr : RR) : Elem :=
  let t := hRrtype rr in
  match em e !! t with
  | None => mkElem (<[t := [rr]]> (em e)) (ename e)
  | Some rrs => mkElem (<[t := rrs ++ [rr]]> (em e)) (ename e)
  end.

Definition Elem_Delete (e : Elem) (rr : RR) : Elem :=
  mkElem (delete (hRrtype rr) (em e)) (ename e).

Section elem.
Context `{GoRange}.

Definition Elem_Types (e : Elem) : list Z := (go_range (em e)).*1.

Definition Elem_All (e : Elem) : list RR := concat (go_range (em e)).*2.

(** The value [Name] returns; [None] is the index panic of [rrs[0]] on an
    empty slice. *)
Definition Elem_Name (e : Elem) : option string :=
  if decide (ename e = EmptyString) then
    match go_range (em e) with
    | [] => Some EmptyString
    | (_, r :: _) :: _ => Some (hName r)
    | (_, []) :: _ => None
    end
  else Some (ename e).

(** The element after a call of [Name], which keeps the name it found. *)
Definition Elem_named (e : Elem) : option Elem :=
  n ← Elem_Name e; Some (mkElem (em e) n).

Context `{DnsNames}.

(** [Less(a, name)] is [less(name, a.Name())]. *)
Definition Less (a : Elem) (name : string) : option Z :=
  n ← Elem_Name a; less name n.
End elem.

(** ** Well-formed elements *)

Section elem_proofs.
Context `{GR : GoRange}.

(** The sort key of an element. *)
Definition ekey (e : Elem) : list (list ascii) :=
  match Elem_Name e with Some n => key n | None => [] end.

(** The records of an element: grouped under their own type, no empty group,
    and owner names that are valid and compare equal to [k]. *)
Definition group_ok (k : list (list ascii)) (t : Z) (rrs : list RR) : Prop :=
  rrs <> [] /\
  Forall (fun r => hRrtype r = t /\ fq_name (hName r) /\ key (hName r) = k) rrs.

Definition elem_ok (e : Elem) : Prop :=
  exists n, Elem_Name e = Some n /\ fq_name n /\ map_Forall (group_ok (key n)) (em e).

Lemma elem_ok_Name e : elem_ok e -> exists n, Elem_Name e = Some n /\ fq_name n /\ ekey e = key n.
Proof. intros (n & Hn & Hv & _). exists n. unfold ekey. by rewrite Hn. Qed.

Lemma elem_ok_ekey e : elem_ok e -> map_Forall (group_ok (ekey e)) (em e).
Proof. intros (n & Hn & Hv & Hg). unfold ekey. by rewrite Hn. Qed.

(** An element whose groups agree on a key has that key, whichever record
    [Name] happens to pick. *)
Lemma groups_elem_ok k e :
  map_Forall (group_ok k) (em e) ->
  (ename e = EmptyString -> em e <> ∅) ->
  (ename e <> EmptyString -> fq_name (ename e) /\ key (ename e) = k) ->
  elem_ok e /\ ekey e = k.
Proof.
  intros Hg Hne Hnm.
  assert (exists n, Elem_Name e = Some n /\ fq_name n /\ key n = k) as (n & Hn & Hv & Hk).
  { unfold Elem_Name. case_decide as Hd.
    - specialize (Hne Hd). destruct (go_range (em e)) as [|[t rrs] l] eqn:E.
      { by apply go_range_nil in E. }
      assert ((t, rrs) ∈ go_range (em e)) as Hin by (rewrite E; apply list_elem_of_here).
      apply go_range_elem in Hin. destruct (Hg _ _ Hin) as [Hr Hall].
      destruct Hall as [|r rrs (_ & Hv & Hk) _]; [done|]. by exists (hName r).
    - destruct (Hnm Hd) as [Hv Hk]. by exists (ename e). }
  unfold elem_ok, ekey. rewrite Hn. split; [|done]. exists n. by rewrite Hk.
Qed.

Lemma newElem_ok rr : fq_name (hName rr) -> elem_ok (newElem rr) /\ ekey (newElem rr) = key (hName rr).
Proof.
  intros Hv. apply groups_elem_ok; simpl; [|done|done].
  apply map_Forall_singleton. split; [done|]. by rewrite Forall_singleton.
Qed.

Lemma Elem_cached_ok e : elem_ok e -> ename e <> EmptyString ->
  fq_name (ename e) /\ key (ename e) = ekey e.
Proof.
  intros (n & Hn & Hv & _) Hne. unfold ekey. rewrite Hn. unfold Elem_Name in Hn.
  rewrite decide_False in Hn by done. by injection Hn as ->.
Qed.

Lemma em_Insert e rr : em (Elem_Insert e rr) = <[hRrtype rr := Elem_Type e (hRrtype rr) ++ [rr]]> (em e).
Proof. unfold Elem_Insert, Elem_Type. by destruct (em e !! hRrtype rr). Qed.

Lemma ename_Insert e rr : ename (Elem_Insert e rr) = ename e.
Proof. unfold Elem_Insert. by destruct (em e !! hRrtype rr). Qed.

Lemma Elem_Type_group e t : elem_ok e -> Elem_Type e t = [] \/ group_ok (ekey e) t (Elem_Type e t).
Proof.
  intros He. unfold Elem_Type. destruct (em e !! t) as [rrs|] eqn:E; [right|by left].
  by apply (elem_ok_ekey e He).
Qed.

Lemma Elem_Insert_ok e rr :
  elem_ok e -> fq_name (hName rr) -> key (hName rr) = ekey e ->
  elem_ok (Elem_Insert e rr) /\ ekey (Elem_Insert e rr) = ekey e.
Proof.
  intros He Hv Hk. apply groups_elem_ok.
  - rewrite em_Insert. apply map_Forall_insert_2; [|by apply elem_ok_ekey].
    split; [by destruct (Elem_Type e (hRrtype rr))|]. apply Forall_app. split; [|by rewrite Forall_singleton].
    destruct (Elem_Type_group e (hRrtype rr) He) as [->|[_ Hg]]; [constructor|done].
  - rewrite em_Insert. intros _. apply insert_non_empty.
  - rewrite ename_Insert. by apply Elem_cached_ok.
Qed.

(** After [Name] has been called the records may all go: the name stays. *)
Lemma Elem_named_ok e : elem_ok e ->
  exists e', Elem_named e = Some e' /\ em e' = em e /\ ename e' <> EmptyString /\
             elem_ok e' /\ ekey e' = ekey e.
Proof.
  intros He. destruct (elem_ok_Name e He) as (n & Hn & Hv & Hk).
  exists (mkElem (em e) n). unfold Elem_named. rewrite Hn. simpl.
  assert (n <> EmptyString) by (by apply fq_name_ne).
  split; [done|]. split; [done|]. split; [done|].
  apply groups_elem_ok; simpl; [by apply elem_ok_ekey|done|done].
Qed.

Lemma Elem_Delete_ok e rr : elem_ok e -> ename e <> EmptyString ->
  elem_ok (Elem_Delete e rr) /\ ekey (Elem_Delete e rr) = ekey e.
Proof.
  intros He Hne. apply groups_elem_ok; simpl; [|done|].
  - apply map_Forall_delete. by apply elem_ok_ekey.
  - intros _. by apply Elem_cached_ok.
Qed.

Lemma Elem_Type_Insert e rr t :
  Elem_Type (Elem_Insert e rr) t =
  if decide (t = hRrtype rr) then Elem_Type e t ++ [rr] else Elem_Type e t.
Proof.
  unfold Elem_Type at 1. rewrite em_Insert. case_decide as Hd.
  - subst t. by rewrite lookup_insert_eq.
  - by rewrite lookup_insert_ne.
Qed.

Lemma Elem_Type_newElem rr t :
  Elem_Type (newElem rr) t = if decide (t = hRrtype rr) then [rr] else [].
Proof.
  unfold Elem_Type, newElem. simpl. case_decide as Hd.
  - subst t. by rewrite lookup_singleton_eq.
  - by rewrite lookup_singleton_ne.
Qed.

(** [All] returns exactly the records filed under some type. *)
Lemma Elem_All_elem e r : r ∈ Elem_All e <-> exists t, r ∈ Elem_Type e t.
Proof.
  unfold Elem_All, Elem_Type. rewrite list_elem_of_In, in_concat.
  split.
  - intros (rrs & Hin & Hr). apply list_elem_of_In, list_elem_of_fmap in Hin as ([t l] & -> & Hin).
    apply go_range_elem in Hin. exists t. rewrite Hin. by apply list_elem_of_In.
  - intros (t & Hr). destruct (em e !! t) as [rrs|] eqn:E; [|by apply elem_of_nil in Hr].
    exists rrs. split; [|by apply list_elem_of_In]. apply list_elem_of_In, list_elem_of_fmap.
    exists (t, rrs). split; [done|]. by apply go_range_elem.
Qed.

Context `{DnsNamesOk}.

Lemma Less_spec e q : elem_ok e -> name_or_empty q -> Less e q = Some (cmpZ (key_cmp (key q) (ekey e))).
Proof.
  intros He Hq. destruct (elem_ok_Name e He) as (n & Hn & Hv & Hk). unfold Less.
  rewrite Hn, Hk. simpl. apply less_spec; [done|by right].
Qed.
End elem_proofs.
