(* ===== verification/Tree.v ===== *)
(** * The left-leaning red-black tree of a zone (plugin/file/tree)

    Definitions: the tree of tree.go with its rotations, insertion, deletion,
    search, minimum, maximum, floor and ceiling, and the traversals of all.go,
    walk.go and auth_walk.go.  A nil dereference is [None].  The operation
    mode of the Go package is the constant bu23, so its td234 branches are
    dead and do not appear. *)

From S2P Require Import Prelude.
From S2P Require Import DnsNames.
From S2P Require Import DnsMsg.
From S2P Require Import Less.
From S2P Require Import Elem.

Inductive Color := red | black.

#[export] Instance Color_eq_dec : EqDecision Color.
Proof. solve_decision. Defined.

Definition negc (c : Color) : Color := match c with red => black | black => red end.

(** A [*Node].  Every node is allocated with an element (in [insert]), so the
    Elem pointer is never nil. *)
Inductive Node :=
  | Nil
  | Nd (Elem : Elem) (Left Right : Node) (Color : Color).

Record Tree := mkTree { Root : Node; Count : Z }.

(** [n.Left], [n.Right] and [n.Elem]. *)
Definition nLeft (n : Node) : option Node := match n with Nil => None | Nd _ l _ _ => Some l end.
Definition nRight (n : Node) : option Node := match n with Nil => None | Nd _ _ r _ => Some r end.
Definition nElem (n : Node) : option Elem := match n with Nil => None | Nd e _ _ _ => Some e end.

(** [n.Color = c] and [n.Color = !n.Color]. *)
Definition setColor (c : Color) (n : Node) : option Node :=
  match n with Nil => None | Nd e l r _ => Some (Nd e l r c) end.

Definition color (n : Node) : Color := match n with Nil => black | Nd _ _ _ c => c end.

Definition is_red (n : Node) : bool := bool_decide (color n = red).

Definition rotateLeft (n : Node) : option Node :=
  match n with
  | Nd e l (Nd re rl rr _) c => Some (Nd re (Nd e l rl red) rr c)
  | _ => None
  end.

Definition rotateRight (n : Node) : option Node :=
  match n with
  | Nd e (Nd le ll lr _) r c => Some (Nd le ll (Nd e lr r red) c)
  | _ => None
  end.

Definition flipColors (n : Node) : option Node :=
  match n with
  | Nd e (Nd le ll lr lc) (Nd re rl rr rc) c =>
      Some (Nd e (Nd le ll lr (negc lc)) (Nd re rl rr (negc rc)) (negc c))
  | _ => None
  end.

(** [n.Left.color() == red && n.Left.Left.color() == red]. *)
Definition left_red_red (n : Node) : option bool :=
  l ← nLeft n;
  if is_red l then ll ← nLeft l; Some (is_red ll) else Some false.

(** [n.Left.color() == red && n.Right.color() == red]. *)
Definition both_red (n : Node) : option bool :=
  l ← nLeft n; r ← nRight n; Some (is_red l && is_red r)%bool.

Definition fixUp (n : Node) : option Node :=
  r ← nRight n;
  n ← (if is_red r then rotateLeft n else Some n);
  b ← left_red_red n;
  n ← (if b : bool then rotateRight n else Some n);
  b ← both_red n;
  if b : bool then flipColors n else Some n.

Definition moveRedLeft (n : Node) : option Node :=
  n ← flipColors n;
  r ← nRight n;
  rl ← nLeft r;
  if is_red rl then
    r' ← rotateRight r;
    match n with
    | Nil => None
    | Nd e l _ c => n ← rotateLeft (Nd e l r' c); flipColors n
    end
  else Some n.

Definition moveRedRight (n : Node) : option Node :=
  n ← flipColors n;
  l ← nLeft n;
  ll ← nLeft l;
  if is_red ll then n ← rotateRight n; flipColors n else Some n.

(** The rebalancing at the end of [insert]. *)
Definition insert_fix (n : Node) : option Node :=
  l ← nLeft n;
  r ← nRight n;
  n ← (if (is_red r && negb (is_red l))%bool then rotateLeft n else Some n);
  b ← left_red_red n;
  n ← (if b : bool then rotateRight n else Some n);
  b ← both_red n;
  if b : bool then flipColors n else Some n.

Definition Tree_Len (t : Tree) : Z := Count t.

Section tree.
Context `{GoRange} `{DnsNames}.

(** [search] and [Search]: [Some (Some e)] is the pair (e, true),
    [Some None] the pair (nil, false). *)
Fixpoint Node_search (n : Node) (qname : string) : option (option Elem) :=
  match n with
  | Nil => Some None
  | Nd e l r _ =>
      c ← Less e qname;
      if decide (c = 0)%Z then Some (Some e)
      else if decide (c < 0)%Z then Node_search l qname
      else Node_search r qname
  end.

Definition Tree_Search (t : Tree) (qname : string) : option (option Elem) :=
  Node_search (Root t) qname.

Fixpoint Node_insert (n : Node) (rr : RR) : option (Node * Z) :=
  match n with
  | Nil => Some (Nd (newElem rr) Nil Nil red, 1%Z)
  | Nd e l r col =>
      c ← Less e (hName rr);
      '(n, d) ← (if decide (c = 0)%Z then Some (Nd (Elem_Insert e rr) l r col, 0%Z)
                 else if decide (c < 0)%Z
                 then '(l', d) ← Node_insert l rr; Some (Nd e l' r col, d)
                 else '(r', d) ← Node_insert r rr; Some (Nd e l r' col, d));
      n ← insert_fix n;
      Some (n, d)
  end.

Definition Tree_Insert (t : Tree) (rr : RR) : option Tree :=
  '(n, d) ← Node_insert (Root t) rr;
  n ← setColor black n;
  Some (mkTree n (Count t + d)).

(** The recursion of the delete functions follows a rotated tree, so it takes
    fuel: the number of nodes is enough. *)
Fixpoint Node_deleteMin (fuel : nat) (n : Node) : option (Node * Z) :=
  match fuel with
  | O => None
  | S fuel' =>
      l ← nLeft n;
      match l with
      | Nil => Some (Nil, (-1)%Z)
      | Nd _ ll _ lc =>
          n ← (if (bool_decide (lc = black) && negb (is_red ll))%bool then moveRedLeft n else Some n);
          match n with
          | Nil => None
          | Nd e l r c =>
              '(l', d) ← Node_deleteMin fuel' l;
              n ← fixUp (Nd e l' r c);
              Some (n, d)
          end
      end
  end.

Fixpoint Node_deleteMax (fuel : nat) (n : Node) : option (Node * Z) :=
  match fuel with
  | O => None
  | S fuel' =>
      l ← nLeft n;
      n ← (if is_red l then rotateRight n else Some n);
      r ← nRight n;
      match r with
      | Nil => Some (Nil, (-1)%Z)
      | Nd _ rl _ rc =>
          n ← (if (bool_decide (rc = black) && negb (is_red rl))%bool then moveRedRight n else Some n);
          match n with
          | Nil => None
          | Nd e l r c =>
              '(r', d) ← Node_deleteMax fuel' r;
              n ← fixUp (Nd e l r' c);
              Some (n, d)
          end
      end
  end.

Fixpoint Node_min (n : Node) : option Elem :=
  match n with
  | Nil => None
  | Nd e Nil _ _ => Some e
  | Nd _ l _ _ => Node_min l
  end.

Fixpoint Node_max (n : Node) : option Elem :=
  match n with
  | Nil => None
  | Nd e _ Nil _ => Some e
  | Nd _ _ r _ => Node_max r
  end.

(** [q] is [rr.Header().Name], the only part of rr that delete reads. *)
Fixpoint Node_delete (fuel : nat) (n : Node) (q : string) : option (Node * Z) :=
  match fuel with
  | O => None
  | S fuel' =>
      e ← nElem n;
      c ← Less e q;
      '(n, d) ←
        (if decide (c < 0)%Z then
           l ← nLeft n;
           match l with
           | Nil => Some (n, 0%Z)
           | Nd _ ll _ lc =>
               n ← (if (bool_decide (lc = black) && negb (is_red ll))%bool then moveRedLeft n else Some n);
               match n with
               | Nil => None
               | Nd e l r c => '(l', d) ← Node_delete fuel' l q; Some (Nd e l' r c, d)
               end
           end
         else
           l ← nLeft n;
           n ← (if is_red l then rotateRight n else Some n);
           r ← nRight n;
           match r with
           | Nil =>
               e ← nElem n;
               c ← Less e q;
               if decide (c = 0)%Z then Some (Nil, (-1)%Z) else Some (n, 0%Z)
           | Nd _ rl _ rc =>
               n ← (if (bool_decide (rc = black) && negb (is_red rl))%bool then moveRedRight n else Some n);
               match n with
               | Nil => None
               | Nd e l r col =>
                   c ← Less e q;
                   if decide (c = 0)%Z then
                     m ← Node_min r;
                     '(r', d) ← Node_deleteMin fuel' r;
                     Some (Nd m l r' col, d)
                   else '(r', d) ← Node_delete fuel' r q; Some (Nd e l r' col, d)
               end
           end);
      match n with
      | Nil => Some (Nil, d)
      | _ => n ← fixUp n; Some (n, d)
      end
  end.

(** The elements of a tree, in order. *)
Fixpoint elems (n : Node) : list Elem :=
  match n with Nil => [] | Nd e l r _ => elems l ++ e :: elems r end.

(** The common end of the exported delete methods. *)
Definition finish (t : Tree) (res : option (Node * Z)) : option Tree :=
  '(n, d) ← res;
  match n with
  | Nil => Some (mkTree Nil (Count t + d))
  | Nd e l r _ => Some (mkTree (Nd e l r black) (Count t + d))
  end.

Definition Tree_DeleteMin (t : Tree) : option Tree :=
  match Root t with
  | Nil => Some t
  | n => finish t (Node_deleteMin (length (elems n)) n)
  end.

Definition Tree_DeleteMax (t : Tree) : option Tree :=
  match Root t with
  | Nil => Some t
  | n => finish t (Node_deleteMax (length (elems n)) n)
  end.

Definition Tree_deleteNode (t : Tree) (rr : RR) : option Tree :=
  match Root t with
  | Nil => Some t
  | n => finish t (Node_delete (length (elems n)) n (hName rr))
  end.

(** The tree after a write through the element pointer that [search] returned. *)
Fixpoint Node_store (n : Node) (qname : string) (e' : Elem) : option Node :=
  match n with
  | Nil => Some Nil
  | Nd e l r col =>
      c ← Less e qname;
      if decide (c = 0)%Z then Some (Nd e' l r col)
      else if decide (c < 0)%Z then l' ← Node_store l qname e'; Some (Nd e l' r col)
      else r' ← Node_store r qname e'; Some (Nd e l r' col)
  end.

(** [Search] has called [Name] on the element it returns, so the element keeps
    its name when its last record goes. *)
Definition Tree_Delete (t : Tree) (rr : RR) : option Tree :=
  match Root t with
  | Nil => Some t
  | n =>
      res ← Tree_Search t (hName rr);
      match res with
      | None => Some t
      | Some el =>
          el ← Elem_named el;
          let el := Elem_Delete el rr in
          n ← Node_store n (hName rr) el;
          let t := mkTree n (Count t) in
          if Elem_Empty el then Tree_deleteNode t rr else Some t
      end
  end.

(** [Min] and [Max]: [Some None] is the nil element of the empty tree. *)
Definition Tree_Min (t : Tree) : option (option Elem) :=
  match Root t with Nil => Some None | n => e ← Node_min n; Some (Some e) end.

Definition Tree_Max (t : Tree) : option (option Elem) :=
  match Root t with Nil => Some None | n => e ← Node_max n; Some (Some e) end.

Fixpoint Node_floor (n : Node) (qname : string) : option (option Elem) :=
  match n with
  | Nil => Some None
  | Nd e l r _ =>
      c ← Less e qname;
      if decide (c = 0)%Z then Some (Some e)
      else if decide (c <= 0)%Z then Node_floor l qname
      else
        res ← Node_floor r qname;
        match res with Some x => Some (Some x) | None => Some (Some e) end
  end.

Definition Tree_Prev (t : Tree) (qname : string) : option (option Elem) :=
  Node_floor (Root t) qname.

Fixpoint Node_ceil (n : Node) (qname : string) : option (option Elem) :=
  match n with
  | Nil => Some None
  | Nd e l r _ =>
      c ← Less e qname;
      if decide (c = 0)%Z then Some (Some e)
      else if decide (c > 0)%Z then Node_ceil r qname
      else
        res ← Node_ceil l qname;
        match res with Some x => Some (Some x) | None => Some (Some e) end
  end.

Definition Tree_Next (t : Tree) (qname : string) : option (option Elem) :=
  Node_ceil (Root t) qname.

Fixpoint Node_all (n : Node) (found : list Elem) : list Elem :=
  match n with
  | Nil => found
  | Nd e l r _ => Node_all r (Node_all l found ++ [e])
  end.

Definition Tree_All (t : Tree) : list Elem := Node_all (Root t) [].

(** The callbacks of the walks act on a state [St] and may stop the walk with
    an error. *)
Section walk.
Context {St E : Type}.

Fixpoint Node_walk (fn : Elem -> gmap Z (list RR) -> St -> St * option E)
    (n : Node) (s : St) : St * option E :=
  match n with
  | Nil => (s, None)
  | Nd e l r _ =>
      match Node_walk fn l s with
      | (s, Some err) => (s, Some err)
      | (s, None) =>
          match fn e (em e) s with
          | (s, Some err) => (s, Some err)
          | (s, None) => Node_walk fn r s
          end
      end
  end.

Definition Tree_Walk (fn : Elem -> gmap Z (list RR) -> St -> St * option E)
    (t : Tree) (s : St) : St * option E := Node_walk fn (Root t) s.

(** The loop that looks for a delegated name above [name]: from offset [i],
    one byte further each turn. *)
Fixpoint authwalk_loop (fuel : nat) (ns : gset string) (name : string) (i : nat) : option bool :=
  match fuel with
  | O => None
  | S fuel' =>
      let '(j, eos) := NextLabel name i in
      if (eos : bool) then Some true
      else
        suffix ← slice_from name j;
        if decide (suffix ∈ ns) then Some false else authwalk_loop fuel' ns name (S i)
  end.

Fixpoint Node_authwalk (fn : Elem -> gmap Z (list RR) -> bool -> St -> St * option E)
    (n : Node) (ns : gset string) (s : St) : option (gset string * St * option E) :=
  match n with
  | Nil => Some (ns, s, None)
  | Nd e l r _ =>
      '(ns, s, err) ← Node_authwalk fn l ns s;
      match err with
      | Some err => Some (ns, s, Some err)
      | None =>
          name ← Elem_Name e;
          let ns := if decide (Elem_Type e TypeNS = []) then ns else {[ name ]} ∪ ns in
          auth ← authwalk_loop (slen name + 1) ns name 0;
          match fn e (em e) auth s with
          | (s, Some err) => Some (ns, s, Some err)
          | (s, None) => Node_authwalk fn r ns s
          end
      end
  end.

Definition Tree_AuthWalk (fn : Elem -> gmap Z (list RR) -> bool -> St -> St * option E)
    (t : Tree) (s : St) : option (St * option E) :=
  '(_, s, err) ← Node_authwalk fn (Root t) ∅ s; Some (s, err).
End walk.
End tree.
