(* ===== verification/TreeBalance.v ===== *)
(** * Balance of the zone tree

    [llrb h c n]: [n] is a left-leaning red-black tree with black height [h]
    and root colour [c] (no red node has a red child, no right child is red,
    and all paths cross [h] black nodes).  Insertion and deletion return, so
    they meet no nil pointer, and keep this invariant. *)

From S2P Require Import Prelude.
From S2P Require Import DnsNames.
From S2P Require Import DnsMsg.
From S2P Require Import Less.
From S2P Require Import Elem.
From S2P Require Import Tree.

Inductive llrb : nat -> Color -> Node -> Prop :=
  | llrb_nil : llrb 0 black Nil
  | llrb_red h e l r :
      llrb h black l -> llrb h black r -> llrb h red (Nd e l r red)
  | llrb_black h cl e l r :
      llrb h cl l -> llrb h black r -> llrb (S h) black (Nd e l r black).

(** A tree as the exported methods leave it: a black root. *)
Definition balanced (n : Node) : Prop := exists h, llrb h black n.

Create HintDb llrb.
#[export] Hint Constructors llrb : llrb.

Lemma llrb_color h c n : llrb h c n -> color n = c.
Proof. by destruct 1. Qed.

(** A red node whose left child may be red too: what an insertion may return
    below a black node. *)
Definition infrared (h : nat) (n : Node) : Prop :=
  exists e l r cl, n = Nd e l r red /\ llrb h cl l /\ llrb h black r.

(** Break a subtree whose colour is known. *)
Ltac llrb_inv :=
  repeat match goal with
  | H : llrb _ red ?n |- _ => is_var n; inversion H; clear H; subst
  | H : llrb _ _ (Nd _ _ _ _) |- _ => inversion H; clear H; subst
  | H : llrb _ _ Nil |- _ => inversion H; clear H; subst
  | H : infrared _ _ |- _ => destruct H as (? & ? & ? & ? & ? & ? & ?); subst
  end.

(** Test whether a black subtree is nil; its colour is black either way. *)
Lemma is_red_black h n : llrb h black n -> is_red n = false.
Proof. intros H%llrb_color. unfold is_red. by rewrite H. Qed.

Lemma is_red_red h n : llrb h red n -> is_red n = true.
Proof. intros H%llrb_color. unfold is_red. by rewrite H. Qed.

Ltac red_simpl :=
  repeat (simpl; match goal with
  | H : llrb _ black ?n |- context [is_red ?n] => rewrite (is_red_black _ _ H)
  | H : llrb _ red ?n |- context [is_red ?n] => rewrite (is_red_red _ _ H)
  end); simpl.

(** ** Rotations and the in-order list *)

Lemma rotateLeft_elems n n' : rotateLeft n = Some n' -> elems n' = elems n.
Proof.
  destruct n as [|e l [|re rl rr rc] c]; simpl; try done. intros [= <-]. simpl. by rewrite <- app_assoc.
Qed.

Lemma rotateRight_elems n n' : rotateRight n = Some n' -> elems n' = elems n.
Proof.
  destruct n as [|e [|le ll lr lc] r c]; simpl; try done. intros [= <-]. simpl. by rewrite <- app_assoc.
Qed.

Lemma flipColors_elems n n' : flipColors n = Some n' -> elems n' = elems n.
Proof. destruct n as [|e [|le ll lr lc] [|re rl rr rc] c]; simpl; try done. by intros [= <-]. Qed.

Create HintDb elems.
#[export] Hint Resolve rotateLeft_elems rotateRight_elems flipColors_elems : elems.

(** Replace the in-order list of each intermediate tree by the first one's. *)
Ltac elems_chain :=
  repeat match goal with
  | H : rotateLeft _ = Some _ |- _ => apply rotateLeft_elems in H
  | H : rotateRight _ = Some _ |- _ => apply rotateRight_elems in H
  | H : flipColors _ = Some _ |- _ => apply flipColors_elems in H
  end.

#[local] Opaque rotateLeft rotateRight flipColors.

Lemma fixUp_elems n n' : fixUp n = Some n' -> elems n' = elems n.
Proof.
  unfold fixUp. intros Hf. simplify_option_eq; repeat case_match; simplify_eq; elems_chain; congruence.
Qed.

Lemma insert_fix_elems n n' : insert_fix n = Some n' -> elems n' = elems n.
Proof.
  unfold insert_fix. intros Hf. simplify_option_eq; repeat case_match; simplify_eq; elems_chain; congruence.
Qed.

Lemma moveRedRight_elems n n' : moveRedRight n = Some n' -> elems n' = elems n.
Proof.
  unfold moveRedRight. intros Hf.
  simplify_option_eq; repeat case_match; simplify_option_eq; elems_chain; congruence.
Qed.

Lemma moveRedLeft_elems n n' : moveRedLeft n = Some n' -> elems n' = elems n.
Proof.
  unfold moveRedLeft. intros Hf.
  simplify_option_eq; repeat case_match; simplify_option_eq; elems_chain; simpl in *; congruence.
Qed.

#[local] Transparent rotateLeft rotateRight flipColors.

(** ** Insertion *)

(** What an insertion into a tree of black height [h] and colour [c] gives. *)
Definition ins_post (h : nat) (c : Color) (n : Node) : Prop :=
  match c with black => exists c', llrb h c' n | red => infrared h n end.

Lemma insert_fix_same h c e l r :
  llrb h c (Nd e l r c) -> insert_fix (Nd e l r c) = Some (Nd e l r c).
Proof.
  intros H. unfold insert_fix, left_red_red, both_red. inversion H; subst; red_simpl; [done|].
  destruct cl; red_simpl; [|done]. llrb_inv. red_simpl. done.
Qed.

Lemma insert_fix_left_black h cl e l' r :
  ins_post h cl l' -> llrb h black r ->
  exists n, insert_fix (Nd e l' r black) = Some n /\ ins_post (S h) black n.
Proof.
  intros Hl Hr. unfold insert_fix, left_red_red, both_red. destruct cl.
  - destruct Hl as (e' & l & r' & [] & -> & Hl & Hr'); llrb_inv; red_simpl; eauto 10 with llrb.
  - destruct Hl as [[] Hl]; llrb_inv; red_simpl; eauto 10 with llrb.
Qed.

Lemma insert_fix_right_black h cl e l r' :
  llrb h cl l -> ins_post h black r' ->
  exists n, insert_fix (Nd e l r' black) = Some n /\ ins_post (S h) black n.
Proof.
  intros Hl [cr Hr]. unfold insert_fix, left_red_red, both_red.
  destruct cl, cr; llrb_inv; red_simpl; eauto 10 with llrb.
Qed.

Lemma insert_fix_left_red h e l' r :
  ins_post h black l' -> llrb h black r ->
  exists n, insert_fix (Nd e l' r red) = Some n /\ ins_post h red n.
Proof.
  intros [cl Hl] Hr. unfold insert_fix, left_red_red, both_red.
  destruct cl; llrb_inv; red_simpl; (eexists; split; [reflexivity|]);
    do 4 eexists; (split; [reflexivity|]); eauto with llrb.
Qed.

Lemma insert_fix_right_red h e l r' :
  llrb h black l -> ins_post h black r' ->
  exists n, insert_fix (Nd e l r' red) = Some n /\ ins_post h red n.
Proof.
  intros Hl [cr Hr]. unfold insert_fix, left_red_red, both_red.
  destruct cr; llrb_inv; red_simpl; (eexists; split; [reflexivity|]);
    do 4 eexists; (split; [reflexivity|]); eauto with llrb.
Qed.

Section insertion.
Context `{GR : GoRange} `{Ok : DnsNamesOk}.

Lemma Node_insert_balance h c n rr :
  llrb h c n -> Forall elem_ok (elems n) -> fq_name (hName rr) ->
  exists n' d, Node_insert n rr = Some (n', d) /\ ins_post h c n'.
Proof.
  intros Hn Hok Hv. induction Hn as [|h e l r Hl IHl Hr IHr|h cl e l r Hl IHl Hr IHr].
  { simpl. eauto 10 with llrb. }
  - simpl in Hok. apply Forall_app in Hok as [Hokl [He Hokr]%Forall_cons_iff].
    destruct (IHl Hokl) as (l' & dl & El & Pl). destruct (IHr Hokr) as (r' & dr & Er & Pr).
    simpl. rewrite (Less_spec e _ He (or_intror Hv)). destruct (key_cmp _ _); simpl.
    + erewrite insert_fix_same by eauto with llrb. simpl. do 2 eexists; split; [done|].
      do 4 eexists. split; [done|]. eauto.
    + rewrite El. simpl. destruct (insert_fix_left_red h e l' r Pl Hr) as (n & -> & Hn). simpl. eauto.
    + rewrite Er. simpl. destruct (insert_fix_right_red h e l r' Hl Pr) as (n & -> & Hn). simpl. eauto.
  - simpl in Hok. apply Forall_app in Hok as [Hokl [He Hokr]%Forall_cons_iff].
    destruct (IHl Hokl) as (l' & dl & El & Pl). destruct (IHr Hokr) as (r' & dr & Er & Pr).
    simpl. rewrite (Less_spec e _ He (or_intror Hv)). destruct (key_cmp _ _); simpl.
    + erewrite insert_fix_same by eauto with llrb. simpl. do 2 eexists; split; [done|].
      eauto with llrb.
    + rewrite El. simpl. destruct (insert_fix_left_black h cl e l' r Pl Hr) as (n & -> & Hn). simpl. eauto.
    + rewrite Er. simpl. destruct (insert_fix_right_black h cl e l r' Hl Pr) as (n & -> & Hn). simpl. eauto.
Qed.

Lemma setColor_balanced h c n :
  ins_post h c n -> n <> Nil -> exists n', setColor black n = Some n' /\ balanced n' /\ elems n' = elems n.
Proof.
  unfold balanced. destruct c; simpl.
  - intros (e & l & r & cl & -> & Hl & Hr) _. simpl. eauto 10 with llrb.
  - intros [c Hb] Hne. destruct Hb; [done|..]; simpl; eauto 10 with llrb.
Qed.
End insertion.

(** ** Deletion *)

(** The shapes in which a delete function meets a node: a red one, or a black
    one with a red child on the side it will take.  A black node with a red
    right child occurs only where its own element satisfies [P]. *)
Inductive dstate : nat -> Color -> Node -> Prop :=
  | ds_red h n : llrb h red n -> dstate h red n
  | ds_left h e l r :
      llrb h red l -> llrb h black r -> dstate (S h) black (Nd e l r black).

Inductive rstate (P : Elem -> Prop) : nat -> Color -> Node -> Prop :=
  | rs_ds h c n : dstate h c n -> rstate P h c n
  | rs_right h e l r :
      P e -> llrb h black l -> llrb h red r -> rstate P (S h) black (Nd e l r black).

(** What it leaves: black stays black. *)
Definition del_post (h : nat) (c : Color) (n : Node) : Prop :=
  match c with red => exists c', llrb h c' n | black => llrb h black n end.

Lemma fixUp_same h c e l r :
  llrb h c (Nd e l r c) -> fixUp (Nd e l r c) = Some (Nd e l r c).
Proof.
  intros Hn. unfold fixUp, left_red_red, both_red. inversion Hn; subst; red_simpl; [done|].
  destruct cl; red_simpl; [|done]. llrb_inv. red_simpl. done.
Qed.

(** The left child of two red siblings has been rebuilt. *)
Lemma fixUp_left h c e l' r :
  llrb h c l' -> llrb h red r ->
  exists n c', fixUp (Nd e l' r black) = Some n /\ llrb (S h) c' n.
Proof.
  intros Hl Hr. unfold fixUp, left_red_red, both_red.
  destruct c; llrb_inv; red_simpl; eauto 10 with llrb.
Qed.

(** The right child has been rebuilt. *)
Lemma fixUp_right h c e l r' :
  llrb h red l -> llrb h c r' ->
  exists n c', fixUp (Nd e l r' black) = Some n /\ llrb (S h) c' n.
Proof.
  intros Hl Hr. unfold fixUp, left_red_red, both_red.
  destruct c; llrb_inv; red_simpl; eauto 10 with llrb.
Qed.

Lemma fixUp_right_black h c e l r' :
  llrb h black l -> llrb h c r' ->
  exists n, fixUp (Nd e l r' black) = Some n /\ llrb (S h) black n.
Proof.
  intros Hl Hr. unfold fixUp, left_red_red, both_red.
  destruct c; llrb_inv; red_simpl; eauto 10 with llrb.
Qed.

(** A red node lends its colour to its left child, which may take a node from
    a sibling that can spare one. *)
Lemma moveRedLeft_ok h e le ll lr r :
  llrb h black ll -> llrb h black lr -> llrb (S h) black r ->
  exists n, moveRedLeft (Nd e (Nd le ll lr black) r red) = Some n /\
    ((exists e' l' r', n = Nd e' l' r' red /\ e ∈ elems l' /\
        dstate (S h) black l' /\ llrb (S h) black r') \/
     (exists l' r', n = Nd e l' r' black /\ dstate h red l' /\ llrb h red r')).
Proof.
  intros Hll Hlr Hr. inversion Hr as [| |h' cl re rl rr Hrl Hrr]; subst. unfold moveRedLeft.
  destruct cl.
  - inversion Hrl as [|h' re' a b Ha Hb|]; subst. simpl. eexists; split; [reflexivity|]. left.
    do 3 eexists; split; [reflexivity|]. split; [simpl; set_solver|].
    split; [constructor|]; eauto with llrb.
  - red_simpl. eexists; split; [reflexivity|]. right.
    do 2 eexists; split; [reflexivity|]. split; [constructor|]; eauto with llrb.
Qed.

Lemma moveRedRight_ok h e l re rl rr :
  llrb (S h) black l -> llrb h black rl -> llrb h black rr ->
  exists n, moveRedRight (Nd e l (Nd re rl rr black) red) = Some n /\
    ((exists e' l' lr, n = Nd e' l' (Nd e lr (Nd re rl rr red) black) red /\
        llrb (S h) black l' /\ llrb h black lr) \/
     (exists l', n = Nd e l' (Nd re rl rr red) black /\ llrb h red l')).
Proof.
  intros Hl Hrl Hrr. inversion Hl as [| |h' cl le ll lr Hll Hlr]; subst. unfold moveRedRight.
  destruct cl.
  - inversion Hll as [|h' le' a b Ha Hb|]; subst. simpl. eexists; split; [reflexivity|]. left.
    do 3 eexists; split; [reflexivity|]. eauto with llrb.
  - red_simpl. eexists; split; [reflexivity|]. right.
    eexists; split; [reflexivity|]. eauto with llrb.
Qed.

(** The lengths of the in-order lists of a rearranged node. *)
Lemma moved_length e l r c n :
  elems (Nd e l r c) = elems n -> (length (elems n) = length (elems l) + S (length (elems r)))%nat.
Proof. intros <-. simpl. by rewrite length_app. Qed.

Lemma node_length e l r c :
  length (elems (Nd e l r c)) = (length (elems l) + S (length (elems r)))%nat.
Proof. simpl. by rewrite length_app. Qed.

(** A node in one of these shapes is not nil. *)
Lemma dstate_length h c n : dstate h c n -> (0 < length (elems n))%nat.
Proof.
  intros Hn. destruct Hn as [h n Hn|h e l r _ _]; [inversion Hn|]; simpl; rewrite length_app; simpl; lia.
Qed.

(** How removing the first or the last element below a node shows in the
    in-order list of the rebuilt node. *)
Lemma glue_left e l l' r c n n2 x :
  elems (Nd e l r c) = elems n -> elems l = x :: elems l' ->
  fixUp (Nd e l' r c) = Some n2 -> elems n = x :: elems n2.
Proof. intros <- Hl ->%fixUp_elems. simpl. by rewrite Hl. Qed.

Lemma glue_right e l r r' c n n2 x :
  elems (Nd e l r c) = elems n -> elems r = elems r' ++ [x] ->
  fixUp (Nd e l r' c) = Some n2 -> elems n = elems n2 ++ [x].
Proof. intros <- Hr ->%fixUp_elems. simpl. by rewrite Hr, <- app_assoc. Qed.

#[local] Opaque fixUp moveRedLeft moveRedRight.

Lemma Node_deleteMin_ok fuel h c n :
  dstate h c n -> (length (elems n) <= fuel)%nat ->
  exists n' x, Node_deleteMin fuel n = Some (n', (-1)%Z) /\ del_post h c n' /\ elems n = x :: elems n'.
Proof.
  revert h c n. induction fuel as [|fuel IH]; intros h c n Hn Hf.
  { apply dstate_length in Hn. lia. }
  destruct Hn as [h n Hn|h e l r Hl Hr].
  - inversion Hn as [|h' e l r Hl Hr|]; subst.
    inversion Hl as [| |h' cl le ll lr Hll Hlr]; subst.
    { inversion Hr; subst. simpl. eauto 10 with llrb. }
    destruct cl.
    + destruct (IH (S h') black (Nd le ll lr black)) as (l' & x & El & Pl & Xl).
      { by constructor. }
      { rewrite node_length in Hf. lia. }
      assert (F : fixUp (Nd e l' r red) = Some (Nd e l' r red)) by (eapply fixUp_same; eauto with llrb).
      exists (Nd e l' r red), x. simpl.
      rewrite (is_red_red _ _ Hll). simpl. rewrite El. simpl. rewrite F.
      split; [done|]. split; [by eauto with llrb|]. exact (glue_left _ _ _ _ _ _ _ _ eq_refl Xl F).
    + destruct (moveRedLeft_ok h' e le ll lr r Hll Hlr Hr) as (n & En & Hn').
      pose proof (moveRedLeft_elems _ _ En) as Eln.
      simpl.
      rewrite (is_red_black _ _ Hll). simpl. rewrite En. simpl.
      destruct Hn' as [(e' & l' & r' & -> & _ & Hl' & Hr')|(l' & r' & -> & Hl' & Hr')];
        pose proof (moved_length _ _ _ _ _ Eln) as Len.
      * destruct (IH _ _ _ Hl') as (l2 & x & El & Pl & Xl); [lia|].
        assert (F : fixUp (Nd e' l2 r' red) = Some (Nd e' l2 r' red)) by (eapply fixUp_same; eauto with llrb).
        rewrite El. simpl. rewrite F. do 2 eexists. split; [done|].
        split; [by eauto with llrb|]. exact (glue_left _ _ _ _ _ _ _ _ Eln Xl F).
      * destruct (IH _ _ _ Hl') as (l2 & x & El & [c' Pl] & Xl); [lia|].
        destruct (fixUp_left h' c' e l2 r' Pl Hr') as (n2 & c2 & F & Hn2).
        rewrite El. simpl. rewrite F. do 2 eexists. split; [done|].
        split; [by eauto with llrb|]. exact (glue_left _ _ _ _ _ _ _ _ Eln Xl F).
  - inversion Hl as [|h' le ll lr Hll Hlr|]; subst.
    destruct (IH h red (Nd le ll lr red)) as (l' & x & El & [c' Pl] & Xl).
    { by constructor. }
    { rewrite node_length in Hf. lia. }
    assert (F : fixUp (Nd e l' r black) = Some (Nd e l' r black)) by (eapply fixUp_same; eauto with llrb).
    simpl. rewrite El. simpl. rewrite F.
    do 2 eexists. split; [done|]. split; [by eauto with llrb|]. exact (glue_left _ _ _ _ _ _ _ _ eq_refl Xl F).
Qed.

Lemma rstate_length P h c n : rstate P h c n -> (0 < length (elems n))%nat.
Proof.
  intros Hn. destruct Hn as [h c n Hn|h e l r _ _ _]; [by eapply dstate_length|].
  rewrite node_length. lia.
Qed.

Lemma Node_deleteMax_ok fuel h c n :
  rstate (fun _ => True) h c n -> (length (elems n) <= fuel)%nat ->
  exists n' x, Node_deleteMax fuel n = Some (n', (-1)%Z) /\ del_post h c n' /\ elems n = elems n' ++ [x].
Proof.
  revert h c n. induction fuel as [|fuel IH]; intros h c n Hn Hf.
  { apply rstate_length in Hn. lia. }
  destruct Hn as [h c n [h' n0 Hn|h' e l r Hl Hr]|h e l r _ Hl Hr].
  - inversion Hn as [|h'' e l r Hl Hr|]; subst. simpl. rewrite (is_red_black _ _ Hl). simpl.
    inversion Hr as [| |h'' cr re rl rr Hrl Hrr]; subst.
    { inversion Hl; subst. simpl. exists Nil, e. eauto 10 with llrb. }
    simpl. destruct cr.
    + rewrite (is_red_red _ _ Hrl). simpl.
      destruct (IH (S h'') black (Nd re rl rr black)) as (r' & x & Er & Pr & Xr).
      { by do 2 constructor. }
      { rewrite node_length in Hf. lia. }
      assert (F : fixUp (Nd e l r' red) = Some (Nd e l r' red)) by (eapply fixUp_same; eauto with llrb).
      rewrite Er. simpl. rewrite F. do 2 eexists. split; [done|]. split; [by eauto with llrb|].
      exact (glue_right _ _ _ _ _ _ _ _ eq_refl Xr F).
    + rewrite (is_red_black _ _ Hrl). simpl.
      destruct (moveRedRight_ok h'' e l re rl rr Hl Hrl Hrr) as (n1 & En & Hn').
      pose proof (moveRedRight_elems _ _ En) as Eln. rewrite En. simpl.
      destruct Hn' as [(e' & l' & lr & -> & Hl' & Hlr)|(l' & -> & Hl')];
        pose proof (moved_length _ _ _ _ _ Eln) as Len.
      * destruct (IH (S h'') black (Nd e lr (Nd re rl rr red) black)) as (r' & x & Er & Pr & Xr);
          [by apply rs_right; auto with llrb|lia|].
        assert (F : fixUp (Nd e' l' r' red) = Some (Nd e' l' r' red)) by (eapply fixUp_same; eauto with llrb).
        rewrite Er. simpl. rewrite F. do 2 eexists. split; [done|]. split; [by eauto with llrb|].
        exact (glue_right _ _ _ _ _ _ _ _ Eln Xr F).
      * destruct (IH h'' red (Nd re rl rr red)) as (r' & x & Er & [c' Pr] & Xr);
          [by do 2 constructor; auto with llrb|lia|].
        destruct (fixUp_right h'' c' e l' r' Hl' Pr) as (n2 & c2 & F & Hn2).
        rewrite Er. simpl. rewrite F. do 2 eexists. split; [done|]. split; [by eauto with llrb|].
        exact (glue_right _ _ _ _ _ _ _ _ Eln Xr F).
  - inversion Hl as [|h'' le ll lr Hll Hlr|]; subst. simpl.
    destruct (IH h' red (Nd e lr r red)) as (r' & x & Er & [c' Pr] & Xr).
    { by do 2 constructor; auto with llrb. }
    { rewrite !node_length in *. lia. }
    destruct (fixUp_right_black h' c' le ll r' Hll Pr) as (n2 & F & Hn2).
    rewrite Er. simpl. rewrite F. do 2 eexists. split; [done|]. split; [done|].
    refine (glue_right le ll (Nd e lr r red) r' black (Nd e (Nd le ll lr red) r black) n2 x _ Xr F).
    simpl. by rewrite <- app_assoc.
  - inversion Hr as [|h'' re rl rr Hrl Hrr|]; subst. simpl. rewrite (is_red_black _ _ Hl). simpl.
    destruct (IH h red (Nd re rl rr red)) as (r' & x & Er & [c' Pr] & Xr).
    { by do 2 constructor; auto with llrb. }
    { rewrite !node_length in *. lia. }
    destruct (fixUp_right_black h c' e l r' Hl Pr) as (n2 & F & Hn2).
    rewrite Er. simpl. rewrite F. do 2 eexists. split; [done|]. split; [done|].
    exact (glue_right _ _ _ _ _ _ _ _ eq_refl Xr F).
Qed.

(** ** Depth *)

Fixpoint depth (n : Node) : nat :=
  match n with
  | Nil => 0
  | Nd _ l r _ => S (max (depth l) (depth r))
  end.

Lemma llrb_depth h c n :
  llrb h c n -> (depth n <= 2 * h + match c with red => 1 | black => 0 end)%nat.
Proof.
  induction 1 as [|h e l r _ IHl _ IHr|h cl e l r _ IHl _ IHr]; simpl in *; [lia|lia|].
  destruct cl; simpl in *; lia.
Qed.

Lemma llrb_size h c n : llrb h c n -> (2 ^ h <= length (elems n) + 1)%nat.
Proof.
  induction 1 as [|h e l r _ IHl _ IHr|h cl e l r _ IHl _ IHr]; cbn [elems];
    rewrite ?length_app, ?length_cons; [done|lia|]. rewrite Nat.pow_succ_r'. lia.
Qed.

Lemma balanced_depth n : balanced n -> (depth n <= 2 * Nat.log2 (length (elems n) + 1))%nat.
Proof.
  intros [h Hb]. pose proof (llrb_depth h black n Hb) as Hd. pose proof (llrb_size h black n Hb) as Hs.
  cbn iota in Hd. assert (h <= Nat.log2 (length (elems n) + 1))%nat; [|lia].
  apply Nat.log2_le_pow2; lia.
Qed.
