(* ===== verification/TreeSpec.v ===== *)
(** * The zone tree refines a sorted list of elements

    The abstract state is the list of elements in the order of their names.
    Each operation of the tree is shown to return, to keep the tree balanced
    and sorted, and to act on its in-order list as the operation of the
    specification does. *)

From S2P Require Import Prelude.
From S2P Require Import DnsNames.
From S2P Require Import DnsMsg.
From S2P Require Import Less.
From S2P Require Import Elem.
From S2P Require Import Tree.
From S2P Require Import TreeBalance.
From stdpp Require Import sorting.

#[local] Opaque insert_fix fixUp moveRedLeft moveRedRight rotateLeft rotateRight.

Section spec.
Context `{GR : GoRange}.

(** ** Sorted lists of elements *)

Definition elt (a b : Elem) : Prop := key_cmp (ekey a) (ekey b) = Lt.

#[export] Instance elt_trans : Transitive elt.
Proof. intros a b c. apply (cmp_trans (cmp:=key_cmp)). Qed.

Definition good (l : list Elem) : Prop := Forall elem_ok l /\ StronglySorted elt l.

(** The element the query compares equal to, if any. *)
Definition hit (q : string) (e : Elem) : bool :=
  match key_cmp (key q) (ekey e) with Eq => true | _ => false end.

Fixpoint spec_insert (rr : RR) (l : list Elem) : list Elem :=
  match l with
  | [] => [newElem rr]
  | e :: l' =>
      match key_cmp (key (hName rr)) (ekey e) with
      | Lt => newElem rr :: e :: l'
      | Eq => Elem_Insert e rr :: l'
      | Gt => e :: spec_insert rr l'
      end
  end.

Definition spec_delete (q : string) (l : list Elem) : list Elem :=
  filter (fun e => hit q e = false) l.

Definition spec_search (q : string) (l : list Elem) : option Elem :=
  head (filter (fun e => hit q e = true) l).

(** The greatest element at or below [q], the least at or above it. *)
Definition spec_floor (q : string) (l : list Elem) : option Elem :=
  last (filter (fun e => key_cmp (key q) (ekey e) <> Lt) l).
Definition spec_ceil (q : string) (l : list Elem) : option Elem :=
  head (filter (fun e => key_cmp (key q) (ekey e) <> Gt) l).

Lemma good_app l e r :
  good (l ++ e :: r) <->
  good l /\ elem_ok e /\ good r /\ Forall (fun x => elt x e) l /\ Forall (elt e) r.
Proof.
  unfold good. rewrite Forall_app, Forall_cons_iff, StronglySorted_app, StronglySorted_cons.
  split.
  - intros ((Hl & He & Hr) & Hx & Sl & Her & Sr).
    split; [done|]. split; [done|]. split; [done|]. split; [|done]. apply Forall_forall. intros x Hin. apply Hx; [done|apply list_elem_of_here].
  - intros ((Hl & Sl) & He & (Hr & Sr) & Hlt & Hgt). split; [done|]. split; [|done].
    intros x1 x2 H1 [->|H2]%elem_of_cons; rewrite Forall_forall in *; [by apply Hlt|].
    transitivity e; [by apply Hlt|by apply Hgt].
Qed.

Lemma good_node e l r c :
  good (elems (Nd e l r c)) ->
  good (elems l) /\ elem_ok e /\ good (elems r) /\
  Forall (fun x => elt x e) (elems l) /\ Forall (elt e) (elems r).
Proof. apply good_app. Qed.

(** Where the query stands with respect to the other elements of a sorted
    list once it has been compared with one of them. *)
Lemma above_left q e l :
  key_cmp (key q) (ekey e) <> Lt -> Forall (fun x => elt x e) l ->
  Forall (fun x => key_cmp (key q) (ekey x) = Gt) l.
Proof.
  intros Hq Hl. eapply Forall_impl; [exact Hl|]. intros x Hx. simpl in Hx.
  apply (cmp_gt_lt (cmp:=key_cmp)). destruct (key_cmp (key q) (ekey e)) eqn:E; [|done|].
  - apply (cmp_eq (cmp:=key_cmp)) in E. by rewrite E.
  - apply (cmp_gt_lt (cmp:=key_cmp)) in E. by apply (cmp_trans (cmp:=key_cmp) _ (ekey e)).
Qed.

Lemma below_right q e r :
  key_cmp (key q) (ekey e) <> Gt -> Forall (elt e) r ->
  Forall (fun x => key_cmp (key q) (ekey x) = Lt) r.
Proof.
  intros Hq Hr. eapply Forall_impl; [exact Hr|]. intros x Hx. simpl in Hx. unfold elt in Hx.
  destruct (key_cmp (key q) (ekey e)) eqn:E; [|by apply (cmp_trans (cmp:=key_cmp) _ (ekey e))|done].
  apply (cmp_eq (cmp:=key_cmp)) in E. by rewrite E.
Qed.

(** ** The specification on a list split at an element *)

Lemma spec_insert_lt rr l e r :
  key_cmp (key (hName rr)) (ekey e) = Lt ->
  spec_insert rr (l ++ e :: r) = spec_insert rr l ++ e :: r.
Proof.
  intros He. induction l as [|x l IH]; simpl; [by rewrite He|].
  destruct (key_cmp _ (ekey x)); simpl; [done|done|]. by rewrite IH.
Qed.

Lemma spec_insert_ge rr l e r :
  Forall (fun x => key_cmp (key (hName rr)) (ekey x) = Gt) l ->
  spec_insert rr (l ++ e :: r) = l ++ spec_insert rr (e :: r).
Proof.
  induction 1 as [|x l Hx Hl IH]; [done|]. simpl. rewrite Hx. f_equal. exact IH.
Qed.

Lemma filter_none {A} (P : A -> Prop) `{forall x, Decision (P x)} l :
  Forall (fun x => ~ P x) l -> filter P l = [].
Proof. induction 1 as [|x l Hx Hl IH]; [done|]. by rewrite filter_cons_False. Qed.

Lemma filter_all {A} (P : A -> Prop) `{forall x, Decision (P x)} l :
  Forall P l -> filter P l = l.
Proof. induction 1 as [|x l Hx Hl IH]; [done|]. by rewrite filter_cons_True, IH. Qed.

(** ** Insertion *)

Lemma spec_insert_elem rr l z :
  good l -> fq_name (hName rr) -> z ∈ spec_insert rr l ->
  elem_ok z /\ (ekey z = key (hName rr) \/ exists y, y ∈ l /\ ekey z = ekey y).
Proof.
  intros Hl Hv. destruct (newElem_ok rr Hv) as [Hnew Knew].
  induction l as [|e l IH]; simpl.
  { intros ->%list_elem_of_singleton. auto. }
  apply (good_app []) in Hl as (_ & He & Hl & _ & _).
  destruct (key_cmp _ (ekey e)) eqn:E.
  - apply (cmp_eq (cmp:=key_cmp)) in E. destruct (Elem_Insert_ok e rr He Hv E) as [Hi Ki].
    intros [->|Hz]%elem_of_cons; [split; [done|left; congruence]|].
    split; [|right; exists z; split; [by right|done]]. destruct Hl as [Hl _].
    rewrite Forall_forall in Hl. by apply Hl.
  - intros [->|Hz]%elem_of_cons; [auto|]. split; [|right; eauto].
    apply elem_of_cons in Hz as [->|Hz]; [done|]. destruct Hl as [Hl _].
    rewrite Forall_forall in Hl. by apply Hl.
  - intros [->|Hz]%elem_of_cons; [split; [done|right; exists e; split; [by left|done]]|].
    destruct (IH Hl Hz) as (Hok & [Hk|(y & Hy & Hk)]); split; auto. right. exists y. split; [by right|done].
Qed.

Lemma spec_insert_good rr l : good l -> fq_name (hName rr) -> good (spec_insert rr l).
Proof.
  intros Hl Hv. split.
  { apply Forall_forall. intros z Hz. by apply (spec_insert_elem rr l). }
  destruct (newElem_ok rr Hv) as [Hnew Knew].
  induction l as [|e l IH]; simpl; [by repeat constructor|].
  pose proof Hl as (_ & He & Hl' & _ & Hlt)%(good_app []).
  destruct (key_cmp _ (ekey e)) eqn:E; apply StronglySorted_cons.
  - apply (cmp_eq (cmp:=key_cmp)) in E. destruct (Elem_Insert_ok e rr He Hv E) as [Hi Ki].
    split; [|by destruct Hl']. unfold elt. by rewrite Ki.
  - split; [|by destruct Hl]. apply Forall_cons_iff. unfold elt. rewrite Knew. split; [done|].
    by apply (below_right (hName rr) e l); [rewrite E|].
  - split; [|by apply IH]. apply Forall_forall. intros z Hz.
    destruct (spec_insert_elem rr l z Hl' Hv Hz) as (_ & [Hk|(y & Hy & Hk)]); unfold elt; rewrite Hk.
    + by apply (cmp_gt_lt (cmp:=key_cmp)).
    + rewrite Forall_forall in Hlt. by apply Hlt.
Qed.

(** The three ways through [insert] at a node. *)
Lemma Node_insert_inv `{DnsNames} e l r c rr n' d :
  Node_insert (Nd e l r c) rr = Some (n', d) ->
  exists k n1, Less e (hName rr) = Some k /\ insert_fix n1 = Some n' /\
    ((k = 0%Z /\ n1 = Nd (Elem_Insert e rr) l r c /\ d = 0%Z) \/
     ((k < 0)%Z /\ exists l', Node_insert l rr = Some (l', d) /\ n1 = Nd e l' r c) \/
     ((k > 0)%Z /\ exists r', Node_insert r rr = Some (r', d) /\ n1 = Nd e l r' c)).
Proof.
  cbn [Node_insert]. destruct (Less e (hName rr)) as [k|]; [|done]. cbn.
  case_decide; [|case_decide].
  - cbn. destruct (insert_fix (Nd (Elem_Insert e rr) l r c)) eqn:F; [|done]. intros [= <- <-]. eauto 10.
  - destruct (Node_insert l rr) as [[l' d']|]; [|done]. cbn.
    destruct (insert_fix (Nd e l' r c)) eqn:F; [|done]. intros [= <- <-]. eauto 10.
  - destruct (Node_insert r rr) as [[r' d']|]; [|done]. cbn.
    destruct (insert_fix (Nd e l r' c)) eqn:F; [|done]. intros [= <- <-]. do 2 eexists.
    split; [done|]. split; [done|]. right; right. split; [lia|]. eauto.
Qed.

Lemma Node_insert_count `{DnsNames} n rr n' d :
  Node_insert n rr = Some (n', d) ->
  Z.of_nat (length (elems n')) = (Z.of_nat (length (elems n)) + d)%Z.
Proof.
  revert n' d. induction n as [|e l IHl r IHr c]; intros n' d.
  { by intros [= <- <-]. }
  intros (k & n1 & _ & Hf & Hc)%Node_insert_inv. apply insert_fix_elems in Hf as ->.
  destruct Hc as [(_ & -> & ->)|[(_ & l' & Hl & ->)|(_ & r' & Hr & ->)]]; rewrite !node_length.
  - lia.
  - apply IHl in Hl. lia.
  - apply IHr in Hr. lia.
Qed.

(** Evaluate a comparison whose outcome is known. *)
Lemma cmpZ_cases c k : cmpZ c = k ->
  (k = 0%Z -> c = Eq) /\ ((k < 0)%Z -> c = Lt) /\ ((k > 0)%Z -> c = Gt).
Proof. intros <-. destruct c; simpl; repeat split; (done || lia). Qed.

Context `{Ok : DnsNamesOk}.

Lemma Node_insert_elems n rr n' d :
  good (elems n) -> fq_name (hName rr) -> Node_insert n rr = Some (n', d) ->
  elems n' = spec_insert rr (elems n).
Proof.
  intros Hg Hv. revert n' d. induction n as [|e l IHl r IHr c]; intros n' d.
  { by intros [= <- <-]. }
  apply good_node in Hg as (Hl & He & Hr & Hlt & Hgt).
  intros (k & n1 & Hk & Hf & Hc)%Node_insert_inv. apply insert_fix_elems in Hf as ->.
  rewrite (Less_spec e _ He (or_intror Hv)) in Hk. injection Hk as Hk. apply cmpZ_cases in Hk as (K0 & K1 & K2).
  destruct Hc as [(Hk & -> & ->)|[(Hk & l' & El & ->)|(Hk & r' & Er & ->)]]; simpl.
  - rewrite spec_insert_ge by (apply (above_left _ e); [by rewrite K0|done]). simpl. by rewrite K0.
  - rewrite spec_insert_lt by auto. by rewrite (IHl Hl _ _ El).
  - rewrite spec_insert_ge by (apply (above_left _ e); [by rewrite K2|done]). simpl.
    rewrite K2 by done. by rewrite (IHr Hr _ _ Er).
Qed.

(** ** The invariant of a tree *)

Definition tree_ok (t : Tree) : Prop :=
  balanced (Root t) /\ good (elems (Root t)) /\ Count t = Z.of_nat (length (elems (Root t))).

Lemma Tree_Insert_spec t rr :
  tree_ok t -> fq_name (hName rr) ->
  exists t', Tree_Insert t rr = Some t' /\ tree_ok t' /\
             elems (Root t') = spec_insert rr (elems (Root t)).
Proof.
  intros ([h Hb] & Hg & Hc) Hv. unfold Tree_Insert.
  destruct (Node_insert_balance h black (Root t) rr Hb (proj1 Hg) Hv) as (n' & d & Ei & Hp).
  pose proof (Node_insert_elems _ _ _ _ Hg Hv Ei) as Hel.
  pose proof (Node_insert_count _ _ _ _ Ei) as Hcnt. rewrite Ei. simpl.
  destruct (setColor_balanced h black n' Hp) as (n2 & -> & Hb2 & He2).
  { intros ->. simpl in Hel. by destruct (elems (Root t)) as [|? ?]; simpl in Hel; repeat case_match. }
  simpl. eexists; split; [reflexivity|]. unfold tree_ok. simpl. rewrite He2, Hel.
  split; [|done]. split; [done|]. split; [by apply spec_insert_good|]. rewrite <- Hel. lia.
Qed.

(** ** Deletion *)

Lemma hit_true q e : hit q e = true <-> key_cmp (key q) (ekey e) = Eq.
Proof. unfold hit. by destruct (key_cmp _ _). Qed.

Lemma hit_false q e : hit q e = false <-> key_cmp (key q) (ekey e) <> Eq.
Proof. unfold hit. by destruct (key_cmp _ _). Qed.

Lemma spec_delete_none q l :
  Forall (fun x => key_cmp (key q) (ekey x) <> Eq) l -> spec_delete q l = l.
Proof. intros Hl. apply filter_all. eapply Forall_impl; [exact Hl|]. intros x. by apply hit_false. Qed.

Lemma spec_delete_app q l e r :
  spec_delete q (l ++ e :: r) =
  spec_delete q l ++ (if hit q e then [] else [e]) ++ spec_delete q r.
Proof.
  unfold spec_delete. rewrite filter_app. f_equal.
  destruct (hit q e) eqn:E; [by rewrite filter_cons_False by congruence|by rewrite filter_cons_True].
Qed.

Lemma spec_delete_left q l e r :
  good (l ++ e :: r) -> key_cmp (key q) (ekey e) = Lt ->
  spec_delete q (l ++ e :: r) = spec_delete q l ++ e :: r.
Proof.
  intros (_ & _ & _ & _ & Hr)%good_app He. rewrite spec_delete_app.
  rewrite (proj2 (hit_false q e)) by congruence. rewrite (spec_delete_none q r); [done|].
  eapply Forall_impl; [apply (below_right q e r); [congruence|done]|]. congruence.
Qed.

Lemma spec_delete_right q l e r :
  good (l ++ e :: r) -> key_cmp (key q) (ekey e) = Gt ->
  spec_delete q (l ++ e :: r) = l ++ e :: spec_delete q r.
Proof.
  intros (_ & _ & _ & Hl & _)%good_app He. rewrite spec_delete_app.
  rewrite (proj2 (hit_false q e)) by congruence. rewrite (spec_delete_none q l); [done|].
  eapply Forall_impl; [apply (above_left q e l); [congruence|done]|]. congruence.
Qed.

Lemma spec_delete_at q l e r :
  good (l ++ e :: r) -> key_cmp (key q) (ekey e) = Eq -> spec_delete q (l ++ e :: r) = l ++ r.
Proof.
  intros (_ & _ & _ & Hl & Hr)%good_app He. rewrite spec_delete_app.
  rewrite (proj2 (hit_true q e)) by done. rewrite !spec_delete_none; [done|..].
  - eapply Forall_impl; [apply (below_right q e r); [congruence|done]|]. congruence.
  - eapply Forall_impl; [apply (above_left q e l); [congruence|done]|]. congruence.
Qed.

Lemma Node_min_elems n x l : elems n = x :: l -> Node_min n = Some x.
Proof.
  revert l. induction n as [|e ln IHl r _ c]; intros l; [done|]. simpl.
  destruct ln as [|le ll lr lc]; [by intros [= -> _]|].
  destruct (elems (Nd le ll lr lc)) as [|y l2] eqn:E.
  { by simpl in E; destruct (elems ll). }
  intros [= -> _]. by apply (IHl l2).
Qed.

Lemma Node_max_elems n x l : elems n = l ++ [x] -> Node_max n = Some x.
Proof.
  revert l. induction n as [|e ln _ r IHr c]; intros l; [by destruct l|]. simpl.
  destruct r as [|re rl rr rc].
  { simpl. intros E%(f_equal last). rewrite !last_snoc in E. done. }
  destruct (exists_last (l := elems (Nd re rl rr rc))) as (l2 & y & E).
  { simpl. by destruct (elems rl). }
  rewrite E. intros E2%(f_equal last). rewrite app_comm_cons, app_assoc, !last_snoc in E2.
  injection E2 as ->. by apply (IHr l2).
Qed.

(** What a delete function does to a node in state [c] with black height [h]. *)
Definition del_result (q : string) (h : nat) (c : Color) (n : Node) (res : option (Node * Z)) : Prop :=
  exists n' d, res = Some (n', d) /\ del_post h c n' /\ elems n' = spec_delete q (elems n) /\
    Z.of_nat (length (elems n')) = (Z.of_nat (length (elems n)) + d)%Z.

(** At a node the delete function meets only keys it may keep on the left. *)
Definition not_below (q : string) (e : Elem) : Prop := key_cmp (key q) (ekey e) <> Lt.

(** The code after the moves on the way to the right child. *)
Definition right_step (fuel : nat) (q : string) (e : Elem) (l r : Node) (col : Color) : option (Node * Z) :=
  c ← Less e q;
  if decide (c = 0)%Z then
    m ← Node_min r;
    '(r', d) ← Node_deleteMin fuel r;
    Some (Nd m l r' col, d)
  else '(r', d) ← Node_delete fuel r q; Some (Nd e l r' col, d).

(** Gluing a rebuilt child to its node. *)
Lemma del_left q e l r c n l' d n2 :
  elems (Nd e l r c) = elems n -> good (elems n) -> key_cmp (key q) (ekey e) = Lt ->
  elems l' = spec_delete q (elems l) ->
  Z.of_nat (length (elems l')) = (Z.of_nat (length (elems l)) + d)%Z ->
  fixUp (Nd e l' r c) = Some n2 ->
  elems n2 = spec_delete q (elems n) /\
  Z.of_nat (length (elems n2)) = (Z.of_nat (length (elems n)) + d)%Z.
Proof.
  intros En Hg He Hl Hd F%fixUp_elems. rewrite F, <- En, !node_length. split; [|lia].
  rewrite <- En in Hg. simpl. by rewrite Hl, spec_delete_left.
Qed.

Lemma del_right q e l r c n e' r' d n2 :
  elems (Nd e l r c) = elems n ->
  elems (Nd e' l r' c) = spec_delete q (elems (Nd e l r c)) ->
  Z.of_nat (length (elems (Nd e' l r' c))) = (Z.of_nat (length (elems (Nd e l r c))) + d)%Z ->
  fixUp (Nd e' l r' c) = Some n2 ->
  elems n2 = spec_delete q (elems n) /\
  Z.of_nat (length (elems n2)) = (Z.of_nat (length (elems n)) + d)%Z.
Proof. intros <- Hr Hd ->%fixUp_elems. auto. Qed.

Section delete_step.
Context (q : string) (Hq : fq_name q) (fuel : nat).
Context (IH : forall h c n, rstate (not_below q) h c n -> good (elems n) ->
  (length (elems n) <= fuel)%nat -> del_result q h c n (Node_delete fuel n q)).

(** Going right from a node whose key is not above the query. *)
Lemma right_step_rec e l r col h c :
  good (elems (Nd e l r col)) -> key_cmp (key q) (ekey e) = Gt ->
  rstate (not_below q) h c r -> (length (elems r) <= fuel)%nat ->
  exists r' d, right_step fuel q e l r col = Some (Nd e l r' col, d) /\ del_post h c r' /\
    elems (Nd e l r' col) = spec_delete q (elems (Nd e l r col)) /\
    Z.of_nat (length (elems (Nd e l r' col))) = (Z.of_nat (length (elems (Nd e l r col))) + d)%Z.
Proof.
  intros Hg He Hr Hf. pose proof Hg as (_ & Hok & Hgr & _ & _)%good_node.
  destruct (IH h c r Hr Hgr Hf) as (r' & d & Er & Pr & Xr & Cr). exists r', d.
  unfold right_step. rewrite (Less_spec e q Hok (or_intror Hq)), He. simpl. rewrite Er. simpl.
  split; [done|]. split; [done|]. rewrite !length_app. simpl in Hg |- *.
  split; [by rewrite spec_delete_right, Xr|]. lia.
Qed.

Lemma right_step_ok e l r col h c :
  good (elems (Nd e l r col)) -> not_below q e ->
  dstate h c r -> (length (elems r) <= fuel)%nat ->
  exists e' r' d, right_step fuel q e l r col = Some (Nd e' l r' col, d) /\ del_post h c r' /\
    elems (Nd e' l r' col) = spec_delete q (elems (Nd e l r col)) /\
    Z.of_nat (length (elems (Nd e' l r' col))) = (Z.of_nat (length (elems (Nd e l r col))) + d)%Z.
Proof.
  intros Hg He Hr Hf. pose proof Hg as (_ & Hok & Hgr & _ & _)%good_node.
  destruct (key_cmp (key q) (ekey e)) eqn:K; [|done|].
  - destruct (Node_deleteMin_ok fuel h c r Hr Hf) as (r' & m & Er & Pr & Xr). exists m, r', (-1)%Z.
    unfold right_step. rewrite (Less_spec e q Hok (or_intror Hq)), K. simpl.
    rewrite (Node_min_elems _ _ _ Xr). simpl. rewrite Er. simpl.
    split; [done|]. split; [done|]. simpl in Hg |- *. rewrite spec_delete_at, Xr by done.
    split; [done|]. rewrite !length_app. simpl. lia.
  - destruct (right_step_rec e l r col h c) as (r' & d & ?); [done|done|by constructor|done|eauto].
Qed.

(** The end of [delete] once the child has been rebuilt. *)
Definition del_finish (res : option (Node * Z)) : option (Node * Z) :=
  '(n, d) ← res;
  match n with Nil => Some (Nil, d) | _ => n ← fixUp n; Some (n, d) end.

(** [delete] at a red node, to the left. *)
Lemma delete_red_left h e l r :
  llrb h black l -> llrb h black r -> good (elems (Nd e l r red)) ->
  (length (elems (Nd e l r red)) <= S fuel)%nat -> key_cmp (key q) (ekey e) = Lt ->
  del_result q h red (Nd e l r red) (Node_delete (S fuel) (Nd e l r red) q).
Proof.
  intros Hl Hr Hg Hf He. pose proof Hg as (Hgl & Hok & _)%good_node.
  simpl. rewrite (Less_spec e q Hok (or_intror Hq)), He. simpl.
  inversion Hl as [| |h' cl le ll lr Hll Hlr]; subst.
  { inversion Hr; subst. simpl. rewrite (fixUp_same 0 red) by auto with llrb. simpl.
    do 2 eexists. split; [done|]. split; [by eexists; eauto with llrb|]. simpl.
    rewrite spec_delete_none; [split; [done|lia]|]. apply Forall_singleton. congruence. }
  simpl. destruct cl.
  - rewrite (is_red_red _ _ Hll). simpl.
    destruct (IH (S h') black (Nd le ll lr black)) as (l' & d & El & Pl & Xl & Cl).
    { by do 2 constructor. }
    { done. }
    { rewrite node_length in Hf. lia. }
    assert (F : fixUp (Nd e l' r red) = Some (Nd e l' r red)) by (eapply fixUp_same; eauto with llrb).
    rewrite El. simpl. rewrite F. do 2 eexists. split; [done|]. split; [by eexists; eauto with llrb|].
    exact (del_left q e _ r red (Nd e (Nd le ll lr black) r red) l' d _ eq_refl Hg He Xl Cl F).
  - rewrite (is_red_black _ _ Hll). simpl.
    destruct (moveRedLeft_ok h' e le ll lr r Hll Hlr Hr) as (n1 & En & Hn').
    pose proof (moveRedLeft_elems _ _ En) as Eln. rewrite En. simpl. clear En.
    destruct Hn' as [(e' & l' & r' & -> & Hin & Hl' & Hr')|(l' & r' & -> & Hl' & Hr')];
      pose proof (moved_length _ _ _ _ _ Eln) as Len; pose proof Hg as Hg1; rewrite <- Eln in Hg1;
      apply good_node in Hg1 as (Hgl' & _ & _ & Hlt & _).
    + destruct (IH _ _ _ (rs_ds _ _ _ _ Hl') Hgl') as (l2 & d & El & Pl & Xl & Cl); [lia|].
      assert (F : fixUp (Nd e' l2 r' red) = Some (Nd e' l2 r' red)) by (eapply fixUp_same; eauto with llrb).
      rewrite El. simpl. rewrite F. do 2 eexists. split; [done|]. split; [by eexists; eauto with llrb|].
      assert (He' : key_cmp (key q) (ekey e') = Lt).
      { rewrite Forall_forall in Hlt. apply (cmp_trans (cmp:=key_cmp) _ (ekey e)); [done|by apply Hlt]. }
      exact (del_left q e' _ r' red _ l2 d _ Eln Hg He' Xl Cl F).
    + destruct (IH _ _ _ (rs_ds _ _ _ _ Hl') Hgl') as (l2 & d & El & [c' Pl] & Xl & Cl); [lia|].
      destruct (fixUp_left h' c' e l2 r' Pl Hr') as (n2 & c2 & F & Hn2).
      rewrite El. simpl. rewrite F. do 2 eexists. split; [done|]. split; [by eexists; eauto with llrb|].
      exact (del_left q e _ r' black _ l2 d _ Eln Hg He Xl Cl F).
Qed.

(** The tail of [delete] that goes right, folded into [right_step]. *)
Lemma delete_red_right h e l r :
  llrb h black l -> llrb h black r -> good (elems (Nd e l r red)) ->
  (length (elems (Nd e l r red)) <= S fuel)%nat -> not_below q e ->
  del_result q h red (Nd e l r red) (Node_delete (S fuel) (Nd e l r red) q).
Proof.
  intros Hl Hr Hg Hf He. pose proof Hg as (_ & Hok & _)%good_node.
  cbn [Node_delete nElem nLeft nRight mbind option_bind].
  rewrite (Less_spec e q Hok (or_intror Hq)). cbn [mbind option_bind].
  rewrite decide_False by (unfold not_below in He; destruct (key_cmp _ _); [simpl; lia|done|simpl; lia]).
  rewrite (is_red_black _ _ Hl). cbn [mbind option_bind nRight].
  inversion Hr as [| |h' cr re rl rr Hrl Hrr]; subst.
  { inversion Hl; subst. cbn [nElem mbind option_bind]. rewrite (Less_spec e q Hok (or_intror Hq)). simpl.
    destruct (key_cmp (key q) (ekey e)) eqn:K; [|done|]; simpl.
    - do 2 eexists. split; [done|]. split; [by eexists; eauto with llrb|]. simpl.
      split; [symmetry; exact (spec_delete_at q [] e [] Hg K)|done].
    - rewrite (fixUp_same 0 red) by auto with llrb. simpl.
      do 2 eexists. split; [done|]. split; [by eexists; eauto with llrb|]. simpl.
      rewrite spec_delete_none; [split; [done|lia]|]. apply Forall_singleton. congruence. }
  destruct cr.
  - rewrite (is_red_red _ _ Hrl). cbn [bool_decide andb negb mbind option_bind].
    change (del_result q (S h') red (Nd e l (Nd re rl rr black) red)
      (del_finish (right_step fuel q e l (Nd re rl rr black) red))).
    destruct (right_step_ok e l (Nd re rl rr black) red (S h') black) as (e' & r' & d & -> & Pr & Xr & Cr);
      [done|done|by constructor|rewrite node_length in Hf; lia|].
    assert (F : fixUp (Nd e' l r' red) = Some (Nd e' l r' red)) by (eapply fixUp_same; eauto with llrb).
    simpl. rewrite F. do 2 eexists. split; [done|]. split; [by eexists; eauto with llrb|].
    exact (del_right q e l _ red _ e' r' d _ eq_refl Xr Cr F).
  - rewrite (is_red_black _ _ Hrl). cbn [bool_decide andb negb mbind option_bind].
    destruct (moveRedRight_ok h' e l re rl rr Hl Hrl Hrr) as (n1 & En & Hn').
    pose proof (moveRedRight_elems _ _ En) as Eln. rewrite En. clear En. cbn [mbind option_bind].
    destruct Hn' as [(e' & l' & lr & -> & Hl' & Hlr)|(l' & -> & Hl')];
      pose proof (moved_length _ _ _ _ _ Eln) as Len; pose proof Hg as Hg1; rewrite <- Eln in Hg1.
    + change (del_result q (S h') red (Nd e l (Nd re rl rr black) red)
        (del_finish (right_step fuel q e' l' (Nd e lr (Nd re rl rr red) black) red))).
      assert (K : key_cmp (key q) (ekey e') = Gt).
      { pose proof Hg1 as (_ & _ & _ & _ & Hgt)%good_node. simpl in Hgt.
        rewrite Forall_app, Forall_cons_iff in Hgt. destruct Hgt as (_ & Hee & _).
        assert (Forall (fun x => elt x e) [e']) as Hs by (by apply Forall_singleton).
        apply (above_left q e _ He) in Hs. by rewrite Forall_singleton in Hs. }
      destruct (right_step_rec e' l' (Nd e lr (Nd re rl rr red) black) red (S h') black)
        as (r' & d & -> & Pr & Xr & Cr); [done|done|by constructor; auto with llrb|lia|].
      assert (F : fixUp (Nd e' l' r' red) = Some (Nd e' l' r' red)) by (eapply fixUp_same; eauto with llrb).
      simpl. rewrite F. do 2 eexists. split; [done|]. split; [by eexists; eauto with llrb|].
      exact (del_right q e' l' _ red _ e' r' d _ Eln Xr Cr F).
    + change (del_result q (S h') red (Nd e l (Nd re rl rr black) red)
        (del_finish (right_step fuel q e l' (Nd re rl rr red) black))).
      destruct (right_step_ok e l' (Nd re rl rr red) black h' red) as (e' & r' & d & -> & [c' Pr] & Xr & Cr);
        [done|done|by constructor; auto with llrb|lia|].
      destruct (fixUp_right h' c' e' l' r' Hl' Pr) as (n2 & c2 & F & Hn2).
      simpl. rewrite F. do 2 eexists. split; [done|]. split; [by eexists; eauto with llrb|].
      exact (del_right q e l' _ black _ e' r' d _ Eln Xr Cr F).
Qed.

(** [delete] at a black node with a red child. *)
Lemma delete_black_left h e l r :
  llrb h red l -> llrb h black r -> good (elems (Nd e l r black)) ->
  (length (elems (Nd e l r black)) <= S fuel)%nat ->
  del_result q (S h) black (Nd e l r black) (Node_delete (S fuel) (Nd e l r black) q).
Proof.
  intros Hl Hr Hg Hf. pose proof Hg as (Hgl & Hok & _ & Hlt & _)%good_node.
  inversion Hl as [|h' le ll lr Hll Hlr|]; subst.
  cbn [Node_delete nElem nLeft nRight mbind option_bind].
  rewrite (Less_spec e q Hok (or_intror Hq)). cbn [mbind option_bind].
  destruct (key_cmp (key q) (ekey e)) eqn:K; cbn [cmpZ].
  2: { destruct (IH h red (Nd le ll lr red)) as (l' & d & El & [c' Pl] & Xl & Cl).
    { by do 2 constructor. }
    { done. }
    { rewrite node_length in Hf. lia. }
    assert (F : fixUp (Nd e l' r black) = Some (Nd e l' r black)) by (eapply fixUp_same; eauto with llrb).
    simpl. rewrite El. simpl. rewrite F. do 2 eexists. split; [done|]. split; [by simpl; eauto with llrb|].
    exact (del_left q e _ r black (Nd e (Nd le ll lr red) r black) l' d _ eq_refl Hg K Xl Cl F). }
  all: change (del_result q (S h) black (Nd e (Nd le ll lr red) r black)
      (del_finish (right_step fuel q le ll (Nd e lr r red) black))).
  all: assert (Hrot : elems (Nd le ll (Nd e lr r red) black) = elems (Nd e (Nd le ll lr red) r black))
      by (simpl; by rewrite <- app_assoc).
  all: assert (K' : key_cmp (key q) (ekey le) = Gt)
      by (apply (above_left q e) in Hlt; [|congruence]; simpl in Hlt;
          rewrite Forall_app, Forall_cons_iff in Hlt; tauto).
  all: assert (Hg' := Hg); rewrite <- Hrot in Hg'.
  all: destruct (right_step_rec le ll (Nd e lr r red) black h red) as (r' & d & -> & [c' Pr] & Xr & Cr);
      [done|done|by do 2 constructor; auto with llrb|rewrite !node_length in *; lia|].
  all: destruct (fixUp_right_black h c' le ll r' Hll Pr) as (n2 & F & Hn2).
  all: simpl; rewrite F; do 2 eexists; (split; [done|]); (split; [done|]).
  all: exact (del_right q le ll _ black _ le r' d _ Hrot Xr Cr F).
Qed.

Lemma delete_black_right h e l r :
  llrb h black l -> llrb h red r -> good (elems (Nd e l r black)) -> not_below q e ->
  (length (elems (Nd e l r black)) <= S fuel)%nat ->
  del_result q (S h) black (Nd e l r black) (Node_delete (S fuel) (Nd e l r black) q).
Proof.
  intros Hl Hr Hg He Hf. pose proof Hg as (_ & Hok & _)%good_node.
  inversion Hr as [|h' re rl rr Hrl Hrr|]; subst.
  cbn [Node_delete nElem nLeft nRight mbind option_bind].
  rewrite (Less_spec e q Hok (or_intror Hq)). cbn [mbind option_bind].
  rewrite decide_False by (unfold not_below in He; destruct (key_cmp _ _); [simpl; lia|done|simpl; lia]).
  rewrite (is_red_black _ _ Hl). cbn [mbind option_bind nRight].
  change (del_result q (S h) black (Nd e l (Nd re rl rr red) black)
      (del_finish (right_step fuel q e l (Nd re rl rr red) black))).
  destruct (right_step_ok e l (Nd re rl rr red) black h red) as (e' & r' & d & -> & [c' Pr] & Xr & Cr);
    [done|done|by constructor; auto with llrb|rewrite node_length in Hf; lia|].
  destruct (fixUp_right_black h c' e' l r' Hl Pr) as (n2 & F & Hn2).
  simpl. rewrite F. do 2 eexists. split; [done|]. split; [done|].
  exact (del_right q e l _ black _ e' r' d _ eq_refl Xr Cr F).
Qed.
End delete_step.

Lemma Node_delete_ok q fuel h c n :
  fq_name q -> rstate (not_below q) h c n -> good (elems n) -> (length (elems n) <= fuel)%nat ->
  del_result q h c n (Node_delete fuel n q).
Proof.
  intros Hq. revert h c n. induction fuel as [|fuel IH]; intros h c n Hn Hg Hf.
  { apply rstate_length in Hn. lia. }
  destruct Hn as [h c n [h' n0 Hn|h' e l r Hl Hr]|h e l r He Hl Hr].
  - inversion Hn as [|h'' e l r Hl Hr|]; subst.
    destruct (decide (key_cmp (key q) (ekey e) = Lt)) as [K|K].
    + by apply delete_red_left.
    + by apply delete_red_right.
  - by apply delete_black_left.
  - by apply delete_black_right.
Qed.

(** ** The colour of the root

    The exported delete methods call the recursive functions on a black root,
    which need not have a red child.  Those functions treat the colour of the
    node they are called on as a label that they carry to the node they
    return, so a black root behaves like a red one whose result is recoloured. *)

Definition flipc (n : Node) : Node :=
  match n with Nil => Nil | Nd e l r c => Nd e l r (negc c) end.
Definition flip_res (p : Node * Z) : Node * Z := (flipc p.1, p.2).

Definition blacken (n : Node) : Node :=
  match n with Nil => Nil | Nd e l r _ => Nd e l r black end.

#[local] Transparent insert_fix fixUp moveRedLeft moveRedRight rotateLeft rotateRight.

Lemma negc_negc c : negc (negc c) = c.
Proof. by destruct c. Qed.

Lemma fixUp_flip n : fixUp (flipc n) = flipc <$> fixUp n.
Proof.
  destruct n as [|e l r c]; [done|]. unfold fixUp, left_red_red, both_red. simpl.
  destruct l as [|le ll lr []], r as [|re rl rr []]; simpl; try done;
    repeat (destruct ll as [|? ? ? []]; simpl); try done;
    destruct rr as [|? ? ? []]; simpl; try done.
Qed.

Lemma moveRedLeft_flip n : moveRedLeft (flipc n) = flipc <$> moveRedLeft n.
Proof.
  destruct n as [|e [|le ll lr []] [|re [|rle rll rlr []] rr []] c]; try done.
Qed.

Lemma moveRedRight_flip n : moveRedRight (flipc n) = flipc <$> moveRedRight n.
Proof.
  destruct n as [|e [|le [|lle lll llr []] lr []] [|re rl rr []] c]; try done.
Qed.

#[local] Opaque fixUp moveRedLeft moveRedRight rotateLeft rotateRight Node_min.

(** Unfold a recoloured node, and fold it back where a lemma needs it. *)
Lemma flipc_Nd e l r c : Nd e l r (negc c) = flipc (Nd e l r c).
Proof. done. Qed.

Lemma fixUp_flip_bind e l r c (d : Z) :
  (n ← fixUp (Nd e l r (negc c)); Some (n, d)) =
  flip_res <$> (n ← fixUp (Nd e l r c); Some (n, d)).
Proof. rewrite flipc_Nd, fixUp_flip. by destruct (fixUp (Nd e l r c)). Qed.

Lemma Node_deleteMin_flip fuel n :
  Node_deleteMin fuel (flipc n) = flip_res <$> Node_deleteMin fuel n.
Proof.
  destruct fuel as [|fuel]; [done|]. destruct n as [|e l r c]; [done|]. simpl.
  destruct l as [|le ll lr lc]; [done|]. rewrite flipc_Nd, moveRedLeft_flip.
  destruct (bool_decide (lc = black) && negb (is_red ll))%bool; simpl.
  - destruct (moveRedLeft _) as [[|e1 l1 r1 c1]|]; simpl; [done| |done].
    destruct (Node_deleteMin fuel l1) as [[l' d]|]; simpl; [|done]. apply fixUp_flip_bind.
  - destruct (Node_deleteMin fuel _) as [[l' d]|]; simpl; [|done]. apply fixUp_flip_bind.
Qed.

Lemma rotateRight_flip n : rotateRight (flipc n) = flipc <$> rotateRight n.
Proof. by destruct n as [|e [|le ll lr lc] r c]. Qed.

(** The optional rotation before going right. *)
Lemma rotate_if_flip e l r c :
  (if is_red l then rotateRight (flipc (Nd e l r c)) else Some (flipc (Nd e l r c))) =
  flipc <$> (if is_red l then rotateRight (Nd e l r c) else Some (Nd e l r c)).
Proof. rewrite rotateRight_flip. by destruct (is_red l). Qed.

Lemma Node_deleteMax_flip fuel n :
  Node_deleteMax fuel (flipc n) = flip_res <$> Node_deleteMax fuel n.
Proof.
  destruct fuel as [|fuel]; [done|]. destruct n as [|e l r c]; [done|]. simpl.
  rewrite flipc_Nd, rotate_if_flip.
  destruct (if is_red l then _ else _) as [[|e0 l0 r0 c0]|]; simpl; [done| |done].
  destruct r0 as [|re rl rr rc]; [done|]. rewrite flipc_Nd, moveRedRight_flip.
  destruct (bool_decide (rc = black) && negb (is_red rl))%bool; simpl.
  - destruct (moveRedRight _) as [[|e1 l1 r1 c1]|]; simpl; [done| |done].
    destruct (Node_deleteMax fuel r1) as [[r' d]|]; simpl; [|done]. apply fixUp_flip_bind.
  - destruct (Node_deleteMax fuel _) as [[r' d]|]; simpl; [|done]. apply fixUp_flip_bind.
Qed.

Lemma Node_delete_flip fuel n q :
  Node_delete fuel (flipc n) q = flip_res <$> Node_delete fuel n q.
Proof.
  destruct fuel as [|fuel]; [done|]. destruct n as [|e l r c]; [done|]. simpl.
  destruct (Less e q) as [k|]; [|done]. simpl. case_decide.
  - destruct l as [|le ll lr lc]; [by simpl; apply fixUp_flip_bind|].
    rewrite flipc_Nd, moveRedLeft_flip.
    destruct (bool_decide (lc = black) && negb (is_red ll))%bool; simpl.
    + destruct (moveRedLeft _) as [[|e1 l1 r1 c1]|]; simpl; [done| |done].
      destruct (Node_delete fuel l1 q) as [[l' d]|]; simpl; [|done]. apply fixUp_flip_bind.
    + destruct (Node_delete fuel _ q) as [[l' d]|]; simpl; [|done]. apply fixUp_flip_bind.
  - rewrite flipc_Nd, rotate_if_flip.
    destruct (if is_red l then _ else _) as [[|e0 l0 r0 c0]|]; simpl; [done| |done].
    destruct r0 as [|re rl rr rc]; simpl.
    { destruct (Less e0 q) as [k0|]; simpl; [|done]. case_decide; simpl; [done|]. apply fixUp_flip_bind. }
    rewrite flipc_Nd, moveRedRight_flip.
    destruct (bool_decide (rc = black) && negb (is_red rl))%bool; simpl.
    + destruct (moveRedRight _) as [[|e1 l1 r1 c1]|]; simpl; [done| |done].
      destruct (Less e1 q) as [k1|]; simpl; [|done]. case_decide; simpl.
      * destruct (Node_min r1); simpl; [|done].
        destruct (Node_deleteMin fuel r1) as [[r' d]|]; simpl; [|done]. apply fixUp_flip_bind.
      * destruct (Node_delete fuel r1 q) as [[r' d]|]; simpl; [|done]. apply fixUp_flip_bind.
    + destruct (Less e0 q) as [k1|]; simpl; [|done]. case_decide; simpl.
      * destruct (Node_min _); simpl; [|done].
        destruct (Node_deleteMin fuel _) as [[r' d]|]; simpl; [|done]. apply fixUp_flip_bind.
      * destruct (Node_delete fuel _ q) as [[r' d]|]; simpl; [|done]. apply fixUp_flip_bind.
Qed.

(** ** The exported delete methods *)

Lemma balanced_dstate n :
  balanced n -> n = Nil \/ (exists h, dstate h black n) \/ (exists h, dstate h red (flipc n)).
Proof.
  intros [h Hn]. inversion Hn as [| |h' cl e l r Hl Hr]; subst; [by left|].
  destruct cl; right; [left|right]; eexists; simpl; constructor; eauto with llrb.
Qed.

Lemma blacken_balanced h c n : llrb h c n -> balanced (blacken n).
Proof. unfold balanced. destruct 1; simpl; eauto with llrb. Qed.

Lemma elems_blacken n : elems (blacken n) = elems n.
Proof. by destruct n. Qed.

Lemma elems_flipc n : elems (flipc n) = elems n.
Proof. by destruct n. Qed.

Lemma finish_blacken t n d : finish t (Some (n, d)) = Some (mkTree (blacken n) (Count t + d)).
Proof. by destruct n. Qed.

(** A recursive delete function that is right on the states it expects, and
    carries the root colour along, is right on a whole tree. *)
Lemma finish_ok (f : Node -> option (Node * Z)) (R : list Elem -> Z -> Prop) t n :
  (forall n, f (flipc n) = flip_res <$> f n) ->
  (forall h c m, dstate h c m -> elems m = elems n ->
     exists m' d, f m = Some (m', d) /\ del_post h c m' /\ R (elems m') d) ->
  balanced n -> n <> Nil ->
  exists n' d, finish t (f n) = Some (mkTree n' (Count t + d)) /\ balanced n' /\ R (elems n') d.
Proof.
  intros Hflip Hf Hb Hne. destruct (balanced_dstate n Hb) as [->|[[h Hd]|[h Hd]]]; [done|..].
  - destruct (Hf _ _ _ Hd eq_refl) as (m & d & -> & Hm & HR). exists (blacken m), d.
    rewrite finish_blacken, elems_blacken. split; [done|]. split; [|done]. by eapply blacken_balanced.
  - destruct (Hf _ _ _ Hd (elems_flipc n)) as (m & d & Em & [c Hm] & HR). exists (blacken m), d.
    rewrite Hflip in Em. destruct (f n) as [[m0 d0]|]; simpl in Em; [|done]. injection Em as <- <-.
    rewrite finish_blacken, elems_blacken in *. replace (blacken m0) with (blacken (flipc m0)) by (by destruct m0).
    split; [done|]. split; [|done]. by eapply blacken_balanced.
Qed.

Lemma good_tail x l : good (x :: l) -> good l.
Proof. intros (_ & _ & H' & _)%(good_app []). done. Qed.

Lemma good_init l x : good (l ++ [x]) -> good l.
Proof. intros (H' & _)%good_app. done. Qed.

Lemma Tree_DeleteMin_spec t :
  tree_ok t -> exists t', Tree_DeleteMin t = Some t' /\ tree_ok t' /\
    elems (Root t') = tail (elems (Root t)).
Proof.
  intros (Hb & Hg & Hc). unfold Tree_DeleteMin. destruct (Root t) as [|e l r c] eqn:E.
  { exists t. unfold tree_ok. rewrite E. done. }
  destruct (finish_ok (Node_deleteMin (length (elems (Nd e l r c))))
    (fun l' d => exists x, elems (Nd e l r c) = x :: l' /\ d = (-1)%Z) t (Nd e l r c))
    as (n' & d & F & Hb' & x & Hx & ->); [apply Node_deleteMin_flip| |done|done|].
  { intros h k m Hd Hm. destruct (Node_deleteMin_ok (length (elems (Nd e l r c))) h k m Hd)
      as (m' & x & Em & Pm & Xm); [by rewrite Hm|]. rewrite Hm in Xm.
    do 2 eexists. split; [exact Em|]. split; [done|]. by exists x. }
  eexists. split; [exact F|]. unfold tree_ok. rewrite Hx in Hg, Hc |- *. simpl in Hc |- *.
  split; [|done]. split; [done|]. split; [by eapply good_tail|lia].
Qed.

Lemma Tree_DeleteMax_spec t :
  tree_ok t -> exists t', Tree_DeleteMax t = Some t' /\ tree_ok t' /\
    elems (Root t') = removelast (elems (Root t)).
Proof.
  intros (Hb & Hg & Hc). unfold Tree_DeleteMax. destruct (Root t) as [|e l r c] eqn:E.
  { exists t. unfold tree_ok. rewrite E. done. }
  destruct (finish_ok (Node_deleteMax (length (elems (Nd e l r c))))
    (fun l' d => exists x, elems (Nd e l r c) = l' ++ [x] /\ d = (-1)%Z) t (Nd e l r c))
    as (n' & d & F & Hb' & x & Hx & ->); [apply Node_deleteMax_flip| |done|done|].
  { intros h k m Hd Hm. destruct (Node_deleteMax_ok (length (elems (Nd e l r c))) h k m)
      as (m' & x & Em & Pm & Xm); [by constructor|by rewrite Hm|]. rewrite Hm in Xm.
    do 2 eexists. split; [exact Em|]. split; [done|]. by exists x. }
  eexists. split; [exact F|]. unfold tree_ok. rewrite Hx in Hg, Hc |- *. rewrite length_app in Hc. simpl in Hc |- *.
  rewrite removelast_last. split; [|done]. split; [done|]. split; [by eapply good_init|lia].
Qed.

Lemma good_spec_delete q l : good l -> good (spec_delete q l).
Proof.
  intros [Hf Hs]. unfold spec_delete. split.
  - apply Forall_forall. intros x Hx. apply list_elem_of_filter in Hx as [_ Hx].
    rewrite Forall_forall in Hf. by apply Hf.
  - clear Hf. induction Hs as [|x l Hs IH Hx]; [by rewrite filter_nil; constructor|].
    rewrite filter_cons. case_decide; [|done]. constructor; [done|].
    apply Forall_forall. intros y Hy. apply list_elem_of_filter in Hy as [_ Hy].
    rewrite Forall_forall in Hx. by apply Hx.
Qed.

Lemma Tree_deleteNode_spec t rr :
  tree_ok t -> fq_name (hName rr) ->
  exists t', Tree_deleteNode t rr = Some t' /\ tree_ok t' /\
    elems (Root t') = spec_delete (hName rr) (elems (Root t)).
Proof.
  intros (Hb & Hg & Hc) Hv. unfold Tree_deleteNode. destruct (Root t) as [|e l r c] eqn:E.
  { exists t. unfold tree_ok. rewrite E. done. }
  destruct (finish_ok (fun n => Node_delete (length (elems (Nd e l r c))) n (hName rr))
    (fun l' d => l' = spec_delete (hName rr) (elems (Nd e l r c)) /\
       Z.of_nat (length l') = (Z.of_nat (length (elems (Nd e l r c))) + d)%Z) t (Nd e l r c))
    as (n' & d & F & Hb' & Hx & Hd); [intros n; apply Node_delete_flip| |done|done|].
  { intros h k m Hd Hm. destruct (Node_delete_ok (hName rr) (length (elems (Nd e l r c))) h k m)
      as (m' & d & Em & Pm & Xm & Cm); [done|by constructor|by rewrite Hm|by rewrite Hm|].
    rewrite Hm in *. eauto 10. }
  eexists. split; [exact F|]. unfold tree_ok. cbn [Root Count]. split; [|done].
  split; [done|]. split; [rewrite Hx; by apply good_spec_delete|lia].
Qed.

(** ** Queries *)

(** At a node, the elements on the side the query does not take lie all above
    or all below it, which decides a filter on the comparison. *)
Ltac one_side lem :=
  eapply Forall_impl; [apply lem; (congruence || done)|]; simpl; congruence.

Lemma spec_search_alt q l :
  spec_search q l = head (filter (fun x => key_cmp (key q) (ekey x) = Eq) l).
Proof.
  unfold spec_search. f_equal. apply list_filter_iff. intros x. apply hit_true.
Qed.

Lemma Node_search_spec n q :
  good (elems n) -> name_or_empty q -> Node_search n q = Some (spec_search q (elems n)).
Proof.
  intros Hg Hq. rewrite spec_search_alt. induction n as [|e l IHl r IHr c]; [done|].
  apply good_node in Hg as (Hl & He & Hr & Hlt & Hgt). cbn [Node_search elems].
  rewrite (Less_spec e q He Hq), filter_app, filter_cons. cbn [mbind option_bind].
  destruct (key_cmp (key q) (ekey e)) eqn:K; simpl.
  - rewrite (filter_none _ (elems l)) by (one_side (above_left q e)). done.
  - rewrite (filter_none _ (elems r)) by (one_side (below_right q e)).
    simpl. by rewrite app_nil_r, IHl.
  - rewrite (filter_none _ (elems l)) by (one_side (above_left q e)). simpl. by rewrite IHr.
Qed.

Lemma Node_floor_spec n q :
  good (elems n) -> name_or_empty q -> Node_floor n q = Some (spec_floor q (elems n)).
Proof.
  intros Hg Hq. unfold spec_floor. induction n as [|e l IHl r IHr c]; [done|].
  apply good_node in Hg as (Hl & He & Hr & Hlt & Hgt). cbn [Node_floor elems].
  rewrite (Less_spec e q He Hq), filter_app, filter_cons. cbn [mbind option_bind].
  destruct (key_cmp (key q) (ekey e)) eqn:K; simpl.
  - rewrite (filter_none _ (elems r)) by (one_side (below_right q e)).
    simpl. by rewrite last_snoc.
  - rewrite (filter_none _ (elems r)) by (one_side (below_right q e)).
    simpl. by rewrite app_nil_r, IHl.
  - rewrite IHr by done. simpl. rewrite last_app_cons.
    by destruct (filter _ (elems r)) as [|x rest] using rev_ind; [|rewrite app_comm_cons, !last_snoc].
Qed.

Lemma Node_ceil_spec n q :
  good (elems n) -> name_or_empty q -> Node_ceil n q = Some (spec_ceil q (elems n)).
Proof.
  intros Hg Hq. unfold spec_ceil. induction n as [|e l IHl r IHr c]; [done|].
  apply good_node in Hg as (Hl & He & Hr & Hlt & Hgt). cbn [Node_ceil elems].
  rewrite (Less_spec e q He Hq), filter_app, filter_cons. cbn [mbind option_bind].
  destruct (key_cmp (key q) (ekey e)) eqn:K; simpl.
  - rewrite (filter_none _ (elems l)) by (one_side (above_left q e)). done.
  - rewrite IHl by done. simpl. by destruct (filter _ (elems l)).
  - rewrite (filter_none _ (elems l)) by (one_side (above_left q e)). simpl. by rewrite IHr.
Qed.

Lemma Node_all_elems n found : Node_all n found = found ++ elems n.
Proof.
  revert found. induction n as [|e l IHl r IHr c]; intros found; simpl; [by rewrite app_nil_r|].
  by rewrite IHr, IHl, <- !app_assoc.
Qed.

(** ** Removing records *)

(** The element with its owner name kept, and without the records of a type. *)
Definition named (e : Elem) : Elem := mkElem (em e) (default EmptyString (Elem_Name e)).
Definition without (rr : RR) (e : Elem) : Elem := Elem_Delete (named e) rr.

(** The records of the type and owner of [rr] go, and with the last record of
    an owner its element. *)
Definition spec_Delete (rr : RR) (l : list Elem) : list Elem :=
  flat_map (fun e =>
    if hit (hName rr) e
    then if Elem_Empty (without rr e) then [] else [without rr e]
    else [e]) l.

Definition store (q : string) (e' : Elem) (l : list Elem) : list Elem :=
  map (fun x => if hit q x then e' else x) l.

Lemma hit_ekey q a b : ekey a = ekey b -> hit q a = hit q b.
Proof. unfold hit. by intros ->. Qed.

Lemma store_miss q e' l : Forall (fun x => key_cmp (key q) (ekey x) <> Eq) l -> store q e' l = l.
Proof.
  induction 1 as [|x l Hx Hl IH]; [done|]. unfold store. simpl. rewrite (proj2 (hit_false q x)) by done.
  f_equal. exact IH.
Qed.

Lemma Node_store_spec n q e' h c :
  llrb h c n -> good (elems n) -> fq_name q ->
  exists n', Node_store n q e' = Some n' /\ llrb h c n' /\ elems n' = store q e' (elems n).
Proof.
  intros Hn Hg Hq.
  assert (exists n', Node_store n q e' = Some n' /\ (forall h c, llrb h c n -> llrb h c n') /\
    elems n' = store q e' (elems n)) as (n' & ? & ? & ?); [|eauto].
  clear h c Hn. induction n as [|e l IHl r IHr c]; [by exists Nil|].
  apply good_node in Hg as (Hl & He & Hr & Hlt & Hgt). cbn [Node_store elems].
  rewrite (Less_spec e q He (or_intror Hq)). cbn [mbind option_bind]. unfold store. rewrite map_app. fold (store q e' (elems l)).
  cbn [map]. fold (store q e' (elems r)).
  destruct (IHl Hl) as (l' & El & Bl & Xl), (IHr Hr) as (r' & Er & Br & Xr).
  destruct (key_cmp (key q) (ekey e)) eqn:K; cbn [cmpZ]; simpl.
  - rewrite (proj2 (hit_true q e) K). exists (Nd e' l r c). split; [done|]. split.
    + intros h c' Hn. inversion Hn; subst; eauto with llrb.
    + by rewrite !store_miss by (one_side (above_left q e) || one_side (below_right q e)).
  - rewrite El. simpl. rewrite (proj2 (hit_false q e)) by congruence.
    exists (Nd e l' r c). split; [done|]. split; [intros h c' Hn; inversion Hn; subst; eauto with llrb|].
    simpl. by rewrite Xl, (store_miss _ _ (elems r)) by (one_side (below_right q e)).
  - rewrite Er. simpl. rewrite (proj2 (hit_false q e)) by congruence.
    exists (Nd e l r' c). split; [done|]. split; [intros h c' Hn; inversion Hn; subst; eauto with llrb|].
    simpl. by rewrite Xr, (store_miss _ _ (elems l)) by (one_side (above_left q e)).
Qed.

Lemma store_good q e' l :
  good l -> elem_ok e' -> (forall x, x ∈ l -> hit q x = true -> ekey e' = ekey x) -> good (store q e' l).
Proof.
  intros [Hf Hs] He' Hk.
  assert (Hkeys : forall x, x ∈ l -> ekey (if hit q x then e' else x) = ekey x).
  { intros x Hx. destruct (hit q x) eqn:E; [by apply Hk|done]. }
  clear Hk. unfold store. split.
  - apply Forall_forall. intros y Hy. apply list_elem_of_fmap in Hy as (x & -> & Hx).
    rewrite Forall_forall in Hf. destruct (hit q x); [done|by apply Hf].
  - clear Hf. induction Hs as [|x l Hs IH Hx]; [constructor|]. simpl. constructor.
    + apply IH. intros y Hy. apply Hkeys. by right.
    + apply Forall_forall. intros y Hy. apply list_elem_of_fmap in Hy as (z & -> & Hz).
      unfold elt. rewrite !Hkeys by set_solver. rewrite Forall_forall in Hx. by apply Hx.
Qed.

(** A sorted list holds at most one element that compares equal to the query. *)
Lemma spec_search_Some q l e :
  spec_search q l = Some e ->
  exists l1 l2, l = l1 ++ e :: l2 /\ key_cmp (key q) (ekey e) = Eq /\
    Forall (fun x => key_cmp (key q) (ekey x) <> Eq) l1.
Proof.
  unfold spec_search. induction l as [|x l IH]; [done|]. rewrite filter_cons. case_decide as Hx.
  - intros [= ->]. exists [], l. split; [done|]. split; [by apply hit_true|constructor].
  - intros (l1 & l2 & -> & He & Hl1)%IH. exists (x :: l1), l2. split; [done|]. split; [done|].
    constructor; [|done]. apply hit_false. by destruct (hit q x).
Qed.

Lemma spec_search_None q l :
  spec_search q l = None <-> Forall (fun x => key_cmp (key q) (ekey x) <> Eq) l.
Proof.
  unfold spec_search. split.
  - intros Hn%head_None. apply Forall_forall. intros x Hx. apply hit_false.
    destruct (hit q x) eqn:E; [|done]. exfalso.
    assert (x ∈ filter (fun e => hit q e = true) l) as Hin by (by apply list_elem_of_filter).
    rewrite Hn in Hin. by apply elem_of_nil in Hin.
  - intros Hl. rewrite filter_none; [done|]. eapply Forall_impl; [exact Hl|]. intros x Hx.
    rewrite (proj2 (hit_false q x)); done.
Qed.

Lemma spec_Delete_miss rr l :
  Forall (fun x => key_cmp (key (hName rr)) (ekey x) <> Eq) l -> spec_Delete rr l = l.
Proof.
  induction 1 as [|x l Hx Hl IH]; [done|]. unfold spec_Delete. simpl.
  rewrite (proj2 (hit_false _ x)) by done. simpl. f_equal. exact IH.
Qed.

Lemma spec_Delete_app rr l1 l2 : spec_Delete rr (l1 ++ l2) = spec_Delete rr l1 ++ spec_Delete rr l2.
Proof. apply flat_map_app. Qed.

Lemma store_app q e' l1 l2 : store q e' (l1 ++ l2) = store q e' l1 ++ store q e' l2.
Proof. apply map_app. Qed.

Lemma Elem_named_eq e : elem_ok e -> Elem_named e = Some (named e).
Proof. intros (n & Hn & _). unfold Elem_named, named. by rewrite Hn. Qed.

Lemma named_ok e : elem_ok e -> elem_ok (named e) /\ ekey (named e) = ekey e /\ ename (named e) <> EmptyString.
Proof.
  intros He. destruct (Elem_named_ok e He) as (e' & E & _ & Hn & Hok & Hk).
  rewrite (Elem_named_eq e He) in E. by injection E as <-.
Qed.

Lemma without_ok rr e : elem_ok e -> elem_ok (without rr e) /\ ekey (without rr e) = ekey e.
Proof.
  intros He. destruct (named_ok e He) as (Hok & Hk & Hn). rewrite <- Hk. by apply Elem_Delete_ok.
Qed.

Lemma Tree_Delete_spec t rr :
  tree_ok t -> fq_name (hName rr) ->
  exists t', Tree_Delete t rr = Some t' /\ tree_ok t' /\
    elems (Root t') = spec_Delete rr (elems (Root t)).
Proof.
  intros Ht Hv. pose proof Ht as ([h Hb] & Hg & Hc). unfold Tree_Delete, Tree_Search.
  rewrite (Node_search_spec _ _ Hg (or_intror Hv)). cbn [mbind option_bind].
  destruct (Root t) as [|e0 l0 r0 c0] eqn:E; [by exists t; rewrite E|]. rewrite <- E in *.
  destruct (spec_search (hName rr) (elems (Root t))) as [el|] eqn:Es.
  2: { exists t. apply spec_search_None in Es. by rewrite spec_Delete_miss. }
  apply spec_search_Some in Es as (l1 & l2 & El & Hel & Hl1).
  pose proof Hg as Hg'. rewrite El in Hg'. apply good_app in Hg' as (_ & Hok & _ & _ & Hgt).
  destruct (without_ok rr el Hok) as [Hok' Hk'].
  rewrite (Elem_named_eq el Hok). cbn [mbind option_bind]. fold (without rr el).
  destruct (Node_store_spec (Root t) (hName rr) (without rr el) h black Hb Hg Hv) as (n' & -> & Hb' & Hn').
  cbn [mbind option_bind].
  assert (Hl2 : Forall (fun x => key_cmp (key (hName rr)) (ekey x) <> Eq) l2)
    by (one_side (below_right (hName rr) el)).
  assert (Hst : elems n' = l1 ++ without rr el :: l2).
  { rewrite Hn', El, store_app, store_miss by done. f_equal. unfold store. simpl.
    rewrite (proj2 (hit_true _ el)) by done. f_equal. by apply store_miss. }
  assert (Hgn : good (elems n')).
  { rewrite Hn'. apply store_good; [done..|]. intros x _ Hx%hit_true.
    apply (cmp_eq (cmp:=key_cmp)) in Hx, Hel. congruence. }
  assert (Ht' : tree_ok (mkTree n' (Count t))).
  { split; [by exists h|]. split; [done|]. simpl. rewrite Hn'. unfold store. by rewrite length_map. }
  assert (Hspec : spec_Delete rr (elems (Root t)) =
    l1 ++ (if Elem_Empty (without rr el) then [] else [without rr el]) ++ l2).
  { rewrite El, spec_Delete_app, spec_Delete_miss by done. f_equal. unfold spec_Delete at 1. simpl.
    rewrite (proj2 (hit_true _ el)) by done. f_equal. by apply spec_Delete_miss. }
  rewrite Hspec. destruct (Elem_Empty (without rr el)).
  - destruct (Tree_deleteNode_spec _ rr Ht' Hv) as (t' & -> & Hok2 & Hx). exists t'.
    split; [done|]. split; [done|]. rewrite Hx. simpl. rewrite Hst in Hgn |- *.
    by rewrite spec_delete_at by (done || congruence).
  - eexists. split; [done|]. split; [done|]. exact Hst.
Qed.
End spec.
