(* ===== verification/TreeWalk.v ===== *)
(** * Walking the zone tree

    [Walk] and [AuthWalk] visit the elements in order.  [AuthWalk] marks a
    name as not authoritative when it lies below a delegation: below a name
    with NS records.  It looks only at the delegations it has met so far; the
    order of the tree makes that enough. *)

From S2P Require Import Prelude.
From S2P Require Import DnsNames.
From S2P Require Import DnsMsg.
From S2P Require Import Less.
From S2P Require Import Elem.
From S2P Require Import Tree.
From S2P Require Import TreeBalance.
From S2P Require Import TreeSpec.
From stdpp Require Import sorting.

(** ** Positions in a name *)

(** The proper ancestors of a name: what is left after dropping labels. *)
Definition ancestor (a s : string) : Prop :=
  exists k, (0 < k < length (labels s))%nat /\ a = dotted (drop k (labels s)).

Definition ancestors (s : string) : list string :=
  map (fun k => dotted (drop k (labels s))) (seq 1 (length (labels s) - 1)).

Lemma ancestors_spec a s : a ∈ ancestors s <-> ancestor a s.
Proof.
  unfold ancestors, ancestor. rewrite list_elem_of_fmap. setoid_rewrite elem_of_seq. split.
  - intros (k & -> & Hk). exists k. split; [lia|done].
  - intros (k & Hk & ->). exists k. split; [done|lia].
Qed.

Lemma ancestor_key a s : valid_name s -> ancestor a s -> key_cmp (key a) (key s) = Lt.
Proof.
  intros Hv (k & Hk & ->). pose proof Hv as (_ & Hok & _). rewrite (key_valid s Hv).
  assert (drop k (labels s) <> []) as Hd.
  { intros E. apply (f_equal length) in E. rewrite length_drop in E. simpl in E. lia. }
  rewrite key_dotted by (try done; by apply Forall_drop).
  rewrite <- (take_drop k (labels s)) at 2. rewrite key_of_app. apply key_cmp_app.
  intros E. apply (f_equal length) in E. rewrite length_key_of, length_take in E. simpl in E. lia.
Qed.

Section walk.
Context `{GR : GoRange} `{Ok : DnsNamesOk}.

(** ** The search for a delegation above a name *)

Lemma authwalk_loop_spec ns name fuel i :
  plain_name name ->
  (i <= label_start (labels name) (length (labels name) - 1) < fuel + i)%nat ->
  authwalk_loop fuel ns name i =
  Some (bool_decide (Forall (fun k => (i < label_start (labels name) k)%nat ->
                                      dotted (drop k (labels name)) ∉ ns)
                            (seq 0 (length (labels name))))).
Proof.
  intros Hp. pose proof Hp as ((Hne & Hok & Es) & _).
  set (ls := labels name) in *. set (n := length ls) in *.
  assert (Hn : (0 < n)%nat) by (unfold n; destruct ls; [done|simpl; lia]).
  revert i. induction fuel as [|fuel IH]; intros i Hi; [lia|]. simpl.
  assert (Hlen : slen name = label_start ls n) by (rewrite Es; by rewrite label_start_full).
  assert (Hlast : (label_start ls (n - 1) < label_start ls n)%nat) by (apply label_start_mono; lia).
  destruct (label_at ls i) as (k & Hk & Hb); [rewrite <- Es, Hlen; lia|].
  destruct (decide (S k < n)%nat) as [HSk|HSk].
  - rewrite (NextLabel_plain name k i Hp HSk Hb). fold ls.
    rewrite Es. rewrite label_start_drop. simpl. rewrite <- Es. case_decide as Hin.
    + f_equal. symmetry. apply bool_decide_eq_false_2. intros Hall. rewrite Forall_forall in Hall.
      apply (Hall (S k)); [apply elem_of_seq; lia|lia|done].
    + rewrite IH.
      2: { pose proof (label_start_le ls (S k) (n - 1) ltac:(lia)). lia. }
      f_equal. apply bool_decide_ext. rewrite !Forall_forall. split; intros Hall j Hj Hs.
      * destruct (decide (S i < label_start ls j)%nat) as [|Hnj]; [by apply Hall|].
        assert (label_start ls j = S i) as Ej by lia.
        assert (j = S k) as ->; [|done]. apply elem_of_seq in Hj.
        destruct (decide (j <= k)%nat) as [Hle|Hle].
        { pose proof (label_start_le ls j k Hle). lia. }
        destruct (decide (j = S k)) as [|Hne2]; [done|].
        pose proof (label_start_mono ls (S k) j ltac:(unfold n in *; lia)). lia.
      * apply Hall; [done|lia].
  - rewrite (surjective_pairing (NextLabel name i)). cbn -[NextLabel].
    rewrite (NextLabel_plain_end name k i Hp); [|unfold n in HSk; fold ls; lia|fold ls; lia].
    f_equal. symmetry. apply bool_decide_eq_true_2. apply Forall_forall. intros j Hj Hs.
    exfalso. apply elem_of_seq in Hj. pose proof (label_start_le ls j k ltac:(lia)). lia.
Qed.

(** ** What the walks compute *)

Section visit.
Context {St E : Type}.

(** A callback run over a list of elements, until it reports an error. *)
Fixpoint visit (fn : Elem -> St -> St * option E) (l : list Elem) (s : St) : St * option E :=
  match l with
  | [] => (s, None)
  | e :: l' =>
      match fn e s with
      | (s, Some err) => (s, Some err)
      | (s, None) => visit fn l' s
      end
  end.

Lemma visit_app fn l1 l2 s :
  visit fn (l1 ++ l2) s =
  match visit fn l1 s with
  | (s, Some err) => (s, Some err)
  | (s, None) => visit fn l2 s
  end.
Proof.
  revert s. induction l1 as [|e l1 IH]; intros s; simpl; [done|].
  destruct (fn e s) as [s' [err|]]; [done|]. apply IH.
Qed.

Lemma Node_walk_visit (fn : Elem -> gmap Z (list RR) -> St -> St * option E) n s :
  Node_walk fn n s = visit (fun e => fn e (em e)) (elems n) s.
Proof.
  revert s. induction n as [|e l IHl r IHr c]; intros s; [done|]. cbn [Node_walk elems].
  rewrite visit_app, IHl. destruct (visit _ (elems l) s) as [s' [err|]]; [done|]. simpl.
  destruct (fn e (em e) s') as [s'' [err|]]; [done|]. apply IHr.
Qed.

(** A delegated name of the zone, the names below one. *)
Definition cut (d : Elem) (x : string) : Prop := Elem_Type d TypeNS <> [] /\ Elem_Name d = Some x.
Definition below_cut (l : list Elem) (e : Elem) : Prop :=
  exists d x n, d ∈ l /\ cut d x /\ Elem_Name e = Some n /\ ancestor x n.

Definition cuts (l : list Elem) (ns : gset string) : Prop :=
  forall x, x ∈ ns <-> exists d, d ∈ l /\ cut d x.

Lemma cuts_snoc l ns e n :
  cuts l ns -> Elem_Name e = Some n ->
  cuts (l ++ [e]) (if decide (Elem_Type e TypeNS = []) then ns else {[ n ]} ∪ ns).
Proof.
  intros Hc Hn x. unfold cut. case_decide as Ht; [rewrite (Hc x)|rewrite elem_of_union, (Hc x), elem_of_singleton];
    unfold cut; setoid_rewrite elem_of_app; setoid_rewrite list_elem_of_singleton; split.
  - intros (d & Hd & Hx). exists d. auto.
  - intros (d & [Hd| ->] & Hx & Hd'); [by exists d|done].
  - intros [->|(d & Hd & Hx)]; [exists e|exists d]; auto.
  - intros (d & [Hd| ->] & Hx & Hd'); [right; by exists d|left; congruence].
Qed.

(** The delegations above a name come before it in the order of the tree. *)
Lemma cuts_before pre e post ns n :
  good (pre ++ e :: post) -> cuts (pre ++ [e]) ns -> Elem_Name e = Some n -> plain_name n ->
  Forall (fun k => (0 < label_start (labels n) k)%nat -> dotted (drop k (labels n)) ∉ ns)
         (seq 0 (length (labels n))) <-> ~ below_cut (pre ++ e :: post) e.
Proof.
  intros Hg Hc Hn [Hv _]. rewrite Forall_forall. split.
  - intros Hall (d & x & n' & Hd & Hx & Hn' & k & Hk & ->). simplify_eq.
    pose proof (label_start_mono (labels n) 0 k ltac:(lia)).
    apply (Hall k); [apply elem_of_seq; lia|lia|]. apply Hc. exists d. split; [|done].
    apply elem_of_app. left. pose proof Hg as (_ & He & _ & _ & Hpost)%good_app.
    assert (key_cmp (ekey d) (ekey e) = Lt) as Hlt.
    { unfold ekey. destruct Hx as [_ ->]. rewrite Hn. apply ancestor_key; [done|]. by exists k. }
    apply elem_of_app in Hd as [Hd|Hd]; [done|]. exfalso.
    apply elem_of_cons in Hd as [->|Hd]; [by rewrite (cmp_refl (cmp:=key_cmp)) in Hlt|].
    rewrite Forall_forall in Hpost. specialize (Hpost d Hd). unfold elt in Hpost.
    pose proof (cmp_trans (cmp:=key_cmp) _ _ _ Hlt Hpost) as Hx'. by rewrite (cmp_refl (cmp:=key_cmp)) in Hx'.
  - intros Hnb k Hk Hs (d & Hd & Hx)%Hc. apply Hnb. apply elem_of_seq in Hk.
    exists d, (dotted (drop k (labels n))), n. split; [|split; [done|split; [done|]]].
    + apply elem_of_app. apply elem_of_app in Hd as [Hd|Hd%list_elem_of_singleton]; [by left|].
      subst. right. by left.
    + exists k. split; [|done]. destruct k; [unfold label_start in Hs; simpl in Hs; lia|lia].
Qed.

(** The flag [AuthWalk] hands to its callback. *)
Definition authoritative (l : list Elem) (e : Elem) : bool :=
  negb (existsb (fun d => negb (bool_decide (Elem_Type d TypeNS = [])) &&
                   existsb (fun x => bool_decide (Elem_Name d = Some x)) (from_option ancestors [] (Elem_Name e))) l).

Lemma authoritative_spec l e : authoritative l e = true <-> ~ below_cut l e.
Proof.
  unfold authoritative. rewrite negb_true_iff, <- not_true_iff_false, existsb_exists. apply not_iff_compat.
  setoid_rewrite andb_true_iff. setoid_rewrite existsb_exists. setoid_rewrite negb_true_iff.
  setoid_rewrite bool_decide_eq_false. setoid_rewrite bool_decide_eq_true. setoid_rewrite <- list_elem_of_In.
  unfold below_cut, cut. split.
  - intros (d & Hd & Ht & x & Hx & Hn). destruct (Elem_Name e) as [n|] eqn:En; [|by apply elem_of_nil in Hx].
    exists d, x, n. by rewrite <- ancestors_spec.
  - intros (d & x & n & Hd & (Ht & Hn) & -> & Ha%ancestors_spec). by exists d; eauto.
Qed.

Lemma authwalk_flag pre e post ns n :
  good (pre ++ e :: post) -> cuts (pre ++ [e]) ns -> Elem_Name e = Some n -> plain_name n ->
  authwalk_loop (slen n + 1) ns n 0 = Some (authoritative (pre ++ e :: post) e).
Proof.
  intros Hg Hc Hn Hp. pose proof Hp as ((Hne & Hok & Es) & _). rewrite authwalk_loop_spec; [|done|].
  - f_equal. apply eq_true_iff_eq. rewrite bool_decide_eq_true, authoritative_spec.
    by apply cuts_before.
  - assert (slen n = slen (dotted (labels n))) as El by (by rewrite <- Es).
    pose proof (label_start_le (labels n) (length (labels n) - 1) (length (labels n)) ltac:(lia)) as Hl.
    rewrite label_start_full in Hl. lia.
Qed.

Lemma Node_authwalk_visit (fn : Elem -> gmap Z (list RR) -> bool -> St -> St * option E) n pre post ns s :
  good (pre ++ elems n ++ post) -> Forall (fun e => exists x, Elem_Name e = Some x /\ plain_name x) (elems n) ->
  cuts pre ns ->
  exists ns' s' err, Node_authwalk fn n ns s = Some (ns', s', err) /\
    visit (fun e => fn e (em e) (authoritative (pre ++ elems n ++ post) e)) (elems n) s = (s', err) /\
    (err = None -> cuts (pre ++ elems n) ns').
Proof.
  revert pre post ns s. induction n as [|e l IHl r IHr c]; intros pre post ns s Hg Hpl Hc.
  { exists ns, s, None. simpl. by rewrite app_nil_r. }
  cbn [Node_authwalk elems] in *.
  replace (pre ++ (elems l ++ e :: elems r) ++ post) with (pre ++ elems l ++ (e :: elems r ++ post)) in *
    by (rewrite <- app_assoc; done).
  apply Forall_app in Hpl as [Hl [(x & Hx & Hp) Hr]%Forall_cons_iff].
  destruct (IHl pre _ ns s Hg Hl Hc) as (ns1 & s1 & err1 & -> & Hv1 & Hc1).
  rewrite visit_app, Hv1. cbn [mbind option_bind].
  destruct err1 as [err1|]; [by exists ns1, s1, (Some err1)|]. specialize (Hc1 eq_refl).
  rewrite Hx. cbn [mbind option_bind].
  pose proof (cuts_snoc _ _ _ _ Hc1 Hx) as Hc2.
  rewrite app_assoc in Hg |- *. rewrite (authwalk_flag _ _ _ _ _ Hg Hc2 Hx Hp).
  cbn [mbind option_bind visit].
  set (ns2 := if decide _ then _ else _) in *.
  destruct (fn e (em e) _ s1) as [s2 [err2|]] eqn:Ef; [by exists ns2, s2, (Some err2)|].
  assert (Es : (pre ++ elems l) ++ e :: elems r ++ post = ((pre ++ elems l) ++ [e]) ++ elems r ++ post)
    by (by rewrite <- (app_assoc _ [e])).
  rewrite Es in *. destruct (IHr _ post ns2 s2 Hg Hr Hc2) as (ns3 & s3 & err3 & -> & Hv3 & Hc3).
  exists ns3, s3, err3. split; [done|]. split; [done|]. intros He. specialize (Hc3 He).
  by rewrite <- !app_assoc in Hc3.
Qed.

Lemma Tree_AuthWalk_visit (fn : Elem -> gmap Z (list RR) -> bool -> St -> St * option E) t s :
  tree_ok t -> Forall (fun e => exists x, Elem_Name e = Some x /\ plain_name x) (elems (Root t)) ->
  Tree_AuthWalk fn t s =
  Some (visit (fun e => fn e (em e) (authoritative (elems (Root t)) e)) (elems (Root t)) s).
Proof.
  intros (_ & Hg & _) Hp. unfold Tree_AuthWalk.
  destruct (Node_authwalk_visit fn (Root t) [] [] ∅ s) as (ns & s' & err & -> & Hv & _).
  - by rewrite app_nil_r.
  - done.
  - intros x. split; [set_solver|]. intros (d & Hd & _). by apply elem_of_nil in Hd.
  - simpl in *. rewrite app_nil_r in Hv. by rewrite Hv.
Qed.
End visit.
End walk.
