(* ===== verification/TreeTheorems.v ===== *)
(** * Properties of the zone tree

    The tree of plugin/file/tree against its specification, a sorted list of
    elements; the order it sorts by; the authoritative walk. *)

From S2P Require Import Prelude.
From S2P Require Import GoStd.
From S2P Require Import DnsNames.
From S2P Require Import DnsMsg.
From S2P Require Import Less.
From S2P Require Import Elem.
From S2P Require Import Tree.
From S2P Require Import TreeBalance.
From S2P Require Import TreeSpec.
From S2P Require Import TreeWalk.

(** ** Examples *)

Definition rrA (name : string) (addr : IP) : RR := mkRR name TypeA ClassINET 3600 (A addr).
Definition rrNS (name ns : string) : RR := mkRR name TypeNS ClassINET 3600 (NS ns).

Definition example_rrs : list RR :=
  [rrA "d.example.org." [10; 0; 0; 4]%Z; rrA "a.example.org." [10; 0; 0; 1]%Z; rrNS "sub.example.org." "ns.sub.example.org.";
   rrA "ns.sub.example.org." [10; 0; 1; 1]%Z; rrA "b.example.org." [10; 0; 0; 2]%Z; rrA "a.example.org." [10; 0; 0; 9]%Z;
   rrA "c.example.org." [10; 0; 0; 3]%Z].

#[local] Existing Instance range_sorted.
#[local] Existing Instance dns_reference.

Fixpoint insert_all (t : Tree) (rrs : list RR) : option Tree :=
  match rrs with
  | [] => Some t
  | r :: rrs' => t ← Tree_Insert t r; insert_all t rrs'
  end.

Definition example_tree : Tree := default (mkTree Nil 0) (insert_all (mkTree Nil 0) example_rrs).

Lemma insert_all_ok rrs t :
  tree_ok t -> Forall (fun r => fq_name (hName r)) rrs ->
  exists t', insert_all t rrs = Some t' /\ tree_ok t'.
Proof.
  intros Ht Hrs. revert t Ht. induction Hrs as [|r rrs Hr _ IH]; intros t Ht; [by exists t|]. simpl.
  destruct (Tree_Insert_spec t r Ht Hr) as (t1 & -> & Ht1 & _). simpl. by apply IH.
Qed.

Lemma example_tree_ok : tree_ok example_tree.
Proof.
  destruct (insert_all_ok example_rrs (mkTree Nil 0)) as (t & E & Ht).
  - split; [exists 0%nat; constructor|]. split; [|done]. split; constructor.
  - by apply (bool_decide_unpack _); vm_compute.
  - unfold example_tree. by rewrite E.
Defined.

(** ** Theorems *)

(** C1 Inserting a record returns, keeps the tree a balanced left-leaning
    red-black tree in strict name order with the right count, and acts on its
    in-order list as insertion into a sorted list does: the record joins the
    element of its name, or a new element takes its place in the order. *)
Theorem insert_refines `{GoRange} `{DnsNamesOk} (t : Tree) (rr : RR) :
  tree_ok t -> fq_name (hName rr) ->
  exists t', Tree_Insert t rr = Some t' /\ tree_ok t' /\
             elems (Root t') = spec_insert rr (elems (Root t)).
Proof. apply Tree_Insert_spec. Qed.

Lemma insert_refines_witness :
  exists t', Tree_Insert example_tree (rrA "bb.example.org." [10; 0; 0; 7]%Z) = Some t' /\ tree_ok t' /\
    elems (Root t') = spec_insert (rrA "bb.example.org." [10; 0; 0; 7]%Z) (elems (Root example_tree)).
Proof.
  apply (@insert_refines range_sorted dns_reference dns_reference_ok example_tree
           (rrA "bb.example.org." [10; 0; 0; 7]%Z) example_tree_ok).
  by apply (bool_decide_unpack _); vm_compute.
Defined.

(** C2 Deleting a record's type from the tree returns, keeps the invariant,
    and acts on the in-order list as the specification does: the element of
    the record's name loses the type, and disappears when it has none left;
    every other element is untouched. *)
Theorem delete_refines `{GoRange} `{DnsNamesOk} (t : Tree) (rr : RR) :
  tree_ok t -> fq_name (hName rr) ->
  exists t', Tree_Delete t rr = Some t' /\ tree_ok t' /\
             elems (Root t') = spec_Delete rr (elems (Root t)).
Proof. apply Tree_Delete_spec. Qed.

Lemma delete_refines_witness :
  exists t', Tree_Delete example_tree (rrA "b.example.org." [10; 0; 0; 2]%Z) = Some t' /\ tree_ok t' /\
    elems (Root t') = spec_Delete (rrA "b.example.org." [10; 0; 0; 2]%Z) (elems (Root example_tree)).
Proof.
  apply (@delete_refines range_sorted dns_reference dns_reference_ok example_tree
           (rrA "b.example.org." [10; 0; 0; 2]%Z) example_tree_ok).
  by apply (bool_decide_unpack _); vm_compute.
Defined.

(** Deleting the least and the greatest element returns, keeps the
    invariant and removes exactly the first and the last element of the
    in-order list. *)
Theorem delete_ends_refine `{GoRange} (t : Tree) :
  tree_ok t ->
  (exists t', Tree_DeleteMin t = Some t' /\ tree_ok t' /\ elems (Root t') = tail (elems (Root t))) /\
  (exists t', Tree_DeleteMax t = Some t' /\ tree_ok t' /\ elems (Root t') = removelast (elems (Root t))).
Proof. intros Ht. split; [by apply Tree_DeleteMin_spec|by apply Tree_DeleteMax_spec]. Qed.

(** Searching the tree finds the element of the name, and the greatest
    element not above and the least not below it, as searching the whole
    in-order list does; listing the tree gives that list. *)
Theorem search_refines `{GoRange} `{DnsNamesOk} (t : Tree) (q : string) :
  tree_ok t -> name_or_empty q ->
  Tree_Search t q = Some (spec_search q (elems (Root t))) /\
  Tree_Prev t q = Some (spec_floor q (elems (Root t))) /\
  Tree_Next t q = Some (spec_ceil q (elems (Root t))) /\
  Tree_All t = elems (Root t) /\ Tree_Len t = Z.of_nat (length (elems (Root t))).
Proof.
  intros (_ & Hg & Hc) Hq. split; [by apply Node_search_spec|]. split; [by apply Node_floor_spec|].
  split; [by apply Node_ceil_spec|]. split; [|done]. apply (Node_all_elems (Root t) []).
Qed.

Lemma search_refines_witness :
  (Tree_Search example_tree "c.example.org." = Some (spec_search "c.example.org." (elems (Root example_tree))) /\
   Tree_Prev example_tree "c.example.org." = Some (spec_floor "c.example.org." (elems (Root example_tree))) /\
   Tree_Next example_tree "c.example.org." = Some (spec_ceil "c.example.org." (elems (Root example_tree))) /\
   Tree_All example_tree = elems (Root example_tree) /\
   Tree_Len example_tree = Z.of_nat (length (elems (Root example_tree)))).
Proof.
  apply (@search_refines range_sorted dns_reference dns_reference_ok example_tree "c.example.org." example_tree_ok).
  right. by apply (bool_decide_unpack _); vm_compute.
Defined.

(** The depth of a tree with the invariant is at most twice the binary
    logarithm of its size plus one, so no search takes more steps. *)
Theorem depth_bound `{GoRange} (t : Tree) :
  tree_ok t -> (depth (Root t) <= 2 * Nat.log2 (Z.to_nat (Tree_Len t) + 1))%nat.
Proof.
  intros (Hb & _ & Hc). unfold Tree_Len. rewrite Hc, Nat2Z.id. by apply balanced_depth.
Qed.

Lemma depth_bound_witness : (depth (Root example_tree) <= 2 * Nat.log2 (Z.to_nat (Tree_Len example_tree) + 1))%nat.
Proof. apply (@depth_bound range_sorted example_tree example_tree_ok). Defined.

(** Comparing two fully qualified names returns, and gives the order of
    their keys: the labels from the right, each with its dot and its escapes
    decoded.  So it is a total order on keys. *)
Theorem less_compares_keys `{DnsNamesOk} (a b : string) :
  fq_name a -> fq_name b ->
  less a b = Some (cmpZ (key_cmp (key a) (key b))) /\
  (less a b = Some 0%Z <-> key a = key b).
Proof.
  intros Ha Hb. rewrite (less_spec a b (or_intror Ha) (or_intror Hb)). split; [done|].
  rewrite <- (cmp_eq (cmp:=key_cmp)). by destruct (key_cmp (key a) (key b)).
Qed.

Lemma less_compares_keys_witness :
  less "a.example.org." "b.example.org." = Some (cmpZ (key_cmp (key "a.example.org.") (key "b.example.org."))) /\
  (less "a.example.org." "b.example.org." = Some 0%Z <-> key "a.example.org." = key "b.example.org.").
Proof.
  apply (@less_compares_keys dns_reference dns_reference_ok);
    by apply (bool_decide_unpack _); vm_compute.
Defined.

(** For names whose bytes all sort after the dot (letters, digits,
    underscores, no hyphens) the comparison is the canonical order of
    RFC 4034. *)
Theorem less_canonical `{DnsNamesOk} (a b : string) :
  after_dot_name a -> after_dot_name b -> less a b = Some (cmpZ (canonical_cmp a b)).
Proof.
  intros Ha Hb. rewrite less_spec; [by rewrite key_canon|right; right; apply Ha|right; right; apply Hb].
Qed.

Lemma less_canonical_witness :
  less "www.example.org." "_sip.www.example.org." =
  Some (cmpZ (canonical_cmp "www.example.org." "_sip.www.example.org.")).
Proof.
  apply (@less_canonical dns_reference dns_reference_ok);
    by apply (bool_decide_unpack _); vm_compute.
Defined.

(** With a hyphen the order differs from the canonical one: the dot that
    ends a label takes part in the comparison, so a-b sorts before a although
    the canonical order puts it after. *)
Theorem less_hyphen_not_canonical :
  @less dns_reference "a-b.example.org." "a.example.org." = Some (-1)%Z /\
  canonical_cmp "a-b.example.org." "a.example.org." = Gt.
Proof. by split; vm_compute. Qed.

(** The authoritative walk visits the elements in order and flags each as
    authoritative exactly when no name above it has NS records: looking only
    at the delegations met so far is enough. *)
Theorem authwalk_flags_delegated `{GoRange} `{DnsNamesOk} {St E : Type}
    (fn : Elem -> gmap Z (list RR) -> bool -> St -> St * option E) (t : Tree) (s : St) :
  tree_ok t -> Forall (fun e => exists x, Elem_Name e = Some x /\ plain_name x) (elems (Root t)) ->
  Tree_AuthWalk fn t s =
    Some (visit (fun e => fn e (em e) (authoritative (elems (Root t)) e)) (elems (Root t)) s) /\
  forall e, authoritative (elems (Root t)) e = true <-> ~ below_cut (elems (Root t)) e.
Proof. intros Ht Hp. split; [by apply Tree_AuthWalk_visit|]. intros e. apply authoritative_spec. Qed.

Lemma authwalk_flags_delegated_witness :
  Tree_AuthWalk (fun e _ auth (s : list (string * bool)) => (s ++ [(default EmptyString (Elem_Name e), auth)], @None string))
    example_tree [] =
  Some (visit (fun e s => (s ++ [(default EmptyString (Elem_Name e), authoritative (elems (Root example_tree)) e)], None))
          (elems (Root example_tree)) []).
Proof.
  apply (@authwalk_flags_delegated range_sorted dns_reference dns_reference_ok _ _
    (fun e _ auth (s : list (string * bool)) => (s ++ [(default EmptyString (Elem_Name e), auth)], @None string))
    example_tree [] example_tree_ok).
  repeat (apply Forall_cons_2; [eexists; split; [vm_compute; reflexivity|by apply (bool_decide_unpack _); vm_compute]|]).
  constructor.
Defined.
