(* ===== verification/Zone.v ===== *)
(** * A zone of the file plugin

    plugin/file/zone.go, closest.go, wildcard.go, dname.go and
    plugin/file/tree/glue.go: the zone's data, adding a record to it, the
    searches a lookup is made of. *)

From S2P Require Import Prelude.
From S2P Require Import GoStd.
From S2P Require Import DnsNames.
From S2P Require Import DnsMsg.
From S2P Require Import DnsUtil.
From S2P Require Import Less.
From S2P Require Import Elem.
From S2P Require Import Tree.

(** The SOA of an apex is a pointer to a record; [None] is nil. *)
Record Apex := mkApex {
  aSOA : option RR;
  aNS : list RR;
  aSIGSOA : list RR;
  aSIGNS : list RR
}.

(** The locks, the channels and the upstream of a zone are not part of its
    data. *)
Record Zone := mkZone {
  origin : string;
  origLen : nat;
  zfile : string;
  zTree : Tree;
  zApex : Apex;
  Expired : bool;
  TransferFrom : list string
}.

Definition emptyApex : Apex := mkApex None [] [] [].
Definition emptyTree : Tree := mkTree Nil 0.

Definition set_zTree (t : Tree) (z : Zone) : Zone :=
  mkZone (origin z) (origLen z) (zfile z) t (zApex z) (Expired z) (TransferFrom z).
Definition set_zApex (a : Apex) (z : Zone) : Zone :=
  mkZone (origin z) (origLen z) (zfile z) (zTree z) a (Expired z) (TransferFrom z).
Definition set_Expired (b : bool) (z : Zone) : Zone :=
  mkZone (origin z) (origLen z) (zfile z) (zTree z) (zApex z) b (TransferFrom z).
Definition set_TransferFrom (l : list string) (z : Zone) : Zone :=
  mkZone (origin z) (origLen z) (zfile z) (zTree z) (zApex z) (Expired z) l.
Definition SetFile (path : string) (z : Zone) : Zone :=
  mkZone (origin z) (origLen z) path (zTree z) (zApex z) (Expired z) (TransferFrom z).

Section zone.
Context `{GR : GoRange} `{Dn : DnsNames}.

Definition NewZone (name file : string) : Zone :=
  mkZone (Fqdn name) (CountLabel (Fqdn name)) (Clean file) emptyTree emptyApex false [].

Definition Zone_Copy (z : Zone) : Zone :=
  let z1 := NewZone (origin z) (zfile z) in
  let z1 := set_TransferFrom (TransferFrom z) z1 in
  let z1 := set_Expired (Expired z) z1 in
  set_zApex (zApex z) z1.

Definition CopyWithoutApex (z : Zone) : Zone :=
  let z1 := NewZone (origin z) (zfile z) in
  let z1 := set_TransferFrom (TransferFrom z) z1 in
  set_Expired (Expired z) z1.

(** [z.Tree.Insert(r)] at the end of [Insert]. *)
Definition Zone_treeInsert (z : Zone) (r : RR) : option (Zone * option string) :=
  t ← Tree_Insert (zTree z) r; Some (set_zTree t z, None).

(** A failed type assertion panics.  The second component is the error. *)
Definition Zone_Insert (z : Zone) (r : RR) : option (Zone * option string) :=
  let r := set_hName (ToLower (hName r)) r in
  let a := zApex z in
  if decide (hRrtype r = TypeNS) then
    match rdata r with
    | NS n =>
        let r := set_rdata (NS (ToLower n)) r in
        if decide (hName r = origin z)
        then Some (set_zApex (mkApex (aSOA a) (aNS a ++ [r]) (aSIGSOA a) (aSIGNS a)) z, None)
        else Zone_treeInsert z r
    | _ => None
    end
  else if decide (hRrtype r = TypeSOA) then
    match rdata r with
    | SOA n m s rf rt ex mt =>
        let r := set_rdata (SOA (ToLower n) (ToLower m) s rf rt ex mt) r in
        Some (set_zApex (mkApex (Some r) (aNS a) (aSIGSOA a) (aSIGNS a)) z, None)
    | _ => None
    end
  else if decide (hRrtype r = TypeNSEC3 \/ hRrtype r = TypeNSEC3PARAM) then
    Some (z, Some ("NSEC3 zone is not supported, dropping RR: " +:+ hName r +:+ " for zone: " +:+ origin z))
  else if decide (hRrtype r = TypeRRSIG) then
    match rdata r with
    | RRSIG c _ _ _ =>
        if decide (c = TypeSOA)
        then Some (set_zApex (mkApex (aSOA a) (aNS a) (aSIGSOA a ++ [r]) (aSIGNS a)) z, None)
        else if decide (c = TypeNS /\ hName r = origin z)
        then Some (set_zApex (mkApex (aSOA a) (aNS a) (aSIGSOA a) (aSIGNS a ++ [r])) z, None)
        else Zone_treeInsert z r
    | _ => None
    end
  else if decide (hRrtype r = TypeCNAME) then
    match rdata r with
    | CNAME t => Zone_treeInsert z (set_rdata (CNAME (ToLower t)) r)
    | _ => None
    end
  else if decide (hRrtype r = TypeMX) then
    match rdata r with
    | MX p t => Zone_treeInsert z (set_rdata (MX p (ToLower t)) r)
    | _ => None
    end
  else if decide (hRrtype r = TypeSRV) then
    match rdata r with
    | SRV p w po t => Zone_treeInsert z (set_rdata (SRV p w po (ToLower t)) r)
    | _ => None
    end
  else Zone_treeInsert z r.

Definition File (z : Zone) : string := zfile z.

Definition ApexIfDefined (z : Zone) : list RR + string :=
  match aSOA (zApex z) with
  | None => inr "no SOA"%string
  | Some soa => inl ([soa] ++ aSIGSOA (zApex z) ++ aNS (zApex z) ++ aSIGNS (zApex z))
  end.

(** The first loop of [nameFromRight]: is the name shorter than the origin? *)
Fixpoint overshoots (qname : string) (j n : nat) : bool :=
  match n with
  | O => false
  | S n' => let '(_, shot) := PrevLabel qname j in if (shot : bool) then true else overshoots qname (S j) n'
  end.

(** The second loop: [j] from 1, [n] turns to go, [k] the last index. *)
Fixpoint right_index (qname : string) (ol j n k : nat) : option nat :=
  match n with
  | O => Some k
  | S n' =>
      let '(k, shot) := PrevLabel qname (j + ol) in
      if (shot : bool) then None else right_index qname ol (S j) n' k
  end.

Definition nameFromRight (z : Zone) (qname : string) (i : nat) : option (string * bool) :=
  if decide (i <= 0)%nat then Some (origin z, false)
  else if overshoots qname 1 (origLen z) then Some (qname, true)
  else match right_index qname (origLen z) 1 i 0 with
       | None => Some (qname, true)
       | Some k => s ← slice_from qname k; Some (s, false)
       end.

(** ** closest.go, wildcard.go, dname.go *)

(** Each turn drops at least one byte of the name. *)
Fixpoint ClosestEncloser_loop (fuel : nat) (z : Zone) (qname : string) (offset : nat) (eos : bool)
  : option (option Elem) :=
  match fuel with
  | O => None
  | S fuel' =>
      if eos then Tree_Search (zTree z) (origin z)
      else
        elem ← Tree_Search (zTree z) qname;
        match elem with
        | Some e => Some (Some e)
        | None =>
            qname ← slice_from qname offset;
            let '(offset, eos) := NextLabel qname offset in
            ClosestEncloser_loop fuel' z qname offset eos
        end
  end.

Definition ClosestEncloser (z : Zone) (qname : string) : option (option Elem) :=
  let '(offset, eos) := NextLabel qname 0 in
  ClosestEncloser_loop (slen qname + 1) z qname offset eos.

Definition replaceWithAsteriskLabel (qname : string) : option string :=
  let '(i, shot) := NextLabel qname 0 in
  if (shot : bool) then Some EmptyString
  else s ← slice_from qname i; Some ("*." +:+ s).

(** [labels[0:n]] panics when [n] is negative or too large. *)
Definition substituteDNAME (qname owner target : string) : option string :=
  if (IsSubDomain owner qname && negb (bool_decide (qname = owner)))%bool then
    let labels := SplitDomainName qname in
    let n := (Z.of_nat (length labels) - Z.of_nat (CountLabel owner))%Z in
    if decide (0 <= n)%Z then
      Join (take (Z.to_nat n) labels ++ SplitDomainName target)
    else None
  else Some EmptyString.

(** The DNAME record [d]; [inl] is its record data's type assertion. *)
Definition synthesizeCNAME (qname : string) (d : RR) : option (option RR) :=
  match rdata d with
  | DNAME tgt =>
      target ← substituteDNAME qname (hName d) tgt;
      if decide (target = EmptyString) then Some None
      else Some (Some (mkRR qname TypeCNAME ClassINET (hTtl d) (CNAME target)))
  | _ => None
  end.

(** ** tree/glue.go *)

Definition searchGlue_type (t : Tree) (name : string) (do : bool) (typ : Z) : option (list RR) :=
  elem ← Tree_Search t name;
  match elem with
  | Some e => Some (Elem_Type e typ ++ if do then SubTypeSignature (Elem_Type e TypeRRSIG) typ else [])
  | None => Some []
  end.

Definition searchGlue (t : Tree) (name : string) (do : bool) : option (list RR) :=
  a ← searchGlue_type t name do TypeA;
  aaaa ← searchGlue_type t name do TypeAAAA;
  Some (a ++ aaaa).

Fixpoint Glue (t : Tree) (nsrrs : list RR) (do : bool) : option (list RR) :=
  match nsrrs with
  | [] => Some []
  | rr :: nsrrs' =>
      g ← match rdata rr with
          | NS n => if IsSubDomain (hName rr) n then searchGlue t n do else Some []
          | _ => Some []
          end;
      rest ← Glue t nsrrs' do;
      Some (g ++ rest)
  end.
End zone.
