(* ===== verification/ZoneSpec.v ===== *)
(** * The invariant of a zone, and what its searches find *)

From S2P Require Import Prelude.
From S2P Require Import GoStd.
From S2P Require Import DnsNames.
From S2P Require Import DnsMsg.
From S2P Require Import DnsUtil.
From S2P Require Import Less.
From S2P Require Import Elem.
From S2P Require Import Tree.
From S2P Require Import TreeBalance.
From S2P Require Import TreeSpec.
From S2P Require Import Zone.

(** ** Lower-case names *)

Definition lower_name (s : string) : Prop := ToLower s = s.

Lemma lower_byte_dot c : lower_byte c = ch_dot <-> c = ch_dot.
Proof. split; [|by intros ->]. destruct c as [[] [] [] [] [] [] [] []]; by vm_compute. Qed.

Lemma lower_byte_bslash c : lower_byte c = ch_bslash <-> c = ch_bslash.
Proof. split; [|by intros ->]. destruct c as [[] [] [] [] [] [] [] []]; by vm_compute. Qed.

Lemma ToLower_nil s : ToLower s = EmptyString <-> s = EmptyString.
Proof. split; [|by intros ->]. by destruct s. Qed.

Lemma ToLower_dot s : ToLower s = dot <-> s = dot.
Proof.
  split; [|by intros ->]. unfold dot. destruct s as [|c [|d s]]; simpl; [done| |done].
  intros E. injection E as E. by rewrite (proj1 (lower_byte_dot c)).
Qed.

Lemma split_go_lower s cur :
  split_go (ToLower cur) (ToLower s) = map ToLower (split_go cur s).
Proof.
  remember (slen s) as n eqn:Hn. revert s Hn cur. induction n as [n IH] using lt_wf_ind.
  intros s -> cur. destruct s as [|c s]; simpl; [by destruct cur|].
  destruct (decide (c = ch_dot)) as [->|Hd].
  { rewrite decide_True by (by apply lower_byte_dot). simpl. f_equal. by apply (IH (slen s) ltac:(simpl; lia) s eq_refl EmptyString). }
  rewrite decide_False by (by rewrite lower_byte_dot). destruct (decide (c = ch_bslash)) as [->|Hb].
  - rewrite decide_True by (by apply lower_byte_bslash). destruct s as [|d s]; simpl.
    + by rewrite ToLower_app.
    + rewrite <- (IH (slen s)); [|simpl; lia|done]. by rewrite ToLower_app.
  - rewrite decide_False by (by rewrite lower_byte_bslash).
    rewrite <- (IH (slen s)); [|simpl; lia|done]. by rewrite ToLower_app.
Qed.

Lemma labels_lower s : labels (ToLower s) = map ToLower (labels s).
Proof.
  unfold labels. destruct (decide (s = dot)) as [->|Hd]; [done|].
  rewrite decide_False by (by rewrite ToLower_dot). apply (split_go_lower s EmptyString).
Qed.

Lemma dotted_lower ls : dotted (map ToLower ls) = ToLower (dotted ls).
Proof. induction ls as [|l ls IH]; [done|]. simpl. by rewrite IH, !ToLower_app. Qed.

Lemma label_chars_lower l : label_chars (ToLower l) = label_chars l.
Proof.
  remember (slen l) as n eqn:Hn. revert l Hn. induction n as [n IH] using lt_wf_ind.
  intros l ->. destruct l as [|c l]; [done|]. simpl.
  destruct (decide (c = ch_dot)) as [->|Hd]; [done|]. rewrite decide_False by (by rewrite lower_byte_dot).
  destruct (decide (c = ch_bslash)) as [->|Hb].
  - rewrite decide_True by (by apply lower_byte_bslash). destruct l as [|d l]; [done|]. simpl.
    apply (IH (slen l)); [simpl; lia|done].
  - rewrite decide_False by (by rewrite lower_byte_bslash). apply (IH (slen l)); [simpl; lia|done].
Qed.

Lemma label_ok_lower l : label_ok l -> label_ok (ToLower l).
Proof. intros [Hne Hc]. split; [by rewrite ToLower_nil|]. by rewrite label_chars_lower. Qed.

Lemma fq_name_lower s : fq_name s -> fq_name (ToLower s).
Proof.
  intros [->|(Hne & Hok & Es)]; [by left|]. right. unfold valid_name. rewrite labels_lower. split.
  - by destruct (labels s).
  - split; [|by rewrite dotted_lower, <- Es]. apply Forall_map. eapply Forall_impl; [exact Hok|].
    apply label_ok_lower.
Qed.

Lemma lower_name_idem s : lower_name (ToLower s).
Proof. apply ToLower_idem. Qed.

Lemma lower_labels s : lower_name s -> map ToLower (labels s) = labels s.
Proof. intros Hs. by rewrite <- labels_lower, Hs. Qed.

(** ** Records and zones *)

(** The names in a record's data that a lookup searches for. *)
Definition rr_targets (r : RR) : list string :=
  match rdata r with
  | NS n => [n]
  | CNAME t => [t]
  | DNAME t => [t]
  | MX _ t => [t]
  | SRV _ _ _ t => [t]
  | _ => []
  end.

(** What the zone parser and the wire decoder produce: fully qualified names,
    data that fits the type. *)
Definition rr_ok (r : RR) : Prop :=
  rr_typed r /\ fq_name (hName r) /\ Forall fq_name (rr_targets r).

#[export] Instance rr_ok_dec r : Decision (rr_ok r).
Proof. unfold rr_ok. apply _. Defined.

(** The record as it is stored. *)
Definition lower_rdata (d : RData) : RData :=
  match d with
  | NS n => NS (ToLower n)
  | SOA n m s rf rt ex mt => SOA (ToLower n) (ToLower m) s rf rt ex mt
  | CNAME t => CNAME (ToLower t)
  | MX p t => MX p (ToLower t)
  | SRV p w po t => SRV p w po (ToLower t)
  | d => d
  end.
Definition lower_rr (r : RR) : RR :=
  mkRR (ToLower (hName r)) (hRrtype r) (hClass r) (hTtl r) (lower_rdata (rdata r)).

Definition stored_ok (r : RR) : Prop := rr_ok r /\ lower_rr r = r.

Lemma stored_lower r : stored_ok r -> lower_name (hName r).
Proof. intros [_ E]. by apply (f_equal hName) in E. Qed.

Lemma lower_rr_idem r : lower_rr (lower_rr r) = lower_rr r.
Proof. unfold lower_rr. simpl. rewrite ToLower_idem. f_equal. by destruct (rdata r); simpl; rewrite ?ToLower_idem. Qed.

(** The records of the apex, and where each goes. *)
Inductive ApexKind := KSOA | KNS | KSIGSOA | KSIGNS.

Definition apex_kind (orig : string) (r : RR) : option ApexKind :=
  match rdata r with
  | SOA _ _ _ _ _ _ _ => Some KSOA
  | NS _ => if decide (hName r = orig) then Some KNS else None
  | RRSIG c _ _ _ =>
      if decide (c = TypeSOA) then Some KSIGSOA
      else if decide (c = TypeNS /\ hName r = orig) then Some KSIGNS else None
  | _ => None
  end.

Definition apex_put (k : ApexKind) (r : RR) (a : Apex) : Apex :=
  match k with
  | KSOA => mkApex (Some r) (aNS a) (aSIGSOA a) (aSIGNS a)
  | KNS => mkApex (aSOA a) (aNS a ++ [r]) (aSIGSOA a) (aSIGNS a)
  | KSIGSOA => mkApex (aSOA a) (aNS a) (aSIGSOA a ++ [r]) (aSIGNS a)
  | KSIGNS => mkApex (aSOA a) (aNS a) (aSIGSOA a) (aSIGNS a ++ [r])
  end.

Definition is_nsec3 (r : RR) : Prop := hRrtype r = TypeNSEC3 \/ hRrtype r = TypeNSEC3PARAM.

#[export] Instance is_nsec3_dec r : Decision (is_nsec3 r).
Proof. unfold is_nsec3. apply _. Defined.

Section zone_ok.
Context `{GR : GoRange} `{Ok : DnsNamesOk}.

Definition apex_ok (orig : string) (a : Apex) : Prop :=
  (forall r, aSOA a = Some r -> apex_kind orig r = Some KSOA /\ stored_ok r) /\
  Forall (fun r => apex_kind orig r = Some KNS /\ stored_ok r) (aNS a) /\
  Forall (fun r => apex_kind orig r = Some KSIGSOA /\ stored_ok r) (aSIGSOA a) /\
  Forall (fun r => apex_kind orig r = Some KSIGNS /\ stored_ok r) (aSIGNS a).

Definition elem_stored (e : Elem) : Prop :=
  map_Forall (fun _ rrs => Forall stored_ok rrs) (em e) /\ lower_name (ename e).

Definition zone_ok (z : Zone) : Prop :=
  fq_name (origin z) /\ origLen z = length (labels (origin z)) /\
  tree_ok (zTree z) /\ Forall elem_stored (elems (Root (zTree z))) /\ apex_ok (origin z) (zApex z).

Lemma elem_stored_Name e n : elem_ok e -> elem_stored e -> Elem_Name e = Some n -> lower_name n.
Proof.
  intros _ [Hr Hl]. unfold Elem_Name. case_decide as He; [|by intros [= <-]].
  destruct (go_range (em e)) as [|[t [|r rrs]] l] eqn:E; [by intros [= <-]|done|]. intros [= <-].
  assert ((t, r :: rrs) ∈ go_range (em e)) as Hin by (rewrite E; by left).
  apply go_range_elem in Hin. apply stored_lower. apply (Forall_inv (Hr _ _ Hin)).
Qed.

Lemma elem_stored_Type e t : elem_stored e -> Forall stored_ok (Elem_Type e t).
Proof.
  intros [He _]. unfold Elem_Type. destruct (em e !! t) as [rrs|] eqn:E; simpl; [|constructor].
  by apply (He _ _ E).
Qed.

(** Records filed under a type have that type. *)
Lemma elem_ok_Type e t : elem_ok e -> Forall (fun r => hRrtype r = t) (Elem_Type e t).
Proof.
  intros He. destruct (Elem_Type_group e t He) as [->|[_ Hg]]; [constructor|].
  eapply Forall_impl; [exact Hg|]. by intros r (Ht & _).
Qed.

Lemma elem_stored_Insert e rr : elem_stored e -> stored_ok rr -> elem_stored (Elem_Insert e rr).
Proof.
  intros He Hr. split; [|rewrite ename_Insert; apply He]. rewrite em_Insert.
  apply map_Forall_insert_2; [|by apply He]. apply Forall_app. split; [by apply elem_stored_Type|by apply Forall_singleton].
Qed.

Lemma elem_stored_new rr : stored_ok rr -> elem_stored (newElem rr).
Proof. intros Hr. split; [|done]. apply map_Forall_singleton. by apply Forall_singleton. Qed.

Lemma spec_insert_stored rr l :
  Forall elem_stored l -> stored_ok rr -> Forall elem_stored (spec_insert rr l).
Proof.
  intros Hl Hr. induction Hl as [|e l He Hl IH]; simpl.
  - apply Forall_singleton. by apply elem_stored_new.
  - destruct (key_cmp _ _); repeat apply Forall_cons_2; auto using elem_stored_Insert, elem_stored_new.
Qed.

Lemma emptyTree_ok : tree_ok emptyTree.
Proof.
  unfold tree_ok, emptyTree. simpl. split; [exists 0%nat; constructor|]. split; [|done].
  split; constructor.
Qed.

Lemma NewZone_ok name file : fq_name name -> zone_ok (NewZone name file).
Proof.
  intros Hn. unfold NewZone, zone_ok. simpl. rewrite Fqdn_id by done.
  split; [done|]. split; [by apply CountLabel_ok|]. split; [apply emptyTree_ok|].
  split; [constructor|]. by unfold apex_ok.
Qed.

(** ** Adding a record *)

Lemma lower_rr_stored r : rr_ok r -> stored_ok (lower_rr r).
Proof.
  intros (Ht & Hn & Hg). split; [|apply lower_rr_idem]. split; [|split].
  - unfold rr_typed in *. simpl. by destruct (rdata r).
  - by apply fq_name_lower.
  - unfold rr_targets in *. simpl. destruct (rdata r); simpl in *; try done;
      rewrite Forall_singleton in *; by apply fq_name_lower.
Qed.

Lemma Zone_Insert_cases z r :
  rr_ok r ->
  Zone_Insert z r =
  if decide (is_nsec3 r) then
    Some (z, Some ("NSEC3 zone is not supported, dropping RR: " +:+ ToLower (hName r) +:+ " for zone: " +:+ origin z))
  else match apex_kind (origin z) (lower_rr r) with
       | Some k => Some (set_zApex (apex_put k (lower_rr r) (zApex z)) z, None)
       | None => Zone_treeInsert z (lower_rr r)
       end.
Proof.
  intros (Ht & _ & _). unfold rr_typed in Ht. unfold Zone_Insert, lower_rr, apex_kind, is_nsec3.
  destruct r as [nm ty cl ttl d]. simpl in *.
  destruct d; simpl in *; subst; simpl; try done;
    repeat (rewrite decide_False by (by vm_compute)); try done.
  - by case_decide.
  - by repeat case_decide.
  - assert (forall t, t ∈ asserted_types -> ty <> t) as Hty by (by intros t Hin ->).
    repeat (rewrite decide_False by (apply Hty; by repeat constructor)).
    destruct (decide (ty = TypeNSEC3 \/ ty = TypeNSEC3PARAM)); [done|].
    repeat (rewrite decide_False by (apply Hty; by repeat constructor)). done.
Qed.

Lemma apex_put_ok orig a r k :
  apex_ok orig a -> stored_ok r -> apex_kind orig r = Some k -> apex_ok orig (apex_put k r a).
Proof.
  intros (Hs & Hn & Hss & Hsn) Hr Hk. unfold apex_ok.
  destruct k; simpl; rewrite ?Forall_app, ?Forall_singleton; try done.
  split; [|done]. by intros r' [= <-].
Qed.

(** Adding a well-formed record never panics and keeps the zone well formed. *)
Lemma Zone_Insert_ok z r :
  zone_ok z -> rr_ok r ->
  exists z' err, Zone_Insert z r = Some (z', err) /\ zone_ok z' /\ origin z' = origin z /\
    (err <> None <-> is_nsec3 r) /\
    if decide (is_nsec3 r) then z' = z
    else match apex_kind (origin z) (lower_rr r) with
         | Some k => zApex z' = apex_put k (lower_rr r) (zApex z) /\ zTree z' = zTree z
         | None => zApex z' = zApex z /\
                   elems (Root (zTree z')) = spec_insert (lower_rr r) (elems (Root (zTree z)))
         end.
Proof.
  intros Hz Hr. pose proof Hz as (Ho & Hl & Ht & Hst & Ha). pose proof (lower_rr_stored r Hr) as Hs.
  rewrite (Zone_Insert_cases z r Hr). destruct (decide (is_nsec3 r)) as [H3|H3].
  { eexists _, _. split; [reflexivity|]. split; [done|]. split; [done|]. done. }
  destruct (apex_kind _ _) as [k|] eqn:E.
  - eexists _, _. split; [reflexivity|]. unfold zone_ok. simpl.
    pose proof (apex_put_ok _ _ _ _ Ha Hs E). repeat (split; [done|]). done.
  - destruct (Tree_Insert_spec (zTree z) (lower_rr r) Ht) as (t' & Et & Ht' & El).
    { by apply Hs. }
    unfold Zone_treeInsert. rewrite Et. simpl. eexists _, _. split; [reflexivity|].
    unfold zone_ok. simpl. rewrite El. pose proof (spec_insert_stored _ _ Hst Hs). done.
Qed.

(** ** Searches *)

(** The element of a name. *)
Definition find (z : Zone) (n : string) : option Elem := spec_search n (elems (Root (zTree z))).

Lemma Zone_search z n : zone_ok z -> name_or_empty n -> Tree_Search (zTree z) n = Some (find z n).
Proof. intros (_ & _ & (_ & Hg & _) & _) Hn. by apply Node_search_spec. Qed.

Lemma find_elem z n e : zone_ok z -> find z n = Some e ->
  e ∈ elems (Root (zTree z)) /\ elem_ok e /\ elem_stored e /\ ekey e = key n.
Proof.
  intros (_ & _ & (_ & [Hok _] & _) & Hst & _) Hf.
  apply spec_search_Some in Hf as (l1 & l2 & E & He & _).
  assert (e ∈ elems (Root (zTree z))) as Hin by (rewrite E; apply elem_of_app; right; by left).
  rewrite Forall_forall in Hok, Hst. apply (cmp_eq (cmp:=key_cmp)) in He. auto.
Qed.

Lemma find_of_elem z n e : zone_ok z -> e ∈ elems (Root (zTree z)) -> ekey e = key n -> find z n = Some e.
Proof.
  intros (_ & _ & (_ & Hg & _) & _) Hin Hk. unfold find, spec_search.
  apply list_elem_of_split in Hin as (l1 & l2 & E). rewrite E in *.
  apply good_app in Hg as (_ & _ & _ & Hs & _). rewrite Forall_forall in Hs.
  rewrite filter_app, filter_none.
  - rewrite filter_cons_True by (apply hit_true; rewrite Hk; by apply (cmp_refl (cmp:=key_cmp))). done.
  - apply Forall_forall. intros x Hx Hh%hit_true%(cmp_eq (cmp:=key_cmp)).
    specialize (Hs x Hx). unfold elt in Hs. rewrite Hk, <- Hh in Hs.
    by rewrite (cmp_refl (cmp:=key_cmp)) in Hs.
Qed.

Lemma find_None z n e : find z n = None -> e ∈ elems (Root (zTree z)) -> ekey e <> key n.
Proof.
  intros Hf Hin Hk. apply spec_search_None in Hf. rewrite Forall_forall in Hf.
  apply (Hf e Hin). rewrite Hk. apply (cmp_refl (cmp:=key_cmp)).
Qed.

(** ** Names from the right *)

Lemma overshoots_spec q j n : fq_name q -> (0 < j)%nat ->
  overshoots q j n = bool_decide (0 < n /\ length (dlabels q) < j + n - 1)%nat.
Proof.
  intros Hq Hj. revert j Hj. induction n as [|n IH]; intros j Hj; cbn [overshoots].
  { by rewrite bool_decide_eq_false_2 by lia. }
  destruct (decide (j <= length (dlabels q))%nat) as [Hle|Hgt].
  - rewrite PrevLabel_in by done. rewrite IH by lia. apply bool_decide_ext. lia.
  - rewrite PrevLabel_over by (done || lia). by rewrite bool_decide_eq_true_2 by lia.
Qed.

Lemma right_index_spec q ol j n k : fq_name q -> (0 < n)%nat ->
  right_index q ol j n k =
  if decide (j + n - 1 + ol <= length (dlabels q))%nat
  then Some (label_start (dlabels q) (length (dlabels q) - (j + n - 1 + ol))) else None.
Proof.
  intros Hq. revert j k. induction n as [|n IH]; intros j k Hn; [lia|]. cbn [right_index].
  destruct (decide (j + ol <= length (dlabels q))%nat) as [Hle|Hgt].
  - rewrite PrevLabel_in by done. destruct n as [|n].
    + simpl. rewrite decide_True by lia. do 2 f_equal. lia.
    + rewrite IH by lia. replace (S j + S n - 1 + ol)%nat with (j + S (S n) - 1 + ol)%nat by lia. done.
  - rewrite PrevLabel_over by (done || lia). by rewrite decide_False by lia.
Qed.

(** The name of the last [k] labels (of the pieces) of [q]. *)
Definition suffix_name (q : string) (k : nat) : string :=
  dotted (drop (length (dlabels q) - k) (dlabels q)).

Lemma nameFromRight_spec z q i :
  zone_ok z -> fq_name q ->
  nameFromRight z q i =
  if decide (i = 0)%nat then Some (origin z, false)
  else if decide (i + origLen z <= length (dlabels q))%nat
       then Some (suffix_name q (i + origLen z), false)
       else Some (q, true).
Proof.
  intros Hz Hq. unfold nameFromRight. destruct (decide (i = 0)%nat) as [->|Hi]; [done|].
  rewrite decide_False by lia. rewrite overshoots_spec, right_index_spec by (done || lia).
  destruct (decide (i + origLen z <= length (dlabels q))%nat) as [Hle|Hgt].
  - rewrite bool_decide_eq_false_2 by lia. rewrite decide_True by lia.
    rewrite (name_or_empty_dotted q (or_intror Hq)) at 1. rewrite label_start_drop. simpl.
    unfold suffix_name. do 5 f_equal. lia.
  - rewrite (decide_False (P := (1 + i - 1 + origLen z <= _)%nat)) by lia. by case_bool_decide.
Qed.

Lemma suffix_name_fq q k : fq_name q -> (0 < k)%nat -> fq_name (suffix_name q k).
Proof.
  intros [->|Hv] Hk.
  - left. unfold suffix_name. change (dlabels dot) with [EmptyString]. simpl.
    by destruct k; [lia|].
  - right. unfold suffix_name. rewrite dlabels_valid by done. pose proof Hv as (Hne & Hok & _).
    apply valid_name_dotted; [|by apply Forall_drop]. intros E. apply (f_equal length) in E.
    rewrite length_drop in E. destruct (labels q); simpl in *; [done|lia].
Qed.

Lemma suffix_name_full q : fq_name q -> suffix_name q (length (dlabels q)) = q.
Proof.
  intros Hq. unfold suffix_name. rewrite Nat.sub_diag, drop_0.
  by rewrite <- (name_or_empty_dotted q (or_intror Hq)).
Qed.

(** ** Wildcards *)

(** The wildcard next to a name: an asterisk instead of its first label. *)
Definition wildcard_of (q : string) : string :=
  match labels q with
  | _ :: (_ :: _) as ls => dotted ("*"%string :: ls)
  | _ => EmptyString
  end.

Lemma replaceWithAsteriskLabel_spec q :
  fq_name q -> replaceWithAsteriskLabel q = Some (wildcard_of q).
Proof.
  intros [->|Hv]; unfold replaceWithAsteriskLabel, wildcard_of.
  { rewrite (surjective_pairing (NextLabel dot 0)), NextLabel_root. by rewrite labels_dot. }
  pose proof Hv as (_ & _ & Es). destruct (labels q) as [|l [|l' ls]] eqn:El; [by destruct Hv| |].
  - rewrite (surjective_pairing (NextLabel q 0)).
    pose proof (NextLabel_last q 0 Hv) as E. rewrite El in E. unfold label_start in E. simpl in E.
    by rewrite E.
  - pose proof (NextLabel_start q 0 Hv) as E. rewrite El in E.
    change (label_start (l :: l' :: ls) 0) with 0%nat in E. rewrite E by (simpl; lia). rewrite Es, label_start_drop. simpl. done.
Qed.

Lemma wildcard_name q : fq_name q -> name_or_empty (wildcard_of q).
Proof.
  intros Hq. unfold wildcard_of. destruct (labels q) as [|l [|l' ls]] eqn:El; [by left|by left|].
  right; right. destruct Hq as [->|(_ & Hok & _)]; [by rewrite labels_dot in El|].
  rewrite El in Hok. apply valid_name_dotted; [done|]. inversion Hok; subst. by constructor.
Qed.

(** ** DNAME substitution *)

Lemma fq_labels_ok s : fq_name s -> Forall label_ok (labels s).
Proof. intros [->|(_ & Hok & _)]; [by rewrite labels_dot|done]. Qed.

Lemma fq_labels_inj s t : fq_name s -> fq_name t -> labels s = labels t -> s = t.
Proof. intros Hs Ht E. by rewrite (fq_name_of s Hs), (fq_name_of t Ht), E. Qed.

(** For lower-case names the subdomain test is about the labels themselves. *)
Lemma IsSubDomain_lower p c :
  fq_name p -> fq_name c -> lower_name p -> lower_name c ->
  IsSubDomain p c = true <-> exists pre, labels c = pre ++ labels p.
Proof.
  intros Hp Hc Lp Lc. rewrite IsSubDomain_ok by done. unfold label_suffix.
  by rewrite !lower_labels.
Qed.

(** A name strictly below the owner has the owner's labels replaced by the
    target's; for any other name the substitution is empty. *)
Lemma substituteDNAME_below q owner target pre :
  fq_name q -> fq_name owner -> fq_name target -> lower_name q -> lower_name owner ->
  labels q = pre ++ labels owner -> pre <> [] ->
  substituteDNAME q owner target = Some (dotted (pre ++ labels target)).
Proof.
  intros Hq Ho Ht Lq Lo El Hp. unfold substituteDNAME.
  rewrite (proj2 (IsSubDomain_lower owner q Ho Hq Lo Lq)) by eauto.
  rewrite bool_decide_eq_false_2.
  2: { intros ->. apply (f_equal length) in El. rewrite length_app in El.
       destruct pre; simpl in *; [done|lia]. }
  simpl. rewrite !SplitDomainName_ok, CountLabel_ok by done. rewrite El, length_app, decide_True by lia.
  replace (Z.to_nat _) with (length pre) by lia. rewrite take_app_length.
  apply Join_dotted; [by destruct pre|]. apply Forall_app. split; [|by apply fq_labels_ok].
  pose proof (fq_labels_ok q Hq) as Hok. rewrite El in Hok. by apply Forall_app in Hok as [? _].
Qed.

Lemma substituteDNAME_else q owner target :
  fq_name q -> fq_name owner -> lower_name q -> lower_name owner ->
  (forall pre, labels q = pre ++ labels owner -> pre = []) ->
  substituteDNAME q owner target = Some EmptyString.
Proof.
  intros Hq Ho Lq Lo Hn. unfold substituteDNAME. destruct (IsSubDomain owner q) eqn:E; [|done].
  apply (IsSubDomain_lower owner q Ho Hq Lo Lq) in E as [pre El].
  pose proof (Hn pre El) as ->. rewrite bool_decide_eq_true_2; [done|]. by apply fq_labels_inj.
Qed.

Lemma substituteDNAME_total q owner target :
  fq_name q -> fq_name owner -> fq_name target -> lower_name q -> lower_name owner ->
  exists s, substituteDNAME q owner target = Some s /\ name_or_empty s.
Proof.
  intros Hq Ho Ht Lq Lo. destruct (IsSubDomain owner q) eqn:E.
  - pose proof E as [pre El]%(IsSubDomain_lower owner q Ho Hq Lo Lq).
    destruct (decide (pre = [])) as [->|Hp].
    + exists EmptyString. split; [|by left]. apply substituteDNAME_else; try done.
      intros pre' El'. rewrite El in El'. by apply (app_inv_tail _ []) in El' as <-.
    + eexists. split; [by apply (substituteDNAME_below _ _ _ pre)|]. right; right.
      apply valid_name_dotted; [by destruct pre|]. apply Forall_app. split; [|by apply fq_labels_ok].
      pose proof (fq_labels_ok q Hq) as Hok. rewrite El in Hok. by apply Forall_app in Hok as [? _].
  - exists EmptyString. split; [|by left]. unfold substituteDNAME. by rewrite E.
Qed.

(** ** Glue *)

Lemma searchGlue_spec z name do :
  zone_ok z -> fq_name name ->
  searchGlue (zTree z) name do =
  Some (match find z name with
        | Some e => let sigs := SubTypeSignature (Elem_Type e TypeRRSIG) in
                    (Elem_Type e TypeA ++ if do then sigs TypeA else []) ++
                    (Elem_Type e TypeAAAA ++ if do then sigs TypeAAAA else [])
        | None => []
        end).
Proof.
  intros Hz Hn. unfold searchGlue, searchGlue_type. rewrite (Zone_search z name Hz (or_intror Hn)). simpl.
  by destruct (find z name).
Qed.

Lemma Glue_total z nsrrs do :
  zone_ok z -> Forall stored_ok nsrrs -> exists g, Glue (zTree z) nsrrs do = Some g.
Proof.
  intros Hz Hns. induction Hns as [|r nsrrs Hr _ [g IH]]; [by exists []|]. simpl.
  assert (exists g0, match rdata r with
     | NS n => if IsSubDomain (hName r) n then searchGlue (zTree z) n do else Some []
     | _ => Some [] end = Some g0) as [g0 ->].
  { destruct Hr as ((_ & _ & Ht) & _). unfold rr_targets in Ht. destruct (rdata r); eauto.
    destruct (IsSubDomain _ _); [|by eauto]. rewrite Forall_singleton in Ht.
    rewrite searchGlue_spec by done. by eauto. }
  simpl. rewrite IH. simpl. by eauto.
Qed.

(** ** The closest encloser *)

Lemma plain_drop q k : plain_name q -> (k < length (labels q))%nat ->
  plain_name (dotted (drop k (labels q))) /\ labels (dotted (drop k (labels q))) = drop k (labels q).
Proof.
  intros [(Hne & Hok & Es) Hp] Hk.
  assert (drop k (labels q) <> []) as Hd.
  { intros E. apply (f_equal length) in E. rewrite length_drop in E. simpl in E. lia. }
  pose proof (Forall_drop _ k _ Hok) as Hok'. split; [|by apply labels_dotted].
  split; [by apply valid_name_dotted|]. rewrite labels_dotted by done. by apply Forall_drop.
Qed.

(** From any offset [NextLabel] finds the start of a label or the end. *)
Lemma NextLabel_any q off : plain_name q ->
  (exists k, (0 < k < length (labels q))%nat /\ NextLabel q off = (label_start (labels q) k, false)) \/
  snd (NextLabel q off) = true.
Proof.
  intros Hp. pose proof Hp as ((Hne & Hok & Es) & _).
  destruct (decide (off < slen (dotted (labels q)))%nat) as [Hlt|Hge].
  - destruct (label_at _ _ Hlt) as (k & Hk & Hb). destruct (decide (S k < length (labels q))%nat) as [Hk'|Hk'].
    + left. exists (S k). split; [lia|]. by apply NextLabel_plain.
    + right. apply (NextLabel_plain_end q k off Hp); lia.
  - right. apply (NextLabel_plain_end q (length (labels q) - 1) off Hp).
    + destruct (labels q); simpl in *; [done|lia].
    + rewrite <- label_start_full in Hge.
      pose proof (label_start_le (labels q) (length (labels q) - 1) (length (labels q)) ltac:(lia)). lia.
Qed.

(** What is found encloses the name: it belongs to one of the name's
    suffixes, or to the origin. *)
Definition encloses (z : Zone) (q : string) (e : Elem) : Prop :=
  (exists k, (k < length (labels q))%nat /\ find z (dotted (drop k (labels q))) = Some e) \/
  find z (origin z) = Some e.

Lemma ClosestEncloser_loop_total fuel z q off eos :
  zone_ok z -> plain_name q -> (length (labels q) < fuel)%nat ->
  (eos = false -> exists k, (0 < k < length (labels q))%nat /\ off = label_start (labels q) k) ->
  exists r, ClosestEncloser_loop fuel z q off eos = Some r /\ forall e, r = Some e -> encloses z q e.
Proof.
  intros Hz. pose proof Hz as (Ho & _). revert q off eos.
  induction fuel as [|fuel IH]; intros q off eos Hp Hf Hoff; [lia|]. cbn [ClosestEncloser_loop].
  pose proof Hp as (Hv & _). pose proof Hv as (Hne & Hok & Es).
  destruct eos.
  { rewrite (Zone_search z _ Hz (or_intror Ho)). eexists. split; [done|]. intros e He. by right. }
  rewrite (Zone_search z q Hz (or_intror (or_intror Hv))). cbn [mbind option_bind].
  destruct (find z q) as [e|] eqn:Ef.
  { eexists. split; [done|]. intros e' [= <-]. left. exists 0%nat.
    rewrite drop_0, <- Es. split; [|done]. destruct (labels q); [done|simpl; lia]. }
  destruct (Hoff eq_refl) as (k & Hk & ->). assert (slice_from q (label_start (labels q) k) = Some (dotted (drop k (labels q)))) as ->.
  { rewrite Es at 1. apply label_start_drop. }
  cbn [mbind option_bind].
  destruct (plain_drop q k Hp ltac:(lia)) as [Hp' Hl'].
  set (q' := dotted (drop k (labels q))) in *.
  destruct (NextLabel q' (label_start (labels q) k)) as [off' eos'] eqn:En.
  destruct (IH q' off' eos' Hp') as (r & Er & Hr).
  - rewrite Hl', length_drop. lia.
  - intros ->. destruct (NextLabel_any q' (label_start (labels q) k) Hp') as [(k' & Hk' & E)|E];
      rewrite En in E; [|done]. exists k'. by injection E as ->.
  - exists r. split; [done|]. intros e He. destruct (Hr e He) as [(k' & Hk' & Hf')|]; [left|by right].
    rewrite Hl', length_drop in Hk'. rewrite Hl', drop_drop in Hf'. exists (k + k')%nat. split; [lia|done].
Qed.

Lemma ClosestEncloser_total z q :
  zone_ok z -> plain_name q ->
  exists r, ClosestEncloser z q = Some r /\ forall e, r = Some e -> encloses z q e.
Proof.
  intros Hz Hp. unfold ClosestEncloser. destruct (NextLabel q 0) as [off eos] eqn:En.
  apply ClosestEncloser_loop_total; [done|done| |].
  - pose proof Hp as (Hv & _). pose proof (labels_length_le q (or_intror (or_intror Hv))) as Hl.
    rewrite dlabels_valid in Hl by done. lia.
  - intros ->. destruct (NextLabel_any q 0 Hp) as [(k & Hk & E)|E]; rewrite En in E; [|done].
    exists k. by injection E as ->.
Qed.
End zone_ok.
