(* ===== verification/GoNet.v ===== *)
(** * IP addresses of Go's net package

    [net.ParseIP], [IP.String] and the size of a mask, for the plugins that
    read or print addresses.  Parsing an address that was printed gives it
    back. *)

From S2P Require Import Prelude.
From S2P Require Import GoStd.

(** ** Numbers *)

Definition dec_val (c : ascii) : option Z :=
  let n := Z.of_N (N_of_ascii c) in
  if decide (48 <= n <= 57)%Z then Some (n - 48)%Z else None.

Definition hex_val (c : ascii) : option Z :=
  let n := Z.of_N (N_of_ascii c) in
  if decide (48 <= n <= 57)%Z then Some (n - 48)%Z
  else if decide (97 <= n <= 102)%Z then Some (n - 87)%Z
  else if decide (65 <= n <= 70)%Z then Some (n - 55)%Z
  else None.

(** All of [s] as digits, most significant first. *)
Fixpoint number (val : ascii -> option Z) (base acc : Z) (s : string) : option Z :=
  match s with
  | EmptyString => Some acc
  | String c s' => d ← val c; number val base (acc * base + d)%Z s'
  end.

(** [strconv.ParseUint(s, 10, bits)]: the digits one by one; a number that gets
    too large is the largest one, with an error. *)
Fixpoint uint_go (max acc : Z) (s : string) : Z * option string :=
  match s with
  | EmptyString => (acc, None)
  | String c s' =>
      match dec_val c with
      | None => (0%Z, Some "invalid syntax"%string)
      | Some d =>
          let n := (acc * 10 + d)%Z in
          if decide (max < n)%Z then (max, Some "value out of range"%string) else uint_go max n s'
      end
  end.
Definition ParseUint (bits : Z) (s : string) : Z * option string :=
  if decide (s = EmptyString) then (0%Z, Some "invalid syntax"%string) else uint_go (2 ^ bits - 1) 0 s.

(** A digit of a number below 16. *)
Definition digit (n : Z) : string :=
  String (ascii_of_N (Z.to_N (if decide (n < 10)%Z then n + 48 else n + 87)%Z)) EmptyString.

(** A byte in decimal, and 16 bits in hexadecimal, without leading zeros. *)
Definition dec_byte (n : Z) : string :=
  if decide (n < 10)%Z then digit n
  else if decide (n < 100)%Z then digit (n / 10) +:+ digit (n mod 10)
  else digit (n / 100) +:+ digit (n / 10 mod 10) +:+ digit (n mod 10).

Definition hex_group (n : Z) : string :=
  (if decide (n < 4096)%Z then EmptyString else digit (n / 4096)) +:+
  (if decide (n < 256)%Z then EmptyString else digit (n / 256 mod 16)) +:+
  (if decide (n < 16)%Z then EmptyString else digit (n / 16 mod 16)) +:+
  digit (n mod 16).

(** ** ParseIP *)

Definition ch_dot : ascii := "."%char.

(** An octet: digits without leading zeros, at most 255. *)
Definition octet (s : string) : option Z :=
  match s with
  | EmptyString => None
  | String c s' =>
      n ← number dec_val 10 0 s;
      if decide ((n <= 255)%Z /\ (c <> "0"%char \/ s' = EmptyString)) then Some n else None
  end.

Definition parse4 (s : string) : option (list Z) :=
  match strings_Split ch_dot s with
  | [a; b; c; d] => a ← octet a; b ← octet b; c ← octet c; d ← octet d; Some [a; b; c; d]
  | _ => None
  end.

(** A group of an IPv6 address, as two bytes. *)
Definition group6 (s : string) : option (list Z) :=
  match s with
  | EmptyString => None
  | _ =>
      n ← number hex_val 16 0 s;
      if decide (n <= 65535)%Z then Some [n / 256; n mod 256]%Z else None
  end.

(** Groups separated by colons; the last one may be an IPv4 address when
    [v4] says so. *)
Fixpoint groups6 (v4 : bool) (fields : list string) : option (list Z) :=
  match fields with
  | [] => Some []
  | [f] => if v4 && match IndexByte ch_dot f with Some _ => true | None => false end then parse4 f else group6 f
  | f :: fields' => g ← group6 f; gs ← groups6 v4 fields'; Some (g ++ gs)
  end.

Definition side6 (v4 : bool) (s : string) : option (list Z) :=
  if decide (s = EmptyString) then Some [] else groups6 v4 (strings_Split ch_colon s).

(** At most one "::", which stands for at least one group of zeros. *)
Definition parse6 (s : string) : option (list Z) :=
  match strings_SplitStr s "::" with
  | [a] => g ← side6 true a; if decide (length g = 16%nat) then Some g else None
  | [a; b] =>
      ga ← side6 false a;
      gb ← side6 true b;
      if decide (length ga + length gb <= 14)%nat
      then Some (ga ++ replicate (16 - (length ga + length gb)) 0%Z ++ gb) else None
  | _ => None
  end.

(** The first dot or colon decides.  The result has 16 bytes; [None] is nil. *)
Fixpoint first_sep (s : string) : option ascii :=
  match s with
  | EmptyString => None
  | String c s' => if decide (c = ch_dot \/ c = ch_colon) then Some c else first_sep s'
  end.

Definition ParseIP (s : string) : option IP :=
  match first_sep s with
  | None => None
  | Some c => if decide (c = ch_dot) then app v4prefix <$> parse4 s else parse6 s
  end.

(** ** String *)

Fixpoint pairs16 (bs : list Z) : list Z :=
  match bs with
  | a :: b :: bs' => (a * 256 + b)%Z :: pairs16 bs'
  | _ => []
  end.

(** The number of zero groups in front. *)
Fixpoint zeros (gs : list Z) : nat :=
  match gs with
  | g :: gs' => if decide (g = 0%Z) then S (zeros gs') else O
  | [] => O
  end.

(** The first of the longest runs of zero groups: where, and how long. *)
Fixpoint longest_run (i : nat) (gs : list Z) : nat * nat :=
  match gs with
  | [] => (i, O)
  | _ :: gs' =>
      let '(j, n) := longest_run (S i) gs' in
      if decide (n <= zeros gs)%nat then (i, zeros gs) else (j, n)
  end.

Definition print_fields (fs : list string) : string := strings_Join fs ":".
Definition print_groups (gs : list Z) : string := print_fields (map hex_group gs).

Definition print6 (gs : list Z) : string :=
  let '(i, n) := longest_run 0 gs in
  if decide (n <= 1)%nat then print_groups gs
  else print_groups (take i gs) +:+ "::" +:+ print_groups (drop (i + n) gs).

Definition print4 (ip : list Z) : string := strings_Join (map dec_byte ip) ".".

(** A nil address prints as shown. *)
Definition IP_String (ip : IP) : string :=
  match ip with
  | [] => "<nil>"
  | _ =>
      match To4 ip with
      | Some p4 => print4 p4
      | None =>
          if decide (length ip = 16%nat) then print6 (pairs16 ip)
          else "?" +:+ strings_Join (map (fun b => digit (b / 16) +:+ digit (b mod 16)) ip) EmptyString
      end
  end.

Definition is_byte (b : Z) : Prop := (0 <= b < 256)%Z.

#[export] Instance is_byte_dec b : Decision (is_byte b).
Proof. unfold is_byte. apply _. Defined.

(** ** Parsing what was printed *)

(** A string without dots and colons. *)
Definition no_sep (s : string) : Prop := first_sep s = None.

Lemma no_sep_app s t : no_sep s -> first_sep (s +:+ t) = first_sep t.
Proof.
  unfold no_sep. induction s as [|c s IH]; [done|]. rewrite sapp_cons. simpl. case_decide; [done|]. apply IH.
Qed.

Lemma no_sep_free c s : no_sep s -> c = ch_dot \/ c = ch_colon -> IndexByte c s = None.
Proof.
  intros Hs Hc. unfold no_sep in Hs. revert Hs. induction s as [|d s IH]; [done|]. simpl. case_decide as Hd; [done|].
  intros Hs. rewrite decide_False by (intros ->; tauto). by rewrite IH.
Qed.

Lemma split_at_byte_free c cur s t :
  IndexByte c s = None -> split_at_byte c cur (s +:+ String c t) = (cur +:+ s) :: split_at_byte c EmptyString t.
Proof.
  revert cur. induction s as [|d s IH]; intros cur Hs.
  - rewrite sapp_nil_l, sapp_nil_r. simpl. by rewrite decide_True.
  - rewrite sapp_cons. simpl in *. destruct (decide (d = c)); [done|].
    destruct (IndexByte c s) eqn:E; [done|]. rewrite IH by done. by rewrite sapp_assoc.
Qed.

Lemma split_at_byte_end c cur s : IndexByte c s = None -> split_at_byte c cur s = [cur +:+ s].
Proof.
  revert cur. induction s as [|d s IH]; intros cur Hs; simpl in *; [by rewrite sapp_nil_r|].
  destruct (decide (d = c)); [done|]. destruct (IndexByte c s) eqn:E; [done|]. rewrite IH by done. by rewrite sapp_assoc.
Qed.

Lemma Join_cons sep f g fs : strings_Join (f :: g :: fs) sep = f +:+ sep +:+ strings_Join (g :: fs) sep.
Proof. done. Qed.

(** Splitting what was joined. *)
Lemma Split_Join c fs :
  fs <> [] -> Forall (fun f => IndexByte c f = None) fs ->
  strings_Split c (strings_Join fs (String c EmptyString)) = fs.
Proof.
  intros Hne Hfs. unfold strings_Split. induction fs as [|f fs IH]; [done|].
  apply Forall_cons in Hfs as [Hf Hfs]. destruct fs as [|g fs].
  - simpl. by rewrite split_at_byte_end, sapp_nil_l.
  - rewrite Join_cons, sapp_cons, sapp_nil_l, split_at_byte_free, sapp_nil_l by done. by rewrite IH.
Qed.

Lemma digit_ok d : (0 <= d < 16)%Z -> hex_val (ascii_of_N (Z.to_N (if decide (d < 10)%Z then d + 48 else d + 87)%Z)) = Some d /\
  no_sep (digit d).
Proof.
  intros Hd.
  assert (Forall (fun d => hex_val (ascii_of_N (Z.to_N (if decide (d < 10)%Z then d + 48 else d + 87)%Z)) = Some d /\
    no_sep (digit d)) (seqZ 0 16)) as H by (repeat constructor; by vm_compute).
  rewrite Forall_forall in H. apply H, elem_of_seqZ. lia.
Qed.

Lemma dec_byte_ok n : is_byte n -> octet (dec_byte n) = Some n /\ no_sep (dec_byte n).
Proof.
  intros Hn. assert (forallb (fun n => bool_decide (octet (dec_byte n) = Some n /\ first_sep (dec_byte n) = None)) (seqZ 0 256) = true) as H
    by (by vm_compute).
  rewrite forallb_forall in H. specialize (H n). apply bool_decide_eq_true in H; [done|].
  apply list_elem_of_In, elem_of_seqZ. unfold is_byte in Hn. lia.
Qed.

Lemma parse4_print4 ip : length ip = 4%nat -> Forall is_byte ip -> parse4 (print4 ip) = Some ip.
Proof.
  intros Hl Hb. do 5 (destruct ip as [|? ip]; try done). clear Hl.
  unfold parse4, print4. change "."%string with (String ch_dot EmptyString). rewrite Split_Join.
  - repeat (apply Forall_cons in Hb as [? Hb]). simpl.
    rewrite !(fun n Hn => proj1 (dec_byte_ok n Hn)) by done. done.
  - done.
  - apply Forall_fmap. eapply Forall_impl; [exact Hb|]. intros n Hn. apply no_sep_free; [by apply dec_byte_ok|by left].
Qed.

Lemma number_app val base acc s t : number val base acc (s +:+ t) = number val base acc s ≫= (fun a => number val base a t).
Proof.
  revert acc. induction s as [|c s IH]; intros acc; [done|]. rewrite sapp_cons. simpl. destruct (val c); [apply IH|done].
Qed.

Lemma number_digit acc d : (0 <= d < 16)%Z -> number hex_val 16 acc (digit d) = Some (acc * 16 + d)%Z.
Proof. intros Hd. unfold digit, number. by rewrite (proj1 (digit_ok d Hd)). Qed.

Definition is_group (n : Z) : Prop := (0 <= n < 65536)%Z.

(** The four hexadecimal digits of 16 bits. *)
Lemma nibbles n :
  is_group n ->
  (0 <= n / 4096 < 16 /\ 0 <= n / 256 mod 16 < 16 /\ 0 <= n / 16 mod 16 < 16 /\ 0 <= n mod 16 < 16 /\
   n = n / 4096 * 4096 + n / 256 mod 16 * 256 + n / 16 mod 16 * 16 + n mod 16)%Z.
Proof.
  unfold is_group. intros Hn.
  pose proof (Z.div_mod n 16 ltac:(lia)). pose proof (Z.div_mod (n / 16) 16 ltac:(lia)).
  pose proof (Z.div_mod (n / 256) 16 ltac:(lia)).
  replace (n / 16 / 16)%Z with (n / 256)%Z in * by (rewrite Z.div_div by lia; done).
  replace (n / 256 / 16)%Z with (n / 4096)%Z in * by (rewrite Z.div_div by lia; done).
  pose proof (Z.mod_pos_bound n 16 ltac:(lia)). pose proof (Z.mod_pos_bound (n / 16) 16 ltac:(lia)).
  pose proof (Z.mod_pos_bound (n / 256) 16 ltac:(lia)). lia.
Qed.

Lemma hex_group_number n : is_group n -> number hex_val 16 0 (hex_group n) = Some n.
Proof.
  intros Hn. destruct (nibbles n Hn) as (H1 & H2 & H3 & H4 & E). unfold hex_group.
  revert H1 H2 H3 H4 E.
  generalize (n / 4096)%Z (n / 256 mod 16)%Z (n / 16 mod 16)%Z (n mod 16)%Z. intros a b c d H1 H2 H3 H4 E.
  repeat case_decide; try lia; rewrite ?sapp_nil_l;
    repeat (first [rewrite number_digit by lia|rewrite number_app]; cbn [number mbind option_bind]); f_equal; lia.
Qed.

Lemma hex_group_ne n : hex_group n <> EmptyString.
Proof.
  intros E. apply (f_equal String.length) in E. unfold hex_group in E. rewrite !slen_app in E. simpl in E. lia.
Qed.

Lemma hex_group_no_sep n : is_group n -> no_sep (hex_group n).
Proof.
  intros Hn. destruct (nibbles n Hn) as (H1 & H2 & H3 & H4 & _). unfold hex_group, no_sep.
  repeat case_decide; rewrite ?sapp_nil_l, ?(no_sep_app (digit _)) by (by apply digit_ok); by apply digit_ok.
Qed.

Definition group_bytes (n : Z) : list Z := [n / 256; n mod 256]%Z.

Lemma group6_hex n : is_group n -> group6 (hex_group n) = Some (group_bytes n).
Proof.
  intros Hn. unfold group6. destruct (hex_group n) as [|c s] eqn:E; [by apply hex_group_ne in E|].
  rewrite <- E, hex_group_number by done. simpl. unfold is_group in Hn. by rewrite decide_True by lia.
Qed.

(** The printed form of a group, with or without leading zeros. *)
Definition field (f : string) (g : Z) : Prop := no_sep f /\ f <> EmptyString /\ group6 f = Some (group_bytes g).

Lemma hex_group_field g : is_group g -> field (hex_group g) g.
Proof.
  intros Hg. split; [by apply hex_group_no_sep|]. split; [apply hex_group_ne|by apply group6_hex].
Qed.

Lemma hex_groups_fields gs : Forall is_group gs -> Forall2 field (map hex_group gs) gs.
Proof. induction 1; constructor; [by apply hex_group_field|done]. Qed.

Lemma groups6_fields v4 fs gs : Forall2 field fs gs -> groups6 v4 fs = Some (concat (map group_bytes gs)).
Proof.
  induction 1 as [|f g fs gs (Hs & _ & Hg) Hfs IH]; [done|]. destruct fs as [|f' fs].
  - inversion Hfs; subst. cbn [map concat groups6]. rewrite (no_sep_free ch_dot f) by auto.
    by rewrite andb_false_r, Hg, app_nil_r.
  - change (groups6 v4 (f :: f' :: fs)) with (x ← group6 f; y ← groups6 v4 (f' :: fs); Some (x ++ y)).
    by rewrite Hg, IH.
Qed.

Lemma fields_free fs gs : Forall2 field fs gs -> Forall (fun f => IndexByte ch_colon f = None) fs.
Proof. induction 1 as [|f g fs gs (Hs & _) _ IH]; constructor; [|done]. apply no_sep_free; auto. Qed.

Lemma side6_fields v4 fs gs :
  Forall2 field fs gs -> side6 v4 (print_fields fs) = Some (concat (map group_bytes gs)).
Proof.
  intros Hfs. unfold side6, print_fields. destruct fs as [|f fs]; [by inversion Hfs|]. rewrite decide_False.
  - change ":"%string with (String ch_colon EmptyString). rewrite Split_Join; [by apply groups6_fields|done|].
    by eapply fields_free.
  - inversion Hfs as [|? g ? ? (_ & Hne & _)]; subst. destruct fs as [|f' fs]; [done|]. rewrite Join_cons. by destruct f.
Qed.

(** *** Where "::" is *)

Lemma Index_free f r :
  IndexByte ch_colon f = None -> strings_Index (f +:+ r) "::" = Nat.add (slen f) <$> strings_Index r "::".
Proof.
  induction f as [|c f IH]; intros Hf.
  { rewrite sapp_nil_l. simpl. by destruct (strings_Index r "::"). }
  simpl in Hf. destruct (decide (c = ch_colon)); [done|]. destruct (IndexByte ch_colon f); [done|].
  rewrite sapp_cons. simpl.
  assert (HasPrefix (String c (f +:+ r)) "::" = false) as ->.
  { unfold HasPrefix. apply bool_decide_eq_false. simpl. intros [= ? _]. done. }
  rewrite IH by done. by destruct (strings_Index r "::").
Qed.

Lemma Index_fields fs gs r :
  Forall2 field fs gs -> fs <> [] ->
  strings_Index (print_fields fs +:+ r) "::" = Nat.add (slen (print_fields fs)) <$> strings_Index r "::".
Proof.
  intros Hfs Hne. unfold print_fields. induction Hfs as [|f g fs gs (Hs & _) Hfs IH]; [done|]. clear Hne.
  assert (IndexByte ch_colon f = None) as Hf by (apply no_sep_free; auto).
  destruct fs as [|f' fs]; [by apply Index_free|]. specialize (IH ltac:(done)).
  rewrite Join_cons, !sapp_assoc, Index_free by done.
  assert (strings_Index (":" +:+ strings_Join (f' :: fs) ":" +:+ r) "::" =
          S <$> strings_Index (strings_Join (f' :: fs) ":" +:+ r) "::") as E.
  { set (t := strings_Join _ _ +:+ r). change (":" +:+ t) with (String ch_colon t). simpl.
    assert (HasPrefix (String ch_colon t) "::" = false) as ->; [|done].
    unfold HasPrefix. apply bool_decide_eq_false. simpl. intros [= Ht].
    inversion Hfs as [|? g' ? gs' (Hs' & Hne & _)]; subst.
    assert (exists u, t = f' +:+ u) as [u Eu].
    { unfold t. destruct fs as [|f'' fs]; [by eexists|]. rewrite Join_cons, sapp_assoc. by eexists. }
    rewrite Eu in Ht. destruct f' as [|c x]; [done|]. simpl in Ht. injection Ht as ->.
    by unfold no_sep in Hs'. }
  rewrite E, IH, !slen_app. destruct (strings_Index r "::") as [i|]; [|done]. simpl. f_equal. lia.
Qed.

Lemma fields_no_double fs gs : Forall2 field fs gs -> strings_Index (print_fields fs) "::" = None.
Proof.
  intros Hfs. destruct (decide (fs = [])) as [->|Hne]; [done|].
  pose proof (Index_fields fs gs EmptyString Hfs Hne) as E. by rewrite sapp_nil_r in E.
Qed.

Lemma SplitStr_whole s sep : strings_Index s sep = None -> strings_SplitStr s sep = [s].
Proof. intros E. unfold strings_SplitStr. simpl. by rewrite E. Qed.

Lemma SplitStr_double fs gs fs' gs' :
  Forall2 field fs gs -> Forall2 field fs' gs' ->
  strings_SplitStr (print_fields fs +:+ "::" +:+ print_fields fs') "::" = [print_fields fs; print_fields fs'].
Proof.
  intros Hg Hh. set (a := print_fields fs). set (b := print_fields fs').
  assert (strings_Index (a +:+ "::" +:+ b) "::" = Some (slen a)) as E.
  { assert (strings_Index ("::" +:+ b) "::" = Some 0%nat) as E0 by reflexivity.
    destruct (decide (fs = [])) as [->|Hne]; [exact E0|]. unfold a. rewrite (Index_fields fs gs), E0 by done.
    simpl. f_equal. lia. }
  unfold strings_SplitStr. rewrite !slen_app. simpl (slen "::"). replace (S (slen a + (2 + slen b))) with (S (S (slen a + S (slen b)))) by lia.
  cbn [split_str]. rewrite E, stake_app.
  replace (sdrop (slen a + slen "::") (a +:+ "::" +:+ b)) with b.
  - unfold b at 1. by rewrite (fields_no_double fs' gs').
  - rewrite <- sapp_assoc, <- slen_app. by rewrite sdrop_app.
Qed.

Lemma groups_length gs : length (concat (map group_bytes gs)) = (2 * length gs)%nat.
Proof. induction gs as [|g gs IH]; [done|]. simpl. rewrite IH. lia. Qed.

Lemma parse6_fields fs gs :
  length gs = 8%nat -> Forall2 field fs gs -> parse6 (print_fields fs) = Some (concat (map group_bytes gs)).
Proof.
  intros Hl Hfs. unfold parse6. rewrite SplitStr_whole by (by eapply fields_no_double).
  rewrite (side6_fields _ fs gs) by done. cbn [mbind option_bind]. rewrite decide_True; [done|].
  rewrite groups_length. lia.
Qed.

Lemma zeros_le gs : (zeros gs <= length gs)%nat.
Proof. induction gs as [|g gs IH]; simpl; [lia|]. case_decide; lia. Qed.

Lemma zeros_replicate gs : take (zeros gs) gs = replicate (zeros gs) 0%Z.
Proof. induction gs as [|g gs IH]; [done|]. simpl. case_decide as Hg; [|done]. simpl. by rewrite Hg, IH. Qed.

(** The run found is a run of zeros. *)
Lemma longest_run_spec i gs :
  let '(j, n) := longest_run i gs in
  (i <= j /\ j - i + n <= length gs)%nat /\ take n (drop (j - i) gs) = replicate n 0%Z.
Proof.
  revert i. induction gs as [|g gs IH]; intros i; [by simpl; rewrite Nat.sub_diag; split; [lia|]|].
  cbn [longest_run]. specialize (IH (S i)). destruct (longest_run (S i) gs) as [j n]. case_decide.
  - rewrite Nat.sub_diag. split; [split; [lia|apply zeros_le]|]. apply (zeros_replicate (g :: gs)).
  - destruct IH as [[? ?] E]. split; [simpl; lia|]. replace (j - i)%nat with (S (j - S i)) by lia. exact E.
Qed.

Lemma parse6_print6 gs :
  length gs = 8%nat -> Forall is_group gs -> parse6 (print6 gs) = Some (concat (map group_bytes gs)).
Proof.
  intros Hl Hg. unfold print6. pose proof (longest_run_spec 0 gs) as Hr. destruct (longest_run 0 gs) as [i n].
  rewrite Nat.sub_0_r in Hr. destruct Hr as [[_ Hle] Hz].
  case_decide as Hn; [by apply parse6_fields, hex_groups_fields|].
  assert (Forall2 field (map hex_group (take i gs)) (take i gs)) as Ht by (by apply hex_groups_fields, Forall_take).
  assert (Forall2 field (map hex_group (drop (i + n) gs)) (drop (i + n) gs)) as Hd by (by apply hex_groups_fields, Forall_drop).
  unfold parse6, print_groups. rewrite (SplitStr_double _ _ _ _ Ht Hd), (side6_fields _ _ _ Ht), (side6_fields _ _ _ Hd).
  cbn [mbind option_bind]. rewrite !groups_length, length_take, length_drop, decide_True by lia. f_equal.
  assert (gs = take i gs ++ replicate n 0%Z ++ drop (i + n) gs) as E.
  { rewrite <- Hz, <- drop_drop, take_drop. by rewrite take_drop. }
  replace (concat (map group_bytes gs)) with (concat (map group_bytes (take i gs ++ replicate n 0%Z ++ drop (i + n) gs)))
    by (by rewrite <- E).
  rewrite !map_app, !concat_app. f_equal. f_equal.
  replace (16 - _)%nat with (2 * n)%nat by lia. clear. induction n as [|n IHn]; [done|].
  replace (2 * S n)%nat with (S (S (2 * n))) by lia. cbn [replicate map concat]. by rewrite IHn.
Qed.

Lemma pairs16_bytes ip :
  length ip = 16%nat -> Forall is_byte ip ->
  concat (map group_bytes (pairs16 ip)) = ip /\ length (pairs16 ip) = 8%nat /\ Forall is_group (pairs16 ip).
Proof.
  intros Hl Hb. do 17 (destruct ip as [|? ip]; try done). clear Hl.
  repeat (apply Forall_cons in Hb as [? Hb]). unfold is_byte in *. cbn [pairs16 map concat group_bytes app].
  rewrite !Z.div_add_l, !Z.div_small, !Z.add_0_r by lia.
  rewrite !(Z.add_comm (_ * 256)), !Z.mod_add, !Z.mod_small by lia.
  split; [done|]. split; [done|]. unfold is_group. repeat constructor; lia.
Qed.

Lemma print6_sep gs : Forall is_group gs -> (2 <= length gs)%nat -> first_sep (print6 gs) = Some ch_colon.
Proof.
  intros Hg Hl. unfold print6. pose proof (longest_run_spec 0 gs) as Hr. destruct (longest_run 0 gs) as [i n].
  assert (forall g hs r, is_group g -> first_sep ((strings_Join (hex_group g :: map hex_group hs) ":") +:+ String ch_colon r) = Some ch_colon) as Hf.
  { intros g hs r Hgr. destruct hs as [|h hs]; [by simpl; rewrite no_sep_app by (by apply hex_group_no_sep)|].
    cbn [map]. rewrite Join_cons, !sapp_assoc, no_sep_app by (by apply hex_group_no_sep). done. }
  case_decide.
  - destruct gs as [|g [|g' gs]]; [simpl in Hl; lia..|]. apply Forall_cons in Hg as [Hg _].
    unfold print_groups, print_fields. cbn [map]. rewrite Join_cons, no_sep_app by (by apply hex_group_no_sep). done.
  - destruct (take i gs) as [|g hs] eqn:E; [done|].
    assert (is_group g) as Hgr. { apply (Forall_take _ i) in Hg. rewrite E in Hg. by apply Forall_cons in Hg as [? _]. }
    unfold print_groups at 1. unfold print_fields. cbn [map]. change ("::" +:+ ?r) with (String ch_colon (String ch_colon r)). by apply Hf.
Qed.

(** An address that is printed parses as itself, in its 16 byte form. *)
Lemma ParseIP_String ip :
  length ip = 4%nat \/ length ip = 16%nat -> Forall is_byte ip -> ParseIP (IP_String ip) = To16 ip.
Proof.
  intros Hl Hb.
  assert (forall p4, length p4 = 4%nat -> Forall is_byte p4 -> ParseIP (print4 p4) = Some (v4prefix ++ p4)) as H4.
  { intros p4 H4 Hb4. unfold ParseIP. assert (first_sep (print4 p4) = Some ch_dot) as ->.
    - do 5 (destruct p4 as [|? p4]; try done). apply Forall_cons in Hb4 as [Hz _].
      unfold print4. cbn [map]. rewrite Join_cons, no_sep_app by (by apply dec_byte_ok). done.
    - rewrite decide_True by done. by rewrite parse4_print4. }
  assert (IP_String ip = match To4 ip with Some p4 => print4 p4 | None => print6 (pairs16 ip) end) as ->.
  { unfold IP_String. destruct ip as [|b ip]; [simpl in Hl; lia|]. destruct (To4 (b :: ip)) eqn:E; [done|].
    rewrite decide_True; [done|]. destruct Hl as [Hl|Hl]; [|done]. unfold To4 in E. by rewrite decide_True in E. }
  destruct (To4 ip) as [p4|] eqn:E4; unfold To4 in E4; unfold To16.
  - destruct (decide (length ip = 4%nat)) as [Hn|Hn]; [injection E4 as <-; by apply H4|].
    case_decide as Hm; [|done]. injection E4 as <-. destruct Hm as [H16 Hp].
    rewrite H4; [|rewrite length_drop; lia|by apply Forall_drop]. rewrite decide_True by done. rewrite <- Hp. by rewrite take_drop.
  - destruct (decide (length ip = 4%nat)); [done|]. assert (length ip = 16%nat) as H16 by (by destruct Hl).
    destruct (pairs16_bytes ip H16 Hb) as (Ep & Hp8 & Hg). unfold ParseIP. rewrite print6_sep by (done || lia).
    rewrite decide_False by done. by rewrite parse6_print6, Ep, decide_True.
Qed.

(** ** What [ParseIP] returns: 16 bytes *)

Lemma number_nonneg val base acc s n :
  (forall c d, val c = Some d -> (0 <= d)%Z) -> (0 <= base)%Z -> (0 <= acc)%Z -> number val base acc s = Some n -> (0 <= n)%Z.
Proof.
  intros Hv Hb. revert acc. induction s as [|c s IH]; intros acc Ha; simpl; [by intros [= <-]|].
  destruct (val c) as [d|] eqn:E; [|done]. simpl. apply IH. apply Hv in E. nia.
Qed.

Lemma dec_val_nonneg c d : dec_val c = Some d -> (0 <= d)%Z.
Proof. unfold dec_val. case_decide; [|done]. intros [= <-]. lia. Qed.

Lemma hex_val_nonneg c d : hex_val c = Some d -> (0 <= d)%Z.
Proof. unfold hex_val. repeat case_decide; try done; intros [= <-]; lia. Qed.

Lemma uint_go_range max acc s : (0 <= acc <= max)%Z -> (0 <= (uint_go max acc s).1 <= max)%Z.
Proof.
  revert acc. induction s as [|c s IH]; intros acc Ha; simpl; [done|].
  destruct (dec_val c) as [d|] eqn:E; simpl; [|lia]. apply dec_val_nonneg in E.
  destruct (decide (max < acc * 10 + d)%Z); simpl; [lia|]. apply IH. lia.
Qed.

Lemma ParseUint_range bits s : (0 <= bits)%Z -> (0 <= (ParseUint bits s).1 < 2 ^ bits)%Z.
Proof.
  intros Hb. pose proof (Z.pow_pos_nonneg 2 bits ltac:(lia) Hb). unfold ParseUint.
  destruct (decide _); simpl; [lia|]. pose proof (uint_go_range (2 ^ bits - 1) 0 s). lia.
Qed.

Lemma octet_byte s n : octet s = Some n -> is_byte n.
Proof.
  unfold octet. destruct s as [|c s]; [done|]. destruct (number dec_val 10 0 (String c s)) as [m|] eqn:E; [|done].
  cbn [mbind option_bind]. case_decide; [|done]. intros [= <-].
  apply number_nonneg in E; [unfold is_byte; lia|apply dec_val_nonneg|lia|lia].
Qed.

Lemma parse4_bytes s ip : parse4 s = Some ip -> length ip = 4%nat /\ Forall is_byte ip.
Proof.
  unfold parse4. destruct (strings_Split ch_dot s) as [|a [|b [|c [|d [|? ?]]]]]; try done.
  destruct (octet a) eqn:Ea; [|done]. destruct (octet b) eqn:Eb; [|done]. destruct (octet c) eqn:Ec; [|done].
  destruct (octet d) eqn:Ed; [|done]. cbn [mbind option_bind]. intros [= <-]. split; [done|].
  repeat constructor; by eapply octet_byte.
Qed.

Lemma group6_bytes s g : group6 s = Some g -> Forall is_byte g.
Proof.
  unfold group6. destruct s as [|c s]; [done|]. destruct (number hex_val 16 0 (String c s)) as [n|] eqn:E; [|done].
  cbn [mbind option_bind]. case_decide; [|done]. intros [= <-].
  apply number_nonneg in E; [|apply hex_val_nonneg|lia|lia].
  unfold is_byte. repeat constructor; Z.to_euclidean_division_equations; lia.
Qed.

Lemma groups6_bytes v4 fs g : groups6 v4 fs = Some g -> Forall is_byte g.
Proof.
  revert g. induction fs as [|f fs IH]; intros g; [by intros [= <-]|]. destruct fs as [|f' fs].
  - cbn [groups6]. destruct (v4 && _)%bool; [intros E; by apply parse4_bytes in E as [_ ?]|apply group6_bytes].
  - change (groups6 v4 (f :: f' :: fs)) with (x ← group6 f; y ← groups6 v4 (f' :: fs); Some (x ++ y)).
    destruct (group6 f) as [x|] eqn:E; [|done]. cbn [mbind option_bind].
    destruct (groups6 v4 (f' :: fs)) as [y|]; [|done]. cbn [mbind option_bind]. intros [= <-].
    apply Forall_app. split; [by eapply group6_bytes|by apply IH].
Qed.

Lemma side6_bytes v4 s g : side6 v4 s = Some g -> Forall is_byte g.
Proof. unfold side6. case_decide; [by intros [= <-]|apply groups6_bytes]. Qed.

Lemma ParseIP_bytes s ip : ParseIP s = Some ip -> length ip = 16%nat /\ Forall is_byte ip.
Proof.
  unfold ParseIP. destruct (first_sep s) as [c|]; [|done]. case_decide.
  - destruct (parse4 s) as [p|] eqn:E; [|done]. simpl. intros [= <-]. apply parse4_bytes in E as [El Eb].
    split; [simpl; lia|]. apply (Forall_app_2 _ v4prefix); [by repeat constructor|done].
  - unfold parse6. destruct (strings_SplitStr s "::") as [|a [|b [|? ?]]]; try done.
    + destruct (side6 true a) as [g|] eqn:E; [|done]. cbn [mbind option_bind]. case_decide; [|done]. intros [= <-].
      split; [done|]. by eapply side6_bytes.
    + destruct (side6 false a) as [ga|] eqn:Ea; [|done]. destruct (side6 true b) as [gb|] eqn:Eb; [|done].
      cbn [mbind option_bind]. case_decide; [|done]. intros [= <-]. rewrite !length_app, length_replicate.
      split; [lia|]. rewrite !Forall_app. split; [by eapply side6_bytes|]. split; [|by eapply side6_bytes].
      apply Forall_replicate. done.
Qed.

(** Printed forms tell addresses of 16 bytes apart. *)
Lemma IP_String_inj a b :
  length a = 16%nat -> length b = 16%nat -> Forall is_byte a -> Forall is_byte b -> IP_String a = IP_String b -> a = b.
Proof.
  intros Ha Hb Ba Bb E. apply (f_equal ParseIP) in E. rewrite !ParseIP_String in E by auto. unfold To16 in E.
  rewrite !(decide_False (P := length _ = 4%nat)), !decide_True in E by lia. by injection E.
Qed.

(** ** Bytes that no address has *)

Lemma free_app c s t : IndexByte c s = None -> IndexByte c t = None -> IndexByte c (s +:+ t) = None.
Proof.
  intros Hs Ht. induction s as [|d s IH]; [done|]. rewrite sapp_cons. simpl in *. case_decide; [done|].
  destruct (IndexByte c s); [done|]. by rewrite IH.
Qed.

Lemma free_join c sep fs :
  IndexByte c sep = None -> Forall (fun f => IndexByte c f = None) fs -> IndexByte c (strings_Join fs sep) = None.
Proof.
  intros Hs Hfs. induction Hfs as [|f fs Hf Hfs IH]; [done|]. destruct fs as [|g fs]; [done|].
  rewrite Join_cons. by repeat apply free_app.
Qed.

Lemma free_dec_byte c n :
  (forall d, (0 <= d < 16)%Z -> IndexByte c (digit d) = None) -> is_byte n -> IndexByte c (dec_byte n) = None.
Proof.
  unfold is_byte, dec_byte. intros Hd Hn. repeat case_decide; repeat apply free_app; apply Hd;
    Z.to_euclidean_division_equations; lia.
Qed.

Lemma free_hex_group c n :
  (forall d, (0 <= d < 16)%Z -> IndexByte c (digit d) = None) -> is_group n -> IndexByte c (hex_group n) = None.
Proof.
  intros Hd Hn. destruct (nibbles n Hn) as (H1 & H2 & H3 & H4 & _). unfold hex_group.
  repeat case_decide; repeat apply free_app; try done; by apply Hd.
Qed.

Lemma free_print6 c gs :
  (forall d, (0 <= d < 16)%Z -> IndexByte c (digit d) = None) -> c <> ch_colon -> Forall is_group gs ->
  IndexByte c (print6 gs) = None.
Proof.
  intros Hd Hc Hg.
  assert (forall sep, sep = ":"%string \/ sep = "::"%string -> IndexByte c sep = None) as Hsep.
  { intros sep [-> | ->]; simpl; repeat (rewrite decide_False by (by intros <-)); done. }
  assert (forall hs, Forall is_group hs -> IndexByte c (print_groups hs) = None) as Hp.
  { intros hs Hh. apply free_join; [apply Hsep; by left|]. apply Forall_fmap. eapply Forall_impl; [exact Hh|].
    intros h Hh'. by apply free_hex_group. }
  unfold print6. destruct (longest_run 0 gs) as [i n]. case_decide; [by apply Hp|].
  apply free_app; [by apply Hp, Forall_take|]. apply free_app; [apply Hsep; by right|]. by apply Hp, Forall_drop.
Qed.

Lemma To4_bytes ip p4 : To4 ip = Some p4 -> Forall is_byte ip -> length p4 = 4%nat /\ Forall is_byte p4.
Proof.
  unfold To4. intros E Hb. case_decide; [by injection E as <-|]. case_decide as Hm; [|done].
  injection E as <-. rewrite length_drop. split; [lia|by apply Forall_drop].
Qed.

(** A byte that is no hexadecimal digit and no separator is not in a printed
    address. *)
Lemma IP_String_free c ip :
  (forall d, (0 <= d < 16)%Z -> IndexByte c (digit d) = None) -> c <> ch_dot -> c <> ch_colon ->
  length ip = 4%nat \/ length ip = 16%nat -> Forall is_byte ip -> IndexByte c (IP_String ip) = None.
Proof.
  intros Hd Hdot Hcol Hl Hb. unfold IP_String. destruct ip as [|b ip]; [simpl in Hl; lia|].
  set (a := b :: ip) in *. destruct (To4 a) as [p4|] eqn:E.
  - apply free_join; [simpl; rewrite decide_False by (intros Ec; by apply Hdot); done|]. apply Forall_fmap.
    eapply Forall_impl; [exact (proj2 (To4_bytes a p4 E Hb))|]. intros n Hn. by apply free_dec_byte.
  - assert (length a = 16%nat) as H16.
    { destruct Hl as [Hl|Hl]; [|done]. unfold To4 in E. by rewrite decide_True in E. }
    rewrite decide_True by done. apply free_print6; [done..|]. by apply pairs16_bytes.
Qed.

Lemma IP_String_ne ip :
  length ip = 4%nat \/ length ip = 16%nat -> Forall is_byte ip -> IP_String ip <> EmptyString.
Proof.
  intros Hl Hb E. pose proof (ParseIP_String ip Hl Hb) as H. rewrite E in H. unfold To16 in H.
  repeat case_decide; done || lia.
Qed.

(** ** Networks *)

Record IPNet := mkIPNet { net_IP : IP; net_Mask : list Z }.

(** The leading ones of a byte and the byte shifted past them. *)
Fixpoint leading_ones (fuel : nat) (v : Z) : Z * Z :=
  match fuel with
  | O => (0, v)%Z
  | S fuel' =>
      if Z.testbit v 7 then let '(n, v) := leading_ones fuel' (u8 (Z.shiftl v 1)) in (1 + n, v)%Z else (0, v)%Z
  end.

(** The length of a mask of ones followed by zeros. *)
Fixpoint simpleMaskLength (mask : list Z) : option Z :=
  match mask with
  | [] => Some 0%Z
  | v :: mask' =>
      if decide (v = 255)%Z then n ← simpleMaskLength mask'; Some (8 + n)%Z
      else
        let '(n, v) := leading_ones 8 v in
        if decide (v = 0 /\ Forall (fun b => b = 0) mask')%Z then Some n else None
  end.

(** [IPMask.Size]. *)
Definition Mask_Size (mask : list Z) : Z * Z :=
  match simpleMaskLength mask with
  | Some n => (n, 8 * Z.of_nat (length mask))%Z
  | None => (0, 0)%Z
  end.
