(* ===== verification/GoText.v ===== *)
(** * More of Go's text functions

    What the plugins that read options use of strconv, strings, encoding/hex
    and net: numbers with a base prefix, hexadecimal strings, replacing, masks
    and networks in CIDR notation.  Regular expressions are an interface. *)

From stdpp Require Import pretty.
From S2P Require Import Prelude.
From S2P Require Import GoStd.
From S2P Require Import GoNet.

(** ** strconv and strings *)

Definition Itoa (n : Z) : string := pretty n.

Definition upper_byte (c : ascii) : ascii :=
  let n := N_of_ascii c in
  if decide (97 <= n <= 122)%N then ascii_of_N (n - 32) else c.

(** ASCII only, as [ToLower]. *)
Fixpoint ToUpper (s : string) : string :=
  match s with
  | EmptyString => EmptyString
  | String c s' => String (upper_byte c) (ToUpper s')
  end.

(** [strings.Replace(s, old, new, -1)] on ASCII strings: an empty string is
    found before each byte and at the end. *)
Fixpoint replace_between (s new : string) : string :=
  match s with
  | EmptyString => new
  | String c s' => new +:+ String c (replace_between s' new)
  end.
Definition strings_ReplaceAll (s old new : string) : string :=
  if decide (old = EmptyString) then replace_between s new else strings_Join (strings_SplitStr s old) new.

Definition ch_under : ascii := "_"%char.

Definition digit_val (c : ascii) : option Z :=
  match dec_val c with
  | Some d => Some d
  | None =>
      let n := Z.of_N (N_of_ascii (lower_byte c)) in
      if decide (97 <= n <= 122)%Z then Some (n - 87)%Z else None
  end.

(** Underscores must separate digits; the base prefix counts as one.  [saw]
    is the kind of the character before. *)
Inductive saw := saw_start | saw_digit | saw_under | saw_other.
Fixpoint underscore_loop (hex : bool) (s : string) (b : saw) : bool :=
  match s with
  | EmptyString => match b with saw_under => false | _ => true end
  | String c s' =>
      let n := Z.of_N (N_of_ascii (lower_byte c)) in
      if decide (48 <= n <= 57 \/ hex = true /\ 97 <= n <= 102)%Z then underscore_loop hex s' saw_digit
      else if decide (c = ch_under) then match b with saw_digit => underscore_loop hex s' saw_under | _ => false end
      else match b with saw_under => false | _ => underscore_loop hex s' saw_other end
  end.

(** The base that a prefix tells, and what comes after it. *)
Definition base_prefix (s : string) : option (Z * string) :=
  match s with
  | String "0" (String c s') =>
      let c := lower_byte c in
      if decide (c = "b"%char) then Some (2%Z, s')
      else if decide (c = "o"%char) then Some (8%Z, s')
      else if decide (c = "x"%char) then Some (16%Z, s')
      else None
  | _ => None
  end.

Definition underscoreOK (s : string) : bool :=
  match base_prefix s with
  | Some (base, s') => underscore_loop (bool_decide (base = 16%Z)) s' saw_digit
  | None => underscore_loop false s saw_start
  end.

(** The loop over the digits, with whether there was an underscore. *)
Fixpoint uint0_loop (base max acc : Z) (under : bool) (s : string) : (Z * bool) + string :=
  match s with
  | EmptyString => inl (acc, under)
  | String c s' =>
      if decide (c = ch_under) then uint0_loop base max acc true s'
      else
        match digit_val c with
        | None => inr "invalid syntax"%string
        | Some d =>
            if decide (base <= d)%Z then inr "invalid syntax"%string
            else if decide (max < acc * base + d)%Z then inr "value out of range"%string
            else uint0_loop base max (acc * base + d)%Z under s'
        end
  end.

Definition num_error (s err : string) : string := "strconv.ParseUint: parsing " +:+ go_quote s +:+ ": " +:+ err.

(** [strconv.ParseUint(s, 0, bits)] for a width below 64: the number or the
    error. *)
Definition ParseUint0 (bits : Z) (s : string) : Z + string :=
  if decide (s = EmptyString) then inr (num_error s "invalid syntax")
  else
    let '(base, digits) :=
      match base_prefix s with
      | Some (base, String c s') => (base, String c s')
      | _ => match s with String "0" s' => (8%Z, s') | _ => (10%Z, s) end
      end in
    match uint0_loop base (2 ^ bits - 1) 0 false digits with
    | inr err => inr (num_error s err)
    | inl (n, under) => if (under && negb (underscoreOK s))%bool then inr (num_error s "invalid syntax") else inl n
    end.

Lemma uint0_loop_bounds base max acc under s n u :
  (0 <= base)%Z -> (0 <= acc <= max)%Z -> uint0_loop base max acc under s = inl (n, u) -> (0 <= n <= max)%Z.
Proof.
  intros Hb. revert acc under. induction s as [|c s IH]; intros acc under Ha; simpl.
  - intros [= <- _]. done.
  - case_decide; [by apply IH|]. destruct (digit_val c) as [d|] eqn:Ed; [|done]. case_decide; [done|]. case_decide; [done|].
    apply IH. assert (0 <= d)%Z; [|nia]. unfold digit_val, dec_val in Ed. repeat case_decide; simplify_eq; lia.
Qed.

Lemma ParseUint0_bounds bits s n : (0 <= bits)%Z -> ParseUint0 bits s = inl n -> (0 <= n < 2 ^ bits)%Z.
Proof.
  intros Hb. unfold ParseUint0. case_decide; [done|].
  destruct (match base_prefix s with Some (base, String c s') => _ | _ => _ end) as [base digits] eqn:E.
  assert (0 <= base)%Z.
  { unfold base_prefix in E. repeat (case_match; simplify_eq; try lia). }
  pose proof (Z.pow_pos_nonneg 2 bits ltac:(lia) Hb).
  destruct (uint0_loop _ _ _ _ _) as [[m u]|] eqn:El; [|done]. destruct (u && _)%bool; [done|]. intros [= <-].
  apply uint0_loop_bounds in El; lia.
Qed.

(** ** encoding/hex *)

Definition hex_byte (c : ascii) : string := let n := Z.of_N (N_of_ascii c) in digit (n / 16) +:+ digit (n mod 16).

Fixpoint EncodeToString (s : string) : string :=
  match s with
  | EmptyString => EmptyString
  | String c s' => hex_byte c +:+ EncodeToString s'
  end.

(** [%#U] of a byte. *)
Definition fmt_U (c : ascii) : string :=
  let n := Z.of_N (N_of_ascii c) in
  "U+00" +:+ ToUpper (hex_byte c) +:+
  (if decide (32 <= n <= 126)%Z then " '" +:+ String c "'"
   else if decide (161 <= n <= 255 /\ n <> 173)%Z
   then " '" +:+ String (ascii_of_N (Z.to_N (192 + n / 64))) (String (ascii_of_N (Z.to_N (128 + n mod 64))) "'")
   else EmptyString).

Definition invalid_byte (c : ascii) : string := "encoding/hex: invalid byte: " +:+ fmt_U c.
Definition ErrLength : string := "encoding/hex: odd length hex string".

(** The bytes or the error. *)
Fixpoint DecodeString (s : string) : string + string :=
  match s with
  | EmptyString => inl EmptyString
  | String a EmptyString => match hex_val a with None => inr (invalid_byte a) | Some _ => inr ErrLength end
  | String a (String b s') =>
      match hex_val a, hex_val b with
      | None, _ => inr (invalid_byte a)
      | _, None => inr (invalid_byte b)
      | Some x, Some y =>
          match DecodeString s' with
          | inr err => inr err
          | inl bs => inl (String (ascii_of_N (Z.to_N (x * 16 + y))) bs)
          end
      end
  end.

Lemma hex_byte_decode c s : DecodeString (hex_byte c +:+ s) = match DecodeString s with inl bs => inl (String c bs) | inr e => inr e end.
Proof. destruct c as [[] [] [] [] [] [] [] []]; reflexivity. Qed.

Lemma hex_roundtrip s : DecodeString (EncodeToString s) = inl s.
Proof. induction s as [|c s IH]; [done|]. cbn [EncodeToString]. by rewrite hex_byte_decode, IH. Qed.

(** ** net: masks and networks *)

(** [net.CIDRMask]: nil is no bytes. *)
Fixpoint mask_bytes (len : nat) (n : Z) : list Z :=
  match len with
  | O => []
  | S len' => if decide (8 <= n)%Z then 255%Z :: mask_bytes len' (n - 8) else Z.land (Z.lnot (Z.shiftr 255 n)) 255 :: mask_bytes len' 0
  end.
Definition CIDRMask (ones bits : Z) : list Z :=
  if decide (bits <> 32 /\ bits <> 128)%Z then []
  else if decide (ones < 0 \/ bits < ones)%Z then []
  else mask_bytes (Z.to_nat (bits / 8)) ones.

(** [IP.Mask]: nil when the lengths do not fit. *)
Definition IP_Mask (ip : IP) (mask : list Z) : IP :=
  let mask := if decide (length mask = 16 /\ length ip = 4 /\ take 12 mask = replicate 12 255%Z)%nat then drop 12 mask else mask in
  let ip := if decide (length mask = 4 /\ length ip = 16 /\ take 12 ip = v4prefix)%nat then drop 12 ip else ip in
  if decide (length ip = length mask) then zip_with Z.land ip mask else [].

(** The digits at the start, as [dtoi] reads them: the number, or nothing
    when there are none or it is too big, and the rest. *)
Fixpoint dtoi (acc : Z) (s : string) : option (Z * string) :=
  match s with
  | EmptyString => Some (acc, s)
  | String c s' =>
      match dec_val c with
      | None => Some (acc, s)
      | Some d => let n := (acc * 10 + d)%Z in if decide (0xFFFFFF <= n)%Z then None else dtoi n s'
      end
  end.

Definition ch_slash_ : ascii := "/"%char.

(** [net.ParseCIDR]: the address and its network. *)
Definition ParseCIDR (s : string) : option (IP * IPNet) :=
  i ← IndexByte ch_slash_ s;
  let addr := stake i s in
  let mask := sdrop (S i) s in
  ip ← ParseIP addr;
  let bits := if bool_decide (first_sep addr = Some ch_dot) then 32%Z else 128%Z in
  '(n, rest) ← dtoi 0 mask;
  if decide (mask = EmptyString \/ rest <> EmptyString \/ bits < n)%Z then None
  else let m := CIDRMask n bits in Some (ip, mkIPNet (IP_Mask ip m) m).

(** ** regexp *)

(** A compiled expression gives the texts of the leftmost match and of its
    subexpressions, or nothing. *)
Class GoRegexp := {
  Regexp : Type;
  regexp_Compile : string -> option Regexp;
  NumSubexp : Regexp -> nat;
  FindStringSubmatch : Regexp -> string -> list string
}.

(** Documented behaviour: "FindStringSubmatch returns a slice of strings
    holding the text of the leftmost match of the regular expression in s and
    the matches, if any, of its subexpressions ... A return value of nil
    indicates no match"; "NumSubexp returns the number of parenthesized
    subexpressions in this Regexp". *)
Class GoRegexpOk `{GoRegexp} : Prop := {
  Submatch_length p s : FindStringSubmatch p s = [] \/ length (FindStringSubmatch p s) = S (NumSubexp p);
  Submatch_substring p s g gs : FindStringSubmatch p s = g :: gs -> strings_Contains s g = true
}.

(** Expressions without any operator, for closed examples. *)
Definition regexp_literal : GoRegexp := {|
  Regexp := string;
  regexp_Compile := fun s =>
    if decide (Exists (fun c => strings_Contains s (String c EmptyString) = true)
                 ["."; "*"; "+"; "?"; "("; ")"; "["; "]"; "{"; "}"; "|"; "^"; "$"; "092"]%char)
    then None else Some s;
  NumSubexp := fun _ => 0%nat;
  FindStringSubmatch := fun p s => if strings_Contains s p then [p] else []
|}.

Definition regexp_literal_ok : @GoRegexpOk regexp_literal.
Proof.
  constructor; intros p s; simpl.
  - destruct (strings_Contains s p); [by right|by left].
  - intros g gs. destruct (strings_Contains s p) eqn:E; [|done]. by intros [= <- <-].
Qed.
