(* ===== verification/Plugin.v ===== *)
(** * Plugins: zones, names and the handler chain

    plugin/normalize.go (matching and normalising names) and
    plugin/plugin.go (the protocol between a handler and the one that calls
    it). *)

From S2P Require Import Prelude.
From S2P Require Import GoStd.
From S2P Require Import DnsNames.
From S2P Require Import DnsMsg.
From S2P Require Import Request.
From S2P Require Import ZoneSpec.

Section normalize.
Context `{DnsNames}.

Fixpoint Matches_loop (z : list string) (qname zone : string) : string :=
  match z with
  | [] => zone
  | zname :: z' =>
      Matches_loop z' qname
        (if IsSubDomain zname qname
         then if decide (slen zone < slen zname)%nat then zname else zone
         else zone)
  end.

Definition Zones_Matches (z : list string) (qname : string) : string :=
  Matches_loop z qname EmptyString.

Definition Name_Normalize (n : string) : string := ToLower (Fqdn n).

Definition Zones_Normalize (z : list string) : list string := map Name_Normalize z.

Definition Name_Matches (n child : string) : bool :=
  if decide (n = child) then true else IsSubDomain n child.
End normalize.

(** ** Handlers *)

(** What a context carries that the modelled code reads: the loop counter, the
    view, and the metadata, as the values its functions give. *)
Record Ctx := mkCtxMd { ctx_loop : nat; ctx_view : option string; ctx_md : option (gmap string string) }.

Definition mkCtx (n : nat) (v : option string) : Ctx := mkCtxMd n v None.
Definition with_loop (n : nat) (c : Ctx) : Ctx := mkCtxMd n (ctx_view c) (ctx_md c).
Definition with_view (v : string) (c : Ctx) : Ctx := mkCtxMd (ctx_loop c) (Some v) (ctx_md c).
Definition with_md (m : gmap string string) (c : Ctx) : Ctx := mkCtxMd (ctx_loop c) (ctx_view c) (Some m).

(** A handler acts on the state of the process [W] and writes messages to the
    client; it returns an rcode and an error.  [None] is a panic, whose
    partial effects are not tracked. *)
Definition Handler (W : Type) : Type :=
  Ctx -> Writer -> Msg -> W -> option (W * list Msg * Z * option string).

Section handlers.
Context {W : Type}.

Definition plugin_Error (name err : string) : string := "plugin/" +:+ name +:+ ": " +:+ err.

(** The tracing span around the call is not modelled. *)
Definition NextOrFailure (name : string) (next : option (Handler W)) : Handler W :=
  fun ctx w r s =>
    match next with
    | Some h => h ctx w r s
    | None => Some (s, [], RcodeServerFailure, Some (plugin_Error name "no next plugin found"))
    end.

Definition ClientWrite (rcode : Z) : bool :=
  if decide (rcode = RcodeServerFailure) then false
  else if decide (rcode = RcodeRefused) then false
  else if decide (rcode = RcodeFormatError) then false
  else if decide (rcode = RcodeNotImplemented) then false
  else true.

(** The protocol of the comment on [Handler]: the reply has been written (once)
    when the rcode says so, and has not otherwise. *)
Definition writes_ok (rcode : Z) (msgs : list Msg) : Prop :=
  if ClientWrite rcode then length msgs = 1%nat else msgs = [].

Definition protocol_ok (h : Handler W) : Prop :=
  forall ctx w r s s' msgs rcode err,
    h ctx w r s = Some (s', msgs, rcode, err) -> writes_ok rcode msgs.

(** The protocol for one query; with [strict], an error also means that the
    reply has been left to the server. *)
Definition replies (strict : bool) (h : Handler W) (r : Msg) : Prop :=
  forall ctx w s s' msgs rcode err, h ctx w r s = Some (s', msgs, rcode, err) ->
  writes_ok rcode msgs /\ (strict = true -> err <> None -> ClientWrite rcode = false).

Lemma protocol_replies h : protocol_ok h <-> forall r, replies false h r.
Proof.
  split.
  - intros Hp r ctx w s s' msgs rcode err E. by apply Hp in E.
  - intros Hr ctx w r s s' msgs rcode err E. by apply Hr in E as [? _].
Qed.

Lemma NextOrFailure_replies b name next r :
  (forall h, next = Some h -> replies b h r) -> replies b (NextOrFailure name next) r.
Proof.
  intros Hn. destruct next as [h|]; [by apply Hn|]. intros ctx w s s' msgs rcode err. by intros [= <- <- <- <-].
Qed.

Lemma NextOrFailure_protocol name next :
  match next with Some h => protocol_ok h | None => True end ->
  protocol_ok (NextOrFailure name next).
Proof.
  intros Hn ctx w r s s' msgs rcode err. destruct next as [h|]; simpl; [by apply Hn|].
  by intros [= <- <- <- <-].
Qed.
End handlers.

(** ** Matching *)

Section matches_proofs.
Context `{Ok : DnsNamesOk}.

(** [zone] is one of [z] (or none), contains [q], and no zone of [z] that
    contains [q] is longer. *)
Definition longest_match (z : list string) (q zone : string) : Prop :=
  (zone = EmptyString \/ (zone ∈ z /\ IsSubDomain zone q = true)) /\
  (forall y, y ∈ z -> IsSubDomain y q = true -> (slen y <= slen zone)%nat).

Lemma Matches_loop_spec z q zone0 :
  let zone := Matches_loop z q zone0 in
  (zone = zone0 \/ (zone ∈ z /\ IsSubDomain zone q = true)) /\
  (slen zone0 <= slen zone)%nat /\
  (forall y, y ∈ z -> IsSubDomain y q = true -> (slen y <= slen zone)%nat).
Proof.
  revert zone0. induction z as [|x z IH]; intros zone0; simpl.
  { split; [by left|]. split; [done|]. intros y Hy. by apply elem_of_nil in Hy. }
  destruct (IsSubDomain x q) eqn:Ex; [case_decide as Hlt|].
  - destruct (IH x) as (H1 & H2 & H3). split; [|split; [lia|]].
    + right. destruct H1 as [-> |[Hin Hs]]; [by split; [left|]|]. split; [by right|done].
    + intros y [->|Hy]%elem_of_cons Hs; [lia|by apply H3].
  - destruct (IH zone0) as (H1 & H2 & H3). split; [|split; [lia|]].
    + destruct H1 as [-> |[Hin Hs]]; [by left|]. right. split; [by right|done].
    + intros y [->|Hy]%elem_of_cons Hs; [lia|by apply H3].
  - destruct (IH zone0) as (H1 & H2 & H3). split; [|split; [lia|]].
    + destruct H1 as [-> |[Hin Hs]]; [by left|]. right. split; [by right|done].
    + intros y [->|Hy]%elem_of_cons Hs; [congruence|by apply H3].
Qed.

Lemma Matches_longest z q : longest_match z q (Zones_Matches z q).
Proof.
  destruct (Matches_loop_spec z q EmptyString) as (H1 & _ & H3). split; [|exact H3].
  destruct H1 as [E|?]; [by left|by right].
Qed.

(** Among the zones that contain one name, longer in bytes is longer in
    labels. *)
Lemma slen_dotted_lower ls : slen (dotted (map ToLower ls)) = slen (dotted ls).
Proof. rewrite dotted_lower. apply slen_ToLower. Qed.

Lemma subdomain_labels x y q :
  fq_name x -> fq_name y -> fq_name q -> IsSubDomain x q = true -> IsSubDomain y q = true ->
  (slen x <= slen y)%nat -> (length (labels x) <= length (labels y))%nat.
Proof.
  intros Hx Hy Hq Sx%IsSubDomain_ok Sy%IsSubDomain_ok Hl; [|done..]. unfold label_suffix in *.
  destruct (decide (length (labels x) <= length (labels y))%nat) as [|Hgt]; [done|]. exfalso.
  assert (exists l, map ToLower (labels x) = l ++ map ToLower (labels y) /\ l <> []) as (l & El & Hne).
  { destruct (suffix_weak_total _ _ _ Sx Sy) as [[l E]|[l E]].
    - apply (f_equal length) in E. rewrite length_app, !length_map in E. lia.
    - exists l. split; [done|]. intros ->. apply (f_equal length) in E. rewrite !length_map in E. simpl in E.
      rewrite length_map in E. lia. }
  apply (f_equal (fun l => slen (dotted l))) in El. rewrite dotted_app, slen_app, !slen_dotted_lower in El.
  assert (0 < slen (dotted l))%nat.
  { destruct l as [|a l]; [done|]. slen_norm. lia. }
  assert (forall s, fq_name s -> labels s <> [] -> slen (dotted (labels s)) = slen s) as Hd.
  { intros s [->|(_ & _ & E)] Hs; [by rewrite labels_dot in Hs|]. by rewrite <- E. }
  destruct (decide (labels y = [])) as [Ey0|Ny].
  - destruct Hx as [->|Hvx]; [rewrite labels_dot in Hgt; simpl in Hgt; lia|].
    destruct Hy as [->|Hvy]; [|by destruct Hvy]. apply valid_name_len in Hvx. simpl in Hl. lia.
  - destruct (decide (labels x = [])) as [Ex0|Nx]; [rewrite Ex0 in Hgt; simpl in Hgt; lia|].
    rewrite (Hd x Hx Nx), (Hd y Hy Ny) in El. lia.
Qed.

(** The zone that [Matches] returns is the most specific one. *)
Lemma Matches_most_specific z q :
  fq_name q -> Forall fq_name z ->
  let zone := Zones_Matches z q in
  if decide (zone = EmptyString) then forall y, y ∈ z -> IsSubDomain y q = false
  else zone ∈ z /\ IsSubDomain zone q = true /\
       forall y, y ∈ z -> IsSubDomain y q = true -> (length (labels y) <= length (labels zone))%nat.
Proof.
  intros Hq Hz zone. destruct (Matches_longest z q) as [H1 H2]. fold zone in H1, H2.
  rewrite Forall_forall in Hz. case_decide as Hd.
  - intros y Hy. destruct (IsSubDomain y q) eqn:E; [|done]. exfalso.
    specialize (H2 y Hy E). rewrite Hd in H2. simpl in H2.
    pose proof (fq_name_ne y (Hz y Hy)). destruct y; [done|simpl in H2; lia].
  - destruct H1 as [?|[Hin Hs]]; [done|]. split; [done|]. split; [done|]. intros y Hy Ey.
    apply (subdomain_labels y zone q); auto.
Qed.
End matches_proofs.
