(* ===== verification/Transfer.v ===== *)
(** * The transfer plugin

    plugin/transfer: zone transfers out, from the first plugin that has the
    zone, in envelopes of more than five hundred records, and the sending of
    notifies. *)

From S2P Require Import Prelude.
From S2P Require Import GoStd.
From S2P Require Import GoNet.
From S2P Require Import DnsNames.
From S2P Require Import DnsMsg.
From S2P Require Import Request.
From S2P Require Import Plugin.

Definition ErrNotAuthoritative : string := "not authoritative for zone".

(** A plugin that implements the interface: the batches it sends on its
    channel, or an error. *)
Definition Transferer (W : Type) : Type := string -> Z -> st W (list (list RR) + string).

Record xfr := mkXfr { xZones : list string; xTo : list string }.

(** [a < b] on strings compares bytes. *)
Definition str_lt (a b : string) : bool :=
  match bytes_cmp (bytes_of a) (bytes_of b) with Lt => true | _ => false end.

Section select.
Context `{DnsNames}.

Fixpoint longest_loop (xfrs : list xfr) (name : string) (zone : string) (x : option xfr) : option xfr :=
  match xfrs with
  | [] => x
  | y :: xfrs' =>
      let z := Zones_Matches (xZones y) name in
      if decide (z <> EmptyString /\ str_lt zone z = true) then longest_loop xfrs' name z (Some y)
      else longest_loop xfrs' name zone x
  end.

Definition longestMatch (xfrs : list xfr) (name : string) : option xfr := longest_loop xfrs name EmptyString None.
End select.

(** Whether the remote address is one of those transfers go to. *)
Fixpoint xfr_allowed (to : list string) (ip : string) : bool :=
  match to with
  | [] => false
  | h :: to' =>
      if decide (h = "*"%string) then true
      else match SplitHostPort h with
           | None => false
           | Some (host, _) => if decide (host = ip) then true else xfr_allowed to' ip
           end
  end.

(** ** Serving *)

(** The loop over the channel: the envelopes that have been filled, the
    records that are left, and the first SOA record.  The first record of an
    empty batch panics. *)
Fixpoint fill_envelopes (batches : list (list RR)) (sent : list (list RR)) (rrs : list RR) (soa : option RR)
  : option (list (list RR) * list RR * option RR) :=
  match batches with
  | [] => Some (sent, rrs, soa)
  | records :: batches' =>
      first ← head records;
      let soa := match rdata first, soa with SOA _ _ _ _ _ _ _, None => Some first | _, _ => soa end in
      let rrs := rrs ++ records in
      if decide (500 < length rrs)%nat then fill_envelopes batches' (sent ++ [rrs]) [] soa
      else fill_envelopes batches' sent rrs soa
  end.

Section transfer.
Context `{DnsNames} `{DnsMsgs} {W : Type}.

(** What [dns.Transfer.Out] writes for an envelope, and the sending of it,
    which may fail. *)
Context (Envelope : Msg -> list RR -> Msg) (send : Msg -> st W (option string)).

(** The messages that got out, and the error that ended it. *)
Fixpoint transfer_Out (r : Msg) (envelopes : list (list RR)) : st W (list Msg * option string) :=
  match envelopes with
  | [] => mret ([], None)
  | rrs :: envelopes' =>
      let m := Envelope r rrs in
      e ← send m;
      match e with
      | Some err => mret ([], Some err)
      | None => '(ms, err) ← transfer_Out r envelopes'; mret (m :: ms, err)
      end
  end.

Context (Transferers : list (Transferer W)) (xfrs : list xfr) (next : option (Handler W)).

Definition Transfer_Name : string := "transfer".

(** The serial that an IXFR asks from; the error is the rcode alone. *)
Definition ixfr_serial (r : Msg) : option Z :=
  match mNs r with
  | [soa] => match rdata soa with SOA _ _ s _ _ _ _ => Some s | _ => None end
  | _ => None
  end.

(** The channel of the first plugin that returns one; no channel when none is
    authoritative. *)
Fixpoint first_channel (l : list (Transferer W)) (zone : string) (serial : Z) : st W (option (list (list RR)) + string) :=
  match l with
  | [] => mret (inl None)
  | p :: l' =>
      r ← p zone serial;
      match r with
      | inl batches => mret (inl (Some batches))
      | inr err => if decide (err = ErrNotAuthoritative) then first_channel l' zone serial else mret (inr err)
      end
  end.

(** Sending what a channel gives. *)
Definition transfer_send (r : Msg) (batches : list (list RR)) : st W (list Msg * Z * option string) :=
  '(sent, rrs, soa) ← of_option (fill_envelopes batches [] [] None);
  match rrs, soa with
  | [_], Some soa =>
      '(msgs, err) ← transfer_Out r sent;
      match err with
      | Some e => mret (msgs, RcodeServerFailure, Some e)
      | None =>
          let m := SetReply zeroMsg r in
          mret (msgs ++ [set_sections [soa] (mNs m) (mExtra m) m], RcodeSuccess, None)
      end
  | _, _ =>
      '(msgs, err) ← transfer_Out r (sent ++ match rrs with [] => [] | _ => [rrs] end);
      match err with
      | Some e => mret (msgs, RcodeServerFailure, Some e)
      | None => mret (msgs, RcodeSuccess, None)
      end
  end.

Definition Transfer_ServeDNS : Handler W := fun ctx w r s =>
  let state := newRequest w (Some r) in
  if decide (QType state <> TypeAXFR /\ QType state <> TypeIXFR) then NextOrFailure Transfer_Name next ctx w r s
  else if decide (Proto state <> "tcp"%string) then Some (s, [], RcodeRefused, None)
  else
    match longestMatch xfrs (QName state) with
    | None => NextOrFailure Transfer_Name next ctx w r s
    | Some x =>
        let '(state, ip) := Request_IP state in
        if negb (xfr_allowed (xTo x) ip) then Some (s, [SetRcode zeroMsg r RcodeRefused], RcodeSuccess, None)
        else
          match (if decide (QType state = TypeIXFR) then ixfr_serial r else Some 0%Z) with
          | None => Some (s, [], RcodeServerFailure, None)
          | Some serial =>
              '(s, ch) ← first_channel Transferers (QName state) serial s;
              match ch with
              | inr err => Some (s, [], RcodeServerFailure, Some err)
              | inl None => NextOrFailure Transfer_Name next ctx w r s
              | inl (Some batches) =>
                  '(s, (msgs, rcode, err)) ← transfer_send r batches s;
                  Some (s, msgs, rcode, err)
              end
          end
    end.

(** ** Notifies *)

(** [Exchange] with a server, and the name of a code. *)
Context (exchange : string -> st W (string + Msg)) (rcode_ToString : Z -> string).

(** Three tries.  The error of an exchange is assigned to a variable of the
    loop, so the one after it stays nil. *)
Fixpoint notify_tries (n : nat) (s : string) (code : Z) : st W (option Z) :=
  match n with
  | O => mret (Some code)
  | S n' =>
      r ← exchange s;
      match r with
      | inl _ => notify_tries n' s code
      | inr ret => if decide (mRcode ret = RcodeSuccess) then mret None else notify_tries n' s (mRcode ret)
      end
  end.

Definition sendNotify (zone s : string) : st W (option string) :=
  r ← notify_tries 3 s RcodeServerFailure;
  mret (match r with
        | None => None
        | Some code => Some ("notify for zone " +:+ go_quote zone +:+ " was not accepted by " +:+ go_quote s +:+
                             ": rcode was " +:+ go_quote (rcode_ToString code))
        end).

Fixpoint notify_all (zone : string) (to : list string) (err1 : option string) : st W (option string) :=
  match to with
  | [] => mret err1
  | t :: to' =>
      if decide (t = "*"%string) then notify_all zone to' err1
      else e ← sendNotify zone t; notify_all zone to' (match e with Some _ => e | None => err1 end)
  end.

Definition Notify (zone : string) : st W (option string) :=
  match longestMatch xfrs zone with
  | None => mret (Some ("no such zone registred in the transfer plugin: " +:+ zone))
  | Some x => notify_all zone (xTo x) None
  end.
End transfer.
