(* ===== verification/Server.v ===== *)
(** * The server

    core/dnsserver/server.go: putting the plugin chains together and routing
    a query to one of them; plugin/pkg/upstream and plugin/pkg/nonwriter:
    asking the server itself. *)

From S2P Require Import Prelude.
From S2P Require Import GoStd.
From S2P Require Import DnsNames.
From S2P Require Import DnsMsg.
From S2P Require Import Request.
From S2P Require Import Plugin.

Definition FilterFunc : Type := Ctx -> Request -> bool.

Section server_data.
Context {W : Type}.

(** A handler object: its [ServeDNS] and [Name], its [Collect] when it is a
    MetadataCollector, its [ViewName] and [Filter] when it is a Viewer. *)
Record HandlerObj := mkHandler {
  hServe : Handler W;
  hObjName : string;
  hCollect : option (Ctx -> Request -> Ctx);
  hViewer : option (string * FilterFunc)
}.

(** Timeouts for TCP connections and the TSIG secrets by name. *)
Record Limits := mkLimits {
  lRead : Z; lWrite : Z; lIdle : Z;
  lTsig : gmap string string
}.

(** The part of a configuration that serving reads.  [cPlugin] is the plugin
    stack, [cChain] and [cMeta] are filled in by [NewServer]. *)
Record Config := mkConfig {
  cZone : string;
  cDebug : bool;
  cStacktrace : bool;
  cFilterFuncs : list FilterFunc;
  cViewName : string;
  cPlugin : list (option HandlerObj -> HandlerObj);
  cChain : option HandlerObj;
  cMeta : option (Ctx -> Request -> Ctx);
  cRegistry : gmap string HandlerObj;
  cLimits : Limits
}.

Record Server := mkServer {
  sAddr : string;
  sZones : gmap string (list Config);
  sDebug : bool;
  sStacktrace : bool;
  sClassChaos : bool;
  sLimits : Limits
}.

Definition EnableChaos : list string := ["chaos"; "forward"; "proxy"]%string.

(** [registerHandler]: a later handler of the same name replaces it. *)
Definition registerHandler (h : HandlerObj) (c : Config) : Config :=
  mkConfig (cZone c) (cDebug c) (cStacktrace c) (cFilterFuncs c) (cViewName c) (cPlugin c) (cChain c) (cMeta c)
    (<[hObjName h := h]> (cRegistry c)) (cLimits c).

Definition set_meta (f : Ctx -> Request -> Ctx) (c : Config) : Config :=
  mkConfig (cZone c) (cDebug c) (cStacktrace c) (cFilterFuncs c) (cViewName c) (cPlugin c) (cChain c) (Some f)
    (cRegistry c) (cLimits c).

Definition set_chain (h : option HandlerObj) (c : Config) : Config :=
  mkConfig (cZone c) (cDebug c) (cStacktrace c) (cFilterFuncs c) (cViewName c) (cPlugin c) h (cMeta c) (cRegistry c)
    (cLimits c).

(** The loop over the plugins, last one first: [ps] is the reversed list. *)
Fixpoint compile_chain (ps : list (option HandlerObj -> HandlerObj)) (stack : option HandlerObj) (chaos : bool)
    (c : Config) : option HandlerObj * bool * Config :=
  match ps with
  | [] => (stack, chaos, c)
  | p :: ps' =>
      let h := p stack in
      let c := registerHandler h c in
      let c := match hCollect h with Some f => set_meta f c | None => c end in
      compile_chain ps' (Some h) (chaos || bool_decide (hObjName h ∈ EnableChaos)) c
  end.

(** A site that sets a timeout overrides it, and its secrets are copied. *)
Definition merge_limits (site s : Limits) : Limits :=
  let over x y := if decide (x = 0)%Z then y else x in
  mkLimits (over (lRead site) (lRead s)) (over (lWrite site) (lWrite s)) (over (lIdle site) (lIdle s))
    (lTsig site ∪ lTsig s).

Definition default_limits : Limits := mkLimits (3 * Second) (5 * Second) (10 * Second) ∅.

(** One turn of the loop over the group.  The map holds pointers to the
    configurations, so it sees the chain that is set after the append.  The
    tracer is not modelled. *)
Definition add_site (s : Server) (site : Config) : Server :=
  let '(stack, chaos, site) := compile_chain (rev (cPlugin site)) None (sClassChaos s) site in
  let site := set_chain stack site in
  mkServer (sAddr s) (<[cZone site := default [] (sZones s !! cZone site) ++ [site]]> (sZones s))
    (sDebug s || cDebug site) (cStacktrace site) chaos (merge_limits (cLimits site) (sLimits s)).

Definition NewServer (addr : string) (group : list Config) : Server :=
  fold_left add_site group (mkServer addr ∅ false false false default_limits).

Definition Config_Handler (c : Config) (name : string) : option HandlerObj := cRegistry c !! name.

Definition AddPlugin (m : option HandlerObj -> HandlerObj) (c : Config) : Config :=
  mkConfig (cZone c) (cDebug c) (cStacktrace c) (cFilterFuncs c) (cViewName c) (cPlugin c ++ [m]) (cChain c)
    (cMeta c) (cRegistry c) (cLimits c).
End server_data.

Arguments HandlerObj : clear implicits.
Arguments Config : clear implicits.
Arguments Server : clear implicits.

Section serve.
Context {W : Type}.
Context `{Dn : DnsNames} `{Dm : DnsMsgs}.
Context (sup : gset Z).

Fixpoint passAllFilterFuncs (ctx : Ctx) (filterFuncs : list FilterFunc) (req : Request) : bool :=
  match filterFuncs with
  | [] => true
  | ff :: ffs => if ff ctx req then passAllFilterFuncs ctx ffs req else false
  end.

(** The message [errorFunc] and [errorAndMetricsFunc] write; a nil request
    is dereferenced by SetRcode. *)
Definition error_answer (w : Writer) (r : option Msg) (rc : Z) : option Msg :=
  r ← r;
  let answer := SetRcode zeroMsg r rc in
  '(_, answer, _) ← SizeAndDo sup (newRequest w (Some r)) answer;
  Some answer.

(** Through the scrubbing writer. *)
Definition errorFunc (w : Writer) (r : Msg) (rc : Z) : option Msg :=
  answer ← error_answer w (Some r) rc;
  ScrubWriter_WriteMsg sup w r answer.

(** ** Routing *)

(** How the search for a handler ends: with a handler to use in a context,
    with a refusal, or with nothing but the context and the handler kept for
    a DS query. *)
Inductive Route :=
  | Serve (ctx : Ctx) (h : HandlerObj W)
  | Refuse
  | Search (ctx : Ctx) (dshandler : option (Config W)).

Definition collect (h : Config W) (ctx : Ctx) (req : Request) : Ctx :=
  match cMeta h with Some f => f ctx req | None => ctx end.

Definition in_view (h : Config W) (ctx : Ctx) : Ctx :=
  if decide (cViewName h = EmptyString) then ctx else with_view (cViewName h) ctx.

(** The configurations of one zone. *)
Fixpoint route_configs (z : list (Config W)) (ds : bool) (req : Request) (ctx : Ctx)
    (dshandler : option (Config W)) : Route :=
  match z with
  | [] => Search ctx dshandler
  | h :: z' =>
      match cChain h with
      | None => Refuse
      | Some chain =>
          let ctx := collect h ctx req in
          if passAllFilterFuncs ctx (cFilterFuncs h) req then
            let ctx := in_view h ctx in
            if ds then route_configs z' ds req ctx (Some h) else Serve ctx chain
          else route_configs z' ds req ctx dshandler
      end
  end.

(** The loop over the labels of the name; [q[off:]] panics past the end. *)
Fixpoint route_labels (fuel : nat) (s : Server W) (q : string) (off : nat) (ds : bool) (req : Request) (ctx : Ctx)
    (dshandler : option (Config W)) : option Route :=
  match fuel with
  | O => None
  | S fuel' =>
      name ← slice_from q off;
      let r := match sZones s !! name with
               | Some z => route_configs z ds req ctx dshandler
               | None => Search ctx dshandler
               end in
      match r with
      | Search ctx dshandler =>
          let '(off, end_) := NextLabel q off in
          if (end_ : bool) then Some (Search ctx dshandler)
          else route_labels fuel' s q off ds req ctx dshandler
      | r => Some r
      end
  end.

(** The root zone as a last resort. *)
Fixpoint route_root (z : list (Config W)) (req : Request) (ctx : Ctx) : Route :=
  match z with
  | [] => Refuse
  | h :: z' =>
      match cChain h with
      | None => route_root z' req ctx
      | Some chain =>
          let ctx := collect h ctx req in
          if passAllFilterFuncs ctx (cFilterFuncs h) req then Serve (in_view h ctx) chain
          else route_root z' req ctx
      end
  end.

Definition route (s : Server W) (ctx : Ctx) (w : Writer) (r : Msg) (q : Question) : option Route :=
  let req := newRequest w (Some r) in
  let qname := ToLower (qName q) in
  let ds := bool_decide (qType q = TypeDS) in
  rt ← route_labels (S (slen qname)) s qname 0 ds req ctx None;
  match rt with
  | Search ctx dshandler =>
      match (if ds then dshandler ≫= cChain else None) with
      | Some chain => Some (Serve ctx chain)
      | None => Some (route_root (default [] (sZones s !! dot)) req ctx)
      end
  | rt => Some rt
  end.

(** ** ServeDNS *)

(** The messages written, and the state of the process, which is not known
    after a panic that has been recovered from; neither are messages the
    handler wrote before it panicked. *)
Definition Served : Type := list Msg * option W.

Definition write_all (w : Writer) (r : Msg) (msgs : list Msg) : option (list Msg) :=
  mapM (ScrubWriter_WriteMsg sup w r) msgs.

(** From the routing on; [None] is a panic. *)
Definition dispatch (s : Server W) (ctx : Ctx) (w : Writer) (r : Msg) (q : Question) (st : W) : option Served :=
  rt ← route s ctx w r q;
  match rt with
  | Serve ctx h =>
      '(st, msgs, rcode, _) ← hServe h ctx w r st;
      msgs ← write_all w r msgs;
      if ClientWrite rcode then Some (msgs, Some st)
      else m ← errorFunc w r rcode; Some (msgs ++ [m], Some st)
  | _ => m ← errorFunc w r RcodeRefused; Some ([m], Some st)
  end.

Definition ServeDNS (s : Server W) (ctx : Ctx) (w : Writer) (r : option Msg) (st : W) : option Served :=
  match r with
  | None => m ← error_answer w None RcodeServerFailure; Some ([m], Some st)
  | Some r =>
      match mQuestion r with
      | [] => m ← error_answer w (Some r) RcodeServerFailure; Some ([m], Some st)
      | q :: _ =>
          if decide (sClassChaos s = false /\ qClass q <> ClassINET) then
            m ← error_answer w (Some r) RcodeRefused; Some ([m], Some st)
          else
            match Version r with
            | Some (m, _) => Some ([m], Some st)
            | None =>
                match dispatch s ctx w r q st with
                | Some served => Some served
                | None =>
                    if sDebug s then None
                    else m ← errorFunc w r RcodeServerFailure; Some ([m], None)
                end
            end
      end
  end.

(** ** The server as its own upstream *)

Definition nonwriter_Msg (msgs : list Msg) : option Msg := last msgs.

(** [serve] is the server's ServeDNS in the context of the caller; [None] is a
    panic, and so is the missing question of NewWithQuestion. *)
Definition Upstream_Lookup (serve : Writer -> option Msg -> option Served) (state : Request) (name : string) (typ : Z)
  : option (option Msg) :=
  req ← NewWithQuestion state name typ;
  '(msgs, _) ← serve (rW state) (Req req);
  Some (nonwriter_Msg msgs).
End serve.
