(* ===== verification/Register.v ===== *)
(** * Setting up the servers

    core/dnsserver/address.go (addresses and their overlaps), register.go
    (from the configurations to the servers) and plugin/pkg/parse's
    Transport. *)

From S2P Require Import Prelude.
From S2P Require Import GoStd.
From S2P Require Import DnsMsg.
From S2P Require Import Request.
From S2P Require Import Plugin.
From S2P Require Import Server.

(** ** Transports *)

Definition tDNS : string := "dns".
Definition tTLS : string := "tls".
Definition tGRPC : string := "grpc".
Definition tHTTPS : string := "https".

Definition Transport (s : string) : string * string :=
  if HasPrefix s (tTLS +:+ "://") then (tTLS, sdrop (slen (tTLS +:+ "://")) s)
  else if HasPrefix s (tDNS +:+ "://") then (tDNS, sdrop (slen (tDNS +:+ "://")) s)
  else if HasPrefix s (tGRPC +:+ "://") then (tGRPC, sdrop (slen (tGRPC +:+ "://")) s)
  else if HasPrefix s (tHTTPS +:+ "://") then (tHTTPS, sdrop (slen (tHTTPS +:+ "://")) s)
  else (tDNS, s).

(** ** Addresses *)

Record zoneAddr := mkZoneAddr { zaZone : string; zaPort : string; zaTransport : string; zaAddress : string }.

#[export] Instance zoneAddr_eq_dec : EqDecision zoneAddr.
Proof. solve_decision. Defined.
#[export] Program Instance zoneAddr_countable : Countable zoneAddr :=
  inj_countable' (fun z => (zaZone z, zaPort z, zaTransport z, zaAddress z))
    (fun '(z, p, t, a) => mkZoneAddr z p t a) _.
Next Obligation. by intros []. Qed.

Definition zoneAddr_String (z : zoneAddr) : string :=
  let s := zaTransport z +:+ "://" +:+ zaZone z +:+ ":" +:+ zaPort z in
  if decide (zaAddress z = EmptyString) then s else s +:+ " on " +:+ zaAddress z.

(** Protocol, host and port, or an error. *)
Definition SplitProtocolHostPort (address : string) : option (string * string * string) :=
  match strings_SplitStr address "://" with
  | [p] => '(ip, port) ← SplitHostPort p; Some (EmptyString, ip, port)
  | [proto; p] => '(ip, port) ← SplitHostPort p; Some (proto, ip, port)
  | _ => None
  end.

Record zoneOverlap := mkOverlap {
  registeredAddr : gmap zoneAddr zoneAddr;
  unboundOverlap : gmap zoneAddr zoneAddr
}.

Definition newOverlapZone : zoneOverlap := mkOverlap ∅ ∅.

Definition unbound (z : zoneAddr) : zoneAddr := mkZoneAddr (zaZone z) (zaPort z) (zaTransport z) EmptyString.

(** The existing zone and the overlapping one. *)
Definition check (zo : zoneOverlap) (z : zoneAddr) : option zoneAddr * option zoneAddr :=
  match registeredAddr zo !! z with
  | Some existing => (Some existing, None)
  | None =>
      let uz := unbound z in
      match unboundOverlap zo !! uz with
      | Some already =>
          if decide (zaAddress z = EmptyString) then (None, Some already)
          else match registeredAddr zo !! uz with
               | Some _ => (None, Some uz)
               | None => (None, None)
               end
      | None => (None, None)
      end
  end.

Definition registerAndCheck (zo : zoneOverlap) (z : zoneAddr) : zoneOverlap * (option zoneAddr * option zoneAddr) :=
  match check zo z with
  | (None, None) =>
      (mkOverlap (<[z := z]> (registeredAddr zo)) (<[unbound z := z]> (unboundOverlap zo)), (None, None))
  | res => (zo, res)
  end.

(** ** Configurations *)

Section register.
Context {W : Type}.

(** A configuration with what it listens on, and the index of the first
    configuration of its server block. *)
Record SiteConfig := mkSiteConfig {
  scConfig : Config W;
  scListenHosts : list string;
  scPort : string;
  scTransport : string;
  scFirst : nat
}.

(** The zone and address pairs in the order of the two loops. *)
Definition site_addrs (c : SiteConfig) : list (bool * zoneAddr) :=
  map (fun h => (bool_decide (cFilterFuncs (scConfig c) <> []),
                 mkZoneAddr (cZone (scConfig c)) (scPort c) (scTransport c) h)) (scListenHosts c).

Fixpoint validate_loop (checker : zoneOverlap) (akeys : list (bool * zoneAddr)) : option string :=
  match akeys with
  | [] => None
  | (filtered, akey) :: akeys' =>
      let '(checker, (existZone, overlapZone)) :=
        if (filtered : bool) then (checker, check checker akey) else registerAndCheck checker akey in
      match existZone, overlapZone with
      | Some _, _ => Some ("cannot serve " +:+ zoneAddr_String akey +:+ " - it is already defined")
      | None, Some o =>
          Some ("cannot serve " +:+ zoneAddr_String akey +:+ " - zone overlap listener capacity with " +:+ zoneAddr_String o)
      | None, None => validate_loop checker akeys'
      end
  end.

Definition validateZonesAndListeningAddresses (configs : list SiteConfig) : option string :=
  validate_loop newOverlapZone (concat (map site_addrs configs)).

(** [resolve] is net.ResolveTCPAddr followed by String: an error or an
    address. *)
Context (resolve : string -> string + string).

Fixpoint group_hosts (conf : SiteConfig) (hosts : list string) (groups : gmap string (list SiteConfig))
  : string + gmap string (list SiteConfig) :=
  match hosts with
  | [] => inr groups
  | h :: hosts' =>
      match resolve (JoinHostPort h (scPort conf)) with
      | inl err => inl err
      | inr addr =>
          let addrstr := scTransport conf +:+ "://" +:+ addr in
          group_hosts conf hosts' (<[addrstr := default [] (groups !! addrstr) ++ [conf]]> groups)
      end
  end.

Fixpoint group_configs (configs : list SiteConfig) (groups : gmap string (list SiteConfig)) : string + gmap string (list SiteConfig) :=
  match configs with
  | [] => inr groups
  | conf :: configs' =>
      match group_hosts conf (scListenHosts conf) groups with
      | inl err => inl err
      | inr groups => group_configs configs' groups
      end
  end.

Definition groupConfigsByListenAddr (configs : list SiteConfig) : string + gmap string (list SiteConfig) :=
  group_configs configs ∅.

(** The first loop of MakeServers: the settings of the first configuration of
    the block.  The TLS configuration is not modelled. *)
Definition copy_first (configs : list SiteConfig) (c : SiteConfig) : option SiteConfig :=
  first ← configs !! scFirst c;
  let f := scConfig first in
  let k := scConfig c in
  Some (mkSiteConfig (mkConfig (cZone k) (cDebug f) (cStacktrace f) (cFilterFuncs k) (cViewName k) (cPlugin f) (cChain k)
                  (cMeta k) (cRegistry k) (cLimits f))
          (scListenHosts first) (scPort c) (scTransport c) (scFirst c)).

(** What NewServer leaves in a configuration; one that listens nowhere is in
    no group. *)
Definition compiled (c : SiteConfig) : SiteConfig :=
  if decide (scListenHosts c = []) then c
  else
    let '(stack, _, k) := compile_chain (rev (cPlugin (scConfig c))) None false (scConfig c) in
    mkSiteConfig (set_chain stack k) (scListenHosts c) (scPort c) (scTransport c) (scFirst c).

(** The views among the handlers, in the order of the directives. *)
Fixpoint add_views (directives : list string) (k : Config W) : string + Config W :=
  match directives with
  | [] => inr k
  | d :: ds =>
      match cRegistry k !! d ≫= hViewer with
      | Some (view, filter) =>
          if decide (cViewName k <> EmptyString) then inl "multiple views defined in server block"%string
          else add_views ds (mkConfig (cZone k) (cDebug k) (cStacktrace k) (cFilterFuncs k ++ [filter]) view (cPlugin k)
                               (cChain k) (cMeta k) (cRegistry k) (cLimits k))
      | None => add_views ds k
      end
  end.

Definition site_views (directives : list string) (c : SiteConfig) : string + SiteConfig :=
  match add_views directives (scConfig c) with
  | inl err => inl err
  | inr k => inr (mkSiteConfig k (scListenHosts c) (scPort c) (scTransport c) (scFirst c))
  end.

Fixpoint all_views (directives : list string) (cs : list SiteConfig) : string + list SiteConfig :=
  match cs with
  | [] => inr []
  | c :: cs' =>
      match site_views directives c with
      | inl err => inl err
      | inr c => match all_views directives cs' with inl err => inl err | inr cs => inr (c :: cs) end
      end
  end.

(** The servers by address, each with its transport.  The configurations are
    shared by pointer between the groups and the loop over the views, so the
    servers are made from the configurations with their views.  [None] is a
    dangling first configuration. *)
Definition MakeServers (directives : list string) (configs : list SiteConfig)
  : option (string + gmap string (string * Server W)) :=
  configs ← mapM (copy_first configs) configs;
  match groupConfigsByListenAddr configs with
  | inl err => Some (inl err)
  | inr _ =>
      match all_views directives (map compiled configs) with
      | inl err => Some (inl err)
      | inr configs =>
          match validateZonesAndListeningAddresses configs with
          | Some err => Some (inl err)
          | None =>
              match groupConfigsByListenAddr configs with
              | inl err => Some (inl err)
              | inr groups =>
                  Some (inr (map_imap (fun addr g => Some ((Transport addr).1, NewServer addr (map scConfig g))) groups))
              end
          end
      end
  end.
End register.

Arguments SiteConfig : clear implicits.
