(* ===== verification/Secondary.v ===== *)
(** * Secondary zones

    plugin/file/secondary.go and plugin/file/notify.go: transferring a zone
    in, deciding whether to, and the life of a secondary zone as a state
    machine driven by its three tickers.

    The network is a parameter: a SOA query to a primary gives an error or a
    reply, a transfer gives an error or a stream of envelopes, each an error
    or a list of records.  Logging and the random sleeps are left out. *)

From S2P Require Import Prelude.
From S2P Require Import GoStd.
From S2P Require Import DnsNames.
From S2P Require Import DnsMsg.
From S2P Require Import DnsUtil.
From S2P Require Import Request.
From S2P Require Import Less.
From S2P Require Import Elem.
From S2P Require Import Tree.
From S2P Require Import Zone.

(** ** Serial numbers *)

Definition MaxSerialIncrement : Z := 2147483647.

(** Both serials are uint32, so the differences do not wrap. *)
Definition serial_less (a b : Z) : bool :=
  if decide (a < b)%Z then bool_decide (b - a <= MaxSerialIncrement)%Z
  else bool_decide (MaxSerialIncrement < a - b)%Z.

Definition Envelope : Type := string + list RR.
Definition Exchange : Type := string -> string -> string + Msg.
Definition TransferStream : Type := string -> string -> string + list Envelope.

Section secondary.
Context `{GR : GoRange} `{Dn : DnsNames}.

(** ** TransferIn *)

Fixpoint insert_rrs (z1 : Zone) (rrs : list RR) : option (Zone * option string) :=
  match rrs with
  | [] => Some (z1, None)
  | rr :: rrs' =>
      '(z1, err) ← Zone_Insert z1 rr;
      match err with
      | Some e => Some (z1, Some e)
      | None => insert_rrs z1 rrs'
      end
  end.

Fixpoint insert_envelopes (z1 : Zone) (envs : list Envelope) : option (Zone * option string) :=
  match envs with
  | [] => Some (z1, None)
  | inl e :: _ => Some (z1, Some e)
  | inr rrs :: envs' =>
      '(z1, err) ← insert_rrs z1 rrs;
      match err with
      | Some e => Some (z1, Some e)
      | None => insert_envelopes z1 envs'
      end
  end.

(** The loop over the primaries: the new zone [z1] is made once, before it. *)
Fixpoint transfer_loop (xfr : TransferStream) (orig : string) (trs : list string) (z1 : Zone)
    (Err : option string) : option (Zone * option string) :=
  match trs with
  | [] => Some (z1, Err)
  | tr :: trs' =>
      match xfr orig tr with
      | inl e => transfer_loop xfr orig trs' z1 (Some e)
      | inr envs =>
          '(z1, err) ← insert_envelopes z1 envs;
          match err with
          | Some e => transfer_loop xfr orig trs' z1 (Some e)
          | None => Some (z1, None)
          end
      end
  end.

Definition TransferIn (xfr : TransferStream) (z : Zone) : option (Zone * option string) :=
  if decide (TransferFrom z = []) then Some (z, None)
  else
    '(z1, Err) ← transfer_loop xfr (origin z) (TransferFrom z) (CopyWithoutApex z) None;
    match Err with
    | Some e => Some (z, Some e)
    | None => Some (set_Expired false (set_zApex (zApex z1) (set_zTree (zTree z1) z)), None)
    end.

(** ** shouldTransfer *)

(** The serial of the first SOA record of an answer; the type assertion may
    panic. *)
Fixpoint answer_serial (rrs : list RR) : option (option Z) :=
  match rrs with
  | [] => Some None
  | a :: rrs' =>
      if decide (hRrtype a = TypeSOA) then
        match rdata a with SOA _ _ s _ _ _ _ => Some (Some s) | _ => None end
      else answer_serial rrs'
  end.

Fixpoint serial_loop (exch : Exchange) (orig : string) (trs : list string) (Err : option string)
  : option (option Z * option string) :=
  match trs with
  | [] => Some (None, Err)
  | tr :: trs' =>
      match exch orig tr with
      | inl e => serial_loop exch orig trs' (Some e)
      | inr ret =>
          if decide (mRcode ret <> RcodeSuccess) then serial_loop exch orig trs' None
          else
            s ← answer_serial (mAnswer ret);
            match s with
            | Some s => Some (Some s, None)
            | None => serial_loop exch orig trs' None
            end
      end
  end.

Definition soa_serial (r : RR) : option Z :=
  match rdata r with SOA _ _ s _ _ _ _ => Some s | _ => None end.

Definition shouldTransfer (exch : Exchange) (z : Zone) : option (bool * option string) :=
  '(serial, Err) ← serial_loop exch (origin z) (TransferFrom z) None;
  match serial with
  | None => Some (false, Err)
  | Some serial =>
      match aSOA (zApex z) with
      | None => Some (true, Err)
      | Some soa => s ← soa_serial soa; Some (serial_less s serial, Err)
      end
  end.

(** ** Update *)


(** [time.NewTicker] panics unless the duration is positive. *)
Definition NewTicker (d : Z) : option Z := if decide (0 < d)%Z then Some d else None.

Record Timers := mkTimers { tRefresh : Z; tRetry : Z; tExpire : Z }.

(** From the label [Restart]: the durations come from the SOA record, whose
    absence is a nil dereference. *)
Definition restart (z : Zone) : option Timers :=
  soa ← aSOA (zApex z);
  match rdata soa with
  | SOA _ _ _ rf rt ex _ =>
      refresh ← NewTicker (Second * rf);
      retry ← NewTicker (Second * rt);
      expire ← NewTicker (Second * ex);
      Some (mkTimers refresh retry expire)
  | _ => None
  end.

Record UpdateState := mkUpdate { uZone : Zone; uRetryActive : bool; uTimers : Timers }.

(** A tick of one of the three tickers, with the network as it is then. *)
Inductive Tick :=
  | ExpireTick
  | RetryTick (exch : Exchange) (xfr : TransferStream)
  | RefreshTick (exch : Exchange) (xfr : TransferStream).

(** The check and the transfer that a retry and a refresh share; the state the
    zone is in, and whether there was an error. *)
Definition check_transfer (exch : Exchange) (xfr : TransferStream) (z : Zone) : option (Zone * bool) :=
  '(ok, err) ← shouldTransfer exch z;
  match err with
  | Some _ => Some (z, true)
  | None =>
      if (ok : bool) then
        '(z, terr) ← TransferIn xfr z;
        Some (z, match terr with Some _ => true | None => false end)
      else Some (z, false)
  end.

Definition update_step (u : UpdateState) (t : Tick) : option UpdateState :=
  match t with
  | ExpireTick =>
      if uRetryActive u then Some (mkUpdate (set_Expired true (uZone u)) true (uTimers u)) else Some u
  | RetryTick exch xfr =>
      if uRetryActive u then
        '(z, failed) ← check_transfer exch xfr (uZone u);
        if (failed : bool) then Some (mkUpdate z true (uTimers u))
        else ts ← restart z; Some (mkUpdate z false ts)
      else Some u
  | RefreshTick exch xfr =>
      '(z, failed) ← check_transfer exch xfr (uZone u);
      if (failed : bool) then Some (mkUpdate z true (uTimers u))
      else ts ← restart z; Some (mkUpdate z false ts)
  end.

(** [Update] once the SOA has appeared. *)
Definition update_start (z : Zone) : option UpdateState :=
  ts ← restart z; Some (mkUpdate z false ts).

Fixpoint update_run (u : UpdateState) (ts : list Tick) : option UpdateState :=
  match ts with
  | [] => Some u
  | t :: ts' => u ← update_step u t; update_run u ts'
  end.

(** ** Notifies *)

Definition from_primary (remote : string) (f : string) : bool :=
  match SplitHostPort f with Some (from, _) => bool_decide (from = remote) | None => false end.

Definition isNotify (z : Zone) (state : Request) : option bool :=
  m ← Req state;
  if decide (mOpcode m <> OpcodeNotify) then Some false
  else if decide (TransferFrom z = []) then Some false
  else
    let '(_, remote) := Request_IP state in
    Some (existsb (from_primary remote) (TransferFrom z)).
End secondary.
