(* ===== verification/SecondaryTheorems.v ===== *)
(** * Properties of secondary zones *)

From S2P Require Import Prelude.
From S2P Require Import GoStd.
From S2P Require Import DnsNames.
From S2P Require Import DnsMsg.
From S2P Require Import DnsUtil.
From S2P Require Import Request.
From S2P Require Import Less.
From S2P Require Import Elem.
From S2P Require Import Tree.
From S2P Require Import TreeBalance.
From S2P Require Import TreeSpec.
From S2P Require Import Zone.
From S2P Require Import ZoneSpec.
From S2P Require Import Secondary.

(** ** Transfers keep zones well formed *)

Section transfer.
Context `{GR : GoRange} `{Ok : DnsNamesOk}.

Definition env_ok (e : Envelope) : Prop := match e with inl _ => True | inr rrs => Forall rr_ok rrs end.
Definition xfr_ok (xfr : TransferStream) : Prop :=
  forall orig tr, match xfr orig tr with inl _ => True | inr envs => Forall env_ok envs end.

Lemma insert_rrs_ok rrs z1 :
  zone_ok z1 -> Forall rr_ok rrs ->
  exists z' err, insert_rrs z1 rrs = Some (z', err) /\ zone_ok z' /\ origin z' = origin z1.
Proof.
  intros Hz Hr. revert z1 Hz. induction Hr as [|r rrs Hr _ IH]; intros z1 Hz; simpl; [by eauto|].
  destruct (Zone_Insert_ok z1 r Hz Hr) as (z2 & err & -> & Hz2 & Ho & _). simpl.
  destruct err as [e|]; [by eauto|]. destruct (IH z2 Hz2) as (z3 & err & -> & Hz3 & Ho3).
  eexists _, _. split; [done|]. split; [done|]. by rewrite Ho3.
Qed.

Lemma insert_envelopes_ok envs z1 :
  zone_ok z1 -> Forall env_ok envs ->
  exists z' err, insert_envelopes z1 envs = Some (z', err) /\ zone_ok z' /\ origin z' = origin z1.
Proof.
  intros Hz He. revert z1 Hz. induction He as [|[e|rrs] envs Henv _ IH]; intros z1 Hz; simpl; [by eauto|by eauto|].
  destruct (insert_rrs_ok rrs z1 Hz Henv) as (z2 & err & -> & Hz2 & Ho). simpl.
  destruct err as [e|]; [by eauto|]. destruct (IH z2 Hz2) as (z3 & err & -> & Hz3 & Ho3).
  eexists _, _. split; [done|]. split; [done|]. by rewrite Ho3.
Qed.

Lemma transfer_loop_ok xfr orig trs z1 Err :
  xfr_ok xfr -> zone_ok z1 ->
  exists z' err, transfer_loop xfr orig trs z1 Err = Some (z', err) /\ zone_ok z' /\ origin z' = origin z1.
Proof.
  intros Hx. revert z1 Err. induction trs as [|tr trs IH]; intros z1 Err Hz; simpl; [by eauto|].
  pose proof (Hx orig tr) as Hxt. destruct (xfr orig tr) as [e|envs]; [by apply IH|].
  destruct (insert_envelopes_ok envs z1 Hz Hxt) as (z2 & err & -> & Hz2 & Ho). simpl.
  destruct err as [e|]; [|by eauto]. destruct (IH z2 (Some e) Hz2) as (z3 & err & -> & Hz3 & Ho3).
  eexists _, _. split; [done|]. split; [done|]. by rewrite Ho3.
Qed.

Lemma CopyWithoutApex_ok z : zone_ok z -> zone_ok (CopyWithoutApex z) /\ origin (CopyWithoutApex z) = origin z.
Proof.
  intros (Ho & _). pose proof (NewZone_ok (origin z) (zfile z) Ho) as Hn.
  unfold CopyWithoutApex. simpl. split; [exact Hn|]. by apply Fqdn_id.
Qed.

(** A transfer returns; with an error the zone is left alone, without one it
    is live and not expired. *)
Lemma TransferIn_ok xfr z :
  xfr_ok xfr -> zone_ok z ->
  exists z' err, TransferIn xfr z = Some (z', err) /\ zone_ok z' /\ origin z' = origin z /\
    TransferFrom z' = TransferFrom z /\
    (err <> None -> z' = z) /\ (err = None -> TransferFrom z <> [] -> Expired z' = false).
Proof.
  intros Hx Hz. unfold TransferIn. case_decide as Hf; [by eexists _, _|].
  destruct (CopyWithoutApex_ok z Hz) as [Hc Ho].
  destruct (transfer_loop_ok xfr (origin z) (TransferFrom z) (CopyWithoutApex z) None Hx Hc)
    as (z1 & err & -> & Hz1 & Ho1). simpl.
  destruct err as [e|]; eexists _, _; (split; [reflexivity|]); [done|].
  destruct Hz as (H1 & H2 & _). destruct Hz1 as (_ & _ & H3 & H4 & H5). rewrite Ho1, Ho in H5.
  unfold zone_ok. simpl. done.
Qed.

(** When the first primary delivers everything, the new zone holds exactly
    the transferred records: those that are not apex records in the tree. *)
Lemma insert_rrs_exact rrs z1 z' :
  zone_ok z1 -> Forall rr_ok rrs -> insert_rrs z1 rrs = Some (z', None) ->
  elems (Root (zTree z')) =
    fold_left (fun l r => match apex_kind (origin z1) (lower_rr r) with
                          | Some _ => l
                          | None => spec_insert (lower_rr r) l
                          end) rrs (elems (Root (zTree z1))) /\
  zone_ok z' /\ origin z' = origin z1.
Proof.
  intros Hz Hr. revert z1 Hz. induction Hr as [|r rrs Hr _ IH]; intros z1 Hz E; simpl in *.
  { by injection E as <-. }
  destruct (Zone_Insert_ok z1 r Hz Hr) as (z2 & err & E2 & Hz2 & Ho & Herr & Hc). rewrite E2 in E. simpl in E.
  destruct err as [e|]; [done|]. destruct (IH z2 Hz2 E) as (-> & Hz' & Ho').
  rewrite Ho. split; [|by rewrite Ho' || done]. f_equal.
  rewrite decide_False in Hc by (by intros Hn; apply Herr in Hn).
  destruct (apex_kind (origin z1) (lower_rr r)); by destruct Hc as [_ ->].
Qed.

Lemma insert_rrs_app rs1 rs2 z1 :
  insert_rrs z1 (rs1 ++ rs2) =
  match insert_rrs z1 rs1 with
  | Some (z2, None) => insert_rrs z2 rs2
  | r => r
  end.
Proof.
  revert z1. induction rs1 as [|r rs1 IH]; intros z1; simpl; [done|].
  destruct (Zone_Insert z1 r) as [[z2 [e|]]|]; simpl; [done| |done]. apply IH.
Qed.

Lemma insert_envelopes_concat rrss z1 :
  insert_envelopes z1 (map inr rrss) = insert_rrs z1 (concat rrss).
Proof.
  revert z1. induction rrss as [|rrs rrss IH]; intros z1; simpl; [done|]. rewrite insert_rrs_app.
  destruct (insert_rrs z1 rrs) as [[z2 [e|]]|]; simpl; [done| |done]. apply IH.
Qed.

Lemma insert_rrs_noerr rrs z1 :
  zone_ok z1 -> Forall (fun r => rr_ok r /\ ~ is_nsec3 r) rrs -> exists z', insert_rrs z1 rrs = Some (z', None).
Proof.
  intros Hz Hr. revert z1 Hz. induction Hr as [|r rrs [Hr Hn] _ IH]; intros z1 Hz; simpl; [by eauto|].
  destruct (Zone_Insert_ok z1 r Hz Hr) as (z2 & err & -> & Hz2 & _ & Herr & _). simpl.
  destruct err as [e|]; [|by apply IH]. exfalso. apply Hn, Herr. done.
Qed.

(** ** Ticks *)

Lemma check_transfer_ok exch xfr z :
  xfr_ok xfr -> zone_ok z -> forall z' failed, check_transfer exch xfr z = Some (z', failed) ->
  zone_ok z' /\ origin z' = origin z /\ (failed = true -> z' = z) /\ (Expired z' = true -> Expired z = true).
Proof.
  intros Hx Hz z' failed. unfold check_transfer. destruct (shouldTransfer exch z) as [[ok err]|]; [|done]. simpl.
  destruct err as [e|]; [by intros [= <- <-]|]. destruct ok; [|by intros [= <- <-]].
  destruct (TransferIn_ok xfr z Hx Hz) as (z1 & terr & E & Hz1 & Ho & _ & Hkeep & Hexp). rewrite E. simpl.
  intros [= <- <-]. split; [done|]. split; [done|]. destruct terr as [e|].
  - by rewrite Hkeep.
  - split; [done|]. intros He. destruct (decide (TransferFrom z = [])) as [Hf|Hf].
    + unfold TransferIn in E. rewrite decide_True in E by done. by injection E as <-.
    + by rewrite Hexp in He.
Qed.

(** What a step that changes a flag was. *)
Lemma update_step_expires u t u' :
  Forall (fun t => match t with ExpireTick => True | RetryTick _ x | RefreshTick _ x => xfr_ok x end) [t] ->
  zone_ok (uZone u) -> update_step u t = Some u' ->
  zone_ok (uZone u') /\
  (Expired (uZone u') = true -> Expired (uZone u) = true \/ (t = ExpireTick /\ uRetryActive u = true)) /\
  (uRetryActive u' = true ->
   uRetryActive u = true \/ exists exch xfr, t = RefreshTick exch xfr /\ check_transfer exch xfr (uZone u) = Some (uZone u, true)).
Proof.
  intros Ht Hz. rewrite Forall_singleton in Ht. destruct t as [|exch xfr|exch xfr]; simpl.
  - destruct (uRetryActive u) eqn:Er; intros [= <-]; simpl; rewrite ?Er; naive_solver.
  - destruct (uRetryActive u) eqn:Er; [|intros [= <-]; rewrite Er; naive_solver].
    destruct (check_transfer exch xfr (uZone u)) as [[z failed]|] eqn:Ec; [|done]. simpl.
    destruct (check_transfer_ok _ _ _ Ht Hz _ _ Ec) as (Hz' & _ & _ & He).
    destruct failed; [intros [= <-]; simpl; naive_solver|]. destruct (restart z); [|done]. simpl. intros [= <-]. simpl. naive_solver.
  - destruct (check_transfer exch xfr (uZone u)) as [[z failed]|] eqn:Ec; [|done]. simpl.
    destruct (check_transfer_ok _ _ _ Ht Hz _ _ Ec) as (Hz' & _ & Hf & He). destruct failed.
    + intros [= <-]. simpl. rewrite (Hf eq_refl) in Ec. split; [done|]. split; [auto|]. intros _. right. by eauto.
    + destruct (restart z); [|done]. simpl. intros [= <-]. simpl. naive_solver.
Qed.

Definition ticks_ok (ts : list Tick) : Prop :=
  Forall (fun t => match t with ExpireTick => True | RetryTick _ x | RefreshTick _ x => xfr_ok x end) ts.

Lemma update_run_app u ts1 ts2 :
  update_run u (ts1 ++ ts2) = (u1 ← update_run u ts1; update_run u1 ts2).
Proof.
  revert u. induction ts1 as [|t ts1 IH]; intros u; simpl; [done|].
  destruct (update_step u t); simpl; [apply IH|done].
Qed.

Lemma update_run_ok u ts u' :
  ticks_ok ts -> zone_ok (uZone u) -> update_run u ts = Some u' -> zone_ok (uZone u').
Proof.
  intros Ht. revert u. induction Ht as [|t ts Ht _ IH]; intros u Hz E; simpl in *; [by injection E as <-|].
  destruct (update_step u t) as [u1|] eqn:E1; [|done]. simpl in E. apply (IH u1); [|done].
  by apply (update_step_expires u t u1 (proj2 (Forall_singleton _ _) Ht) Hz E1).
Qed.

(** The refresh that failed last and was not made good since. *)
Definition failing_since (u : UpdateState) (ts : list Tick) : Prop :=
  exists ts1 exch xfr ts2 u1, ts = ts1 ++ RefreshTick exch xfr :: ts2 /\ update_run u ts1 = Some u1 /\
    check_transfer exch xfr (uZone u1) = Some (uZone u1, true) /\
    forall ts3 ts4, ts2 = ts3 ++ ts4 ->
      exists u2, update_run u (ts1 ++ RefreshTick exch xfr :: ts3) = Some u2 /\ uRetryActive u2 = true.

Lemma retry_active_failing u ts u' :
  ticks_ok ts -> zone_ok (uZone u) -> uRetryActive u = false -> update_run u ts = Some u' ->
  uRetryActive u' = true -> failing_since u ts.
Proof.
  intros Ht Hz Hu. revert u'. induction ts as [|t ts IH] using rev_ind; intros u' E Hr.
  { simpl in E. injection E as <-. congruence. }
  apply Forall_app in Ht as [Hts Ht]. pose proof E as Eall. rewrite update_run_app in E.
  destruct (update_run u ts) as [u1|] eqn:E1; [|done]. cbn [mbind option_bind] in E. simpl in E.
  destruct (update_step u1 t) as [u2|] eqn:E2; [|done]. simpl in E. injection E as <-.
  pose proof (update_run_ok u ts u1 Hts Hz E1) as Hz1.
  destruct (update_step_expires u1 t u2 Ht Hz1 E2) as (_ & _ & Hra). destruct (Hra Hr) as [Hr1|(exch & xfr & -> & Hc)].
  - destruct (IH Hts u1 eq_refl Hr1) as (ts1 & exch & xfr & ts2 & u0 & -> & H1 & H2 & H3).
    exists ts1, exch, xfr, (ts2 ++ [t]), u0. rewrite <- app_assoc. split; [done|]. split; [done|]. split; [done|].
    intros ts3 ts4 E. destruct ts4 as [|t4 ts4] using rev_ind.
    + rewrite app_nil_r in E. subst ts3. exists u2. split; [|done]. rewrite <- Eall. by rewrite <- app_assoc.
    + rewrite app_assoc in E. apply app_inj_tail in E as [E _]. by apply (H3 ts3 ts4).
  - exists ts, exch, xfr, [], u1. split; [done|]. split; [done|]. split; [done|].
    intros ts3 ts4 E. symmetry in E. apply app_nil in E as [-> ->]. by exists u2.
Qed.

(** A zone expires only while a refresh that failed has not been made good. *)
Lemma expired_failing u ts u' :
  ticks_ok ts -> zone_ok (uZone u) -> uRetryActive u = false -> Expired (uZone u) = false ->
  update_run u ts = Some u' -> Expired (uZone u') = true ->
  exists ts1 ts2, ts = ts1 ++ ExpireTick :: ts2 /\ failing_since u ts1.
Proof.
  intros Ht Hz Hu He. revert u'. induction ts as [|t ts IH] using rev_ind; intros u' E Hx.
  { simpl in E. injection E as <-. congruence. }
  apply Forall_app in Ht as [Hts Ht]. rewrite update_run_app in E.
  destruct (update_run u ts) as [u1|] eqn:E1; [|done]. simpl in E.
  destruct (update_step u1 t) as [u2|] eqn:E2; [|done]. simpl in E. injection E as <-.
  pose proof (update_run_ok u ts u1 Hts Hz E1) as Hz1.
  destruct (update_step_expires u1 t u2 Ht Hz1 E2) as (_ & Hxp & _). destruct (Hxp Hx) as [Hx1|(-> & Hr)].
  - destruct (IH Hts u1 eq_refl Hx1) as (ts1 & ts2 & -> & Hf). exists ts1, (ts2 ++ [t]).
    by rewrite <- app_assoc.
  - exists ts, []. split; [done|]. by apply (retry_active_failing u ts u1).
Qed.
End transfer.

(** ** An example *)

#[local] Existing Instance range_sorted.
#[local] Existing Instance dns_reference.

Definition secSOA (serial refresh : Z) : RR :=
  mkRR "example.org." TypeSOA ClassINET 3600 (SOA "ns.example.org." "admin.example.org." serial refresh 600 86400 300).
Definition secA (name : string) (addr : IP) : RR := mkRR name TypeA ClassINET 3600 (A addr).

Definition sec_zone : Zone :=
  set_TransferFrom ["10.0.0.1:53"; "10.0.0.2:53"]%string
    (match Zone_Insert (NewZone "example.org." "stdin") (secSOA 7 3600) with
     | Some (z, _) => z
     | None => NewZone "example.org." "stdin"
     end).

Lemma sec_zone_ok : zone_ok sec_zone.
Proof.
  destruct (Zone_Insert_ok (NewZone "example.org." "stdin") (secSOA 7 3600)) as (z & err & E & Hz & _).
  - apply NewZone_ok. by apply (bool_decide_unpack _); vm_compute.
  - by apply (bool_decide_unpack _); vm_compute.
  - unfold sec_zone. rewrite E. exact Hz.
Defined.

(** The first primary breaks off after one record, the second delivers. *)
Definition flaky_xfr : TransferStream := fun _ tr =>
  if decide (tr = "10.0.0.1:53"%string)
  then inr [inr [secSOA 8 3600; secA "stale.example.org." [10; 9; 9; 9]%Z]; inl "connection reset"%string]
  else inr [inr [secSOA 9 3600; secA "www.example.org." [10; 0; 0; 3]%Z]].

Definition good_xfr : TransferStream := fun _ _ =>
  inr [inr [secSOA 9 3600; secA "www.example.org." [10; 0; 0; 3]%Z]; inr [secA "ftp.example.org." [10; 0; 0; 4]%Z]].

Definition soa_reply (serial : Z) : Msg := set_sections [secSOA serial 3600] [] [] zeroMsg.
Definition same_exch : Exchange := fun _ _ => inr (soa_reply 7).
Definition refused_exch : Exchange := fun _ _ => inr (set_mRcode RcodeRefused zeroMsg).
Definition dead_exch : Exchange := fun _ _ => inl "i/o timeout"%string.

(** ** Theorems *)

(** Comparing serials is RFC 1982's serial number arithmetic: [a] is less
    than [b] exactly when [b] is 1 to 2^31-1 ahead of [a] modulo 2^32; for the
    distance of exactly 2^31, which the RFC leaves open, the greater number
    counts as less. *)
Theorem serial_less_rfc1982 (a b : Z) :
  (0 <= a < 2 ^ 32)%Z -> (0 <= b < 2 ^ 32)%Z ->
  serial_less a b = true <->
  (0 < (b - a) mod 2 ^ 32 < 2 ^ 31)%Z \/ (b < a /\ a - b = 2 ^ 31)%Z.
Proof.
  intros Ha Hb. unfold serial_less, MaxSerialIncrement.
  assert ((b - a) mod 2 ^ 32 = if decide (a <= b)%Z then b - a else b - a + 2 ^ 32)%Z as ->.
  { case_decide; [apply Z.mod_small; lia|].
    rewrite <- (Z.mod_add (b - a) 1) by lia. rewrite Z.mod_small; lia. }
  repeat case_decide; rewrite bool_decide_eq_true; lia.
Qed.

Lemma serial_less_rfc1982_witness :
  serial_less 4294967295 0 = true <->
  (0 < (0 - 4294967295) mod 2 ^ 32 < 2 ^ 31)%Z \/ (0 < 4294967295 /\ 4294967295 - 0 = 2 ^ 31)%Z.
Proof. apply (serial_less_rfc1982 4294967295 0); lia. Defined.

(** When the first primary delivers a complete transfer of well-formed
    records, the zone goes live with exactly those: its tree holds, in lower
    case, every record that is not an apex record and nothing else, and the
    zone is not expired. *)
Theorem transfer_in_exact `{GoRange} `{DnsNamesOk} (xfr : TransferStream) (z : Zone) (tr : string)
    (trs : list string) (rrss : list (list RR)) :
  zone_ok z -> TransferFrom z = tr :: trs -> xfr (origin z) tr = inr (map inr rrss) ->
  Forall (fun r => rr_ok r /\ ~ is_nsec3 r) (concat rrss) ->
  exists z', TransferIn xfr z = Some (z', None) /\ zone_ok z' /\ Expired z' = false /\
    elems (Root (zTree z')) =
    fold_left (fun l r => match apex_kind (origin z) (lower_rr r) with
                          | Some _ => l
                          | None => spec_insert (lower_rr r) l
                          end) (concat rrss) [].
Proof.
  intros Hz Hf Hx Hr. unfold TransferIn. rewrite Hf, decide_False by done. cbn [transfer_loop]. rewrite Hx.
  destruct (CopyWithoutApex_ok z Hz) as [Hc Ho].
  destruct (insert_rrs_noerr (concat rrss) _ Hc Hr) as [z1 E1]. rewrite insert_envelopes_concat, E1. simpl.
  destruct (insert_rrs_exact (concat rrss) _ z1 Hc) as (Hel & Hz1 & Ho1); [|done|].
  { eapply Forall_impl; [exact Hr|]. by intros r [? _]. }
  eexists. split; [reflexivity|]. simpl. rewrite Ho in Hel. split; [|by split].
  destruct Hz as (Hz1' & Hz2 & _), Hz1 as (_ & _ & Hz3 & Hz4 & Hz5). rewrite Ho1, Ho in Hz5. done.
Qed.

Lemma transfer_in_exact_witness :
  exists z', TransferIn good_xfr sec_zone = Some (z', None) /\ zone_ok z' /\ Expired z' = false.
Proof.
  destruct (@transfer_in_exact range_sorted dns_reference dns_reference_ok good_xfr sec_zone "10.0.0.1:53"
    ["10.0.0.2:53"%string] [[secSOA 9 3600; secA "www.example.org." [10; 0; 0; 3]%Z]; [secA "ftp.example.org." [10; 0; 0; 4]%Z]]
    sec_zone_ok) as (z' & E & Hz & He & _).
  - by vm_compute.
  - by vm_compute.
  - by apply (bool_decide_unpack _); vm_compute.
  - exists z'. split; [exact E|]. split; [exact Hz|exact He].
Defined.

(** A secondary zone expires only if a refresh failed, no check or transfer
    has succeeded since, and the expire ticker then fired: as long as every
    refresh is answered the zone is never marked expired. *)
Theorem expiry_needs_failed_refresh `{GoRange} `{DnsNamesOk} (u u' : UpdateState) (ts : list Tick) :
  ticks_ok ts -> zone_ok (uZone u) -> uRetryActive u = false -> Expired (uZone u) = false ->
  update_run u ts = Some u' -> Expired (uZone u') = true ->
  exists ts1 ts2, ts = ts1 ++ ExpireTick :: ts2 /\ failing_since u ts1.
Proof. apply expired_failing. Qed.

Definition sec_update : UpdateState :=
  mkUpdate sec_zone false (mkTimers (3600 * Second) (600 * Second) (86400 * Second)).

Lemma expiry_needs_failed_refresh_witness :
  exists ts1 ts2, [RefreshTick dead_exch good_xfr; RetryTick dead_exch good_xfr; ExpireTick] = ts1 ++ ExpireTick :: ts2 /\
    failing_since sec_update ts1.
Proof.
  apply (@expiry_needs_failed_refresh range_sorted dns_reference dns_reference_ok sec_update
    (mkUpdate (set_Expired true sec_zone) true (uTimers sec_update))
    [RefreshTick dead_exch good_xfr; RetryTick dead_exch good_xfr; ExpireTick]).
  - assert (@xfr_ok good_xfr) as Hx.
    { intros orig tr. unfold good_xfr. repeat apply Forall_cons_2; try done; simpl;
        by apply (bool_decide_unpack _); vm_compute. }
    repeat apply Forall_cons_2; try done; exact Hx.
  - apply sec_zone_ok.
  - by vm_compute.
  - by vm_compute.
  - by vm_compute.
  - by vm_compute.
Defined.

(** An expired zone stays expired while its primaries answer with the
    serial it already has: such a check counts as a success and stops the
    retries, but only a transfer clears the mark. *)
Theorem expired_zone_stays `{GoRange} `{DnsNames} (u u' : UpdateState) (ts : list Tick) (soa : RR) (s : Z) :
  Expired (uZone u) = true -> aSOA (zApex (uZone u)) = Some soa -> soa_serial soa = Some s ->
  Forall (fun t => match t with
                   | ExpireTick => True
                   | RetryTick e _ | RefreshTick e _ =>
                       forall o tr, exists m, e o tr = inr m /\ mRcode m = RcodeSuccess /\
                                              answer_serial (mAnswer m) = Some (Some s)
                   end) ts ->
  update_run u ts = Some u' -> Expired (uZone u') = true.
Proof.
  intros He Hsoa Hs Hts. assert (forall e z, aSOA (zApex z) = Some soa ->
    (forall o tr, exists m, e o tr = inr m /\ mRcode m = RcodeSuccess /\ answer_serial (mAnswer m) = Some (Some s)) ->
    shouldTransfer e z = Some (false, None)) as Hst.
  { intros e z Hz Hm. unfold shouldTransfer. destruct (TransferFrom z) as [|tr trs]; [done|].
    cbn [serial_loop]. destruct (Hm (origin z) tr) as (m & -> & Hrc & Ha). rewrite decide_False by (by intros []).
    rewrite Ha. simpl. rewrite Hz, Hs. simpl. unfold serial_less. rewrite decide_False by lia.
    rewrite bool_decide_eq_false_2; [done|]. unfold MaxSerialIncrement. lia. }
  revert u He Hsoa. induction Hts as [|t ts Ht _ IH]; intros u He Hsoa E; simpl in E; [by injection E as <-|].
  destruct (update_step u t) as [u1|] eqn:E1; [|done]. simpl in E.
  assert (Expired (uZone u1) = true /\ aSOA (zApex (uZone u1)) = Some soa) as [He1 Hs1]; [|by apply (IH u1)].
  destruct t as [|e x|e x]; simpl in E1; unfold check_transfer in E1;
    rewrite ?(Hst e (uZone u) Hsoa Ht) in E1; destruct (uRetryActive u); simpl in E1;
    try (destruct (restart (uZone u)); [|done]; simpl in E1); injection E1 as <-; done.
Qed.

Lemma expired_zone_stays_witness :
  exists u', update_run (mkUpdate (set_Expired true sec_zone) true (uTimers sec_update))
    [RetryTick same_exch good_xfr; RefreshTick same_exch good_xfr] = Some u' /\ Expired (uZone u') = true.
Proof.
  destruct (update_run (mkUpdate (set_Expired true sec_zone) true (uTimers sec_update))
    [RetryTick same_exch good_xfr; RefreshTick same_exch good_xfr]) as [u'|] eqn:E; [|by vm_compute in E].
  exists u'. split; [done|].
  apply (@expired_zone_stays range_sorted dns_reference (mkUpdate (set_Expired true sec_zone) true (uTimers sec_update)) u'
    [RetryTick same_exch good_xfr; RefreshTick same_exch good_xfr] (secSOA 7 3600) 7).
  - by vm_compute.
  - by vm_compute.
  - by vm_compute.
  - repeat apply Forall_cons_2; try done; intros o tr; by exists (soa_reply 7).
  - exact E.
Defined.

(** A primary that refuses the SOA query counts as a successful check: when
    every primary answers with an error rcode there is nothing to transfer
    and no error, so a refresh does not start the retries and the zone is
    served for ever. *)
Theorem refused_check_is_success `{GoRange} `{DnsNames} (exch : Exchange) (xfr : TransferStream) (u : UpdateState) :
  (forall o tr, exists m, exch o tr = inr m /\ mRcode m <> RcodeSuccess) ->
  shouldTransfer exch (uZone u) = Some (false, None) /\
  forall u', update_step u (RefreshTick exch xfr) = Some u' -> uRetryActive u' = false /\ uZone u' = uZone u.
Proof.
  intros Hm. assert (shouldTransfer exch (uZone u) = Some (false, None)) as Hs.
  { unfold shouldTransfer.
    assert (forall trs Err, Err = None -> serial_loop exch (origin (uZone u)) trs Err = Some (None, None)) as ->; [|done|done].
    induction trs as [|tr trs IH]; intros Err ->; simpl; [done|].
    destruct (Hm (origin (uZone u)) tr) as (m & -> & Hrc). rewrite decide_True by done. by apply IH. }
  split; [done|]. intros u'. simpl. unfold check_transfer. rewrite Hs. simpl.
  destruct (restart (uZone u)); [|done]. simpl. by intros [= <-].
Qed.

Lemma refused_check_is_success_witness :
  shouldTransfer refused_exch sec_zone = Some (false, None).
Proof.
  apply (@refused_check_is_success range_sorted dns_reference refused_exch good_xfr sec_update).
  intros o tr. by exists (set_mRcode RcodeRefused zeroMsg).
Defined.

(** A transfer that breaks off leaves its records behind: the next
    primary's transfer is added to the same new zone, so the zone that goes
    live mixes the two (here stale.example.org of the broken transfer). *)
Theorem transfer_mixes_primaries :
  exists z', TransferIn flaky_xfr sec_zone = Some (z', None) /\
    find z' "stale.example.org." <> None /\ find z' "www.example.org." <> None.
Proof.
  destruct (TransferIn flaky_xfr sec_zone) as [[z' [e|]]|] eqn:E; [by vm_compute in E| |by vm_compute in E].
  exists z'. split; [done|].
  assert (z' = default z' (fst <$> TransferIn flaky_xfr sec_zone)) as -> by (by rewrite E).
  by split; vm_compute.
Qed.

(** The update loop of a secondary zone starts, and restarts after a
    transfer, only if the refresh, retry and expire intervals of the SOA are
    all positive: with a zero one creating the ticker panics. *)
Theorem restart_needs_positive_intervals (z : Zone) (soa : RR) (n m : string) (s rf rt ex mt : Z) :
  aSOA (zApex z) = Some soa -> rdata soa = SOA n m s rf rt ex mt ->
  (restart z <> None <-> (0 < rf)%Z /\ (0 < rt)%Z /\ (0 < ex)%Z).
Proof.
  intros Hs Hd. unfold restart. rewrite Hs. simpl. rewrite Hd. unfold NewTicker, Second.
  repeat case_decide; simpl; (split; [intros ?; (try done); lia|]); intros (? & ? & ?); (try done); lia.
Qed.

Lemma restart_needs_positive_intervals_witness :
  restart (set_zApex (mkApex (Some (secSOA 8 0)) [] [] []) sec_zone) <> None <->
  (0 < 0)%Z /\ (0 < 600)%Z /\ (0 < 86400)%Z.
Proof.
  by apply (restart_needs_positive_intervals (set_zApex (mkApex (Some (secSOA 8 0)) [] [] []) sec_zone)
    (secSOA 8 0) "ns.example.org." "admin.example.org." 8 0 600 86400 300).
Defined.
