(* ===== verification/Lookup.v ===== *)
(** * Looking up a name in a zone

    plugin/file/lookup.go.  The upstream resolver a CNAME that leaves the
    zone is handed to is a parameter: it gets the loop counter of the
    context, the request, the target and the type, and returns an error or a
    message (or none). *)

From S2P Require Import Prelude.
From S2P Require Import DnsNames.
From S2P Require Import DnsMsg.
From S2P Require Import DnsUtil.
From S2P Require Import Request.
From S2P Require Import Less.
From S2P Require Import Elem.
From S2P Require Import Tree.
From S2P Require Import Zone.

Inductive Result := Success | NameError | Delegation | NoData | ServerFailure.

#[export] Instance Result_eq_dec : EqDecision Result.
Proof. solve_decision. Defined.

(** The three sections, the result, and the name of the wildcard that the
    lookup publishes as metadata zone/wildcard. *)
Record LookupResult := mkResult {
  lAnswer : list RR;
  lNs : list RR;
  lExtra : list RR;
  lResult : Result;
  lWildcard : option string
}.

Definition Upstream := nat -> Request -> string -> Z -> string + option Msg.

Section lookup.
Context `{GR : GoRange} `{Dn : DnsNames} `{Dm : DnsMsgs}.

Definition typeFromElem (elem : Elem) (tp : Z) (do : bool) : list RR :=
  Elem_Type elem tp ++ if do then SubTypeSignature (Elem_Type elem TypeRRSIG) tp else [].

(** A nil SOA would be put in the section as a nil record; the callers check. *)
Definition Apex_soa (a : Apex) (do : bool) : list RR :=
  match aSOA a with
  | Some s => if do then [s] ++ aSIGSOA a else [s]
  | None => []
  end.

Definition Apex_ns (a : Apex) (do : bool) : list RR :=
  if do then aNS a ++ aSIGNS a else aNS a.

(** ** Names outside the zone *)

Section external.
Context (up : Upstream).

Definition doLookup (loop : nat) (state : Request) (target : string) (qtype : Z) : list RR * Result :=
  match up loop state target qtype with
  | inl _ => ([], ServerFailure)
  | inr None => ([], Success)
  | inr (Some m) =>
      if decide (mRcode m = RcodeNameError) then (mAnswer m, NameError)
      else if decide (mRcode m = RcodeServerFailure) then (mAnswer m, ServerFailure)
      else if decide (mRcode m = RcodeSuccess /\ mAnswer m = []) then (mAnswer m, NoData)
      else (mAnswer m, Success)
  end.

(** The type assertion on the first record of a CNAME set. *)
Definition cname_target (rrs : list RR) : option string :=
  r ← head rrs;
  match rdata r with CNAME t => Some t | _ => None end.

(** From the label [Redo], with [left] jumps to it to go. *)
Fixpoint externalLookup_redo (left : nat) (loop : nat) (z : Zone) (state : Request) (qtype : Z)
    (do : bool) (elem : Elem) (rrs : list RR) (wild : option string) : option LookupResult :=
  let cname := Elem_Type elem TypeCNAME in
  if decide (cname <> []) then
    let rrs := rrs ++ cname in
    let rrs := rrs ++ if do then SubTypeSignature (Elem_Type elem TypeRRSIG) TypeCNAME else [] in
    targetName ← cname_target cname;
    elem ← Tree_Search (zTree z) targetName;
    match elem with
    | None =>
        let '(lookupRRs, result) := doLookup loop state targetName qtype in
        Some (mkResult (rrs ++ lookupRRs) (Apex_ns (zApex z) do) [] result wild)
    | Some elem =>
        match left with
        | O => Some (mkResult rrs (Apex_ns (zApex z) do) [] Success wild)
        | S left' => externalLookup_redo left' loop z state qtype do elem rrs wild
        end
    end
  else
    let targets := Elem_Type elem qtype in
    let rrs :=
      if decide (targets <> []) then
        rrs ++ targets ++ if do then SubTypeSignature (Elem_Type elem TypeRRSIG) qtype else []
      else rrs in
    Some (mkResult rrs (Apex_ns (zApex z) do) [] Success wild).

Definition externalLookup (loop : nat) (z : Zone) (state : Request) (elem : Elem) (rrs : list RR)
    (wild : option string) : option LookupResult :=
  let qtype := QType state in
  '(state, do) ← Do state;
  let rrs := rrs ++ if (do : bool) then SubTypeSignature (Elem_Type elem TypeRRSIG) TypeCNAME else [] in
  targetName ← cname_target rrs;
  elem ← Tree_Search (zTree z) targetName;
  match elem with
  | None =>
      let '(lookupRRs, result) := doLookup loop state targetName qtype in
      Some (mkResult (rrs ++ lookupRRs) (Apex_ns (zApex z) do) [] result wild)
  | Some elem => externalLookup_redo 8 loop z state qtype do elem rrs wild
  end.

(** ** Additional section *)

Definition additional_name (rr : RR) : string :=
  match rdata rr with SRV _ _ _ t => t | MX _ t => t | _ => EmptyString end.

Definition additional_addrs (elem : Elem) (do : bool) : list RR :=
  concat (map (fun addr =>
    match Elem_Type elem addr with
    | [] => []
    | a => a ++ if do then SubTypeSignature (Elem_Type elem TypeRRSIG) addr else []
    end) [TypeA; TypeAAAA]).

Fixpoint additionalProcessing (z : Zone) (answer : list RR) (do : bool) : option (list RR) :=
  match answer with
  | [] => Some []
  | rr :: answer' =>
      let name := additional_name rr in
      extra ←
        (if (bool_decide (name = EmptyString) || negb (IsSubDomain (origin z) name))%bool then Some []
         else
           elem ← Tree_Search (zTree z) name;
           match elem with
           | None => Some []
           | Some elem => Some (additional_addrs elem do)
           end);
      rest ← additionalProcessing z answer' do;
      Some (extra ++ rest)
  end.

(** ** Lookup *)

(** How the loop over the labels ends: with the answer, or with the last
    search's element and the wildcard seen last. *)
Inductive LoopEnd :=
  | Returned (res : LookupResult)
  | Broke (elem wildElem : option Elem).

(** The DNAME part of the loop's body; [None] inside when there is nothing to
    substitute.  The name cache that [state.Name()] fills is not carried on
    then: later reads compute the same name. *)
Definition lookup_dname (loop : nat) (z : Zone) (state : Request) (qtype : Z) (do : bool) (elem : Elem)
  : option (option LookupResult) :=
  match Elem_Type elem TypeDNAME with
  | [] => Some None
  | (dname :: _) as dnamerrs =>
      let '(state, qn) := Name state in
      cname ← synthesizeCNAME qn dname;
      match cname with
      | None => Some None
      | Some cname =>
          res ←
            (if decide (qtype = TypeCNAME)
             then Some (mkResult [cname] (Apex_ns (zApex z) do) [] Success None)
             else externalLookup (S loop) z state elem [cname] None);
          let dnamerrs :=
            dnamerrs ++ if do then SubTypeSignature (Elem_Type elem TypeRRSIG) TypeDNAME else [] in
          Some (Some (mkResult (dnamerrs ++ lAnswer res) (lNs res) (lExtra res) (lResult res) (lWildcard res)))
      end
  end.

Fixpoint lookup_loop (fuel loop : nat) (z : Zone) (state : Request) (qname : string) (qtype : Z)
    (do : bool) (i : nat) (elem wildElem : option Elem) : option LoopEnd :=
  match fuel with
  | O => None
  | S fuel' =>
      '(parts, shot) ← nameFromRight z qname i;
      if (shot : bool) then Some (Broke elem wildElem)
      else
        found ← Tree_Search (zTree z) parts;
        match found with
        | None =>
            wildcard ← replaceWithAsteriskLabel parts;
            wild ← Tree_Search (zTree z) wildcard;
            let wildElem := match wild with Some w => Some w | None => wildElem end in
            lookup_loop fuel' loop z state qname qtype do (S i) None wildElem
        | Some e =>
            dn ← lookup_dname loop z state qtype do e;
            match dn with
            | Some res => Some (Returned res)
            | None =>
                match Elem_Type e TypeNS with
                | [] => lookup_loop fuel' loop z state qname qtype do (S i) (Some e) wildElem
                | nsrrs =>
                    ds ← (if decide (qtype = TypeDS)
                          then n ← Elem_Name e; Some (bool_decide (n = qname)) else Some false);
                    if (ds : bool)
                    then lookup_loop fuel' loop z state qname qtype do (S i) (Some e) wildElem
                    else
                      glue ← Glue (zTree z) nsrrs do;
                      let nsrrs := nsrrs ++ if do then typeFromElem e TypeDS do else [] in
                      Some (Returned (mkResult [] nsrrs glue Delegation None))
                end
            end
        end
  end.

(** The whole name was found. *)
Definition lookup_found (loop : nat) (z : Zone) (state : Request) (qtype : Z) (do : bool) (elem : Elem)
  : option LookupResult :=
  let ap := zApex z in
  let cnames := Elem_Type elem TypeCNAME in
  if decide (cnames <> [] /\ qtype <> TypeCNAME) then
    externalLookup (S loop) z state elem cnames None
  else
    match Elem_Type elem qtype with
    | [] =>
        let ret := Apex_soa ap do ++ if do then typeFromElem elem TypeNSEC do else [] in
        Some (mkResult [] ret [] NoData None)
    | rrs =>
        additional ← additionalProcessing z rrs do;
        let rrs := rrs ++ if do then SubTypeSignature (Elem_Type elem TypeRRSIG) qtype else [] in
        Some (mkResult rrs (Apex_ns ap do) additional Success None)
    end.

(** The name was not found, a wildcard was. *)
Definition lookup_wildcard (loop : nat) (z : Zone) (state : Request) (qname : string) (qtype : Z)
    (do : bool) (wildElem : Elem) : option LookupResult :=
  let ap := zApex z in
  wname ← Elem_Name wildElem;
  let cnames := Elem_TypeForWildcard wildElem TypeCNAME qname in
  if decide (cnames <> [] /\ qtype <> TypeCNAME) then
    externalLookup (S loop) z state wildElem cnames (Some wname)
  else
    match Elem_TypeForWildcard wildElem qtype qname with
    | [] =>
        let ret := Apex_soa ap do ++ if do then typeFromElem wildElem TypeNSEC do else [] in
        Some (mkResult [] ret [] NoData (Some wname))
    | rrs =>
        let auth := Apex_ns ap do in
        if do then
          deny ← Tree_Prev (zTree z) qname;
          let auth := auth ++ match deny with Some d => typeFromElem d TypeNSEC do | None => [] end in
          let sigs := Elem_TypeForWildcard wildElem TypeRRSIG qname in
          Some (mkResult (rrs ++ SubTypeSignature sigs qtype) auth [] Success (Some wname))
        else Some (mkResult rrs auth [] Success (Some wname))
    end.

(** The NSEC records that deny a name: the one that covers it and, for a name
    error, the one that covers the wildcard of the closest encloser. *)
Definition lookup_denial (z : Zone) (qname : string) (rcode : Result) : option (list RR) :=
  deny ← Tree_Prev (zTree z) qname;
  match deny with
  | None => Some []
  | Some deny =>
      let nsec := typeFromElem deny TypeNSEC true in
      if decide (rcode <> NameError) then Some nsec
      else
        ce ← ClosestEncloser z qname;
        match ce with
        | None => Some nsec
        | Some ce =>
            cname ← Elem_Name ce;
            ss ← Tree_Prev (zTree z) ("*." +:+ cname);
            match ss with
            | None => Some nsec
            | Some ss =>
                ssname ← Elem_Name ss;
                dname ← Elem_Name deny;
                if decide (ssname <> dname) then Some (nsec ++ typeFromElem ss TypeNSEC true)
                else Some nsec
            end
        end
  end.

(** Neither the name nor a wildcard was found. *)
Definition lookup_missing (z : Zone) (qname : string) (do : bool) : option LookupResult :=
  x ← Tree_Next (zTree z) qname;
  rcode ← match x with
          | Some x => n ← Elem_Name x; Some (if IsSubDomain qname n then Success else NameError)
          | None => Some NameError
          end;
  let ret := Apex_soa (zApex z) do in
  nsec ← (if do then lookup_denial z qname rcode else Some []);
  Some (mkResult [] (ret ++ nsec) [] rcode None).

(** The counter of the context is its LoopKey value, 0 when there is none.
    The loop takes one turn per label of [qname] below the origin, and two
    more. *)
Definition Lookup (loop : nat) (z : Zone) (state : Request) (qname : string) : option LookupResult :=
  let qtype := QType state in
  '(state, do) ← Do state;
  let ap := zApex z in
  if decide (aSOA ap = None) then Some (mkResult [] [] [] ServerFailure None)
  else if decide (qname = origin z /\ qtype = TypeSOA) then
    Some (mkResult (Apex_soa ap do) (Apex_ns ap do) [] Success None)
  else if decide (qname = origin z /\ qtype = TypeNS) then
    glue ← Glue (zTree z) (Apex_ns ap do) do;
    Some (mkResult (Apex_ns ap do) [] glue Success None)
  else if decide (8 < loop)%nat then Some (mkResult [] [] [] ServerFailure None)
  else
    e ← lookup_loop (slen qname + 2) loop z state qname qtype do 0 None None;
    match e with
    | Returned res => Some res
    | Broke (Some elem) _ => lookup_found loop z state qtype do elem
    | Broke None (Some w) => lookup_wildcard loop z state qname qtype do w
    | Broke None None => lookup_missing z qname do
    end.
End external.
End lookup.
