(* ===== verification/LookupSpec.v ===== *)
(** * What a lookup answers

    The search loop of [Lookup] is a walk down the names from the origin to
    the query name; the theorems describe its result in terms of the names of
    the zone. *)

From S2P Require Import Prelude.
From S2P Require Import GoStd.
From S2P Require Import DnsNames.
From S2P Require Import DnsMsg.
From S2P Require Import DnsUtil.
From S2P Require Import Request.
From S2P Require Import Less.
From S2P Require Import Elem.
From S2P Require Import Tree.
From S2P Require Import TreeBalance.
From S2P Require Import TreeSpec.
From S2P Require Import Zone.
From S2P Require Import ZoneSpec.
From S2P Require Import Lookup.

Section lookup_spec.
Context `{GR : GoRange} `{Ok : DnsNamesOk} `{Dm : DnsMsgs}.
Context (up : Upstream).

(** ** The request *)

(** The request asks for [q], in lower case. *)
Definition req_ok (state : Request) (q : string) : Prop :=
  Req state <> None /\ (Name state).2 = q /\ fq_name q /\ lower_name q.

Lemma Name_depends r r' : Req r = Req r' -> r_name r = r_name r' -> (Name r).2 = (Name r').2.
Proof. intros E1 E2. unfold Name. rewrite E1, E2. by case_decide. Qed.

Lemma Do_total r :
  Req r <> None ->
  exists r' b, Do r = Some (r', b) /\ Req r' = Req r /\ r_name r' = r_name r.
Proof.
  intros Hr. unfold Do, Size. destruct (decide (r_size r <> 0%Z)) as [Hs|Hs]; [by eauto|].
  destruct (Req r) as [m|] eqn:E; [|done]. simpl.
  destruct (match IsEdns0 m ≫= _ with Some o => _ | None => _ end) as [b n]. simpl. rewrite <- E.
  eexists _, _. split; [reflexivity|]. done.
Qed.

Lemma req_ok_Do state q :
  req_ok state q -> exists state' do, Do state = Some (state', do) /\ req_ok state' q /\
                                      QType state' = QType state.
Proof.
  intros (Hr & Hn & Hq). destruct (Do_total state Hr) as (r' & b & E & Er & En).
  exists r', b. split; [done|]. unfold req_ok, QType. rewrite Er.
  by rewrite (Name_depends r' state).
Qed.

(** ** Answers by alias *)

(** A non-empty set whose first record is a CNAME. *)
Definition alias (rrs : list RR) : Prop :=
  exists t, cname_target rrs = Some t /\ name_or_empty t.

Lemma alias_app rrs l : alias rrs -> alias (rrs ++ l).
Proof. intros (t & E & Ht). exists t. split; [|done]. by destruct rrs. Qed.

Lemma alias_ne rrs : alias rrs -> rrs <> [].
Proof. by intros (t & E & _) ->. Qed.

Lemma alias_stored rrs :
  Forall (fun r => hRrtype r = TypeCNAME) rrs -> Forall stored_ok rrs -> rrs <> [] -> alias rrs.
Proof.
  intros Ht Hs Hne. destruct rrs as [|r rrs]; [done|]. inversion Ht as [|? ? Er _]; subst.
  inversion Hs as [|? ? [(Hty & _ & Hg) _] _]; subst. unfold rr_typed in Hty. unfold rr_targets in Hg.
  unfold alias, cname_target. simpl. destruct (rdata r); simpl in *; try (rewrite Er in Hty; done).
  - eexists. split; [done|]. right. by rewrite Forall_singleton in Hg.
  - exfalso. apply Hty. rewrite Er. by repeat constructor.
Qed.

Lemma elem_alias e :
  elem_ok e -> elem_stored e -> Elem_Type e TypeCNAME <> [] -> alias (Elem_Type e TypeCNAME).
Proof. intros He Hs. apply alias_stored; [by apply elem_ok_Type|by apply elem_stored_Type]. Qed.

Lemma redo_total left loop z state qtype do e rrs wild :
  zone_ok z -> elem_ok e -> elem_stored e ->
  exists res, externalLookup_redo up left loop z state qtype do e rrs wild = Some res /\
    (exists l, lAnswer res = rrs ++ l) /\ lWildcard res = wild.
Proof.
  intros Hz. revert e rrs. induction left as [|left IH]; intros e rrs He Hs; simpl.
  all: case_decide as Hc.
  2,4: eexists; split; [reflexivity|]; split; [|done]; simpl; case_decide; [by eauto|]; exists []; by rewrite app_nil_r.
  all: destruct (elem_alias e He Hs Hc) as (t & -> & Ht); simpl; rewrite (Zone_search z t Hz Ht); simpl.
  all: destruct (find z t) as [e'|] eqn:Ef.
  2,4: destruct (doLookup _ _ _ _ _) as [l r]; eexists; split; [reflexivity|]; simpl; split; [|done];
    rewrite <- !app_assoc; by eauto.
  - eexists; split; [reflexivity|]. simpl. rewrite <- !app_assoc. by eauto.
  - apply find_elem in Ef as (_ & He' & Hs' & _); [|done].
    destruct (IH e' ((rrs ++ Elem_Type e TypeCNAME) ++
      (if do then SubTypeSignature (Elem_Type e TypeRRSIG) TypeCNAME else [])) He' Hs') as (res & -> & [l El] & Hw).
    exists res. split; [done|]. split; [|done]. rewrite El, <- !app_assoc. by eauto.
Qed.

Lemma externalLookup_total loop z state q e rrs wild :
  zone_ok z -> req_ok state q -> alias rrs ->
  exists res, externalLookup up loop z state e rrs wild = Some res /\
    (exists l, lAnswer res = rrs ++ l) /\ lWildcard res = wild.
Proof.
  intros Hz Hr Ha. destruct (req_ok_Do state q Hr) as (state' & do & E & _). unfold externalLookup.
  rewrite E. cbn [mbind option_bind].
  set (rrs' := rrs ++ _). destruct (alias_app rrs (if do then SubTypeSignature (Elem_Type e TypeRRSIG) TypeCNAME else []) Ha) as (t & Et & Ht).
  fold rrs' in Et. rewrite Et. cbn [mbind option_bind]. rewrite (Zone_search z t Hz Ht). cbn [mbind option_bind].
  destruct (find z t) as [e'|] eqn:Ef.
  - apply find_elem in Ef as (_ & He' & Hs' & _); [|done].
    destruct (redo_total 8 loop z state' (QType state) do e' rrs' wild Hz He' Hs') as (res & -> & [l El] & Hw).
    exists res. split; [done|]. split; [|done]. rewrite El. unfold rrs'. rewrite <- app_assoc. by eauto.
  - destruct (doLookup _ _ _ _ _) as [l r]. eexists. split; [reflexivity|]. simpl. split; [|done].
    unfold rrs'. rewrite <- app_assoc. by eauto.
Qed.

Lemma wildcard_alias e q :
  elem_ok e -> elem_stored e -> Elem_TypeForWildcard e TypeCNAME q <> [] ->
  alias (Elem_TypeForWildcard e TypeCNAME q).
Proof.
  intros He Hs Hne. unfold Elem_TypeForWildcard in *.
  destruct (elem_alias e He Hs) as (t & E & Ht); [by intros E; rewrite E in Hne|].
  exists t. split; [|done]. by destruct (Elem_Type e TypeCNAME).
Qed.

Lemma additionalProcessing_total z answer do :
  zone_ok z -> Forall stored_ok answer -> exists l, additionalProcessing z answer do = Some l.
Proof.
  intros Hz Ha. induction Ha as [|r answer Hr _ [l IH]]; [by exists []|]. simpl.
  destruct (_ || _)%bool eqn:E; simpl; [rewrite IH; by eexists|].
  apply orb_false_iff in E as [E%bool_decide_eq_false _].
  assert (name_or_empty (additional_name r)) as Hn.
  { right. destruct Hr as ((_ & _ & Ht) & _). unfold rr_targets in Ht. unfold additional_name in *.
    destruct (rdata r); try done; by rewrite Forall_singleton in Ht. }
  rewrite (Zone_search z _ Hz Hn). simpl. destruct (find z _); simpl; rewrite IH; by eexists.
Qed.

(** ** DNAME records on the way *)

(** The first DNAME record of [e] applies to [q]: [q] lies strictly below. *)
Definition dname_applies (q : string) (e : Elem) : Prop :=
  exists d ds pre, Elem_Type e TypeDNAME = d :: ds /\ pre <> [] /\ labels q = pre ++ labels (hName d).

Lemma dname_data d :
  rr_typed d -> hRrtype d = TypeDNAME -> exists t, rdata d = DNAME t.
Proof.
  intros Ht Hd. unfold rr_typed in Ht. destruct (rdata d); simpl in Ht; try (rewrite Hd in Ht; done); eauto.
  exfalso. apply Ht. rewrite Hd. by repeat constructor.
Qed.

(** Synthesis gives an alias exactly for names strictly below the owner. *)
Lemma synthesizeCNAME_total q d :
  fq_name q -> lower_name q -> stored_ok d -> hRrtype d = TypeDNAME ->
  exists c, synthesizeCNAME q d = Some c /\
    (c = None <-> ~ exists pre, pre <> [] /\ labels q = pre ++ labels (hName d)) /\
    (forall r, c = Some r -> alias [r]).
Proof.
  intros Hq Lq Hst Hd. pose proof (stored_lower d Hst) as Hlow. destruct Hst as [(Hty & Hown & Hg) _].
  destruct (dname_data d Hty Hd) as [t Et]. unfold rr_targets in Hg. rewrite Et, Forall_singleton in Hg.
  unfold synthesizeCNAME. rewrite Et.
  destruct (substituteDNAME_total q (hName d) t Hq Hown Hg Lq Hlow) as (s & Es & Hs).
  rewrite Es. simpl. case_decide as Hemp.
  - eexists. split; [reflexivity|]. split; [|done]. split; [|done]. intros _ (pre & Hp & El).
    rewrite (substituteDNAME_below q (hName d) t pre) in Es by done.
    injection Es as <-. apply dotted_nil in Hemp. by destruct pre.
  - eexists. split; [reflexivity|]. split; [|by intros ? [= <-]; exists s].
    split; [done|]. intros Hn. exfalso. apply Hemp.
    destruct (IsSubDomain (hName d) q) eqn:Esub; [|unfold substituteDNAME in Es; rewrite Esub in Es; simpl in Es; congruence].
    rewrite (substituteDNAME_else q (hName d) t) in Es; [congruence|done..|].
    intros pre El. destruct (decide (pre = [])) as [|Hp]; [done|]. by destruct Hn; exists pre.
Qed.

Lemma req_ok_Name state q : req_ok state q -> exists state', Name state = (state', q) /\ req_ok state' q.
Proof.
  intros (Hr & Hn & Hq & Hl). destruct (Name state) as [state' q'] eqn:En. simpl in Hn. subst q'.
  exists state'. split; [done|]. pose proof (Name_cached state q state' En (fq_name_ne q Hq)) as Hc.
  unfold req_ok. rewrite Hc. split; [|done]. unfold Name in En. by case_decide; simplify_eq.
Qed.

Lemma lookup_dname_total loop z state q qtype do e :
  zone_ok z -> req_ok state q -> elem_ok e -> elem_stored e ->
  exists r, lookup_dname up loop z state qtype do e = Some r /\
    (r = None <-> ~ dname_applies q e) /\
    (forall res, r = Some res -> lAnswer res <> []).
Proof.
  intros Hz Hr He Hs. unfold lookup_dname, dname_applies.
  pose proof (elem_ok_Type e TypeDNAME He) as Ht. pose proof (elem_stored_Type e TypeDNAME Hs) as Hst.
  destruct (Elem_Type e TypeDNAME) as [|d ds].
  { eexists. split; [done|]. split; [|done]. split; [|done]. by intros _ (?&?&?&?&_). }
  apply Forall_cons_iff in Ht as [Hd _]. apply Forall_cons_iff in Hst as [Hst _].
  destruct (req_ok_Name state q Hr) as (state' & -> & Hr'). pose proof Hr as (_ & _ & Hq & Lq).
  destruct (synthesizeCNAME_total q d Hq Lq Hst Hd) as (c & -> & Hc & Ha). cbn [mbind option_bind].
  assert (Hiff : c = None <-> ~ exists d0 ds0 pre, d :: ds = d0 :: ds0 /\ pre <> [] /\ labels q = pre ++ labels (hName d0)).
  { rewrite Hc. split; intros Hn Hx; apply Hn; [destruct Hx as (?&?&pre&[= <- <-]&?); by exists pre|].
    destruct Hx as (pre & ?). by exists d, ds, pre. }
  destruct c as [r|]; [|exists None; split; [done|]; split; [by rewrite <- Hiff|done]].
  destruct (decide (qtype = TypeCNAME)) as [Eq|Nq]; cbn [mbind option_bind].
  - eexists. split; [reflexivity|]. split; [|by intros res0 Er; injection Er as <-]. rewrite <- Hiff. by split.
  - destruct (externalLookup_total (S loop) z state' q e [r] None Hz Hr' (Ha r eq_refl)) as (res & -> & _).
    eexists. split; [reflexivity|]. split; [|by intros res0 Er; injection Er as <-]. rewrite <- Hiff. by split.
Qed.

(** ** The walk from the origin to the name *)

Definition path (z : Zone) (q : string) : list string :=
  origin z :: map (fun i => suffix_name q (i + origLen z)) (seq 1 (length (dlabels q) - origLen z)).

Lemma path_fq z q : zone_ok z -> fq_name q -> Forall fq_name (path z q).
Proof.
  intros (Ho & _) Hq. constructor; [done|]. apply Forall_map, Forall_forall. intros i Hi%elem_of_seq.
  apply suffix_name_fq; [done|lia].
Qed.

Lemma nameFromRight_path z q i :
  zone_ok z -> fq_name q ->
  nameFromRight z q i =
  match path z q !! i with Some p => Some (p, false) | None => Some (q, true) end.
Proof.
  intros Hz Hq. rewrite nameFromRight_spec by done. destruct i as [|i]; [done|]. simpl.
  rewrite list_lookup_fmap. case_decide as Hi.
  - rewrite lookup_seq_lt by lia. done.
  - rewrite lookup_seq_ge by lia. done.
Qed.

(** A delegation at [e] that the query stops at. *)
Definition stops (q : string) (qtype : Z) (e : Elem) : bool :=
  negb (bool_decide (Elem_Type e TypeNS = [])) &&
  negb (bool_decide (qtype = TypeDS) && bool_decide (Elem_Name e = Some q)).

Definition delegation (z : Zone) (do : bool) (e : Elem) : option LookupResult :=
  glue ← Glue (zTree z) (Elem_Type e TypeNS) do;
  Some (mkResult [] (Elem_Type e TypeNS ++ if do then typeFromElem e TypeDS do else []) glue Delegation None).

Fixpoint walk (loop : nat) (z : Zone) (state : Request) (q : string) (qtype : Z) (do : bool)
    (ps : list string) (elem wild : option Elem) : option LoopEnd :=
  match ps with
  | [] => Some (Broke elem wild)
  | p :: ps' =>
      match find z p with
      | None =>
          walk loop z state q qtype do ps' None
            (match find z (wildcard_of p) with Some w => Some w | None => wild end)
      | Some e =>
          dn ← lookup_dname up loop z state qtype do e;
          match dn with
          | Some res => Some (Returned res)
          | None =>
              if stops q qtype e then res ← delegation z do e; Some (Returned res)
              else walk loop z state q qtype do ps' (Some e) wild
          end
      end
  end.

Lemma lookup_loop_walk fuel loop z state q qtype do i elem wild :
  zone_ok z -> fq_name q -> (i <= length (path z q) < fuel + i)%nat ->
  lookup_loop up fuel loop z state q qtype do i elem wild =
  walk loop z state q qtype do (drop i (path z q)) elem wild.
Proof.
  intros Hz Hq. revert i elem wild. induction fuel as [|fuel IH]; intros i elem wild Hf; cbn [lookup_loop].
  { lia. }
  rewrite nameFromRight_path by done. destruct (path z q !! i) as [p|] eqn:Ep; cbn [mbind option_bind].
  2: { by rewrite drop_ge by (by apply lookup_ge_None). }
  rewrite (drop_S _ _ _ Ep). cbn [walk]. apply lookup_lt_Some in Ep as Hlt.
  assert (fq_name p) as Hp.
  { pose proof (path_fq z q Hz Hq) as Hall. rewrite Forall_lookup in Hall. by apply (Hall i). }
  rewrite (Zone_search z p Hz (or_intror Hp)). cbn [mbind option_bind].
  destruct (find z p) as [e|] eqn:Ef.
  - destruct (find_elem z p e Hz Ef) as (_ & He & Hs & _).
    destruct (lookup_dname up loop z state qtype do e) as [[res|]|]; cbn [mbind option_bind]; [done| |done].
    unfold stops, delegation. destruct (elem_ok_Name e He) as (n & Hn & _ & _).
    rewrite <- IH by lia. destruct (Elem_Type e TypeNS) as [|ns nss] eqn:En; [done|].
    rewrite Hn. cbn [mbind option_bind]. rewrite (bool_decide_eq_false_2 (ns :: nss = [])) by done.
    destruct (decide (qtype = TypeDS)) as [Et|Et]; cbn [mbind option_bind].
    + rewrite (bool_decide_eq_true_2 (qtype = TypeDS)) by done.
      rewrite (bool_decide_ext (n = q) (Some n = Some q)) by (split; congruence).
      destruct (bool_decide (Some n = Some q)); cbn [negb andb]; [done|]. by destruct (Glue _ _ _).
    + rewrite (bool_decide_eq_false_2 (qtype = TypeDS)) by done. cbn [negb andb]. by destruct (Glue _ _ _).
  - rewrite replaceWithAsteriskLabel_spec by done. cbn [mbind option_bind].
    rewrite (Zone_search z _ Hz (wildcard_name p Hp)). cbn [mbind option_bind].
    rewrite IH by lia. done.
Qed.

Lemma path_length z q : fq_name q -> (length (path z q) <= slen q + 1)%nat.
Proof.
  intros Hq. unfold path. simpl. rewrite length_map, length_seq.
  pose proof (labels_length_le q (or_intror Hq)). lia.
Qed.

(** ** A lookup always answers *)

Definition good_elem (z : Zone) (e : Elem) : Prop :=
  e ∈ elems (Root (zTree z)) /\ elem_ok e /\ elem_stored e.

Definition from_tree (z : Zone) (oe : option Elem) : Prop := forall e, oe = Some e -> good_elem z e.

Lemma find_good z n : zone_ok z -> from_tree z (find z n).
Proof. intros Hz e He. destruct (find_elem z n e Hz He) as (? & ? & ? & _). done. Qed.

Lemma tree_elem_good z e : zone_ok z -> e ∈ elems (Root (zTree z)) -> good_elem z e.
Proof.
  intros (_ & _ & (_ & [Hok _] & _) & Hst & _) Hin. rewrite Forall_forall in Hok, Hst.
  split; [done|]. split; auto.
Qed.

Lemma delegation_total z do e :
  zone_ok z -> elem_stored e -> exists glue, delegation z do e =
    Some (mkResult [] (Elem_Type e TypeNS ++ if do then typeFromElem e TypeDS do else []) glue Delegation None) /\
    Glue (zTree z) (Elem_Type e TypeNS) do = Some glue.
Proof.
  intros Hz Hs. destruct (Glue_total z (Elem_Type e TypeNS) do Hz) as [g Eg]; [by apply elem_stored_Type|].
  exists g. unfold delegation. by rewrite Eg.
Qed.

Lemma walk_total loop z state q qtype do ps elem wild :
  zone_ok z -> req_ok state q -> from_tree z elem -> from_tree z wild ->
  exists r, walk loop z state q qtype do ps elem wild = Some r /\
    match r with
    | Returned res => lAnswer res <> [] \/ lResult res = Delegation
    | Broke e w => from_tree z e /\ from_tree z w
    end.
Proof.
  intros Hz Hr. revert elem wild. induction ps as [|p ps IH]; intros elem wild He Hw; cbn [walk]; [by exists (Broke elem wild)|].
  pose proof (find_good z p Hz) as Hfp. pose proof (find_good z (wildcard_of p) Hz) as Hfw.
  destruct (find z p) as [e|] eqn:Ef.
  - destruct (Hfp e eq_refl) as (Hin & Hok & Hst).
    destruct (lookup_dname_total loop z state q qtype do e Hz Hr Hok Hst) as (dn & -> & _ & Ha).
    cbn [mbind option_bind]. destruct dn as [res|]; [eexists; split; [done|]; left; by apply Ha|].
    destruct (stops q qtype e); [|by apply IH].
    destruct (delegation_total z do e Hz Hst) as (g & -> & _). eexists. split; [reflexivity|]. by right.
  - apply IH; [done|]. by destruct (find z (wildcard_of p)).
Qed.

Lemma lookup_found_total loop z state q qtype do e :
  zone_ok z -> req_ok state q -> good_elem z e ->
  exists res, lookup_found up loop z state qtype do e = Some res /\
    (lAnswer res <> [] \/ lResult res = NoData /\ exists l, lNs res = Apex_soa (zApex z) do ++ l).
Proof.
  intros Hz Hr (_ & Hok & Hst). unfold lookup_found. case_decide as Hc.
  - destruct Hc as [Hc _].
    destruct (externalLookup_total (S loop) z state q e _ None Hz Hr (elem_alias e Hok Hst Hc)) as (res & -> & [l El] & _).
    exists res. split; [done|]. left. rewrite El. by destruct (Elem_Type e TypeCNAME).
  - pose proof (elem_stored_Type e qtype Hst) as Hq. destruct (Elem_Type e qtype) as [|r rrs].
    + eexists. split; [reflexivity|]. right. split; [done|]. by eexists.
    + destruct (additionalProcessing_total z (r :: rrs) do Hz Hq) as [l ->]. eexists. split; [reflexivity|].
      by left.
Qed.

Lemma Tree_Prev_total z q : zone_ok z -> fq_name q ->
  exists r, Tree_Prev (zTree z) q = Some r /\ from_tree z r.
Proof.
  intros Hz Hq. pose proof Hz as (_ & _ & (_ & Hg & _) & _). unfold Tree_Prev.
  rewrite Node_floor_spec by (try done; by right). eexists. split; [done|]. intros e He.
  apply tree_elem_good; [done|]. unfold spec_floor in He. apply last_Some_elem_of in He.
  by apply list_elem_of_filter in He as [_ ?].
Qed.

Lemma Tree_Next_total z q : zone_ok z -> fq_name q ->
  exists r, Tree_Next (zTree z) q = Some r /\ r = spec_ceil q (elems (Root (zTree z))) /\ from_tree z r.
Proof.
  intros Hz Hq. pose proof Hz as (_ & _ & (_ & Hg & _) & _). unfold Tree_Next.
  rewrite Node_ceil_spec by (try done; by right). eexists. split; [done|]. split; [done|]. intros e He.
  apply tree_elem_good; [done|]. unfold spec_ceil in He. apply head_Some_elem_of in He.
  by apply list_elem_of_filter in He as [_ ?].
Qed.

Lemma lookup_wildcard_total loop z state q qtype do w :
  zone_ok z -> req_ok state q -> good_elem z w ->
  exists res, lookup_wildcard up loop z state q qtype do w = Some res /\
    (lAnswer res <> [] \/ lResult res = NoData /\ exists l, lNs res = Apex_soa (zApex z) do ++ l).
Proof.
  intros Hz Hr (_ & Hok & Hst). pose proof Hr as (_ & _ & Hfq & _). unfold lookup_wildcard.
  destruct (elem_ok_Name w Hok) as (n & -> & _ & _). cbn [mbind option_bind]. case_decide as Hc.
  - destruct Hc as [Hc _].
    destruct (externalLookup_total (S loop) z state q w _ (Some n) Hz Hr (wildcard_alias w q Hok Hst Hc)) as (res & -> & [l El] & _).
    exists res. split; [done|]. left. rewrite El. by destruct (Elem_TypeForWildcard w TypeCNAME q).
  - destruct (Elem_TypeForWildcard w qtype q) as [|r rrs].
    + eexists. split; [reflexivity|]. right. split; [done|]. by eexists.
    + destruct do; [|eexists; split; [reflexivity|]; by left].
      destruct (Tree_Prev_total z q Hz Hfq) as (d & -> & _). eexists. split; [reflexivity|]. by left.
Qed.

(** ** Names that are not there *)

Definition plain_zone (z : Zone) : Prop :=
  valid_name (origin z) /\
  Forall (fun e => exists n, Elem_Name e = Some n /\ plain_name n) (elems (Root (zTree z))).

(** The name of [e] lies at or below [q]. *)
Definition at_or_below (q : string) (e : Elem) : Prop :=
  exists n, Elem_Name e = Some n /\ exists pre, labels n = pre ++ labels q.

Lemma good_subdomain z q e n :
  zone_ok z -> good_elem z e -> fq_name q -> lower_name q -> Elem_Name e = Some n ->
  IsSubDomain q n = true <-> exists pre, labels n = pre ++ labels q.
Proof.
  intros Hz (_ & Hok & Hst) Hq Lq Hn. pose proof (elem_stored_Name e n Hok Hst Hn) as Ln.
  destruct (elem_ok_Name e Hok) as (n' & Hn' & Hfn & _). simplify_eq. by apply IsSubDomain_lower.
Qed.

(** The names below [q] follow [q] in the order of the tree. *)
Lemma below_after q e n :
  valid_name q -> fq_name n -> Elem_Name e = Some n -> (exists pre, labels n = pre ++ labels q) ->
  exists k, ekey e = key q ++ k.
Proof.
  intros Hq Hn En [pre El]. unfold ekey. rewrite En. exists (key_of pre).
  assert (valid_name n) as Hv.
  { destruct Hn as [->|]; [|done]. rewrite labels_dot in El. destruct Hq as (Hne & _).
    by destruct (labels q), pre. }
  rewrite (key_valid n Hv), (key_valid q Hq), El. apply key_of_app.
Qed.

(** The first element at or after [q] is no later than any other such. *)
Lemma spec_ceil_least q l e :
  good l -> e ∈ l -> key_cmp (key q) (ekey e) <> Gt ->
  exists x, spec_ceil q l = Some x /\ x ∈ l /\ key_cmp (key q) (ekey x) <> Gt /\
            key_cmp (ekey x) (ekey e) <> Gt.
Proof.
  intros Hg Hin Hq. apply list_elem_of_split in Hin as (l1 & l2 & ->).
  apply good_app in Hg as (_ & _ & _ & Hl1 & _). unfold spec_ceil. rewrite filter_app, filter_cons_True by done.
  destruct (filter _ l1) as [|x l] eqn:Ef.
  - exists e. split; [done|]. split; [apply elem_of_app; right; by left|]. split; [done|].
    by rewrite (cmp_refl (cmp:=key_cmp)).
  - assert (x ∈ filter (fun e => key_cmp (key q) (ekey e) <> Gt) l1) as Hx by (rewrite Ef; by left).
    apply list_elem_of_filter in Hx as [Hxq Hx]. rewrite Forall_forall in Hl1. specialize (Hl1 x Hx).
    unfold elt in Hl1. exists x. split; [done|]. split; [apply elem_of_app; by left|]. split; [done|].
    by rewrite Hl1.
Qed.

(** The first name at or after [q] is at or below [q] exactly when there is
    such a name in the zone at all. *)
Lemma ceil_below z q :
  zone_ok z -> plain_zone z -> plain_name q ->
  (exists x, spec_ceil q (elems (Root (zTree z))) = Some x /\ at_or_below q x) <->
  (exists e, e ∈ elems (Root (zTree z)) /\ at_or_below q e).
Proof.
  intros Hz [_ Hpl] [Hv Hq]. pose proof Hz as (_ & _ & (_ & Hg & _) & _). split.
  - unfold spec_ceil. intros (x & Hx & Hb). exists x. split; [|done]. apply head_Some_elem_of in Hx.
    by apply list_elem_of_filter in Hx as [_ ?].
  - intros (e & Hin & n & En & Hb). rewrite Forall_forall in Hpl.
    destruct (Hpl e Hin) as (n2 & En2 & Hvn & _). assert (n2 = n) as -> by congruence.
    destruct (below_after q e n Hv (or_intror Hvn) En Hb) as [k Hk].
    destruct (spec_ceil_least q _ e Hg Hin) as (x & Hx & Hxin & Hxq & Hxe).
    { rewrite Hk. destruct k; [by rewrite app_nil_r, (cmp_refl (cmp:=key_cmp))|]. by rewrite key_cmp_app. }
    exists x. split; [done|]. rewrite Hk in Hxe.
    destruct (key_cmp_between _ _ _ Hxq Hxe) as [k' Ek']. destruct (Hpl x Hxin) as (nx & Enx & Hvx & Hpx).
    exists nx. split; [done|]. unfold ekey in Ek'. rewrite Enx in Ek'.
    rewrite (key_valid nx Hvx), (key_valid q Hv) in Ek'. by apply key_of_prefix in Ek'.
Qed.

Lemma asterisk_valid n : valid_name n -> valid_name ("*." +:+ n).
Proof.
  intros (Hne & Hok & En). change ("*." +:+ n) with ("*"%string +:+ dot +:+ n). rewrite En.
  apply (valid_name_dotted ("*"%string :: labels n)); [done|]. by constructor.
Qed.

Lemma encloses_good z q e : zone_ok z -> encloses z q e -> good_elem z e.
Proof. by intros Hz [(k & _ & Hf)|Hf]; eapply find_good. Qed.

Lemma lookup_denial_total z q rcode :
  zone_ok z -> plain_zone z -> plain_name q -> exists l, lookup_denial z q rcode = Some l.
Proof.
  intros Hz [_ Hpl] Hq. pose proof Hq as (Hv & _). unfold lookup_denial. rewrite Forall_forall in Hpl.
  destruct (Tree_Prev_total z q Hz (or_intror Hv)) as (d & -> & Hd). cbn [mbind option_bind].
  destruct d as [d|]; [|by eauto]. destruct (Hd d eq_refl) as (_ & Hdok & _).
  case_decide; [by eauto|].
  destruct (ClosestEncloser_total z q Hz Hq) as (ce & -> & Hce). cbn [mbind option_bind].
  destruct ce as [ce|]; [|by eauto]. destruct (encloses_good z q ce Hz (Hce ce eq_refl)) as (Hin & _).
  destruct (Hpl ce Hin) as (n & -> & Hn & _). cbn [mbind option_bind].
  destruct (Tree_Prev_total z ("*." +:+ n) Hz (or_intror (asterisk_valid n Hn))) as (ss & -> & Hss).
  cbn [mbind option_bind]. destruct ss as [ss|]; [|by eauto]. destruct (Hss ss eq_refl) as (_ & Hsok & _).
  destruct (elem_ok_Name ss Hsok) as (? & -> & _), (elem_ok_Name d Hdok) as (? & -> & _).
  cbn [mbind option_bind]. case_decide; by eauto.
Qed.

(** A name error, or an empty answer when there are names below. *)
Lemma lookup_missing_spec z q do :
  zone_ok z -> plain_zone z -> plain_name q -> lower_name q ->
  exists rcode l, lookup_missing z q do = Some (mkResult [] (Apex_soa (zApex z) do ++ l) [] rcode None) /\
    (do = false -> l = []) /\
    ((rcode = Success /\ exists e, e ∈ elems (Root (zTree z)) /\ at_or_below q e) \/
     (rcode = NameError /\ ~ exists e, e ∈ elems (Root (zTree z)) /\ at_or_below q e)).
Proof.
  intros Hz Hpz Hq Lq. pose proof Hq as (Hv & _). unfold lookup_missing.
  destruct (Tree_Next_total z q Hz (or_intror Hv)) as (x & -> & Ex & Hx). cbn [mbind option_bind].
  assert (exists rcode, match x with
     | Some x => n ← Elem_Name x; Some (if IsSubDomain q n then Success else NameError)
     | None => Some NameError end = Some rcode /\
     ((rcode = Success /\ exists e, e ∈ elems (Root (zTree z)) /\ at_or_below q e) \/
      (rcode = NameError /\ ~ exists e, e ∈ elems (Root (zTree z)) /\ at_or_below q e))) as (rcode & -> & Hrc).
  { setoid_rewrite <- (ceil_below z q Hz Hpz Hq). setoid_rewrite <- Ex. destruct x as [x|].
    - pose proof (Hx x eq_refl) as Hgx. destruct (elem_ok_Name x (proj1 (proj2 Hgx))) as (n & En & _).
      rewrite En. simpl. pose proof (good_subdomain z q x n Hz Hgx (or_intror Hv) Lq En) as Hsub.
      eexists. split; [done|]. destruct (IsSubDomain q n).
      + left. split; [done|]. exists x. split; [done|]. exists n. split; [done|]. by apply Hsub.
      + right. split; [done|]. intros (x' & [= <-] & n' & En' & Hb). simplify_eq. by apply Hsub in Hb.
    - exists NameError. split; [done|]. right. split; [done|]. by intros (? & ? & _). }
  cbn [mbind option_bind]. destruct do.
  - destruct (lookup_denial_total z q rcode Hz Hpz Hq) as [l ->]. by exists rcode, l.
  - by exists rcode, [].
Qed.

(** ** Whole lookups *)

(** [z] is well formed and [state] asks for [q], a name of the zone. *)
Definition asks (z : Zone) (state : Request) (q : string) : Prop :=
  zone_ok z /\ plain_zone z /\ req_ok state q /\ plain_name q /\
  exists pre, labels q = pre ++ labels (origin z).

Definition apex_query (z : Zone) (q : string) (qtype : Z) : Prop :=
  q = origin z /\ (qtype = TypeSOA \/ qtype = TypeNS).

Lemma path_last z state q : asks z state q -> last (path z q) = Some q.
Proof.
  intros (Hz & [Hvo _] & _ & [Hv _] & pre & El). pose proof Hz as (_ & Hol & _). unfold path.
  rewrite dlabels_valid by done. rewrite Hol, El, length_app.
  replace (length pre + length (labels (origin z)) - length (labels (origin z)))%nat with (length pre) by lia.
  destruct pre as [|x pre].
  - simpl in *. f_equal. apply fq_labels_inj; [by right..|done].
  - cbn [length]. rewrite seq_S, map_app. cbn [map]. rewrite app_comm_cons, last_snoc. f_equal.
    rewrite <- (suffix_name_full q (or_intror Hv)) at 2. rewrite dlabels_valid, El by done.
    f_equal. rewrite length_app. simpl. lia.
Qed.

(** Nothing on the way down diverts the lookup. *)
Definition clear_path (z : Zone) (q : string) (qtype : Z) : Prop :=
  Forall (fun p => forall e, find z p = Some e -> ~ dname_applies q e /\ stops q qtype e = false) (path z q).

(** The wildcard met last among those next to the missing names. *)
Fixpoint last_wildcard (z : Zone) (ps : list string) (wild : option Elem) : option Elem :=
  match ps with
  | [] => wild
  | p :: ps' =>
      last_wildcard z ps'
        (match find z p with
         | Some _ => wild
         | None => match find z (wildcard_of p) with Some w => Some w | None => wild end
         end)
  end.

Lemma walk_clear loop z state q qtype do ps elem wild :
  zone_ok z -> req_ok state q ->
  Forall (fun p => forall e, find z p = Some e -> ~ dname_applies q e /\ stops q qtype e = false) ps ->
  walk loop z state q qtype do ps elem wild =
  Some (Broke (match last ps with Some p => find z p | None => elem end) (last_wildcard z ps wild)).
Proof.
  intros Hz Hr Hps. revert elem wild. induction Hps as [|p ps Hp Hps IH]; intros elem wild; [done|].
  cbn [walk last_wildcard].
  assert (last (p :: ps) = Some (default p (last ps))) as -> by (by rewrite last_cons; destruct (last ps)).
  destruct (find z p) as [e|] eqn:Ef.
  - destruct (Hp e eq_refl) as [Hd Hs]. destruct (find_elem z p e Hz Ef) as (_ & Hok & Hst & _).
    destruct (lookup_dname_total loop z state q qtype do e Hz Hr Hok Hst) as (dn & -> & Hdn & _).
    rewrite (proj2 Hdn Hd). cbn [mbind option_bind]. rewrite Hs, IH. destruct (last ps); simpl; by rewrite ?Ef.
  - rewrite IH. destruct (last ps); simpl; by rewrite ?Ef.
Qed.

(** What follows the loop. *)
Definition finish_lookup (loop : nat) (z : Zone) (state : Request) (q : string) (qtype : Z) (do : bool)
    (e : LoopEnd) : option LookupResult :=
  match e with
  | Returned res => Some res
  | Broke (Some elem) _ => lookup_found up loop z state qtype do elem
  | Broke None (Some w) => lookup_wildcard up loop z state q qtype do w
  | Broke None None => lookup_missing z q do
  end.

Lemma Lookup_walk loop z state q :
  asks z state q -> aSOA (zApex z) <> None -> ~ apex_query z q (QType state) -> (loop <= 8)%nat ->
  exists state' do, Do state = Some (state', do) /\ req_ok state' q /\
    Lookup up loop z state q =
    (e ← walk loop z state' q (QType state) do (path z q) None None;
     finish_lookup loop z state' q (QType state) do e).
Proof.
  intros (Hz & Hpz & Hr & Hq & _) Hsoa Hap Hl. pose proof Hr as (_ & _ & Hfq & _).
  destruct (req_ok_Do state q Hr) as (state' & do & E & Hr' & _). exists state', do. split; [done|].
  split; [done|]. unfold Lookup. rewrite E. cbn [mbind option_bind]. rewrite decide_False by done.
  rewrite decide_False by (intros [? ?]; apply Hap; split; auto).
  rewrite decide_False by (intros [? ?]; apply Hap; split; auto). rewrite decide_False by lia.
  rewrite lookup_loop_walk; [by rewrite drop_0|done|done|]. pose proof (path_length z q Hfq). lia.
Qed.

Lemma Lookup_no_soa loop z state q :
  Req state <> None -> aSOA (zApex z) = None ->
  Lookup up loop z state q = Some (mkResult [] [] [] ServerFailure None).
Proof.
  intros Hr Hsoa. destruct (Do_total state Hr) as (r' & b & E & _). unfold Lookup. rewrite E. simpl.
  by rewrite decide_True.
Qed.

Lemma Lookup_loop_guard loop z state q :
  Req state <> None -> (8 < loop)%nat -> ~ apex_query z q (QType state) ->
  Lookup up loop z state q = Some (mkResult [] [] [] ServerFailure None).
Proof.
  intros Hr Hl Hap. destruct (Do_total state Hr) as (r' & b & E & _). unfold Lookup. rewrite E.
  cbn [mbind option_bind]. case_decide; [done|].
  rewrite decide_False by (intros [? ?]; apply Hap; split; auto).
  rewrite decide_False by (intros [? ?]; apply Hap; split; auto). by rewrite decide_True by lia.
Qed.

(** The answer's shape: records, a referral, a failure, or a negative answer
    that starts with the SOA record. *)
Definition answer_shape (z : Zone) (do : bool) (res : LookupResult) : Prop :=
  lAnswer res <> [] \/ lResult res = Delegation \/ lResult res = ServerFailure \/
  ((lResult res = NoData \/ lResult res = NameError \/ lResult res = Success) /\
   exists l, lNs res = Apex_soa (zApex z) do ++ l).

Lemma finish_lookup_total loop z state q qtype do e :
  zone_ok z -> plain_zone z -> req_ok state q -> plain_name q ->
  match e with
  | Returned res => lAnswer res <> [] \/ lResult res = Delegation
  | Broke e w => from_tree z e /\ from_tree z w
  end ->
  exists res, finish_lookup loop z state q qtype do e = Some res /\ answer_shape z do res.
Proof.
  intros Hz Hpz Hr Hq He. pose proof Hr as (_ & _ & _ & Lq). unfold answer_shape.
  destruct e as [res|[e|] w]; simpl.
  - exists res. split; [done|]. destruct He; auto.
  - destruct (lookup_found_total loop z state q qtype do e Hz Hr (proj1 He e eq_refl)) as (res & -> & Hres).
    exists res. split; [done|]. destruct Hres as [?|(? & ?)]; auto 8.
  - destruct w as [w|].
    + destruct (lookup_wildcard_total loop z state q qtype do w Hz Hr (proj2 He w eq_refl)) as (res & -> & Hres).
      exists res. split; [done|]. destruct Hres as [?|(? & ?)]; auto 8.
    + destruct (lookup_missing_spec z q do Hz Hpz Hq Lq) as (rc & l & -> & _ & Hrc).
      eexists. split; [done|]. do 3 right. simpl. split; [|by eauto].
      destruct Hrc as [[-> _]|[-> _]]; auto.
Qed.

(** A lookup of a name of a well-formed zone returns, and its answer has the
    right shape. *)
Lemma Lookup_total loop z state q :
  asks z state q ->
  exists res, Lookup up loop z state q = Some res /\
    (aSOA (zApex z) <> None -> ~ apex_query z q (QType state) ->
     exists do, answer_shape z do res).
Proof.
  intros Ha. pose proof Ha as (Hz & Hpz & Hr & Hq & _). pose proof Hr as (Hreq & _).
  destruct (decide (aSOA (zApex z) = None)) as [Hs|Hs].
  { rewrite Lookup_no_soa by done. by eexists. }
  destruct (decide (apex_query z q (QType state))) as [Hap|Hap].
  - destruct (req_ok_Do state q Hr) as (state' & do & E & _). unfold Lookup. rewrite E. cbn [mbind option_bind].
    rewrite decide_False by done. case_decide; [by eexists|]. rewrite decide_True; [|destruct Hap as [? [?|?]]; tauto].
    destruct (Glue_total z (Apex_ns (zApex z) do) do Hz) as [g ->]; [|by eexists].
    destruct Hz as (_ & _ & _ & _ & _ & Hns & _ & Hsn). unfold Apex_ns.
    destruct do; [apply Forall_app; split|]; eapply Forall_impl; try eassumption; by intros r [_ ?].
  - destruct (decide (loop <= 8)%nat) as [Hl|Hl].
    + destruct (Lookup_walk loop z state q Ha Hs Hap Hl) as (state' & do & _ & Hr' & ->).
      destruct (walk_total loop z state' q (QType state) do (path z q) None None Hz Hr') as (e & -> & He); [done..|].
      cbn [mbind option_bind].
      destruct (finish_lookup_total loop z state' q (QType state) do e Hz Hpz Hr' Hq He) as (res & -> & Hres).
      exists res. split; [done|]. by eauto.
    + rewrite Lookup_loop_guard by (done || lia). eexists. split; [done|]. intros _ _.
      exists false. unfold answer_shape. simpl. auto.
Qed.

(** With a clear path the outcome depends on the name's element, or else on
    the wildcard. *)
Lemma Lookup_clear loop z state q :
  asks z state q -> aSOA (zApex z) <> None -> ~ apex_query z q (QType state) -> (loop <= 8)%nat ->
  clear_path z q (QType state) ->
  exists state' do, Do state = Some (state', do) /\ req_ok state' q /\
    Lookup up loop z state q =
    match find z q with
    | Some e => lookup_found up loop z state' (QType state) do e
    | None => match last_wildcard z (path z q) None with
              | Some w => lookup_wildcard up loop z state' q (QType state) do w
              | None => lookup_missing z q do
              end
    end.
Proof.
  intros Ha Hs Hap Hl Hc. destruct (Lookup_walk loop z state q Ha Hs Hap Hl) as (state' & do & Hdo & Hr' & ->).
  exists state', do. split; [done|]. split; [done|].
  rewrite walk_clear by (try done; apply Ha). rewrite (path_last z state q Ha). simpl.
  by destruct (find z q), (last_wildcard z (path z q) None).
Qed.

(** The first delegation on the way down ends the lookup with a referral. *)
Lemma walk_stops loop z state q qtype do ps1 p ps2 e elem wild :
  zone_ok z -> req_ok state q ->
  Forall (fun p => forall e, find z p = Some e -> ~ dname_applies q e /\ stops q qtype e = false) ps1 ->
  find z p = Some e -> ~ dname_applies q e -> stops q qtype e = true ->
  exists glue, Glue (zTree z) (Elem_Type e TypeNS) do = Some glue /\
    walk loop z state q qtype do (ps1 ++ p :: ps2) elem wild =
    Some (Returned (mkResult [] (Elem_Type e TypeNS ++ if do then typeFromElem e TypeDS do else []) glue Delegation None)).
Proof.
  intros Hz Hr Hps Hf Hd Hst. destruct (find_elem z p e Hz Hf) as (_ & Hok & Hsto & _).
  destruct (delegation_total z do e Hz Hsto) as (g & Eg & Hg). exists g. split; [done|]. revert elem wild.
  induction Hps as [|p' ps' Hp' Hps IH]; intros elem wild; cbn [app walk].
  - rewrite Hf. destruct (lookup_dname_total loop z state q qtype do e Hz Hr Hok Hsto) as (dn & -> & Hdn & _).
    rewrite (proj2 Hdn Hd). cbn [mbind option_bind]. rewrite Hst, Eg. done.
  - destruct (find z p') as [e'|] eqn:Ef; [|apply IH]. destruct (Hp' e' eq_refl) as [Hd' Hs'].
    destruct (find_elem z p' e' Hz Ef) as (_ & Hok' & Hsto' & _).
    destruct (lookup_dname_total loop z state q qtype do e' Hz Hr Hok' Hsto') as (dn & -> & Hdn & _).
    rewrite (proj2 Hdn Hd'). cbn [mbind option_bind]. rewrite Hs'. apply IH.
Qed.
End lookup_spec.
