(* ===== verification/LookupTheorems.v ===== *)
(** * Properties of zones and lookups *)

From S2P Require Import Prelude.
From S2P Require Import GoStd.
From S2P Require Import DnsNames.
From S2P Require Import DnsMsg.
From S2P Require Import DnsUtil.
From S2P Require Import Request.
From S2P Require Import Less.
From S2P Require Import Elem.
From S2P Require Import Tree.
From S2P Require Import TreeBalance.
From S2P Require Import TreeSpec.
From S2P Require Import Zone.
From S2P Require Import ZoneSpec.
From S2P Require Import Lookup.
From S2P Require Import LookupSpec.

(** ** An example zone *)

#[local] Existing Instance range_sorted.
#[local] Existing Instance dns_reference.
#[local] Existing Instance msgs_reference.

Definition exSOA : RR :=
  mkRR "Example.ORG." TypeSOA ClassINET 3600 (SOA "ns.example.org." "admin.example.org." 1 7200 3600 86400 300).
Definition exRR (name : string) (typ : Z) (d : RData) : RR := mkRR name typ ClassINET 3600 d.

Definition example_records : list RR :=
  [exSOA; exRR "example.org." TypeNS (NS "ns.example.org."); exRR "ns.example.org." TypeA (A [10; 0; 0; 1]%Z);
   exRR "WWW.example.org." TypeA (A [10; 0; 0; 2]%Z); exRR "alias.example.org." TypeCNAME (CNAME "www.example.org.");
   exRR "sub.example.org." TypeNS (NS "ns.sub.example.org."); exRR "ns.sub.example.org." TypeA (A [10; 0; 1; 1]%Z);
   exRR "x.ent.example.org." TypeA (A [10; 0; 0; 3]%Z); exRR "*.wild.example.org." TypeTXT (TXT ["w"%string]);
   exRR "x.ent.wild.example.org." TypeA (A [10; 0; 0; 4]%Z); exRR "old.example.org." TypeDNAME (DNAME "new.example.net.");
   exRR "c.example.org." TypeA (A [10; 0; 0; 5]%Z)].

Fixpoint insert_records (z : Zone) (rrs : list RR) : option Zone :=
  match rrs with
  | [] => Some z
  | r :: rrs' => '(z, _) ← Zone_Insert z r; insert_records z rrs'
  end.

Definition example_zone : Zone :=
  default (NewZone "example.org." "db.example.org") (insert_records (NewZone "example.org." "db.example.org") example_records).

Lemma insert_records_ok rrs z :
  zone_ok z -> Forall rr_ok rrs -> exists z', insert_records z rrs = Some z' /\ zone_ok z'.
Proof.
  intros Hz Hrs. revert z Hz. induction Hrs as [|r rrs Hr _ IH]; intros z Hz; [by exists z|]. simpl.
  destruct (Zone_Insert_ok z r Hz Hr) as (z1 & err & -> & Hz1 & _). simpl. by apply IH.
Qed.

Lemma example_zone_ok : zone_ok example_zone.
Proof.
  destruct (insert_records_ok example_records (NewZone "example.org." "db.example.org")) as (z & E & Hz).
  - apply NewZone_ok. by apply (bool_decide_unpack _); vm_compute.
  - by apply (bool_decide_unpack _); vm_compute.
  - unfold example_zone. by rewrite E.
Defined.

Lemma example_zone_plain : plain_zone example_zone.
Proof.
  split; [by apply (bool_decide_unpack _); vm_compute|].
  assert (Forall (fun e => from_option (fun n => bool_decide (plain_name n)) false (Elem_Name e) = true)
            (elems (Root (zTree example_zone)))) as Hp by (by apply (bool_decide_unpack _); vm_compute).
  eapply Forall_impl; [exact Hp|]. intros e He. cbv beta in He |- *. destruct (Elem_Name e) as [n|]; [|done]. exists n.
  split; [done|]. by apply bool_decide_eq_true in He.
Defined.

Definition example_query (q : string) (typ : Z) : Request :=
  newRequest (mkWriter (UDPAddr [10; 0; 0; 99]%Z "10.0.0.99:4000") (UDPAddr [10; 0; 0; 1]%Z "10.0.0.1:53"))
    (Some (set_mQuestion [mkQuestion q typ ClassINET] zeroMsg)).

(** The upstream resolver of the examples knows nothing. *)
Definition example_up : Upstream := fun _ _ _ _ => inr None.

Lemma example_asks q typ :
  (Name (example_query q typ)).2 = q -> plain_name q -> lower_name q ->
  (exists pre, labels q = pre ++ labels "example.org.") ->
  asks example_zone (example_query q typ) q.
Proof.
  intros Hn Hq Hl Hz. split; [apply example_zone_ok|]. split; [apply example_zone_plain|].
  split; [|split; [done|done]]. split; [done|]. split; [done|]. split; [by right; apply Hq|done].
Defined.

(** ** Theorems *)

(** C24 Adding a well-formed record to a well-formed zone never panics and
    leaves a well-formed zone: an NSEC3 record is refused and changes
    nothing, an apex record (SOA, NS at the origin, their signatures) goes to
    the apex, and any other record goes, in lower case, to its name's place
    in the tree. *)
Theorem zone_insert_correct `{GoRange} `{DnsNamesOk} (z : Zone) (r : RR) :
  zone_ok z -> rr_ok r ->
  exists z' err, Zone_Insert z r = Some (z', err) /\ zone_ok z' /\ origin z' = origin z /\
    (err <> None <-> is_nsec3 r) /\
    if decide (is_nsec3 r) then z' = z
    else match apex_kind (origin z) (lower_rr r) with
         | Some k => zApex z' = apex_put k (lower_rr r) (zApex z) /\ zTree z' = zTree z
         | None => zApex z' = zApex z /\
                   elems (Root (zTree z')) = spec_insert (lower_rr r) (elems (Root (zTree z)))
         end.
Proof. apply Zone_Insert_ok. Qed.

Lemma zone_insert_correct_witness :
  exists z' err, Zone_Insert example_zone (exRR "New.example.org." TypeMX (MX 10 "Mail.example.org.")) = Some (z', err).
Proof.
  destruct (@zone_insert_correct range_sorted dns_reference dns_reference_ok example_zone
    (exRR "New.example.org." TypeMX (MX 10 "Mail.example.org.")) example_zone_ok) as (z' & err & E & _); [decided|].
  by exists z', err.
Defined.

(** C3 A lookup of a name of a well-formed zone always returns (no panic, no
    endless loop); unless it is for the apex records themselves the answer
    has records, or is a referral, or a failure, or a negative answer whose
    authority section starts with the zone's SOA record. *)
Theorem lookup_total `{GoRange} `{DnsNamesOk} `{DnsMsgs} (up : Upstream) (loop : nat) (z : Zone)
    (state : Request) (q : string) :
  asks z state q ->
  exists res, Lookup up loop z state q = Some res /\
    (aSOA (zApex z) <> None -> ~ apex_query z q (QType state) -> exists do, answer_shape z do res).
Proof. apply Lookup_total. Qed.

Lemma lookup_total_witness :
  exists res, Lookup example_up 0 example_zone (example_query "www.example.org." TypeA) "www.example.org." = Some res.
Proof.
  destruct (@lookup_total range_sorted dns_reference dns_reference_ok msgs_reference example_up 0 example_zone
    (example_query "www.example.org." TypeA) "www.example.org.") as (res & E & _).
  - apply example_asks; [by vm_compute|decided|by vm_compute|]. by exists ["www"%string].
  - by exists res.
Defined.

(** The lookup of [q] reaches [q] itself: the zone has its SOA, the query is
    not for the apex records, the loop guard has room, and no DNAME applies
    and no delegation is met on the way. *)
Definition reaches `{GoRange} `{DnsNames} `{DnsMsgs} (loop : nat) (z : Zone) (state : Request) (q : string) : Prop :=
  asks z state q /\ aSOA (zApex z) <> None /\ ~ apex_query z q (QType state) /\ (loop <= 8)%nat /\
  clear_path z q (QType state).

(** C4 A name that exists, with no delegation or DNAME above it, and that is
    not an alias, is answered with exactly its records of the query type (and
    their signatures when the client asked for DNSSEC) and the zone's name
    servers; when it has no such record the answer is empty, with the SOA. *)
Theorem lookup_existing_name `{GoRange} `{DnsNamesOk} `{DnsMsgs} (up : Upstream) (loop : nat) (z : Zone)
    (state : Request) (q : string) (e : Elem) :
  reaches loop z state q -> find z q = Some e ->
  Elem_Type e TypeCNAME = [] \/ QType state = TypeCNAME ->
  exists state' do res, Do state = Some (state', do) /\ Lookup up loop z state q = Some res /\
    if decide (Elem_Type e (QType state) = [])
    then lAnswer res = [] /\ lResult res = NoData /\ lExtra res = [] /\
         lNs res = Apex_soa (zApex z) do ++ (if do then typeFromElem e TypeNSEC do else [])
    else lAnswer res = Elem_Type e (QType state) ++
                       (if do then SubTypeSignature (Elem_Type e TypeRRSIG) (QType state) else []) /\
         lNs res = Apex_ns (zApex z) do /\ lResult res = Success.
Proof.
  intros (Ha & Hs & Hap & Hl & Hc) Hf Hcn.
  destruct (Lookup_clear up loop z state q Ha Hs Hap Hl Hc) as (state' & do & Hdo & _ & ->). rewrite Hf.
  exists state', do. destruct (find_good z q (proj1 Ha) e Hf) as (_ & _ & Hst). unfold lookup_found.
  rewrite decide_False by (intros [? ?]; destruct Hcn; done).
  pose proof (elem_stored_Type e (QType state) Hst) as Hq. destruct (Elem_Type e (QType state)) as [|r rrs].
  - eexists. split; [done|]. split; [reflexivity|]. done.
  - destruct (additionalProcessing_total z (r :: rrs) do (proj1 Ha) Hq) as [l ->].
    eexists. split; [done|]. split; [reflexivity|]. done.
Qed.

Lemma example_reaches q typ :
  bool_decide ((Name (example_query q typ)).2 = q /\ plain_name q /\ lower_name q) = true ->
  (exists pre, labels q = pre ++ labels "example.org.") ->
  bool_decide (~ apex_query example_zone q typ) = true ->
  forallb (fun p => match find example_zone p with
                    | Some e => bool_decide (Elem_Type e TypeDNAME = []) && negb (stops q typ e)
                    | None => true
                    end) (path example_zone q) = true ->
  reaches 0 example_zone (example_query q typ) q.
Proof.
  intros (Hn & Hp & Hlow)%bool_decide_eq_true Hz Hap%bool_decide_eq_true Hc.
  split; [by apply example_asks|]. split; [by vm_compute|]. split; [exact Hap|]. split; [lia|].
  unfold clear_path. apply Forall_forall. intros p Hin e He. rewrite forallb_forall in Hc.
  specialize (Hc p). rewrite He in Hc. apply list_elem_of_In in Hin. apply Hc in Hin.
  apply andb_true_iff in Hin as [Hd%bool_decide_eq_true Hs%negb_true_iff]. split; [|done].
  intros (d & ds & pre & E & _). rewrite E in Hd. discriminate Hd.
Defined.

Lemma lookup_existing_name_witness :
  exists res, Lookup example_up 0 example_zone (example_query "www.example.org." TypeA) "www.example.org." = Some res /\
    lAnswer res = [exRR "www.example.org." TypeA (A [10; 0; 0; 2]%Z)].
Proof.
  destruct (find example_zone "www.example.org.") as [e|] eqn:Ee; [|by vm_compute in Ee].
  destruct (@lookup_existing_name range_sorted dns_reference dns_reference_ok msgs_reference example_up 0 example_zone
    (example_query "www.example.org." TypeA) "www.example.org." e) as (state' & do & res & Hdo & HL & Hres).
  - apply example_reaches; [by vm_compute| |by vm_compute|by vm_compute]. by exists ["www"%string].
  - exact Ee.
  - left. vm_compute in Ee. injection Ee as <-. by vm_compute.
  - exists res. split; [exact HL|]. vm_compute in Hdo. injection Hdo as <- <-. vm_compute in Ee. injection Ee as <-.
    vm_compute in Hres. vm_compute. destruct Hres as (E & _). exact E.
Defined.

(** C22 When the names from the origin down meet a delegation (NS records
    below the apex, other than at the name itself for a DS query), the lookup
    ends there with a referral: no answer, the delegation's NS records (and,
    for DNSSEC, its DS records) and their glue. *)
Theorem lookup_delegation `{GoRange} `{DnsNamesOk} `{DnsMsgs} (up : Upstream) (loop : nat) (z : Zone)
    (state : Request) (q : string) (ps1 ps2 : list string) (p : string) (e : Elem) :
  asks z state q -> aSOA (zApex z) <> None -> ~ apex_query z q (QType state) -> (loop <= 8)%nat ->
  path z q = ps1 ++ p :: ps2 ->
  Forall (fun p => forall e, find z p = Some e -> ~ dname_applies q e /\ stops q (QType state) e = false) ps1 ->
  find z p = Some e -> ~ dname_applies q e -> stops q (QType state) e = true ->
  exists state' do glue, Do state = Some (state', do) /\ Glue (zTree z) (Elem_Type e TypeNS) do = Some glue /\
    Lookup up loop z state q =
    Some (mkResult [] (Elem_Type e TypeNS ++ if do then typeFromElem e TypeDS do else []) glue Delegation None).
Proof.
  intros Ha Hs Hap Hl Hp Hps Hf Hd Hst.
  destruct (Lookup_walk up loop z state q Ha Hs Hap Hl) as (state' & do & Hdo & Hr' & ->). rewrite Hp.
  destruct (walk_stops up loop z state' q (QType state) do ps1 p ps2 e None None (proj1 Ha) Hr' Hps Hf Hd Hst)
    as (glue & Hg & ->).
  by exists state', do, glue.
Qed.

Lemma lookup_delegation_witness :
  exists glue, Lookup example_up 0 example_zone (example_query "host.sub.example.org." TypeA) "host.sub.example.org." =
    Some (mkResult [] [exRR "sub.example.org." TypeNS (NS "ns.sub.example.org.")] glue Delegation None).
Proof.
  destruct (find example_zone "sub.example.org.") as [e|] eqn:Ee; [|by vm_compute in Ee].
  assert (e = default e (find example_zone "sub.example.org.")) as Ed by (by rewrite Ee).
  destruct (@lookup_delegation range_sorted dns_reference dns_reference_ok msgs_reference example_up 0 example_zone
    (example_query "host.sub.example.org." TypeA) "host.sub.example.org." ["example.org."%string]
    ["host.sub.example.org."%string] "sub.example.org." e) as (state' & do & glue & Hdo & _ & HL).
  - apply example_asks; [by vm_compute|decided|by vm_compute|]. by exists ["host"; "sub"]%string.
  - by vm_compute.
  - by apply (bool_decide_unpack _); vm_compute.
  - lia.
  - by vm_compute.
  - apply Forall_singleton. intros e0 He0. vm_compute in He0. discriminate He0.
  - exact Ee.
  - rewrite Ed. intros (d & ds & pre & E & _). vm_compute in E. discriminate E.
  - rewrite Ed. by vm_compute.
  - exists glue. vm_compute in Hdo. injection Hdo as <- <-. rewrite Ed in HL.
    vm_compute in HL |- *. exact HL.
Defined.

(** C23 A name that does not exist, with no delegation, DNAME or wildcard on
    the way, is answered with the SOA and no records.  The result is a name
    error exactly when nothing exists below the name either; otherwise the
    name is an empty non-terminal and there is no error. *)
Theorem lookup_missing_name `{GoRange} `{DnsNamesOk} `{DnsMsgs} (up : Upstream) (loop : nat) (z : Zone)
    (state : Request) (q : string) :
  reaches loop z state q -> find z q = None -> last_wildcard z (path z q) None = None ->
  exists state' do rcode l, Do state = Some (state', do) /\
    Lookup up loop z state q = Some (mkResult [] (Apex_soa (zApex z) do ++ l) [] rcode None) /\
    (do = false -> l = []) /\
    ((rcode = Success /\ exists e, e ∈ elems (Root (zTree z)) /\ at_or_below q e) \/
     (rcode = NameError /\ ~ exists e, e ∈ elems (Root (zTree z)) /\ at_or_below q e)).
Proof.
  intros (Ha & Hs & Hap & Hl & Hc) Hf Hw. pose proof Ha as (Hz & Hpz & (_ & _ & _ & Lq) & Hq & _).
  destruct (Lookup_clear up loop z state q Ha Hs Hap Hl Hc) as (state' & do & Hdo & _ & ->). rewrite Hf, Hw.
  destruct (lookup_missing_spec z q do Hz Hpz Hq Lq) as (rcode & l & -> & Hl2 & Hrc).
  by exists state', do, rcode, l.
Qed.

Lemma lookup_missing_name_witness :
  exists do rcode l, Lookup example_up 0 example_zone (example_query "ent.example.org." TypeA) "ent.example.org." =
    Some (mkResult [] (Apex_soa (zApex example_zone) do ++ l) [] rcode None).
Proof.
  destruct (@lookup_missing_name range_sorted dns_reference dns_reference_ok msgs_reference example_up 0 example_zone
    (example_query "ent.example.org." TypeA) "ent.example.org.") as (state' & do & rcode & l & _ & HL & _).
  - apply example_reaches; [by vm_compute| |by vm_compute|by vm_compute]. by exists ["ent"%string].
  - by vm_compute.
  - by vm_compute.
  - exists do, rcode, l. exact HL.
Defined.

(** An empty non-terminal does not stop a wildcard above it: with
    *.wild.example.org and x.ent.wild.example.org in the zone, y.ent.wild.example.org
    gets the wildcard's records, although the existing name
    ent.wild.example.org is closer (RFC 4592 then wants a name error). *)
Theorem wildcard_above_empty_nonterminal :
  (exists e, e ∈ elems (Root (zTree example_zone)) /\ at_or_below "ent.wild.example.org." e) /\
  Lookup example_up 0 example_zone (example_query "y.ent.wild.example.org." TypeTXT) "y.ent.wild.example.org." =
  Some (mkResult [exRR "y.ent.wild.example.org." TypeTXT (TXT ["w"%string])]
          [exRR "example.org." TypeNS (NS "ns.example.org.")] [] Success (Some "*.wild.example.org."%string)).
Proof.
  split; [|by vm_compute].
  destruct (find example_zone "x.ent.wild.example.org.") as [e|] eqn:Ee; [|by vm_compute in Ee].
  destruct (find_elem example_zone _ e example_zone_ok Ee) as (Hin & _). exists e. split; [done|].
  assert (e = default e (find example_zone "x.ent.wild.example.org.")) as -> by (by rewrite Ee).
  exists "x.ent.wild.example.org."%string. split; [by vm_compute|]. exists ["x"%string]. by vm_compute.
Qed.

(** The closest encloser can be missed: the search reuses the offset of
    the longer name, so for a.b.c.example.org it skips the existing name
    c.example.org and falls back to the origin. *)
Theorem closest_encloser_skips :
  find example_zone "c.example.org." <> None /\
  ClosestEncloser example_zone "a.b.c.example.org." = Some (find example_zone "example.org.") /\
  find example_zone "example.org." = None.
Proof. split; [by vm_compute|]. split; by vm_compute. Qed.
