(* ===== verification/FilePlugin.v ===== *)
(** * The file plugin

    plugin/file/file.go, xfr.go and reload.go: serving a query from the
    zones, parsing a zone, transferring one out, reloading one. *)

From S2P Require Import Prelude.
From S2P Require Import GoStd.
From S2P Require Import DnsNames.
From S2P Require Import DnsMsg.
From S2P Require Import DnsUtil.
From S2P Require Import Request.
From S2P Require Import Less.
From S2P Require Import Elem.
From S2P Require Import Tree.
From S2P Require Import Zone.
From S2P Require Import Plugin.
From S2P Require Import Transfer.
From S2P Require Import Secondary.
From S2P Require Import Lookup.

(** The map from origins to zones is the plugin's state; a nil zone in it is
    [None]. *)
Definition FileZones : Type := gmap string (option Zone).

Section file.
Context `{GR : GoRange} `{Dn : DnsNames} `{Dm : DnsMsgs}.

(** The network, and the server that [Upstream] asks. *)
Context (exch : Exchange) (xfr : TransferStream) (up : Upstream).
(** The plugin's part of the state of the process. *)
Context {W : Type} (zones : W -> FileZones) (put_zones : FileZones -> W -> W).
Context (next : option (Handler W)) (Names : list string).

Definition File_Name : string := "file".

(** A notify from a primary: check and transfer; errors are only logged. *)
Definition File_notify (zone : string) (z : Zone) (zs : FileZones) : option FileZones :=
  '(ok, _) ← shouldTransfer exch z;
  if (ok : bool) then '(z', _) ← TransferIn xfr z; Some (<[zone := Some z']> zs) else Some zs.

Definition File_reply (r : Msg) (res : LookupResult) : list Msg * Z :=
  let m := set_mAuthoritative true (SetReply zeroMsg r) in
  let m := set_sections (lAnswer res) (lNs res) (lExtra res) m in
  match lResult res with
  | Success | NoData => ([m], RcodeSuccess)
  | NameError => ([set_mRcode RcodeNameError m], RcodeSuccess)
  | Delegation => ([set_mAuthoritative false m], RcodeSuccess)
  | ServerFailure =>
      if decide (mAnswer m = []) then ([], RcodeServerFailure)
      else ([set_mRcode RcodeServerFailure m], RcodeSuccess)
  end.

Definition File_ServeDNS : Handler W := fun ctx w r s =>
  let state := newRequest w (Some r) in
  let '(state, qname) := Name state in
  let zone := Zones_Matches Names qname in
  if decide (zone = EmptyString) then NextOrFailure File_Name next ctx w r s
  else
    match zones s !! zone with
    | None | Some None => Some (s, [], RcodeServerFailure, None)
    | Some (Some z) =>
        if decide (QType state = TypeAXFR \/ QType state = TypeIXFR) then Some (s, [], RcodeRefused, None)
        else if decide (mOpcode r = OpcodeNotify) then
          b ← isNotify z state;
          if (b : bool) then
            let m := set_mAuthoritative true (SetReply zeroMsg r) in
            zs ← File_notify zone z (zones s);
            Some (put_zones zs s, [m], RcodeSuccess, None)
          else Some (s, [], RcodeSuccess, None)
        else if Expired z then Some (s, [], RcodeServerFailure, None)
        else
          res ← Lookup up (ctx_loop ctx) z state qname;
          let '(msgs, rcode) := File_reply r res in
          Some (s, msgs, rcode, None)
    end.

(** ** Parsing a zone *)

(** A run of the zone parser: the records [Next] returns, and the error [Err]
    gives once [Next] has returned false.  While [Next] returns records, [Err]
    is nil. *)
Record ZoneParser := mkParser { zpRecords : list RR; zpErr : option string }.

Inductive ParseError :=
  | SerialErr (origin zone : string) (serial : Z)
  | InsertErr (err : string)
  | NoSOA (fileName origin : string).

Fixpoint Parse_loop (rrs : list RR) (z : Zone) (seenSOA : bool) (orig fileName : string) (serial : Z)
  : option (ParseError + Zone) :=
  match rrs with
  | [] => Some (if seenSOA then inr z else inl (NoSOA fileName orig))
  | rr :: rrs' =>
      let soa := match rdata rr with SOA _ _ s _ _ _ _ => Some s | _ => None end in
      let first := negb seenSOA && bool_decide (soa <> None) in
      if (first && bool_decide (0 <= serial)%Z && bool_decide (soa = Some (u32 serial)))%bool
      then Some (inl (SerialErr orig fileName serial))
      else
        '(z, err) ← Zone_Insert z rr;
        match err with
        | Some e => Some (inl (InsertErr e))
        | None => Parse_loop rrs' z (seenSOA || first) orig fileName serial
        end
  end.

Definition Parse (zp : ZoneParser) (orig fileName : string) (serial : Z) : option (ParseError + Zone) :=
  Parse_loop (zpRecords zp) (NewZone orig fileName) false orig fileName serial.

(** ** Transferring a zone out *)

(** The batches sent on the channel, or the error. *)
Definition Zone_Transfer (z : Zone) (serial : Z) : option (list (list RR) + string) :=
  match ApexIfDefined z with
  | inr e => Some (inr e)
  | inl apex =>
      soa ← head apex;
      s ← soa_serial soa;
      if decide (serial <> 0%Z /\ s = serial) then Some (inl [[soa]])
      else
        let '(batches, _) :=
          Tree_Walk (fun e _ s => (s ++ [Elem_All e], @None string)) (zTree z) [apex] in
        Some (inl (batches ++ [[soa]]))
  end.

Definition File_Transfer (zs : FileZones) (zone : string) (serial : Z) : option (list (list RR) + string) :=
  match zs !! zone with
  | None | Some None => Some (inr ErrNotAuthoritative)
  | Some (Some z) => Zone_Transfer z serial
  end.

(** ** Reloading *)

Definition SOASerialIfDefined (z : Zone) : option Z :=
  match aSOA (zApex z) with
  | Some soa => soa_serial soa
  | None => Some (-1)%Z
  end.

(** One tick of the reload ticker; [zp] is the parser over the opened file,
    [None] when it cannot be opened.  The notifies that follow a reload are
    not modelled. *)
Definition Reload_tick (zp : option ZoneParser) (z : Zone) : option Zone :=
  match zp with
  | None => Some z
  | Some zp =>
      serial ← SOASerialIfDefined z;
      res ← Parse zp (origin z) (File z) serial;
      match res with
      | inl _ => Some z
      | inr zone =>
          match aSOA (zApex zone) with
          | Some _ => Some (set_zTree (zTree zone) (set_zApex (zApex zone) z))
          | None => None
          end
      end
  end.
End file.
