(* ===== verification/FileTheorems.v ===== *)
(** * Properties of the file plugin *)

From S2P Require Import Prelude.
From S2P Require Import GoStd.
From S2P Require Import DnsNames.
From S2P Require Import DnsMsg.
From S2P Require Import DnsUtil.
From S2P Require Import Request.
From S2P Require Import Less.
From S2P Require Import Elem.
From S2P Require Import Tree.
From S2P Require Import TreeBalance.
From S2P Require Import TreeSpec.
From S2P Require Import TreeWalk.
From S2P Require Import Zone.
From S2P Require Import ZoneSpec.
From S2P Require Import Plugin.
From S2P Require Import Secondary.
From S2P Require Import SecondaryTheorems.
From S2P Require Import Lookup.
From S2P Require Import LookupSpec.
From S2P Require Import LookupTheorems.
From S2P Require Import FilePlugin.

Section file_proofs.
Context `{GR : GoRange} `{Ok : DnsNamesOk}.

(** ** The records of a tree come from [Insert] *)

Definition recs (P : RR -> Prop) (e : Elem) : Prop := map_Forall (fun _ rrs => Forall P rrs) (em e).

Lemma recs_Type P e t : recs P e -> Forall P (Elem_Type e t).
Proof.
  intros He. unfold Elem_Type. destruct (em e !! t) as [rrs|] eqn:E; simpl; [|constructor]. by apply (He _ _ E).
Qed.

Lemma recs_Insert P e r : recs P e -> P r -> recs P (Elem_Insert e r).
Proof.
  intros He Hr. unfold recs. rewrite em_Insert. apply map_Forall_insert_2; [|done].
  apply Forall_app. split; [by apply recs_Type|by apply Forall_singleton].
Qed.

(** No record of the tree belongs to the apex, and no element is empty. *)
Definition elem_clean (orig : string) (e : Elem) : Prop :=
  em e <> ∅ /\ recs (fun r => apex_kind orig r = None /\ ~ is_nsec3 r) e.
Definition zone_clean (z : Zone) : Prop := Forall (elem_clean (origin z)) (elems (Root (zTree z))).

Lemma spec_insert_clean orig r l :
  Forall (elem_clean orig) l -> apex_kind orig r = None -> ~ is_nsec3 r -> Forall (elem_clean orig) (spec_insert r l).
Proof.
  intros Hl Hk Hn.
  assert (elem_clean orig (newElem r)) as Hnew.
  { split; [apply map_non_empty_singleton|]. apply map_Forall_singleton. by apply Forall_singleton. }
  induction Hl as [|e l He Hl IH]; simpl; [by apply Forall_singleton|].
  destruct (key_cmp _ _); repeat apply Forall_cons_2; try done.
  split; [rewrite em_Insert; apply insert_non_empty|]. by apply recs_Insert; [apply He|].
Qed.

Lemma Zone_Insert_clean z r z' err :
  zone_ok z -> zone_clean z -> rr_ok r -> Zone_Insert z r = Some (z', err) -> zone_clean z'.
Proof.
  intros Hz Hc Hr E. destruct (Zone_Insert_ok z r Hz Hr) as (z1 & err1 & E1 & _ & Ho & _ & Hcase).
  rewrite E in E1. injection E1 as <- <-. unfold zone_clean in *. rewrite Ho. case_decide as Hn; [by rewrite Hcase|].
  destruct (apex_kind (origin z) (lower_rr r)) as [k|] eqn:Ek; destruct Hcase as [_ ->]; [done|].
  by apply spec_insert_clean.
Qed.

(** ** Rebuilding an element from its records *)

Lemma fold_Insert_type rs e t :
  Elem_Type (fold_left Elem_Insert rs e) t = Elem_Type e t ++ filter (fun r => hRrtype r = t) rs.
Proof.
  revert e. induction rs as [|r rs IH]; intros e; simpl; [by rewrite app_nil_r|].
  rewrite IH. unfold Elem_Type at 1. rewrite em_Insert, filter_cons.
  destruct (decide (hRrtype r = t)) as [->|Hne].
  - rewrite lookup_insert_eq. simpl. by rewrite <- app_assoc.
  - rewrite lookup_insert_ne by done. done.
Qed.

Lemma fold_Insert_em rs e t :
  em (fold_left Elem_Insert rs e) !! t =
  match em e !! t, filter (fun r => hRrtype r = t) rs with
  | None, [] => None
  | g, rs' => Some (default [] g ++ rs')
  end.
Proof.
  revert e. induction rs as [|r rs IH]; intros e; simpl.
  { destruct (em e !! t); simpl; by rewrite ?app_nil_r. }
  rewrite IH, em_Insert, filter_cons. destruct (decide (hRrtype r = t)) as [->|Hne].
  - rewrite lookup_insert_eq. unfold Elem_Type. destruct (em e !! t); simpl; by rewrite <- ?app_assoc.
  - by rewrite lookup_insert_ne.
Qed.

Lemma fold_Insert_ename rs e : ename (fold_left Elem_Insert rs e) = ename e.
Proof. revert e. induction rs as [|r rs IH]; intros e; simpl; [done|]. by rewrite IH, ename_Insert. Qed.

(** The records of one type among all the records of an element. *)
Lemma filter_All e t :
  elem_ok e -> filter (fun r => hRrtype r = t) (Elem_All e) = Elem_Type e t.
Proof.
  intros He. unfold Elem_All, Elem_Type.
  assert (forall l : list (Z * list RR), NoDup l.*1 -> (forall k v, (k, v) ∈ l -> Forall (fun r => hRrtype r = k) v) ->
    filter (fun r => hRrtype r = t) (concat l.*2) = default [] (list_to_map (M:=gmap Z (list RR)) l !! t)) as Hl.
  { induction l as [|[k v] l IH]; intros Hnd Hk; [done|]. rewrite fmap_cons in Hnd. apply NoDup_cons in Hnd as [Hk0 Hnd].
    rewrite fmap_cons, list_to_map_cons. cbn [concat snd]. rewrite filter_app, IH; [|done|intros k' v' Hin; apply (Hk k' v'); by right].
    pose proof (Hk k v ltac:(by left)) as Hv. destruct (decide (k = t)) as [->|Hne].
    - rewrite lookup_insert_eq, (filter_all _ v) by done. simpl.
      rewrite (not_elem_of_list_to_map_1 _ _ Hk0). simpl. by rewrite app_nil_r.
    - rewrite lookup_insert_ne by done. rewrite filter_none; [done|].
      eapply Forall_impl; [exact Hv|]. intros r. simpl. congruence. }
  rewrite Hl.
  - f_equal. rewrite (list_to_map_proper (go_range (em e)) (map_to_list (em e))).
    + by rewrite list_to_map_to_list.
    + rewrite go_range_perm. apply NoDup_fst_map_to_list.
    + apply go_range_perm.
  - rewrite go_range_perm. apply NoDup_fst_map_to_list.
  - intros k v Hin%go_range_elem. pose proof (elem_ok_Type e k He) as Ht. unfold Elem_Type in Ht.
    by rewrite Hin in Ht.
Qed.

Lemma All_keys e : elem_ok e -> Forall (fun r => fq_name (hName r) /\ key (hName r) = ekey e) (Elem_All e).
Proof.
  intros He. apply Forall_forall. intros r [t Hr]%Elem_All_elem.
  destruct (Elem_Type_group e t He) as [E|[_ Hg]]; [by rewrite E in Hr; apply elem_of_nil in Hr|].
  rewrite Forall_forall in Hg. by apply Hg.
Qed.

Lemma recs_All P e : recs P e -> Forall P (Elem_All e).
Proof.
  intros He. apply Forall_forall. intros r [t Hr]%Elem_All_elem.
  pose proof (recs_Type P e t He) as Ht. rewrite Forall_forall in Ht. by apply Ht.
Qed.

(** Two elements with the same records and the same place in the order; the
    remembered name may differ in case. *)
Definition same_elem (e e' : Elem) : Prop := em e' = em e /\ ekey e' = ekey e.

Definition rebuilt (e : Elem) : Elem := fold_left Elem_Insert (Elem_All e) (mkElem ∅ EmptyString).

Lemma rebuilt_same e : elem_ok e -> em e <> ∅ -> same_elem e (rebuilt e) /\ elem_ok (rebuilt e).
Proof.
  intros He Hne.
  assert (em (rebuilt e) = em e) as Hem.
  { apply map_eq. intros t. unfold rebuilt. rewrite fold_Insert_em, (filter_All e t He). simpl.
    unfold Elem_Type. destruct (em e !! t) as [rrs|] eqn:E; [|done]. simpl.
    destruct (elem_ok_ekey e He _ _ E) as [Hr _]. by destruct rrs. }
  destruct (groups_elem_ok (ekey e) (rebuilt e)) as [Hok Hk].
  - rewrite Hem. by apply elem_ok_ekey.
  - by rewrite Hem.
  - intros Hn. exfalso. apply Hn. unfold rebuilt. by rewrite fold_Insert_ename.
  - by split; [split|].
Qed.

Lemma fold_spec_insert_same l e rs :
  Forall (fun x => elt x e) l -> elem_ok e ->
  Forall (fun r => fq_name (hName r) /\ key (hName r) = ekey e) rs ->
  fold_left (fun l r => spec_insert r l) rs (l ++ [e]) = l ++ [fold_left Elem_Insert rs e].
Proof.
  intros Hl He Hr. revert e Hl He Hr. induction rs as [|r rs IH]; intros e Hl He Hr; [done|].
  apply Forall_cons_iff in Hr as [[Hv Hk] Hr]. simpl.
  destruct (Elem_Insert_ok e r He Hv Hk) as [Hi Hki].
  rewrite spec_insert_ge. 2: { apply (above_left _ e); [by rewrite Hk, (cmp_refl (cmp:=key_cmp))|done]. }
  simpl. rewrite Hk, (cmp_refl (cmp:=key_cmp)). apply IH; [|done|by rewrite Hki].
  eapply Forall_impl; [exact Hl|]. intros x. unfold elt. by rewrite Hki.
Qed.

Lemma fold_spec_insert_all l e :
  Forall (fun x => elt x e) l -> elem_ok e -> em e <> ∅ ->
  fold_left (fun l r => spec_insert r l) (Elem_All e) l = l ++ [rebuilt e].
Proof.
  intros Hl He Hne. destruct (rebuilt_same e He Hne) as [[Hem _] _]. unfold rebuilt in *.
  pose proof (All_keys e He) as Hk. destruct (Elem_All e) as [|r rs]; [by rewrite <- Hem in Hne|].
  apply Forall_cons_iff in Hk as [[Hv Hk] Hr]. simpl. change (Elem_Insert (mkElem ∅ EmptyString) r) with (newElem r).
  destruct (newElem_ok r Hv) as [Hn Hkn]. rewrite <- (app_nil_r l) at 1.
  rewrite <- fold_spec_insert_same; [|eapply Forall_impl; [exact Hl|]; intros x; unfold elt; by rewrite Hkn, Hk
                                    |done|by rewrite Hkn, Hk].
  f_equal. clear -Hl Hk. rewrite app_nil_r. induction Hl as [|x l Hx Hl IH]; [done|]. simpl.
  unfold elt in Hx. rewrite Hk, (proj2 (cmp_gt_lt (cmp:=key_cmp) _ _) Hx). by rewrite IH.
Qed.

(** Inserting all the records of a sorted list of elements, element by
    element, builds the list again. *)
Lemma fold_spec_insert_elems l2 l1 l1' :
  good (l1 ++ l2) -> Forall (fun e => em e <> ∅) l2 -> Forall2 same_elem l1 l1' ->
  exists l', fold_left (fun l r => spec_insert r l) (concat (map Elem_All l2)) l1' = l' /\
             Forall2 same_elem (l1 ++ l2) l'.
Proof.
  revert l1 l1'. induction l2 as [|e l2 IH]; intros l1 l1' Hg Hne H12; simpl.
  { exists l1'. by rewrite app_nil_r. }
  apply Forall_cons_iff in Hne as [Hne1 Hne]. pose proof Hg as (_ & He & _ & Hlt & _)%good_app.
  rewrite fold_left_app, fold_spec_insert_all; [|clear -Hlt H12|done|done].
  - destruct (IH (l1 ++ [e]) (l1' ++ [rebuilt e])) as (l' & El & Hl'); [by rewrite <- app_assoc|done| |].
    + apply Forall2_app; [done|]. constructor; [by apply rebuilt_same|constructor].
    + exists l'. split; [exact El|]. by rewrite <- app_assoc in Hl'.
  - induction H12 as [|x y l1 l1' [_ Hk] H12 IH]; [constructor|].
    apply Forall_cons_iff in Hlt as [Hx Hlt]. constructor; [|by apply IH]. unfold elt. by rewrite Hk.
Qed.

(** ** Inserting a transferred zone *)

Definition put_apex (orig : string) (a : Apex) (r : RR) : Apex :=
  match apex_kind orig r with Some k => apex_put k r a | None => a end.
Definition put_tree (orig : string) (l : list Elem) (r : RR) : list Elem :=
  match apex_kind orig r with Some _ => l | None => spec_insert r l end.

Lemma insert_rrs_stored rrs z1 :
  zone_ok z1 -> Forall (fun r => stored_ok r /\ ~ is_nsec3 r) rrs ->
  exists z', insert_rrs z1 rrs = Some (z', None) /\ zone_ok z' /\ origin z' = origin z1 /\
    zApex z' = fold_left (put_apex (origin z1)) rrs (zApex z1) /\
    elems (Root (zTree z')) = fold_left (put_tree (origin z1)) rrs (elems (Root (zTree z1))).
Proof.
  intros Hz Hr. revert z1 Hz. induction Hr as [|r rrs [[Hr Hlow] Hn] _ IH]; intros z1 Hz; simpl; [by eauto 10|].
  destruct (Zone_Insert_ok z1 r Hz Hr) as (z2 & err & -> & Hz2 & Ho & Herr & Hc). simpl.
  destruct err as [e|]; [exfalso; apply Hn, Herr; done|]. rewrite decide_False in Hc by done.
  rewrite Hlow in Hc. destruct (IH z2 Hz2) as (z' & -> & Hz' & Ho' & Ha & Hel).
  exists z'. rewrite Ho in *. split; [done|]. split; [done|]. split; [done|].
  unfold put_apex at 2, put_tree at 2. rewrite Ha, Hel.
  destruct (apex_kind (origin z1) r); destruct Hc as [-> ->]; done.
Qed.

Lemma put_apex_run orig k rs a :
  Forall (fun r => apex_kind orig r = Some k) rs ->
  fold_left (put_apex orig) rs a =
  match k with
  | KSOA => mkApex (match last rs with Some r => Some r | None => aSOA a end) (aNS a) (aSIGSOA a) (aSIGNS a)
  | KNS => mkApex (aSOA a) (aNS a ++ rs) (aSIGSOA a) (aSIGNS a)
  | KSIGSOA => mkApex (aSOA a) (aNS a) (aSIGSOA a ++ rs) (aSIGNS a)
  | KSIGNS => mkApex (aSOA a) (aNS a) (aSIGSOA a) (aSIGNS a ++ rs)
  end.
Proof.
  intros Hr. revert a. induction Hr as [|r rs Hk Hr IH]; intros [s n ss sn]; cbn [fold_left].
  { destruct k; simpl; by rewrite ?app_nil_r. }
  rewrite IH, last_cons. unfold put_apex. rewrite Hk. destruct k; simpl; rewrite <- ?app_assoc; try done.
  by destruct (last rs).
Qed.

Lemma put_tree_apex orig rs l :
  Forall (fun r => apex_kind orig r <> None) rs -> fold_left (put_tree orig) rs l = l.
Proof.
  intros Hr. induction Hr as [|r rs Hk Hr IH]; [done|]. simpl. unfold put_tree at 2. by destruct (apex_kind orig r).
Qed.

Lemma put_none orig rs l a :
  Forall (fun r => apex_kind orig r = None) rs ->
  fold_left (put_tree orig) rs l = fold_left (fun l r => spec_insert r l) rs l /\
  fold_left (put_apex orig) rs a = a.
Proof.
  intros Hr. revert l. induction Hr as [|r rs Hk Hr IH]; intros l; [done|]. simpl.
  unfold put_tree at 2, put_apex at 2. rewrite Hk. apply IH.
Qed.

(** What a zone sends out is its apex, its elements in order and the SOA
    record again. *)
Definition axfr (z : Zone) (soa : RR) : list RR :=
  soa :: (aSIGSOA (zApex z) ++ aNS (zApex z) ++ aSIGNS (zApex z)) ++
  concat (map Elem_All (elems (Root (zTree z)))) ++ [soa].

Lemma visit_batches l s :
  visit (E:=string) (fun e s => (s ++ [Elem_All e], None)) l s = (s ++ map Elem_All l, None).
Proof.
  revert s. induction l as [|e l IH]; intros s; simpl; [by rewrite app_nil_r|]. rewrite IH. by rewrite <- app_assoc.
Qed.

(** The batches: the apex, each name of the tree, and the SOA record again. *)
Definition axfr_batches (z : Zone) (soa : RR) : list (list RR) :=
  (soa :: aSIGSOA (zApex z) ++ aNS (zApex z) ++ aSIGNS (zApex z)) :: map Elem_All (elems (Root (zTree z))) ++ [[soa]].

Lemma concat_axfr_batches z soa : concat (axfr_batches z soa) = axfr z soa.
Proof. unfold axfr_batches, axfr. simpl. by rewrite concat_app. Qed.

Lemma Zone_Transfer_batches z soa serial :
  zone_ok z -> aSOA (zApex z) = Some soa ->
  exists s, soa_serial soa = Some s /\
  Zone_Transfer z serial = Some (inl (if decide (serial <> 0%Z /\ s = serial) then [[soa]] else axfr_batches z soa)).
Proof.
  intros (_ & _ & _ & _ & (Hs & _)) E. destruct (Hs _ E) as [Hk _].
  unfold Zone_Transfer, ApexIfDefined, soa_serial. rewrite E. simpl.
  unfold apex_kind in Hk. destruct (rdata soa); try (exfalso; repeat case_decide; done); simpl.
  eexists. split; [reflexivity|]. case_decide; [done|]. unfold Tree_Walk. by rewrite Node_walk_visit, visit_batches.
Qed.

Lemma Zone_Transfer_axfr z soa serial :
  zone_ok z -> aSOA (zApex z) = Some soa ->
  exists s, soa_serial soa = Some s /\
  if decide (serial <> 0%Z /\ s = serial) then Zone_Transfer z serial = Some (inl [[soa]])
  else exists batches, Zone_Transfer z serial = Some (inl batches) /\ concat batches = axfr z soa.
Proof.
  intros Hz E. destruct (Zone_Transfer_batches z soa serial Hz E) as (s & Es & Et). exists s. split; [done|].
  case_decide; [done|]. exists (axfr_batches z soa). by rewrite concat_axfr_batches.
Qed.

(** No batch of a zone without empty elements is empty. *)
Lemma axfr_batches_ne z soa : zone_ok z -> zone_clean z -> Forall (fun b => b <> []) (axfr_batches z soa).
Proof.
  intros (_ & _ & (_ & (Hg & _) & _) & _) Hc. constructor; [done|]. apply Forall_app. split; [|by repeat constructor].
  apply Forall_map. unfold zone_clean in Hc. rewrite Forall_forall in Hg, Hc |- *. intros e He Hn.
  destruct (Hc e He) as [Hne _]. destruct (map_choose _ Hne) as (t & rrs & Ht). pose proof (elem_ok_ekey e (Hg e He) _ _ Ht) as [Hr _].
  destruct rrs as [|r rrs]; [done|]. assert (r ∈ Elem_All e) as Hin; [|rewrite Hn in Hin; by apply elem_of_nil in Hin].
  apply Elem_All_elem. exists t. unfold Elem_Type. rewrite Ht. by left.
Qed.

Lemma stored_apex orig r k : apex_kind orig r = Some k -> stored_ok r -> stored_ok r /\ ~ is_nsec3 r.
Proof.
  intros Hk Hr. split; [done|]. destruct Hr as [(Ht & _) _]. unfold apex_kind, rr_typed, is_nsec3 in *.
  destruct (rdata r); try done; rewrite Ht; by intros [E|E].
Qed.

Lemma axfr_insertable z soa :
  zone_ok z -> zone_clean z -> aSOA (zApex z) = Some soa ->
  Forall (fun r => stored_ok r /\ ~ is_nsec3 r) (axfr z soa).
Proof.
  intros (_ & _ & _ & Hst & (Hs & Hn & Hss & Hsn)) Hc E. destruct (Hs _ E) as [Hk Hsoa].
  assert (forall k rs, Forall (fun r => apex_kind (origin z) r = Some k /\ stored_ok r) rs ->
    Forall (fun r => stored_ok r /\ ~ is_nsec3 r) rs) as Hrs.
  { intros k rs Hr. eapply Forall_impl; [exact Hr|]. intros r [H1 H2]. by apply (stored_apex _ _ _ H1). }
  unfold axfr. constructor; [by apply (stored_apex _ _ _ Hk)|].
  rewrite !Forall_app, Forall_singleton. split; [by repeat split; eapply Hrs; eassumption|].
  split; [|by apply (stored_apex _ _ _ Hk)].
  apply Forall_concat, Forall_map, Forall_forall. intros e He. unfold zone_clean in Hc.
  rewrite Forall_forall in Hst, Hc. destruct (Hst e He) as [H1 _], (Hc e He) as [_ H2].
  pose proof (recs_All _ e H1) as A1. pose proof (recs_All _ e H2) as A2.
  rewrite Forall_forall in A1, A2. apply Forall_forall. intros r Hr. split; [by apply A1|by apply A2].
Qed.

Lemma apex_ok_kinds orig a :
  apex_ok orig a ->
  Forall (fun r => apex_kind orig r = Some KSIGSOA) (aSIGSOA a) /\
  Forall (fun r => apex_kind orig r = Some KNS) (aNS a) /\
  Forall (fun r => apex_kind orig r = Some KSIGNS) (aSIGNS a).
Proof.
  intros (_ & Hn & Hss & Hsn). split; [|split]; eapply Forall_impl; eauto; by intros r [? _].
Qed.

Lemma clean_kinds z :
  zone_clean z ->
  Forall (fun r => apex_kind (origin z) r = None) (concat (map Elem_All (elems (Root (zTree z))))).
Proof.
  intros Hc. apply Forall_concat, Forall_map. eapply Forall_impl; [exact Hc|]. intros e [_ He].
  eapply Forall_impl; [by apply recs_All|]. by intros r [? _].
Qed.

Lemma axfr_apex z soa :
  zone_ok z -> zone_clean z -> aSOA (zApex z) = Some soa ->
  fold_left (put_apex (origin z)) (axfr z soa) emptyApex = zApex z.
Proof.
  intros (_ & _ & _ & _ & Ha) Hc E. destruct (apex_ok_kinds _ _ Ha) as (Hss & Hn & Hsn).
  destruct Ha as (Hs & _). destruct (Hs _ E) as [Hk _].
  assert (Forall (fun r => apex_kind (origin z) r = Some KSOA) [soa]) as Hsoa by (by apply Forall_singleton).
  unfold axfr. change (soa :: ?l) with ([soa] ++ l). rewrite !fold_left_app.
  rewrite (put_apex_run _ _ _ emptyApex Hsoa), (put_apex_run _ _ _ _ Hss), (put_apex_run _ _ _ _ Hn),
    (put_apex_run _ _ _ _ Hsn), (proj2 (put_none _ _ [] _ (clean_kinds z Hc))), (put_apex_run _ _ _ _ Hsoa).
  simpl. rewrite <- E. by destruct (zApex z).
Qed.

Lemma axfr_tree z soa :
  zone_ok z -> zone_clean z -> aSOA (zApex z) = Some soa ->
  Forall2 same_elem (elems (Root (zTree z))) (fold_left (put_tree (origin z)) (axfr z soa) []).
Proof.
  intros (_ & _ & (_ & Hg & _) & _ & Ha) Hc E. destruct (apex_ok_kinds _ _ Ha) as (Hss & Hn & Hsn).
  destruct Ha as (Hs & _). destruct (Hs _ E) as [Hk _].
  assert (forall k rs l, Forall (fun r => apex_kind (origin z) r = Some k) rs ->
    fold_left (put_tree (origin z)) rs l = l) as Hskip.
  { intros k rs l Hr. apply put_tree_apex. eapply Forall_impl; [exact Hr|]. intros r. simpl. by intros ->. }
  assert (Forall (fun r => apex_kind (origin z) r = Some KSOA) [soa]) as Hsoa by (by apply Forall_singleton).
  unfold axfr. change (soa :: ?l) with ([soa] ++ l). rewrite !fold_left_app.
  rewrite (Hskip _ _ [] Hsoa), (Hskip _ _ _ Hss), (Hskip _ _ _ Hn), (Hskip _ _ _ Hsn),
    (proj1 (put_none _ _ [] emptyApex (clean_kinds z Hc))), (Hskip _ _ _ Hsoa).
  destruct (fold_spec_insert_elems (elems (Root (zTree z))) [] []) as (l' & -> & Hl'); [done| |constructor|done].
  eapply Forall_impl; [exact Hc|]. by intros e [? _].
Qed.

(** ** Parsing *)

Definition soa_of (r : RR) : option Z := match rdata r with SOA _ _ s _ _ _ _ => Some s | _ => None end.

Lemma Zone_Insert_soa z r z' :
  zone_ok z -> rr_ok r -> Zone_Insert z r = Some (z', None) ->
  (aSOA (zApex z) <> None \/ soa_of r <> None) -> aSOA (zApex z') <> None.
Proof.
  intros Hz Hr E Hs. destruct (Zone_Insert_ok z r Hz Hr) as (z1 & err & E1 & _ & _ & Herr & Hc).
  rewrite E in E1. injection E1 as <- <-. rewrite decide_False in Hc by (by intros Hn; apply Herr in Hn).
  destruct (apex_kind (origin z) (lower_rr r)) as [k|] eqn:Ek; destruct Hc as [-> _].
  - destruct k; simpl; try done; destruct Hs as [?|Hs]; try done;
      unfold soa_of in Hs; unfold apex_kind in Ek; simpl in Ek; destruct (rdata r); simpl in Ek; try done; by repeat case_decide.
  - destruct Hs as [?|Hs]; [done|]. unfold soa_of in Hs. unfold apex_kind in Ek. simpl in Ek. by destruct (rdata r).
Qed.

(** Parsing well-formed records returns; a zone it returns is well formed and
    has a SOA record. *)
Lemma Parse_loop_ok rrs z seen orig fn serial :
  zone_ok z -> zone_clean z -> (seen = true -> aSOA (zApex z) <> None) -> Forall rr_ok rrs ->
  exists res, Parse_loop rrs z seen orig fn serial = Some res /\
  forall z', res = inr z' -> zone_ok z' /\ zone_clean z' /\ origin z' = origin z /\ aSOA (zApex z') <> None.
Proof.
  intros Hz Hc Hs Hr. revert z seen Hz Hc Hs. induction Hr as [|r rrs Hr _ IH]; intros z seen Hz Hc Hs; cbn [Parse_loop].
  { destruct seen; eexists; (split; [reflexivity|]); intros z' [= <-]. by auto. }
  case_match; [by eexists|].
  destruct (Zone_Insert_ok z r Hz Hr) as (z2 & err & E & Hz2 & Ho & _). rewrite E. cbn [mbind option_bind].
  destruct err as [e|]; [by eexists|]. rewrite <- Ho. apply IH; [done|by apply (Zone_Insert_clean z r z2 None)|].
  intros Hseen. apply (Zone_Insert_soa z r z2 Hz Hr E). destruct seen; [left; by apply Hs|right].
  simpl in Hseen. by apply bool_decide_eq_true in Hseen.
Qed.

Lemma NewZone_clean name file : zone_clean (NewZone name file).
Proof. constructor. Qed.

Lemma Parse_ok zp orig fn serial :
  fq_name orig -> Forall rr_ok (zpRecords zp) ->
  exists res, Parse zp orig fn serial = Some res /\
  forall z', res = inr z' -> zone_ok z' /\ zone_clean z' /\ origin z' = orig /\ aSOA (zApex z') <> None.
Proof.
  intros Ho Hr. unfold Parse.
  destruct (Parse_loop_ok (zpRecords zp) (NewZone orig fn) false orig fn serial) as (res & E & Hres);
    [by apply NewZone_ok|apply NewZone_clean|done|done|].
  exists res. split; [done|]. intros z' Hz'. destruct (Hres z' Hz') as (H1 & H2 & H3 & H4).
  split; [done|]. split; [done|]. split; [|done]. rewrite H3. by apply Fqdn_id.
Qed.

(** Without a serial to compare with, and without NSEC3 records, every record
    goes in. *)
Lemma Parse_loop_exact rrs z seen orig fn serial :
  zone_ok z -> Forall (fun r => rr_ok r /\ ~ is_nsec3 r) rrs -> (serial < 0)%Z ->
  (seen = true \/ Exists (fun r => soa_of r <> None) rrs) ->
  exists z', Parse_loop rrs z seen orig fn serial = Some (inr z') /\ insert_rrs z rrs = Some (z', None).
Proof.
  intros Hz Hr Hser Hs. revert z seen Hz Hs. induction Hr as [|r rrs [Hr Hn] _ IH]; intros z seen Hz Hs; cbn [Parse_loop insert_rrs].
  { destruct Hs as [->|Hs]; [by eexists|]. by apply Exists_nil in Hs. }
  rewrite (bool_decide_eq_false_2 (0 <= serial)%Z) by lia. rewrite andb_false_r. cbn [andb].
  destruct (Zone_Insert_ok z r Hz Hr) as (z2 & err & -> & Hz2 & _ & Herr & _). cbn [mbind option_bind].
  destruct err as [e|]; [by exfalso; apply Hn, Herr|]. apply IH; [done|].
  destruct Hs as [->|[Hr1|Hr1]%Exists_cons]; [by left| |by right].
  left. destruct seen; [done|]. by apply bool_decide_eq_true.
Qed.

(** The serial of the first SOA record of a file. *)
Definition first_soa (rrs : list RR) : option Z := head (omap soa_of rrs).

Lemma Parse_loop_serial rrs z orig fn serial s :
  zone_ok z -> Forall rr_ok rrs -> first_soa rrs = Some s -> (0 <= serial)%Z -> s = u32 serial ->
  exists e, Parse_loop rrs z false orig fn serial = Some (inl e).
Proof.
  intros Hz Hr Hs Hpos Hser. revert z Hz. induction Hr as [|r rrs Hr _ IH]; intros z Hz; [done|].
  cbn [Parse_loop]. unfold first_soa in Hs. simpl in Hs. fold (soa_of r).
  destruct (soa_of r) as [s'|] eqn:Es.
  - simpl in Hs. injection Hs as ->. rewrite !bool_decide_eq_true_2 by (done || by rewrite Hser). by eexists.
  - simpl. destruct (Zone_Insert_ok z r Hz Hr) as (z2 & err & -> & Hz2 & _). cbn [mbind option_bind].
    destruct err as [e|]; [by eexists|]. by apply IH.
Qed.
End file_proofs.

(** ** Serving *)

Section serving.
Context `{GR : GoRange} `{Ok : DnsNamesOk} `{MOk : DnsMsgsOk}.

(** The zones a server is configured with: lower-case origins, each loaded
    with a well-formed zone. *)
Definition loaded (Names : list string) (zs : FileZones) : Prop :=
  forall n, n ∈ Names -> fq_name n /\ lower_name n /\
    exists z, zs !! n = Some (Some z) /\ origin z = n /\ zone_ok z /\ plain_zone z.

(** [zone] is a zone of [Names] that contains [q], and none with more labels
    does. *)
Definition most_specific (Names : list string) (q zone : string) : Prop :=
  zone ∈ Names /\ IsSubDomain zone q = true /\
  forall y, y ∈ Names -> IsSubDomain y q = true -> (length (labels y) <= length (labels zone))%nat.

Lemma Matches_in Names q y :
  fq_name q -> Forall fq_name Names -> y ∈ Names -> IsSubDomain y q = true ->
  Zones_Matches Names q <> EmptyString /\ most_specific Names q (Zones_Matches Names q).
Proof.
  intros Hq Hn Hy Sy. pose proof (Matches_most_specific Names q Hq Hn) as Hm. simpl in Hm.
  case_decide as Hd; [|by split].
  by rewrite Hm in Sy.
Qed.

Lemma loaded_asks Names zs zone z w r q qs :
  loaded Names zs -> zone ∈ Names -> zs !! zone = Some (Some z) ->
  mQuestion r = q :: qs -> host_name (qName q) -> plain_name (ToLower (qName q)) ->
  IsSubDomain zone (ToLower (qName q)) = true ->
  origin z = zone /\ asks z (set_name (ToLower (qName q)) (newRequest w (Some r))) (ToLower (qName q)).
Proof.
  intros Hl Hin Hz Hq Hh Hp Hs. destruct (Hl zone Hin) as (Hf & Hlow & z' & Ez & Ho & Hok & Hpz).
  rewrite Hz in Ez. injection Ez as <-. split; [done|].
  assert (fq_name (ToLower (qName q))) as Hfq by (right; apply Hp).
  split; [done|]. split; [done|]. split; [|split; [done|]].
  - split; [done|]. split; [|split; [done|apply lower_name_idem]].
    unfold Name. rewrite decide_True; [done|]. simpl. by apply fq_name_ne.
  - apply IsSubDomain_ok in Hs; [|done..]. unfold label_suffix in Hs. rewrite Ho.
    rewrite !lower_labels in Hs by (done || apply lower_name_idem). exact Hs.
Qed.
End serving.

(** ** Theorems *)

#[local] Existing Instance range_sorted.
#[local] Existing Instance dns_reference.
#[local] Existing Instance dns_reference_ok.
#[local] Existing Instance msgs_reference.


Definition example_zones : FileZones := {[ "example.org."%string := Some example_zone ]}.
Definition no_exchange : Exchange := fun _ _ => inl "no route to host"%string.
Definition no_transfer : TransferStream := fun _ _ => inl "no route to host"%string.
Definition example_msg (q : string) (typ : Z) : Msg := set_mQuestion [mkQuestion q typ ClassINET] zeroMsg.

Lemma example_loaded : loaded ["example.org."%string] example_zones.
Proof.
  intros n ->%list_elem_of_singleton. split; [decided|]. split; [by vm_compute|].
  exists example_zone. split; [by apply lookup_singleton_Some|]. split; [by vm_compute|].
  split; [apply example_zone_ok|apply example_zone_plain].
Defined.


(** The file plugin keeps the protocol of a handler for every message that is
    not a NOTIFY. *)
Lemma File_replies `{GoRange} `{DnsNames} `{DnsMsgs} (exch : Exchange) (xfr : TransferStream) (up : Upstream)
    {W} (zones : W -> FileZones) (put_zones : FileZones -> W -> W) (next : option (Handler W)) (Names : list string)
    (b : bool) (r : Msg) :
  (forall h, next = Some h -> replies b h r) -> mOpcode r <> OpcodeNotify ->
  replies b (File_ServeDNS exch xfr up zones put_zones next Names) r.
Proof.
  intros Hn Ho ctx w s s' msgs rcode err. unfold File_ServeDNS.
  destruct (Name (newRequest w (Some r))) as [state qname]. simpl.
  case_decide as Hz; [by apply (NextOrFailure_replies b File_Name next r Hn)|].
  destruct (zones s !! Zones_Matches Names qname) as [[z|]|]; [|by intros [= <- <- <- <-]..].
  case_decide; [by intros [= <- <- <- <-]|]. rewrite decide_False by done.
  destruct (Expired z); [by intros [= <- <- <- <-]|].
  destruct (Lookup _ _ _ _ _) as [res|]; [|done]. cbn [mbind option_bind]. unfold File_reply.
  destruct (lResult res); try by intros [= <- <- <- <-].
  case_decide; by intros [= <- <- <- <-].
Qed.

(** Round trip of a zone transfer: when a secondary transfers from a server
    that sends out a well-formed zone, however the records are cut into
    envelopes, it ends up with the same apex, and with the same names in the
    same order holding the same records; and it is no longer expired. *)
Theorem axfr_roundtrip `{GoRange} `{DnsNamesOk} (z zsec : Zone) (tr : string) (trs : list string) (xfr : TransferStream)
    (batches rrss : list (list RR)) :
  zone_ok z -> zone_clean z -> zone_ok zsec -> origin zsec = origin z -> TransferFrom zsec = tr :: trs ->
  Zone_Transfer z 0 = Some (inl batches) -> concat rrss = concat batches ->
  xfr (origin z) tr = inr (map inr rrss) ->
  exists z', TransferIn xfr zsec = Some (z', None) /\ zone_ok z' /\ origin z' = origin z /\ Expired z' = false /\
    zApex z' = zApex z /\ Forall2 same_elem (elems (Root (zTree z))) (elems (Root (zTree z'))).
Proof.
  intros Hz Hc Hsec Ho Hf Hb Hcat Hx.
  destruct (aSOA (zApex z)) as [soa|] eqn:Es; [|by unfold Zone_Transfer, ApexIfDefined in Hb; rewrite Es in Hb].
  destruct (Zone_Transfer_axfr z soa 0 Hz Es) as (s & _ & Hax). rewrite decide_False in Hax by tauto.
  destruct Hax as (batches' & Eb & Ecat). rewrite Hb in Eb. injection Eb as <-.
  destruct (CopyWithoutApex_ok zsec Hsec) as [Hcopy Hco].
  destruct (insert_rrs_stored (axfr z soa) _ Hcopy (axfr_insertable z soa Hz Hc Es)) as (z1 & E1 & Hz1 & Ho1 & Ha & Hel).
  unfold TransferIn. rewrite Hf, decide_False by done. cbn [transfer_loop]. rewrite Ho, Hx, insert_envelopes_concat.
  rewrite Hcat, Ecat, E1. cbn [mbind option_bind]. eexists. split; [reflexivity|]. rewrite Hco, Ho in Ha, Hel.
  destruct Hsec as (S1 & S2 & _), Hz1 as (_ & _ & S3 & S4 & S5). rewrite Ho1, Hco in S5.
  split; [done|]. split; [done|]. split; [done|]. simpl. rewrite Ha, Hel. split.
  - by apply axfr_apex.
  - by apply axfr_tree.
Qed.

Definition one_envelope (batches : list (list RR)) : TransferStream := fun _ _ => inr (map inr [concat batches]).

Lemma parsed_example : exists z batches, Parse (mkParser example_records None) "example.org." "db" (-1) = Some (inr z) /\
  zone_ok z /\ zone_clean z /\ origin z = "example.org."%string /\ Zone_Transfer z 0 = Some (inl batches).
Proof.
  destruct (Parse_ok (mkParser example_records None) "example.org." "db" (-1)) as (res & E & Hres); [decided|decided|].
  destruct res as [e|z].
  { exfalso. apply (f_equal (fun o => match o with Some (inr _) => true | _ => false end)) in E. vm_compute in E. discriminate E. }
  destruct (Hres z eq_refl) as (Hz & Hc & Ho & Hs). destruct (aSOA (zApex z)) as [soa|] eqn:Es; [|exfalso; exact (Hs eq_refl)].
  destruct (Zone_Transfer_axfr z soa 0 Hz Es) as (s & _ & Hax). rewrite decide_False in Hax by tauto.
  destruct Hax as (batches & Eb & _). exists z, batches. split; [exact E|]. split; [exact Hz|].
  split; [exact Hc|]. split; [exact Ho|exact Eb].
Defined.

Lemma axfr_roundtrip_witness :
  exists z batches z', Zone_Transfer z 0 = Some (inl batches) /\
    TransferIn (one_envelope batches) sec_zone = Some (z', None) /\ zApex z' = zApex z.
Proof.
  destruct parsed_example as (z & batches & _ & Hz & Hc & Ho & Eb).
  destruct (@axfr_roundtrip range_sorted dns_reference dns_reference_ok z sec_zone "10.0.0.1:53" ["10.0.0.2:53"%string]
    (one_envelope batches) batches [concat batches] Hz Hc sec_zone_ok) as (z' & E & _ & _ & _ & Ha & _).
  - rewrite Ho. by vm_compute.
  - by vm_compute.
  - exact Eb.
  - simpl. apply app_nil_r.
  - reflexivity.
  - exists z, batches, z'. split; [exact Eb|]. split; [exact E|exact Ha].
Defined.

(** Parsing well-formed records always returns, with an error or with a
    well-formed zone that has the origin asked for and a SOA record, keeps the
    apex records out of the tree and has no empty element. *)
Theorem parse_well_formed `{GoRange} `{DnsNamesOk} (zp : ZoneParser) (orig fileName : string) (serial : Z) :
  fq_name orig -> Forall rr_ok (zpRecords zp) ->
  exists res, Parse zp orig fileName serial = Some res /\
  forall z, res = inr z -> zone_ok z /\ zone_clean z /\ origin z = orig /\ aSOA (zApex z) <> None.
Proof. apply Parse_ok. Qed.

Lemma parse_well_formed_witness :
  exists res, Parse (mkParser example_records None) "example.org." "db.example.org" (-1) = Some res.
Proof.
  destruct (@parse_well_formed range_sorted dns_reference dns_reference_ok (mkParser example_records None)
    "example.org." "db.example.org" (-1)) as (res & E & _); [decided|decided|]. exists res. exact E.
Defined.

(** Parsing stops at a syntax error without reporting it: as soon as the
    records read before the error contain a SOA record (and no NSEC3 record),
    Parse succeeds with the zone made of just those records, whatever error
    the parser holds at the end. *)
Theorem parse_ignores_syntax_error `{GoRange} `{DnsNamesOk} (rrs : list RR) (err : option string)
    (orig fileName : string) (serial : Z) :
  fq_name orig -> (serial < 0)%Z -> Forall (fun r => rr_ok r /\ ~ is_nsec3 r) rrs ->
  Exists (fun r => soa_of r <> None) rrs ->
  exists z, Parse (mkParser rrs err) orig fileName serial = Some (inr z) /\
    insert_rrs (NewZone orig fileName) rrs = Some (z, None).
Proof.
  intros Ho Hser Hr Hs. apply Parse_loop_exact; [by apply NewZone_ok|done|done|by right].
Qed.

Lemma parse_ignores_syntax_error_witness :
  exists z, Parse (mkParser example_records (Some "dns: bad A A"%string)) "example.org." "db.example.org" (-1) =
            Some (inr z).
Proof.
  destruct (@parse_ignores_syntax_error range_sorted dns_reference dns_reference_ok example_records
    (Some "dns: bad A A"%string) "example.org." "db.example.org" (-1)) as (z & E & _);
    [decided|lia|decided| |exists z; exact E].
  left. by vm_compute.
Defined.

(** A reload tick on well-formed zone data never panics and keeps the zone
    well formed; when the file cannot be opened or parsed, or its first SOA
    record has the serial of the running zone, nothing changes, and otherwise
    the records are replaced by those of the file, the expired flag and the
    primaries staying as they were. *)
Theorem reload_keeps_or_replaces `{GoRange} `{DnsNamesOk} (zp : option ZoneParser) (z : Zone) :
  zone_ok z -> match zp with Some zp => Forall rr_ok (zpRecords zp) | None => True end ->
  exists z' s, Reload_tick zp z = Some z' /\ SOASerialIfDefined z = Some s /\
    zone_ok z' /\ origin z' = origin z /\ Expired z' = Expired z /\ TransferFrom z' = TransferFrom z /\
    (zp = None -> z' = z) /\
    forall p, zp = Some p ->
      (first_soa (zpRecords p) = Some (u32 s) -> (0 <= s)%Z -> z' = z) /\
      match Parse p (origin z) (File z) s with
      | Some (inr new) => zTree z' = zTree new /\ zApex z' = zApex new
      | _ => z' = z
      end.
Proof.
  intros Hz Hp.
  assert (exists s, SOASerialIfDefined z = Some s) as [s Hs].
  { unfold SOASerialIfDefined. destruct (aSOA (zApex z)) as [soa|] eqn:E; [|by eexists].
    destruct (Zone_Transfer_axfr z soa 0 Hz E) as (s & Es & _). by exists s. }
  destruct zp as [p|]; [|by exists z, s].
  destruct (Parse_ok p (origin z) (File z) s) as (res & E & Hres); [apply Hz|done|].
  unfold Reload_tick. rewrite Hs. cbn [mbind option_bind]. rewrite E. cbn [mbind option_bind].
  destruct res as [e|new].
  - exists z, s. split; [done|]. split; [done|]. split; [done|]. do 4 (split; [done|]). intros p' [= <-]. by rewrite E.
  - destruct (Hres new eq_refl) as ((S1 & S2 & S3 & S4 & S5) & _ & So & Hsoa). destruct (aSOA (zApex new)); [|done].
    eexists _, s. split; [reflexivity|]. split; [done|]. rewrite So in S5.
    split; [by destruct Hz as (? & ? & _)|]. do 4 (split; [done|]). intros p' [= <-]. rewrite E. split; [|done].
    intros Hf Hpos. destruct (Parse_loop_serial (zpRecords p) (NewZone (origin z) (File z)) (origin z) (File z) s (u32 s))
      as [e E']; [apply NewZone_ok; apply Hz|done..|]. unfold Parse in E. by rewrite E' in E.
Qed.

Lemma reload_keeps_or_replaces_witness :
  exists z', Reload_tick (Some (mkParser example_records None)) example_zone = Some z' /\ z' = example_zone.
Proof.
  destruct (@reload_keeps_or_replaces range_sorted dns_reference dns_reference_ok (Some (mkParser example_records None))
    example_zone example_zone_ok) as (z' & s & E & Es & _ & _ & _ & _ & _ & Hp); [decided|].
  assert (SOASerialIfDefined example_zone = Some 1%Z) as E1 by (by vm_compute). rewrite E1 in Es. injection Es as <-.
  destruct (Hp _ eq_refl) as [Hk _]. exists z'. split; [exact E|]. apply Hk; [by vm_compute|lia].
Defined.
