(* ===== verification/TransferTheorems.v ===== *)
(** * Properties of the transfer plugin

    What goes out in envelopes is what the plugin that has the zone sends, and
    a zone of the file plugin that a secondary transfers through it arrives. *)

From S2P Require Import Prelude.
From S2P Require Import GoStd.
From S2P Require Import GoNet.
From S2P Require Import DnsNames.
From S2P Require Import DnsMsg.
From S2P Require Import Request.
From S2P Require Import Plugin.
From S2P Require Import Elem.
From S2P Require Import Tree.
From S2P Require Import TreeSpec.
From S2P Require Import Zone.
From S2P Require Import ZoneSpec.
From S2P Require Import Transfer.
From S2P Require Import Secondary.
From S2P Require Import SecondaryTheorems.
From S2P Require Import FilePlugin.
From S2P Require Import FileTheorems.

(** The loop loses nothing and keeps the order. *)
Lemma fill_envelopes_spec batches sent rrs soa :
  Forall (fun b => b <> []) batches ->
  exists sent' rrs' soa', fill_envelopes batches sent rrs soa = Some (sent', rrs', soa') /\
    concat sent' ++ rrs' = concat sent ++ rrs ++ concat batches /\
    (forall r, soa = Some r -> soa' = Some r).
Proof.
  intros Hb. revert sent rrs soa. induction Hb as [|b batches Hb _ IH]; intros sent rrs soa.
  { eexists _, _, _. split; [done|]. simpl. by rewrite app_nil_r. }
  cbn [fill_envelopes]. destruct b as [|x b]; [done|]. cbn [head mbind option_bind].
  set (soa1 := match rdata x, soa with SOA _ _ _ _ _ _ _, None => Some x | _, _ => soa end).
  assert (forall r, soa = Some r -> soa1 = Some r) as H1 by (intros r ->; unfold soa1; by destruct (rdata x)).
  case_decide.
  - destruct (IH (sent ++ [rrs ++ x :: b]) [] soa1) as (s' & r' & a' & E & Hc & Ha). exists s', r', a'. split; [done|].
    split; [|auto]. rewrite Hc, concat_app. simpl. by rewrite app_nil_r, <- !app_assoc.
  - destruct (IH sent (rrs ++ x :: b) soa1) as (s' & r' & a' & E & Hc & Ha). exists s', r', a'. split; [done|].
    split; [|auto]. rewrite Hc. simpl. by rewrite <- !app_assoc.
Qed.

(** Batches of a transfer: they begin with the SOA record and end with it. *)
Definition framed (soa : RR) (batches : list (list RR)) : Prop :=
  is_Some (soa_serial soa) /\ Forall (fun b => b <> []) batches /\
  (exists b rest, batches = (soa :: b) :: rest) /\ exists init, concat batches = init ++ [soa].

Section sending.
Context `{DnsNames} `{Mok : DnsMsgsOk} {W : Type} (Envelope : Msg -> list RR -> Msg) (send : Msg -> st W (option string)).

(** An envelope holds "the set of RRs in the answer section of the xfr reply
    message". *)
Context (Henv : forall r rrs, mAnswer (Envelope r rrs) = rrs) (Hsend : forall m, wp (send m) (fun _ => True)).

Lemma transfer_Out_wp r envelopes :
  wp (transfer_Out Envelope send r envelopes) (fun res => res.2 = None -> map mAnswer res.1 = envelopes).
Proof using Henv Hsend.
  induction envelopes as [|rrs envelopes IH]; [by apply wp_ret|]. cbn [transfer_Out].
  apply wp_bind. eapply wp_mono; [apply Hsend|]. intros [e|] _; [by apply wp_ret|].
  apply wp_bind. eapply wp_mono; [exact IH|]. intros [ms err] Hms. apply wp_ret. simpl in *. intros He. by rewrite Henv, Hms.
Qed.

(** The answers of the messages, one after the other, are the records. *)
Lemma transfer_send_wp r soa batches :
  framed soa batches ->
  wp (transfer_send Envelope send r batches)
     (fun '(msgs, rcode, err) => err = None -> rcode = RcodeSuccess /\ concat (map mAnswer msgs) = concat batches).
Proof using Henv Hsend Mok.
  intros (Hs & Hne & (b & rest & Eb) & (init & Hl)). unfold transfer_send.
  assert (exists sent rrs, fill_envelopes batches [] [] None = Some (sent, rrs, Some soa) /\
    concat sent ++ rrs = concat batches) as (sent & rrs & Ef & Hc).
  { rewrite Eb in Hne |- *. apply Forall_cons in Hne as [_ Hrest]. cbn [fill_envelopes head mbind option_bind]. unfold soa_serial in Hs. destruct (rdata soa); try (by destruct Hs).
    case_decide.
    - destruct (fill_envelopes_spec rest ([] ++ [[] ++ soa :: b]) [] (Some soa) Hrest) as (s' & r' & a' & E & Hc & Ha).
      rewrite (Ha _ eq_refl) in E. exists s', r'. split; [done|]. rewrite Hc. simpl. by rewrite app_nil_r.
    - destruct (fill_envelopes_spec rest [] ([] ++ soa :: b) (Some soa) Hrest) as (s' & r' & a' & E & Hc & Ha).
      rewrite (Ha _ eq_refl) in E. by exists s', r'. }
  apply wp_bind. eapply wp_option; [exact Ef|].
  assert (wp ('(msgs, err) ← transfer_Out Envelope send r (sent ++ match rrs with [] => [] | _ => [rrs] end);
             match err with
             | Some e => mret (msgs, RcodeServerFailure, Some e)
             | None => mret (msgs, RcodeSuccess, None)
             end) (fun '(msgs, rcode, err) => err = None -> rcode = RcodeSuccess /\ concat (map mAnswer msgs) = concat batches)) as Hall.
  { apply wp_bind. eapply wp_mono; [apply transfer_Out_wp|]. intros [msgs [e|]] Hm; apply wp_ret; [done|]. intros _. split; [done|].
    simpl in Hm. rewrite Hm, concat_app, <- Hc by done. f_equal. destruct rrs; [done|]. simpl. by rewrite app_nil_r. }
  destruct rrs as [|x [|y rrs]]; [exact Hall| |exact Hall].
  assert (x = soa /\ concat sent = init) as [-> Hi] by (rewrite Hl in Hc; apply app_inj_tail in Hc; tauto).
  apply wp_bind. eapply wp_mono; [apply transfer_Out_wp|]. intros [msgs [e|]] Hm; apply wp_ret; [done|]. intros _. split; [done|].
  simpl in Hm. rewrite map_app, concat_app, Hm by done. simpl. by rewrite Hl, Hi.
Qed.
End sending.

(** The file plugin as one that transfers. *)
Definition file_transferer `{GoRange} {W} (zones : W -> FileZones) : Transferer W := fun zone serial s =>
  r ← File_Transfer (zones s) zone serial; Some (s, r).

Section serving.
Context `{GoRange} `{DnsNamesOk} `{Mok : DnsMsgsOk} {W : Type} (Envelope : Msg -> list RR -> Msg) (send : Msg -> st W (option string)).
Context (Henv : forall r rrs, mAnswer (Envelope r rrs) = rrs) (Hsend : forall m, wp (send m) (fun _ => True)).

Lemma axfr_framed z soa : zone_ok z -> zone_clean z -> aSOA (zApex z) = Some soa -> framed soa (axfr_batches z soa).
Proof using.
  intros Hz Hc Es. destruct (Zone_Transfer_batches z soa 0 Hz Es) as (s & E & _). split; [by eexists|].
  split; [by apply axfr_batches_ne|]. split; [by eexists _, _|]. rewrite concat_axfr_batches. unfold axfr.
  eexists. rewrite !app_comm_cons, !app_assoc. done.
Qed.

(** A client that transfers may be sent to gets the whole zone. *)
Lemma Transfer_file zones others xfrs next ctx cw r q qs w z soa x :
  mQuestion r = q :: qs -> host_name (qName q) -> qType q = TypeAXFR -> Proto (newRequest cw (Some r)) = "tcp"%string ->
  longestMatch xfrs (qName q) = Some x -> xfr_allowed (xTo x) (Request_IP (newRequest cw (Some r))).2 = true ->
  zones w !! qName q = Some (Some z) -> zone_ok z -> zone_clean z -> aSOA (zApex z) = Some soa ->
  exists w' msgs rcode err,
    Transfer_ServeDNS Envelope send (file_transferer zones :: others) xfrs next ctx cw r w = Some (w', msgs, rcode, err) /\
    (err = None -> rcode = RcodeSuccess /\ concat (map mAnswer msgs) = axfr z soa).
Proof using Henv Hsend Mok.
  intros Hq Hh Ht Hp Hx Ha Hzone Hz Hc Es. unfold Transfer_ServeDNS. set (state := newRequest cw (Some r)) in *.
  assert (QType state = TypeAXFR /\ QName state = qName q) as [HT HN].
  { unfold QType, QName, state. simpl. rewrite Hq. split; [done|]. by apply Name_String_host. }
  rewrite HT, decide_False by (by intros [? _]). rewrite decide_False by (by intros []). rewrite HN, Hx.
  destruct (Request_IP state) as [state1 ip] eqn:Ei. simpl in Ha. rewrite Ha. cbn [negb].
  assert (QType state1 = TypeAXFR /\ QName state1 = qName q) as [HT1 HN1].
  { unfold Request_IP in Ei. rewrite <- HT, <- HN. repeat case_match; by simplify_eq. }
  rewrite HT1, decide_False by done. rewrite HN1.
  destruct (Zone_Transfer_batches z soa 0 Hz Es) as (s & _ & Et). rewrite decide_False in Et by (by intros []).
  assert (first_channel (file_transferer zones :: others) (qName q) 0 w = Some (w, inl (Some (axfr_batches z soa)))) as ->.
  { cbn [first_channel]. unfold mbind, st_bind, file_transferer, File_Transfer. rewrite Hzone, Et. done. }
  cbn [mbind option_bind].
  destruct (transfer_send_wp Envelope send Henv Hsend r soa _ (axfr_framed z soa Hz Hc Es) w) as (w' & [[msgs rc] err] & E & Hr).
  rewrite E. cbn [mbind option_bind]. exists w', msgs, rc, err. split; [done|]. by rewrite <- concat_axfr_batches.
Qed.
End serving.

(** C5 A zone goes from one server to another: a server with a well-formed
    zone in its file plugin answers a zone transfer, asked for over TCP by a
    client it allows, without a panic; and unless sending fails, a secondary
    that reads the answers of its messages, in however many envelopes, ends up
    with the same apex, the same names in the same order holding the same
    records, and is not expired. *)
Theorem transfer_roundtrip `{GoRange} `{DnsNamesOk} `{DnsMsgsOk} {W} (Envelope : Msg -> list RR -> Msg)
    (send : Msg -> st W (option string)) (zones : W -> FileZones) (others : list (Transferer W)) (xfrs : list xfr)
    (next : option (Handler W)) (ctx : Ctx) (cw : Writer) (r : Msg) (q : Question) (qs : list Question) (w : W)
    (z zsec : Zone) (x : xfr) (tr : string) (trs : list string) :
  (forall r rrs, mAnswer (Envelope r rrs) = rrs) -> (forall m, wp (send m) (fun _ => True)) ->
  mQuestion r = q :: qs -> host_name (qName q) -> qType q = TypeAXFR -> Proto (newRequest cw (Some r)) = "tcp"%string ->
  longestMatch xfrs (qName q) = Some x -> xfr_allowed (xTo x) (Request_IP (newRequest cw (Some r))).2 = true ->
  zones w !! qName q = Some (Some z) -> zone_ok z -> zone_clean z -> aSOA (zApex z) <> None -> origin z = qName q ->
  zone_ok zsec -> origin zsec = origin z -> TransferFrom zsec = tr :: trs ->
  exists w' msgs rcode err,
    Transfer_ServeDNS Envelope send (file_transferer zones :: others) xfrs next ctx cw r w = Some (w', msgs, rcode, err) /\
    (err = None -> rcode = RcodeSuccess /\
     forall stream : TransferStream, stream (origin z) tr = inr (map inr (map mAnswer msgs)) ->
     exists z', TransferIn stream zsec = Some (z', None) /\ zone_ok z' /\ Expired z' = false /\ zApex z' = zApex z /\
       Forall2 same_elem (elems (Root (zTree z))) (elems (Root (zTree z')))).
Proof.
  intros Henv Hsend Hq Hh Ht Hp Hx Ha Hzone Hz Hc Hs Ho Hsec Hos Htr.
  destruct (aSOA (zApex z)) as [soa|] eqn:Es; [|done].
  destruct (Transfer_file Envelope send Henv Hsend zones others xfrs next ctx cw r q qs w z soa x) as (w' & msgs & rc & err & E & Hr); try done.
  exists w', msgs, rc, err. split; [done|]. intros He. destruct (Hr He) as [-> Hm]. split; [done|]. intros stream Hst.
  destruct (Zone_Transfer_batches z soa 0 Hz Es) as (s & _ & Et). rewrite decide_False in Et by (by intros []).
  destruct (axfr_roundtrip z zsec tr trs stream _ (map mAnswer msgs) Hz Hc Hsec Hos Htr Et) as (z' & E1 & Hz' & _ & He' & Hap & Htree); [|done|].
  - by rewrite concat_axfr_batches.
  - by exists z'.
Qed.

(** ** Closed instances *)

#[local] Existing Instance dns_reference.
#[local] Existing Instance dns_reference_ok.
#[local] Existing Instance msgs_reference.
#[local] Existing Instance msgs_reference_ok.
#[local] Existing Instance range_sorted.

Definition tcp_client : Writer := mkWriter (TCPAddr [10; 0; 0; 2]%Z "10.0.0.2:4000") (TCPAddr [10; 0; 0; 1]%Z "10.0.0.1:53").
Definition xfr_query (name : string) (typ : Z) : Msg := set_mQuestion [mkQuestion name typ ClassINET] zeroMsg.
Definition envelope (r : Msg) (rrs : list RR) : Msg := set_sections rrs [] [] (SetReply zeroMsg r).
Definition example_xfrs : list xfr := [mkXfr ["example.org."%string] ["10.0.0.2:53"%string]].

Lemma transfer_roundtrip_witness :
  exists z w' msgs rcode err,
    Transfer_ServeDNS envelope (fun _ => mret None) [file_transferer id] example_xfrs None (mkCtx 0 None) tcp_client
      (xfr_query "example.org." TypeAXFR) {["example.org."%string := Some z]} = Some (w', msgs, rcode, err) /\
    (err = None -> rcode = RcodeSuccess /\
     forall stream : TransferStream, stream "example.org."%string "10.0.0.1:53"%string = inr (map inr (map mAnswer msgs)) ->
     exists z', TransferIn stream sec_zone = Some (z', None) /\ zApex z' = zApex z).
Proof.
  destruct parsed_example as (z & batches & Ep & Hz & Hc & Ho & Eb). exists z.
  destruct (transfer_roundtrip envelope (fun _ => mret None) id [] example_xfrs None (mkCtx 0 None) tcp_client
    (xfr_query "example.org." TypeAXFR) (mkQuestion "example.org." TypeAXFR ClassINET) [] {["example.org."%string := Some z]}
    z sec_zone (mkXfr ["example.org."%string] ["10.0.0.2:53"%string]) "10.0.0.1:53" ["10.0.0.2:53"%string])
    as (w' & msgs & rc & err & E & Hr).
  - reflexivity.
  - intros m. by apply wp_ret.
  - reflexivity.
  - decided.
  - reflexivity.
  - reflexivity.
  - vm_compute. reflexivity.
  - vm_compute. reflexivity.
  - apply lookup_singleton_eq.
  - exact Hz.
  - exact Hc.
  - intros Hs. unfold Zone_Transfer, ApexIfDefined in Eb. rewrite Hs in Eb. discriminate Eb.
  - exact Ho.
  - apply sec_zone_ok.
  - rewrite Ho. by vm_compute.
  - by vm_compute.
  - exists w', msgs, rc, err. split; [exact E|]. intros He. destruct (Hr He) as [Hrc Hst]. split; [exact Hrc|]. intros stream Hs.
    rewrite Ho in Hst. destruct (Hst stream Hs) as (z' & Et & _ & _ & Hap & _). exists z'. split; [exact Et|exact Hap].
Defined.

(** The zone that is chosen is the greatest one in the order of bytes. *)
Example longest_match_is_not_longest :
  longestMatch [mkXfr ["sub.example.org."%string] ["10.0.0.2:53"%string]; mkXfr ["example.org."%string; "org."%string] ["*"%string];
                mkXfr ["a.sub.example.org."%string] []] "a.sub.example.org." =
  Some (mkXfr ["sub.example.org."%string] ["10.0.0.2:53"%string]).
Proof. reflexivity. Qed.

(** A plugin that sends an empty batch makes the transfer panic. *)
Example empty_batch_panics soa : fill_envelopes [[soa]; []; [soa]] [] [] None = None.
Proof. cbn [fill_envelopes head mbind option_bind]. by destruct (rdata soa). Qed.
