(* ===== verification/ServerTheorems.v ===== *)
(** * Properties of the server *)

From S2P Require Import Prelude.
From S2P Require Import GoStd.
From S2P Require Import DnsNames.
From S2P Require Import DnsMsg.
From S2P Require Import Request.
From S2P Require Import Elem.
From S2P Require Import Tree.
From S2P Require Import Zone.
From S2P Require Import ZoneSpec.
From S2P Require Import Plugin.
From S2P Require Import Server.
From S2P Require Import Secondary.
From S2P Require Import Lookup.
From S2P Require Import LookupSpec.
From S2P Require Import LookupTheorems.
From S2P Require Import FilePlugin.
From S2P Require Import FileTheorems.

(** ** Routing *)

Section routing.
Context {W : Type}.
Context `{Ok : DnsNamesOk} `{Dm : DnsMsgs}.

(** The name and the names above it, up to its last label. *)
Definition enclosing (q : string) : list string :=
  map (fun k => dotted (drop k (dlabels q))) (seq 0 (length (dlabels q))).

Definition zone_configs (s : Server W) (zone : string) : list (Config W) := default [] (sZones s !! zone).

(** The configurations of all the zones that contain the name, most specific
    zone first. *)
Definition candidates (s : Server W) (q : string) : list (Config W) :=
  concat (map (zone_configs s) (enclosing q)).

Lemma route_configs_app (z1 z2 : list (Config W)) ds req ctx dsh :
  route_configs (z1 ++ z2) ds req ctx dsh =
  match route_configs z1 ds req ctx dsh with
  | Search ctx dsh => route_configs z2 ds req ctx dsh
  | r => r
  end.
Proof.
  revert ctx dsh. induction z1 as [|h z1 IH]; intros ctx dsh; simpl; [done|].
  destruct (cChain h); [|done]. destruct (passAllFilterFuncs _ _ _); [|apply IH]. destruct ds; [apply IH|done].
Qed.

Lemma NextLabel_dlabels q k :
  fq_name q -> (k < length (dlabels q))%nat ->
  if decide (S k < length (dlabels q))%nat
  then NextLabel q (label_start (dlabels q) k) = (label_start (dlabels q) (S k), false)
  else (NextLabel q (label_start (dlabels q) k)).2 = true.
Proof.
  intros [->|Hv] Hk.
  - change (dlabels dot) with [EmptyString] in *. simpl in Hk. rewrite decide_False by (simpl; lia).
    replace k with 0%nat by lia. apply NextLabel_root.
  - rewrite dlabels_valid in * by done. case_decide; [by apply NextLabel_start|].
    apply NextLabel_last; [done|lia].
Qed.

Lemma route_labels_spec s q fuel k ds req ctx dsh :
  fq_name q -> (k < length (dlabels q))%nat -> (length (dlabels q) - k <= fuel)%nat ->
  route_labels fuel s q (label_start (dlabels q) k) ds req ctx dsh =
  Some (route_configs (concat (map (zone_configs s) (drop k (enclosing q)))) ds req ctx dsh).
Proof.
  intros Hq. revert k ctx dsh. induction fuel as [|fuel IH]; intros k ctx dsh Hk Hf; [lia|]. cbn [route_labels].
  assert (slice_from q (label_start (dlabels q) k) = Some (dotted (drop k (dlabels q)))) as ->.
  { rewrite (name_or_empty_dotted q (or_intror Hq)) at 1. apply label_start_drop. }
  cbn [mbind option_bind].
  assert (drop k (enclosing q) = dotted (drop k (dlabels q)) :: drop (S k) (enclosing q)) as ->.
  { apply drop_S. unfold enclosing. rewrite list_lookup_fmap, lookup_seq_lt by done. done. }
  cbn [map concat]. rewrite route_configs_app. unfold zone_configs at 1.
  assert (match sZones s !! dotted (drop k (dlabels q)) with
          | Some z => route_configs z ds req ctx dsh
          | None => Search ctx dsh
          end = route_configs (default [] (sZones s !! dotted (drop k (dlabels q)))) ds req ctx dsh) as ->
    by (by destruct (sZones s !! _)).
  destruct (route_configs _ ds req ctx dsh) as [| |ctx' dsh']; [done|done|].
  pose proof (NextLabel_dlabels q k Hq Hk) as Hn. case_decide as Hlast.
  - rewrite Hn. apply IH; lia.
  - destruct (NextLabel q _) as [off e]. simpl in Hn. rewrite Hn.
    rewrite drop_ge; [done|]. unfold enclosing. rewrite length_map, length_seq. lia.
Qed.

Lemma route_spec s ctx w r q :
  fq_name (ToLower (qName q)) ->
  route s ctx w r q =
  let req := newRequest w (Some r) in
  let ds := bool_decide (qType q = TypeDS) in
  match route_configs (candidates s (ToLower (qName q))) ds req ctx None with
  | Search ctx dsh =>
      match (if ds then dsh ≫= cChain else None) with
      | Some chain => Some (Serve ctx chain)
      | None => Some (route_root (zone_configs s dot) req ctx)
      end
  | rt => Some rt
  end.
Proof.
  intros Hq. unfold route, candidates.
  assert (0 < length (dlabels (ToLower (qName q))))%nat as Hl.
  { pose proof (dlabels_ne _ Hq). destruct (dlabels (ToLower (qName q))); [done|simpl; lia]. }
  assert (length (dlabels (ToLower (qName q))) <= S (slen (ToLower (qName q))))%nat as Hlen.
  { rewrite (name_or_empty_dotted _ (or_intror Hq)) at 2. clear. induction (dlabels _) as [|l ls IH]; simpl; [lia|].
    rewrite slen_app, slen_app. simpl. lia. }
  pose proof (route_labels_spec s (ToLower (qName q)) (S (slen (ToLower (qName q)))) 0
    (bool_decide (qType q = TypeDS)) (newRequest w (Some r)) ctx None Hq Hl ltac:(lia)) as E.
  change (label_start (dlabels (ToLower (qName q))) 0) with 0%nat in E. rewrite E. cbn [mbind option_bind].
  rewrite drop_0. by destruct (route_configs _ _ _ _ _).
Qed.

(** A configuration with plugins, without a metadata collector, and whose
    filters do not look at the context. *)
Definition plain_config (h : Config W) : Prop :=
  cChain h <> None /\ cMeta h = None /\
  Forall (fun ff : FilterFunc => forall ctx ctx' req, ff ctx req = ff ctx' req) (cFilterFuncs h).

Definition plain_server (s : Server W) : Prop := map_Forall (fun _ z => Forall plain_config z) (sZones s).

(** All the filters of the configuration let the request pass. *)
Definition passes (req : Request) (h : Config W) : Prop :=
  forallb (fun ff : FilterFunc => ff (mkCtx 0 None) req) (cFilterFuncs h) = true.

#[export] Instance passes_dec req h : Decision (passes req h).
Proof. unfold passes. apply _. Defined.

(** The request is handed to the chain of [h]. *)
Definition served (ctx : Ctx) (h : Config W) : Route :=
  match cChain h with Some chain => Serve ctx chain | None => Refuse end.

Lemma passAll_plain h ctx req :
  plain_config h -> passAllFilterFuncs ctx (cFilterFuncs h) req = bool_decide (passes req h).
Proof.
  intros (_ & _ & Hf). apply eq_true_iff_eq. rewrite bool_decide_eq_true. unfold passes.
  induction Hf as [|ff ffs Hff _ IH]; simpl; [done|].
  rewrite (Hff ctx (mkCtx 0 None)). destruct (ff _ req); [exact IH|done].
Qed.

Lemma route_configs_plain z ds req ctx dsh :
  Forall plain_config z ->
  route_configs z ds req ctx dsh =
  let hs := filter (passes req) z in
  if ds then Search (fold_left (fun c h => in_view h c) hs ctx) (match last hs with Some h => Some h | None => dsh end)
  else match head hs with Some h => served (in_view h ctx) h | None => Search ctx dsh end.
Proof.
  intros Hz. revert ctx dsh. induction Hz as [|h z Hh Hz IH]; intros ctx dsh; cbn [route_configs].
  { by destruct ds. }
  pose proof Hh as (Hc & Hm & _). destruct (cChain h) as [chain|] eqn:Ec; [|done].
  assert (collect h ctx req = ctx) as -> by (unfold collect; by rewrite Hm).
  rewrite (passAll_plain h ctx req Hh), filter_cons. case_bool_decide as Hp.
  - rewrite decide_True by done. destruct ds; [|simpl; unfold served; by rewrite Ec].
    rewrite IH. cbn zeta. cbn [fold_left]. rewrite last_cons. by destruct (last (filter _ z)).
  - rewrite decide_False by done. apply IH.
Qed.

Lemma route_root_plain z req ctx :
  Forall plain_config z ->
  route_root z req ctx = match head (filter (passes req) z) with Some h => served (in_view h ctx) h | None => Refuse end.
Proof.
  intros Hz. induction Hz as [|h z Hh Hz IH]; [done|]. cbn [route_root].
  pose proof Hh as (Hc & Hm & _). destruct (cChain h) as [chain|] eqn:Ec; [|done].
  assert (collect h ctx req = ctx) as -> by (unfold collect; by rewrite Hm).
  rewrite (passAll_plain h ctx req Hh), filter_cons. case_bool_decide as Hp.
  - rewrite decide_True by done. simpl. unfold served. by rewrite Ec.
  - rewrite decide_False by done. exact IH.
Qed.

Lemma candidates_plain s q : plain_server s -> Forall plain_config (candidates s q).
Proof.
  intros Hs. unfold candidates. apply Forall_concat, Forall_map, Forall_forall. intros n _. unfold zone_configs.
  destruct (sZones s !! n) as [z|] eqn:E; [|constructor]. apply (Hs _ _ E).
Qed.

Lemma zone_configs_plain s n : plain_server s -> Forall plain_config (zone_configs s n).
Proof. intros Hs. unfold zone_configs. destruct (sZones s !! n) as [z|] eqn:E; [|constructor]. apply (Hs _ _ E). Qed.
End routing.

(** ** Replies *)

Section replies.
Context {W : Type}.
Context `{Dn : DnsNames} `{MOk : DnsMsgsOk}.

Lemma SizeAndDo_total sup w r m :
  exists r' m' b, SizeAndDo sup (newRequest w (Some r)) m = Some (r', m', b) /\
    Req r' <> None /\ r_size r' = 0%Z /\ rW r' = w.
Proof.
  unfold SizeAndDo. simpl. destruct (IsEdns0 r) as [i|] eqn:Ei; [|by eexists _, _, _].
  destruct (IsEdns0_Some r i Ei) as (o & -> & _). simpl.
  destruct (IsEdns0 m) as [j|] eqn:Ej; [|by eexists _, _, _].
  destruct (IsEdns0_Some m j Ej) as (mo & -> & _). simpl. by eexists _, _, _.
Qed.

Lemma ScrubWriter_total sup w r m : exists m', ScrubWriter_WriteMsg sup w r m = Some m'.
Proof.
  unfold ScrubWriter_WriteMsg. destruct (SizeAndDo_total sup w r m) as (r' & m1 & b & -> & Hr & Hs & _). simpl.
  destruct (Req r') as [req|] eqn:E; [|done].
  destruct (Scrub_total r' req m1 E (or_introl Hs)) as (r2 & m2 & ->). by eexists.
Qed.

Lemma error_answer_total sup w r rc : exists m, error_answer sup w (Some r) rc = Some m.
Proof.
  unfold error_answer. simpl. destruct (SizeAndDo_total sup w r (SetRcode zeroMsg r rc)) as (r' & m & b & -> & _).
  by eexists.
Qed.

Lemma errorFunc_total sup w r rc : exists m, errorFunc sup w r rc = Some m.
Proof.
  unfold errorFunc. destruct (error_answer_total sup w r rc) as [m ->]. apply ScrubWriter_total.
Qed.

Lemma write_all_total sup w r msgs : exists msgs', write_all sup w r msgs = Some msgs' /\ length msgs' = length msgs.
Proof.
  unfold write_all. induction msgs as [|m msgs (msgs' & IH & Hl)]; [by exists []|]. simpl.
  destruct (ScrubWriter_total sup w r m) as [m' ->]. simpl. rewrite IH. simpl.
  eexists. split; [done|]. simpl. by rewrite Hl.
Qed.


(** What the routing picks is the chain of one of the configurations. *)
Definition chain_in (P : HandlerObj W -> Prop) (h : Config W) : Prop := forall c, cChain h = Some c -> P c.

Definition route_in (P : HandlerObj W -> Prop) (rt : Route) : Prop :=
  match rt with
  | Serve _ h => P h
  | Search _ (Some h) => chain_in P h
  | _ => True
  end.

Lemma route_configs_in P (z : list (Config W)) ds req ctx dsh :
  Forall (chain_in P) z -> route_in P (Search ctx dsh) -> route_in P (route_configs z ds req ctx dsh).
Proof.
  intros Hz. revert ctx dsh. induction Hz as [|h z Hh Hz IH]; intros ctx dsh Hd; cbn [route_configs]; [done|].
  destruct (cChain h) as [c|] eqn:Ec; [|done]. destruct (passAllFilterFuncs _ _ _); [|by apply IH].
  destruct ds; [by apply IH|]. by apply Hh.
Qed.

Lemma route_root_in P (z : list (Config W)) req ctx :
  Forall (chain_in P) z -> route_in P (route_root z req ctx).
Proof.
  intros Hz. revert ctx. induction Hz as [|h z Hh Hz IH]; intros ctx; cbn [route_root]; [done|].
  destruct (cChain h) as [c|] eqn:Ec; [|apply IH]. destruct (passAllFilterFuncs _ _ _); [by apply Hh|apply IH].
Qed.

Definition chains_in (P : HandlerObj W -> Prop) (s : Server W) : Prop :=
  map_Forall (fun _ z => Forall (chain_in P) z) (sZones s).

Lemma route_labels_in P s fuel q off ds req ctx dsh rt :
  chains_in P s -> route_in P (Search ctx dsh) ->
  route_labels fuel s q off ds req ctx dsh = Some rt -> route_in P rt.
Proof.
  intros Hs. revert off ctx dsh. induction fuel as [|fuel IH]; intros off ctx dsh Hd E; [done|]. cbn [route_labels] in E.
  destruct (slice_from q off) as [name|]; [|done]. cbn [mbind option_bind] in E.
  assert (route_in P (match sZones s !! name with Some z => route_configs z ds req ctx dsh | None => Search ctx dsh end)) as Hr.
  { destruct (sZones s !! name) as [z|] eqn:Ez; [|done]. apply route_configs_in; [|done]. apply (Hs _ _ Ez). }
  destruct (match sZones s !! name with Some z => _ | None => _ end) as [ctx' h| |ctx' dsh']; [by injection E as <-..|].
  destruct (NextLabel q off) as [off' e]. destruct e; [by injection E as <-|]. by apply (IH off' ctx' dsh').
Qed.

Lemma chains_in_mono (P Q : HandlerObj W -> Prop) s : (forall h, P h -> Q h) -> chains_in P s -> chains_in Q s.
Proof.
  intros HPQ Hs zone z Hz. eapply Forall_impl; [by apply (Hs zone)|]. intros h Hh. unfold chain_in in *.
  destruct (cChain h); auto.
Qed.

Lemma route_P P s ctx w r q rt : chains_in P s -> route s ctx w r q = Some rt -> route_in P rt.
Proof.
  intros Hs. unfold route. destruct (route_labels _ _ _ _ _ _ _ _) as [rt'|] eqn:E; [|done].
  apply (route_labels_in P) in E; [|done|done]. cbn [mbind option_bind].
  destruct rt' as [ctx' h| |ctx' dsh]; [by intros [= <-]..|].
  destruct (if bool_decide _ then _ else _) as [chain|] eqn:Ec; intros [= <-].
  - simpl. destruct (bool_decide _); [|done]. destruct dsh as [h|]; [|done]. by apply E.
  - apply route_root_in. destruct (sZones s !! dot) as [z|] eqn:Ez; [|constructor]. apply (Hs _ _ Ez).
Qed.
End replies.

(** ** Servers with the same zones *)

Section related.
Context {W : Type}.
Context `{Dn : DnsNames} `{Dm : DnsMsgs}.

(** Two configurations that differ at most in their chains, which are related
    by [R]; without metadata collectors the loop counter is left alone. *)
Definition config_rel (R : HandlerObj W -> HandlerObj W -> Prop) (h h' : Config W) : Prop :=
  cFilterFuncs h = cFilterFuncs h' /\ cViewName h = cViewName h' /\ cMeta h = None /\ cMeta h' = None /\
  option_Forall2 R (cChain h) (cChain h').

Definition server_rel (R : HandlerObj W -> HandlerObj W -> Prop) (s s' : Server W) : Prop :=
  sDebug s = sDebug s' /\ sClassChaos s = sClassChaos s' /\
  forall n, option_Forall2 (Forall2 (config_rel R)) (sZones s !! n) (sZones s' !! n).

Inductive route_rel (R : HandlerObj W -> HandlerObj W -> Prop) (loop : nat) : Route -> Route -> Prop :=
  | rel_serve ctx h h' : ctx_loop ctx = loop -> R h h' -> route_rel R loop (Serve ctx h) (Serve ctx h')
  | rel_refuse : route_rel R loop Refuse Refuse
  | rel_search ctx d d' : ctx_loop ctx = loop -> option_Forall2 (config_rel R) d d' ->
      route_rel R loop (Search ctx d) (Search ctx d').

Lemma in_view_rel R h h' ctx : config_rel R h h' ->
  in_view h ctx = in_view h' ctx /\ ctx_loop (in_view h' ctx) = ctx_loop ctx /\
  forall req, collect h ctx req = ctx /\ collect h' ctx req = ctx.
Proof.
  intros (_ & Ev & Hm & Hm' & _). unfold in_view, collect. rewrite Ev, Hm, Hm'. by case_decide.
Qed.

Lemma route_configs_rel R loop z z' ds req ctx d d' :
  Forall2 (config_rel R) z z' -> ctx_loop ctx = loop -> option_Forall2 (config_rel R) d d' ->
  route_rel R loop (route_configs z ds req ctx d) (route_configs z' ds req ctx d').
Proof.
  intros Hz. revert ctx d d'. induction Hz as [|h h' z z' Hh Hz IH]; intros ctx d d' Hl Hd; cbn [route_configs].
  { by constructor. }
  destruct (in_view_rel R h h' ctx Hh) as (Ev & El & Ec). destruct (Ec req) as [-> ->].
  pose proof Hh as (Ef & _ & _ & _ & Hc). rewrite Ef, Ev. destruct Hc as [c c' Hc|]; [|constructor].
  destruct (passAllFilterFuncs _ _ _); [|by apply IH].
  destruct ds; [|constructor; [congruence|done]]. apply IH; [congruence|by constructor].
Qed.

Lemma route_root_rel R loop z z' req ctx :
  Forall2 (config_rel R) z z' -> ctx_loop ctx = loop ->
  route_rel R loop (route_root z req ctx) (route_root z' req ctx).
Proof.
  intros Hz Hl. induction Hz as [|h h' z z' Hh Hz IH]; cbn [route_root]; [constructor|].
  destruct (in_view_rel R h h' ctx Hh) as (Ev & El & Ec). destruct (Ec req) as [-> ->].
  pose proof Hh as (Ef & _ & _ & _ & Hc). rewrite Ef, Ev. destruct Hc as [c c' Hc|]; [|done].
  destruct (passAllFilterFuncs _ _ _); [|done]. constructor; [congruence|done].
Qed.

Lemma route_labels_rel R loop s s' fuel q off ds req ctx d d' :
  server_rel R s s' -> ctx_loop ctx = loop -> option_Forall2 (config_rel R) d d' ->
  option_Forall2 (route_rel R loop) (route_labels fuel s q off ds req ctx d) (route_labels fuel s' q off ds req ctx d').
Proof.
  intros (_ & _ & Hz). revert off ctx d d'. induction fuel as [|fuel IH]; intros off ctx d d' Hl Hd; cbn [route_labels].
  { constructor. }
  destruct (slice_from q off) as [name|]; [|constructor]. cbn [mbind option_bind].
  assert (route_rel R loop
    (match sZones s !! name with Some z => route_configs z ds req ctx d | None => Search ctx d end)
    (match sZones s' !! name with Some z => route_configs z ds req ctx d' | None => Search ctx d' end)) as Hr.
  { destruct (Hz name); [by apply route_configs_rel|by constructor]. }
  destruct Hr as [ctx' h h' Hl' Hh| |ctx' d1 d1' Hl' Hd']; [by repeat constructor..|].
  destruct (NextLabel q off) as [off' []]; [by repeat constructor|]. by apply IH.
Qed.

Lemma route_related R s s' ctx w r q :
  server_rel R s s' ->
  option_Forall2 (route_rel R (ctx_loop ctx)) (route s ctx w r q) (route s' ctx w r q).
Proof.
  intros Hs. unfold route.
  destruct (route_labels_rel R (ctx_loop ctx) s s' (S (slen (ToLower (qName q)))) (ToLower (qName q)) 0
    (bool_decide (qType q = TypeDS)) (newRequest w (Some r)) ctx None None Hs eq_refl) as [rt rt' Hr|]; [constructor| |constructor].
  cbn [mbind option_bind]. destruct Hr as [ctx' h h' Hl' Hh| |ctx' d d' Hl' Hd]; [by repeat constructor..|].
  assert (option_Forall2 (route_rel R (ctx_loop ctx))
    (Some (route_root (default [] (sZones s !! dot)) (newRequest w (Some r)) ctx'))
    (Some (route_root (default [] (sZones s' !! dot)) (newRequest w (Some r)) ctx'))) as Hroot.
  { constructor. apply route_root_rel; [|done]. destruct Hs as (_ & _ & Hz). destruct (Hz dot); [done|constructor]. }
  destruct (bool_decide _); [|done]. destruct Hd as [h h' Hh|]; [|done]. simpl.
  destruct Hh as (_ & _ & _ & _ & [c c' Hc|]); [|done]. by repeat constructor.
Qed.

(** Servers whose handlers agree at the loop counter of the request serve it
    alike. *)
Lemma ServeDNS_related sup s s' ctx w r st :
  server_rel (fun h h' => forall ctx', ctx_loop ctx' = ctx_loop ctx -> forall w r st,
    hServe h ctx' w r st = hServe h' ctx' w r st) s s' ->
  ServeDNS sup s ctx w r st = ServeDNS sup s' ctx w r st.
Proof.
  intros Hs. unfold ServeDNS. destruct r as [r|]; [|done]. destruct (mQuestion r) as [|q qs]; [done|].
  pose proof Hs as (Hd & Hc & _). rewrite Hd, Hc. case_decide; [done|]. destruct (Version r) as [[m e]|]; [done|].
  assert (dispatch sup s ctx w r q st = dispatch sup s' ctx w r q st) as ->; [|done].
  unfold dispatch. destruct (route_related _ s s' ctx w r q Hs) as [rt rt' Hr|]; [|done]. cbn [mbind option_bind].
  destruct Hr as [ctx' h h' Hl Hh| |]; [|done..]. by rewrite Hh.
Qed.
End related.

(** ** A server of zones that is its own upstream *)

Section knot.
Context `{GR : GoRange} `{Dn : DnsNames} `{Dm : DnsMsgs}.

Section ext.
Context (up up' : Upstream) (loop : nat).
Hypothesis same : forall state name typ, up (S loop) state name typ = up' (S loop) state name typ.

Lemma doLookup_ext state t ty : doLookup up (S loop) state t ty = doLookup up' (S loop) state t ty.
Proof using same. unfold doLookup. by rewrite same. Qed.

Lemma externalLookup_redo_ext left z state qtype do elem rrs wild :
  externalLookup_redo up left (S loop) z state qtype do elem rrs wild =
  externalLookup_redo up' left (S loop) z state qtype do elem rrs wild.
Proof using same.
  revert elem rrs. induction left as [|left IH]; intros elem rrs; cbn [externalLookup_redo]; case_decide; try done;
    (destruct (cname_target _) as [t|]; [|done]); cbn [mbind option_bind];
    (destruct (Tree_Search (zTree z) t) as [[e|]|]; [|by rewrite doLookup_ext|done]); cbn [mbind option_bind]; [done|].
  apply IH.
Qed.

Lemma externalLookup_ext z state elem rrs wild :
  externalLookup up (S loop) z state elem rrs wild = externalLookup up' (S loop) z state elem rrs wild.
Proof using same.
  unfold externalLookup. destruct (Do state) as [[state' do]|]; [|done]. cbn [mbind option_bind].
  destruct (cname_target _) as [t|]; [|done]. cbn [mbind option_bind].
  destruct (Tree_Search (zTree z) t) as [[e|]|]; [| |done]; cbn [mbind option_bind].
  - apply externalLookup_redo_ext.
  - by rewrite doLookup_ext.
Qed.

Lemma lookup_loop_ext fuel z state qname qtype do i elem wild :
  lookup_loop up fuel loop z state qname qtype do i elem wild =
  lookup_loop up' fuel loop z state qname qtype do i elem wild.
Proof using same.
  assert (forall e, lookup_dname up loop z state qtype do e = lookup_dname up' loop z state qtype do e) as Hd.
  { intros e. unfold lookup_dname. destruct (Elem_Type e TypeDNAME); [done|]. destruct (Name state) as [st qn].
    destruct (synthesizeCNAME qn _) as [[c|]|]; [|done..]. cbn [mbind option_bind]. case_decide; [done|].
    by rewrite externalLookup_ext. }
  revert i elem wild. induction fuel as [|fuel IH]; intros i elem wild; [done|]. cbn [lookup_loop].
  destruct (nameFromRight z qname i) as [[parts shot]|]; [|done]. cbn [mbind option_bind]. destruct shot; [done|].
  destruct (Tree_Search (zTree z) parts) as [[e|]|]; [| |done]; cbn [mbind option_bind].
  - rewrite Hd. destruct (lookup_dname up' loop z state qtype do e) as [[res|]|]; [done| |done]. cbn [mbind option_bind].
    destruct (Elem_Type e TypeNS); [apply IH|]. destruct (if decide (qtype = TypeDS) then _ else _) as [ds|]; [|done].
    cbn [mbind option_bind]. destruct ds; [apply IH|done].
  - destruct (replaceWithAsteriskLabel parts) as [wc|]; [|done]. cbn [mbind option_bind].
    destruct (Tree_Search (zTree z) wc) as [wl|]; [|done]. cbn [mbind option_bind]. apply IH.
Qed.

(** A lookup asks the upstream only with the next loop counter. *)
Lemma Lookup_ext z state q : Lookup up loop z state q = Lookup up' loop z state q.
Proof using same.
  unfold Lookup. destruct (Do state) as [[state' do]|]; [|done]. cbn [mbind option_bind].
  repeat (case_decide; [done|]). rewrite lookup_loop_ext.
  destruct (lookup_loop up' _ _ _ _ _ _ _ _ _ _) as [[res|[e|] [wl|]]|]; try done; cbn [mbind option_bind].
  - unfold lookup_found. case_decide; [|done]. apply externalLookup_ext.
  - unfold lookup_found. case_decide; [|done]. apply externalLookup_ext.
  - unfold lookup_wildcard. destruct (Elem_Name wl); [|done]. cbn [mbind option_bind]. case_decide; [|done].
    apply externalLookup_ext.
Qed.
End ext.

(** Past the guard the upstream is not asked at all. *)
Lemma Lookup_guard up up' loop z state q :
  (8 < loop)%nat -> Lookup up loop z state q = Lookup up' loop z state q.
Proof.
  intros Hl. unfold Lookup. destruct (Do state) as [[state' do]|]; [|done]. cbn [mbind option_bind].
  repeat (case_decide; [done|]). lia.
Qed.

Lemma File_ServeDNS_ext exch xfr up up' next Names ctx w r zs :
  (forall z state q, Lookup up (ctx_loop ctx) z state q = Lookup up' (ctx_loop ctx) z state q) ->
  File_ServeDNS exch xfr up id (fun zs _ => zs) next Names ctx w r zs =
  File_ServeDNS exch xfr up' id (fun zs _ => zs) next Names ctx w r zs.
Proof.
  intros Hup. unfold File_ServeDNS. destruct (Name (newRequest w (Some r))) as [state qname].
  case_decide; [reflexivity|]. destruct (id zs !! Zones_Matches Names qname) as [[z|]|]; [|reflexivity..].
  case_decide; [reflexivity|]. case_decide; [reflexivity|]. destruct (Expired z); [reflexivity|]. by rewrite Hup.
Qed.

(** Asking a server; a panic of the server is an error. *)
Definition ask {W} (serve : Writer -> option Msg -> option (Served (W:=W))) (state : Request) (name : string) (typ : Z)
  : string + option Msg :=
  match Upstream_Lookup serve state name typ with
  | Some m => inr m
  | None => inl "panic"%string
  end.

Lemma ask_ext {W} (serve serve' : Writer -> option Msg -> option (Served (W:=W))) state name typ :
  (forall w r, serve w r = serve' w r) -> ask serve state name typ = ask serve' state name typ.
Proof. intros Hs. unfold ask, Upstream_Lookup. destruct (NewWithQuestion _ _ _); [|done]. simpl. by rewrite Hs. Qed.

(** A server block: its zone, filters and view, and the zones of its file
    plugin. *)
Record Site := mkSite {
  siteZone : string; siteFilters : list FilterFunc; siteView : string; siteNames : list string
}.

Context (exch : Exchange) (xfr : TransferStream) (sup : gset Z) (addr : string) (sites : list Site).

(** A site that sets no timeout and has no secret. *)
Definition no_limits : Limits := mkLimits 0 0 0 ∅.

Definition file_obj (up : FileZones -> Ctx -> Upstream) (x : Site) (next : option (HandlerObj FileZones))
  : HandlerObj FileZones :=
  mkHandler
    (fun ctx w r zs => File_ServeDNS exch xfr (up zs ctx) id (fun zs _ => zs) (hServe <$> next) (siteNames x) ctx w r zs)
    File_Name None None.

Definition file_config (up : FileZones -> Ctx -> Upstream) (x : Site) : Config FileZones :=
  mkConfig (siteZone x) false false (siteFilters x) (siteView x) [file_obj up x] None None ∅ no_limits.

Definition file_server (up : FileZones -> Ctx -> Upstream) : Server FileZones :=
  NewServer addr (map (file_config up) sites).

(** The upstream of the server is the server: [depth] bounds how deeply
    lookups nest; a lookup has the context of the query it is for. *)
Fixpoint self_up (depth : nat) (zs : FileZones) (from : Ctx) : Upstream :=
  fun loop state name typ =>
    match depth with
    | O => inl "out of depth"%string
    | S depth' => ask (fun w r => ServeDNS sup (file_server (self_up depth')) (with_loop loop from) w r zs) state name typ
    end.

Lemma add_site_file s up x :
  add_site s (file_config up x) =
  mkServer (sAddr s)
    (<[siteZone x := default [] (sZones s !! siteZone x) ++
       [mkConfig (siteZone x) false false (siteFilters x) (siteView x) [file_obj up x] (Some (file_obj up x None)) None
          (<[File_Name := file_obj up x None]> ∅) no_limits]]> (sZones s))
    (sDebug s || false) false (sClassChaos s || bool_decide (File_Name ∈ EnableChaos)) (merge_limits no_limits (sLimits s)).
Proof. reflexivity. Qed.

Lemma file_server_rel (up up' : FileZones -> Ctx -> Upstream) (loop : nat) :
  (forall zs view state q z, Lookup (up zs view) loop z state q = Lookup (up' zs view) loop z state q) ->
  server_rel (fun h h' => forall ctx', ctx_loop ctx' = loop -> forall w r st,
    hServe h ctx' w r st = hServe h' ctx' w r st) (file_server up) (file_server up').
Proof.
  intros Hup. unfold file_server, NewServer.
  set (R := fun h h' : HandlerObj FileZones => _).
  assert (server_rel R (mkServer addr ∅ false false false default_limits) (mkServer addr ∅ false false false default_limits)) as H0.
  { split; [done|]. split; [done|]. intros n. simpl. rewrite lookup_empty. constructor. }
  revert H0. generalize (@mkServer FileZones addr ∅ false false false default_limits) at 1 3 as s.
  generalize (@mkServer FileZones addr ∅ false false false default_limits) as s'.
  induction sites as [|x xs IH]; intros s' s Hs; [done|]. cbn [map fold_left]. apply IH. clear IH.
  destruct Hs as (Hd & Hc & Hz). rewrite !add_site_file. unfold server_rel. cbn [sDebug sClassChaos sZones].
  rewrite Hd, Hc. split; [reflexivity|]. split; [reflexivity|]. intros n. destruct (decide (n = siteZone x)) as [->|Hne].
  - rewrite !lookup_insert_eq. constructor. apply Forall2_app.
    + destruct (Hz (siteZone x)); [done|constructor].
    + constructor; [|constructor]. unfold config_rel. cbn [cFilterFuncs cViewName cMeta cChain]. do 4 (split; [reflexivity|]).
      constructor. subst R. intros ctx' Hl w r st. unfold file_obj. cbn [hServe]. apply File_ServeDNS_ext. intros. rewrite Hl. apply Hup.
  - rewrite !lookup_insert_ne by done. apply Hz.
Qed.

Lemma self_up_stable loop d d' :
  (loop <= 10)%nat -> (9 - loop < d)%nat -> (9 - loop < d')%nat ->
  forall zs view state name typ, self_up d zs view loop state name typ = self_up d' zs view loop state name typ.
Proof.
  remember (10 - loop)%nat as n eqn:Hn. revert loop d d' Hn.
  induction n as [|n IH]; intros loop d d' Hn Hl Hd Hd' zs view state name typ;
    (destruct d as [|d]; [lia|]); (destruct d' as [|d']; [lia|]); cbn [self_up];
    apply ask_ext; intros w r; apply ServeDNS_related, file_server_rel; intros zs' view' state' q z; cbn [ctx_loop with_loop].
  - apply Lookup_guard. lia.
  - destruct (decide (8 < loop)%nat); [by apply Lookup_guard|]. apply Lookup_ext. intros. apply IH; lia.
Qed.
End knot.

(** ** Theorems *)

#[local] Existing Instance range_sorted.
#[local] Existing Instance dns_reference.
#[local] Existing Instance dns_reference_ok.
#[local] Existing Instance msgs_reference.
#[local] Existing Instance msgs_reference_ok.

Lemma ServeDNS_once {W} `{DnsNames} `{DnsMsgsOk} (sup : gset Z) (s : Server W) (ctx : Ctx) (w : Writer) (r : Msg) (st : W) :
  sDebug s = false -> chains_in (fun h => replies false (hServe h) r) s ->
  exists m st', ServeDNS sup s ctx w (Some r) st = Some ([m], st').
Proof.
  intros Hd Hp. unfold ServeDNS.
  destruct (mQuestion r) as [|q qs].
  { destruct (error_answer_total sup w r RcodeServerFailure) as [m ->]. by eexists _, _. }
  case_decide. { destruct (error_answer_total sup w r RcodeRefused) as [m ->]. by eexists _, _. }
  destruct (Version r) as [[m e]|]; [by eexists _, _|]. unfold dispatch.
  assert (exists m st', (if sDebug s then None else m ← errorFunc sup w r RcodeServerFailure; Some ([m], @None W)) =
    Some ([m], st')) as Hrec.
  { rewrite Hd. destruct (errorFunc_total sup w r RcodeServerFailure) as [m ->]. by eexists _, _. }
  destruct (route s ctx w r q) as [rt|] eqn:Er; [|exact Hrec]. apply (route_P _ _ _ _ _ _ _ Hp) in Er.
  cbn [mbind option_bind].
  destruct rt as [ctx' h| |]; [|destruct (errorFunc_total sup w r RcodeRefused) as [m ->]; by eexists _, _..].
  simpl in Er. destruct (hServe h ctx' w r st) as [[[[st' msgs] rcode] err]|] eqn:Eh; [|exact Hrec].
  apply Er in Eh as [Eh _]. cbn [mbind option_bind]. destruct (write_all_total sup w r msgs) as (msgs' & -> & Hl).
  cbn [mbind option_bind]. unfold writes_ok in Eh. destruct (ClientWrite rcode).
  - rewrite Eh in Hl. destruct msgs' as [|m [|]]; [done| |done]. by eexists _, _.
  - subst msgs. destruct msgs'; [|done]. destruct (errorFunc_total sup w r rcode) as [m ->]. by eexists _, _.
Qed.


(** A handler that panics, and one that answers. *)
Definition panic_obj : HandlerObj unit := mkHandler (fun _ _ _ _ => None) "panic" None None.
Definition reply_obj (name : string) (rcode : Z) : HandlerObj unit :=
  mkHandler (fun _ _ r st => Some (st, [SetRcode zeroMsg r rcode], RcodeSuccess, None)) name None None.

Definition config_of (zone view : string) (ffs : list FilterFunc) (h : HandlerObj unit) : Config unit :=
  mkConfig zone false false ffs view [fun _ => h] None None ∅ no_limits.

Definition panic_server : Server unit :=
  NewServer "dns://:53" [config_of "example.org." EmptyString [] panic_obj].


(** Two views of one zone, its parent, and the root. *)
Definition view_server : Server unit :=
  NewServer "dns://:53"
    [config_of "example.org." "inside" [] (reply_obj "inside" RcodeSuccess);
     config_of "example.org." "outside" [] (reply_obj "outside" RcodeNameError);
     config_of "." EmptyString [] (reply_obj "root" RcodeRefused)].

Lemma view_server_plain : plain_server view_server.
Proof.
  apply map_Forall_insert_2; [|apply map_Forall_insert_2; [|apply map_Forall_insert_2; [|apply map_Forall_empty]]];
    vm_compute; repeat first [apply Forall_nil_2 | apply Forall_cons_2]; (split; [discriminate|split; [reflexivity|constructor]]).
Defined.

(** C26 A query that is not for a DS record goes to the first configuration
    whose filters let it pass among those of the zones that contain the name,
    the most specific zone first, then to the first such configuration of the
    root zone, and is refused when there is none. *)
Theorem route_first_match {W} `{DnsNamesOk} `{DnsMsgs} (s : Server W) (ctx : Ctx) (w : Writer) (r : Msg) (q : Question) :
  plain_server s -> fq_name (ToLower (qName q)) -> qType q <> TypeDS ->
  route s ctx w r q =
  let req := newRequest w (Some r) in
  Some (match head (filter (passes req) (candidates s (ToLower (qName q)) ++ zone_configs s dot)) with
        | Some h => served (in_view h ctx) h
        | None => Refuse
        end).
Proof.
  intros Hs Hq Hds. rewrite route_spec by done. cbn zeta. rewrite bool_decide_eq_false_2 by done.
  rewrite route_configs_plain by (by apply candidates_plain). cbn zeta. rewrite filter_app.
  destruct (filter _ (candidates s _)) as [|h hs]; simpl.
  - rewrite route_root_plain by (by apply zone_configs_plain). done.
  - unfold served. by destruct (cChain h).
Qed.

Lemma route_first_match_witness :
  route view_server (mkCtx 0 None) example_client (example_msg "www.example.org." TypeA)
    (mkQuestion "www.example.org." TypeA ClassINET) =
  Some (Serve (mkCtx 0 (Some "inside"%string)) (reply_obj "inside" RcodeSuccess)).
Proof.
  rewrite (@route_first_match unit dns_reference dns_reference_ok msgs_reference view_server (mkCtx 0 None) example_client
    (example_msg "www.example.org." TypeA) (mkQuestion "www.example.org." TypeA ClassINET) view_server_plain);
    [reflexivity|decided|discriminate].
Defined.

(** A query for a DS record goes to the last configuration whose filters
    let it pass, in the order of the search: of the least specific zone that
    contains the name, and there of the last configuration rather than the
    first; the root zone is used only when no other zone contains the name,
    even for the DS record of a top-level domain. *)
Theorem route_ds_last_match {W} `{DnsNamesOk} `{DnsMsgs} (s : Server W) (ctx : Ctx) (w : Writer) (r : Msg) (q : Question) :
  plain_server s -> fq_name (ToLower (qName q)) -> qType q = TypeDS ->
  route s ctx w r q =
  let req := newRequest w (Some r) in
  let hs := filter (passes req) (candidates s (ToLower (qName q))) in
  Some (match last hs with
        | Some h => served (fold_left (fun c h => in_view h c) hs ctx) h
        | None => match head (filter (passes req) (zone_configs s dot)) with
                  | Some h => served (in_view h ctx) h
                  | None => Refuse
                  end
        end).
Proof.
  intros Hs Hq Hds. rewrite route_spec by done. cbn zeta. rewrite bool_decide_eq_true_2 by done.
  pose proof (candidates_plain s (ToLower (qName q)) Hs) as Hc.
  rewrite route_configs_plain by done. cbn zeta.
  destruct (last (filter _ (candidates s _))) as [h|] eqn:El; simpl.
  - assert (h ∈ candidates s (ToLower (qName q))) as Hin.
    { apply last_Some_elem_of in El. by apply list_elem_of_filter in El as [_ ?]. }
    rewrite Forall_forall in Hc. destruct (Hc h Hin) as (Hch & _). unfold served. by destruct (cChain h).
  - apply last_None in El. rewrite El. simpl. by rewrite route_root_plain by (by apply zone_configs_plain).
Qed.

Lemma route_ds_last_match_witness :
  route view_server (mkCtx 0 None) example_client (example_msg "example.org." TypeDS)
    (mkQuestion "example.org." TypeDS ClassINET) =
  Some (Serve (mkCtx 0 (Some "outside"%string)) (reply_obj "outside" RcodeNameError)).
Proof.
  rewrite (@route_ds_last_match unit dns_reference dns_reference_ok msgs_reference view_server (mkCtx 0 None) example_client
    (example_msg "example.org." TypeDS) (mkQuestion "example.org." TypeDS ClassINET) view_server_plain);
    [reflexivity|decided|reflexivity].
Defined.

(** C25 Lookups that leave their zone by a CNAME or DNAME record are sent back
    to the server itself, which may send them on, even in circles; the loop
    counter ends this after nine lookups: a server that may nest lookups to
    any greater depth answers every query as the one that nests them to
    depth nine. *)
Theorem cname_chains_end `{GoRange} `{DnsNames} `{DnsMsgs} (exch : Exchange) (xfr : TransferStream) (sup : gset Z)
    (addr : string) (sites : list Site) (depth : nat) (ctx : Ctx) (w : Writer) (r : option Msg) (zs : FileZones) :
  (9 <= depth)%nat ->
  ServeDNS sup (file_server exch xfr addr sites (self_up exch xfr sup addr sites depth)) ctx w r zs =
  ServeDNS sup (file_server exch xfr addr sites (self_up exch xfr sup addr sites 9)) ctx w r zs.
Proof.
  intros Hd. apply ServeDNS_related, file_server_rel. intros zs' view state q z.
  destruct (decide (8 < ctx_loop ctx)%nat); [by apply Lookup_guard|]. apply Lookup_ext.
  intros. apply self_up_stable; lia.
Qed.

(** Two zones whose aliases point at each other. *)
Definition circle_zone (orig here there : string) : Zone :=
  default (NewZone orig "db")
    (insert_records (NewZone orig "db")
       [mkRR orig TypeSOA ClassINET 3600 (SOA "ns.example.org." "admin.example.org." 1 7200 3600 86400 300);
        mkRR here TypeCNAME ClassINET 3600 (CNAME there)]).

Definition circle_zones : FileZones :=
  {[ "a.example."%string := Some (circle_zone "a.example." "x.a.example." "y.b.example.");
     "b.example."%string := Some (circle_zone "b.example." "y.b.example." "x.a.example.") ]}.
Definition circle_sites : list Site :=
  [mkSite "a.example." [] EmptyString ["a.example."%string]; mkSite "b.example." [] EmptyString ["b.example."%string]].

Lemma cname_chains_end_witness :
  ServeDNS ∅ (file_server no_exchange no_transfer "dns://:53" circle_sites
      (self_up no_exchange no_transfer ∅ "dns://:53" circle_sites 40))
    (mkCtx 0 None) example_client (Some (example_msg "x.a.example." TypeA)) circle_zones =
  ServeDNS ∅ (file_server no_exchange no_transfer "dns://:53" circle_sites
      (self_up no_exchange no_transfer ∅ "dns://:53" circle_sites 9))
    (mkCtx 0 None) example_client (Some (example_msg "x.a.example." TypeA)) circle_zones.
Proof.
  apply (@cname_chains_end range_sorted dns_reference msgs_reference no_exchange no_transfer ∅ "dns://:53"
    circle_sites 40). lia.
Defined.
