(* ===== verification/RegisterTheorems.v ===== *)
(** * Properties of the set-up of the servers *)

From S2P Require Import Prelude.
From S2P Require Import GoStd.
From S2P Require Import DnsMsg.
From S2P Require Import Request.
From S2P Require Import Plugin.
From S2P Require Import Server.
From S2P Require Import Register.

(** ** Overlaps *)

(** Two addresses serve the same zone on the same port and transport, and an
    address bound to no host listens where the other does. *)
Definition overlap (a b : zoneAddr) : Prop :=
  unbound a = unbound b /\ (zaAddress a = zaAddress b \/ zaAddress a = EmptyString \/ zaAddress b = EmptyString).

#[export] Instance overlap_dec a b : Decision (overlap a b).
Proof. unfold overlap. apply _. Defined.

Lemma unbound_eq a b : unbound a = unbound b -> zaAddress a = zaAddress b -> a = b.
Proof. destruct a, b. unfold unbound. simpl. intros [= -> -> ->] ->. done. Qed.

Lemma unbound_idem a : unbound (unbound a) = unbound a.
Proof. done. Qed.

(** The addresses a checker has registered. *)
Definition overlap_ok (zo : zoneOverlap) (reg : zoneAddr -> Prop) : Prop :=
  (forall z a, registeredAddr zo !! z = Some a <-> a = z /\ reg z) /\
  (forall u a, unboundOverlap zo !! u = Some a -> unbound a = u /\ reg a) /\
  (forall z, reg z -> unboundOverlap zo !! unbound z <> None).

Lemma newOverlapZone_ok : overlap_ok newOverlapZone (fun _ => False).
Proof.
  unfold newOverlapZone. split; [|split]; simpl; [|done|done]. intros z a. rewrite lookup_empty.
  split; [done|]. by intros [_ ?].
Qed.

Lemma overlap_ok_ext zo reg reg' : overlap_ok zo reg -> (forall a, reg a <-> reg' a) -> overlap_ok zo reg'.
Proof.
  intros (Hr & Hu & Hall) E. split; [|split].
  - intros z a. rewrite <- E. apply Hr.
  - intros u a. rewrite <- E. apply Hu.
  - intros z. rewrite <- E. apply Hall.
Qed.

(** A check reports something exactly when a registered address overlaps. *)
Lemma check_spec zo reg z :
  overlap_ok zo reg -> check zo z = (None, None) <-> forall a, reg a -> ~ overlap a z.
Proof.
  intros (Hr & Hu & Hall). unfold check. destruct (registeredAddr zo !! z) as [a|] eqn:Ez.
  { apply Hr in Ez as [-> Hz]. split; [done|]. intros Hn. exfalso. apply (Hn z Hz). by split; [|left]. }
  destruct (unboundOverlap zo !! unbound z) as [a|] eqn:Eu.
  - destruct (Hu _ _ Eu) as [Ea Hra]. case_decide as Hz.
    + split; [done|]. intros Hn. exfalso. apply (Hn a Hra). split; [done|]. by right; right.
    + destruct (registeredAddr zo !! unbound z) as [b|] eqn:Eb.
      * apply Hr in Eb as [-> Hb]. split; [done|]. intros Hn. exfalso. apply (Hn _ Hb). split; [done|]. by right; left.
      * split; [|done]. intros _ c Hc [Ec [Hcz|[Hce|?]]]; [|exfalso|done].
        -- rewrite (unbound_eq c z Ec Hcz) in Hc. assert (registeredAddr zo !! z = Some z) as E by (by apply Hr). congruence.
        -- assert (c = unbound z) as -> by (by apply unbound_eq).
           assert (registeredAddr zo !! unbound z = Some (unbound z)) as E by (by apply Hr). congruence.
  - split; [|done]. intros _ c Hc [Ec _]. apply (Hall c Hc). by rewrite Ec.
Qed.

Lemma registerAndCheck_ok zo reg z :
  overlap_ok zo reg -> check zo z = (None, None) ->
  exists zo', registerAndCheck zo z = (zo', (None, None)) /\ overlap_ok zo' (fun a => a = z \/ reg a).
Proof.
  intros (Hr & Hu & Hall) Hc. unfold registerAndCheck. rewrite Hc. eexists. split; [reflexivity|].
  split; [|split]; simpl.
  - intros y a. rewrite lookup_insert_Some, Hr. split.
    + intros [[<- <-]|[_ [-> ?]]]; by auto.
    + intros [-> [->|Hy]]; [by left|]. destruct (decide (z = y)) as [->|?]; by auto.
  - intros u a. rewrite lookup_insert_Some. intros [[<- <-]|[_ H]]; [by auto|]. apply Hu in H as [? ?]. by auto.
  - intros y [->|Hy]; [by rewrite lookup_insert_eq|]. destruct (decide (unbound z = unbound y)) as [->|Hne].
    + by rewrite lookup_insert_eq.
    + rewrite lookup_insert_ne by done. by apply Hall.
Qed.

Lemma registerAndCheck_res zo z : (registerAndCheck zo z).2 = check zo z.
Proof. unfold registerAndCheck. destruct (check zo z) as [[a|] [b|]]; done. Qed.

(** Every address is free of overlap with the unfiltered ones before it. *)
Inductive no_overlaps : (zoneAddr -> Prop) -> list (bool * zoneAddr) -> Prop :=
  | no_overlaps_nil reg : no_overlaps reg []
  | no_overlaps_cons reg (filtered : bool) z l :
      (forall a, reg a -> ~ overlap a z) ->
      no_overlaps (fun a => (filtered = false /\ a = z) \/ reg a) l -> no_overlaps reg ((filtered, z) :: l).

Lemma no_overlaps_mono reg reg' l : (forall a, reg' a -> reg a) -> no_overlaps reg l -> no_overlaps reg' l.
Proof.
  intros Hs H. revert reg' Hs. induction H as [reg|reg f z l Hz _ IH]; intros reg' Hs; constructor; [by auto|].
  apply IH. intros a [?|?]; [by left|by right; apply Hs].
Qed.

Lemma validate_loop_spec zo reg l : overlap_ok zo reg -> validate_loop zo l = None <-> no_overlaps reg l.
Proof.
  revert zo reg. induction l as [|[f z] l IH]; intros zo reg Hok; cbn [validate_loop]; [by split; [constructor|]|].
  assert (forall zo' res, (if f then (zo, check zo z) else registerAndCheck zo z) = (zo', res) -> res = check zo z) as Hres.
  { intros zo' res. destruct f; [by intros [= <- <-]|]. intros E. by rewrite <- registerAndCheck_res, E. }
  destruct (if f then (zo, check zo z) else registerAndCheck zo z) as [zo' [e o]] eqn:Ez.
  pose proof (Hres _ _ eq_refl) as Eo. destruct (decide (check zo z = (None, None))) as [Hc|Hc].
  - rewrite Hc in Eo. injection Eo as -> ->. rewrite (IH zo' (fun a => (f = false /\ a = z) \/ reg a)).
    + split; [|by inversion 1]. constructor; [by apply (check_spec zo)|done].
    + destruct f.
      * injection Ez as <-. apply (overlap_ok_ext zo reg); [done|]. intros a. split; [by right|by intros [[? _]|?]].
      * destruct (registerAndCheck_ok zo reg z Hok Hc) as (zo2 & E2 & Hok2). rewrite Ez in E2. injection E2 as <-.
        eapply overlap_ok_ext; [exact Hok2|]. intros a. tauto.
  - split; [|intros Hn; inversion Hn; subst; by destruct Hc; apply (check_spec zo reg)].
    destruct e; [done|]. destruct o; [done|]. by destruct Hc.
Qed.

Lemma no_overlaps_lookup reg l :
  no_overlaps reg l <->
  (forall j f z a, l !! j = Some (f, z) -> reg a -> ~ overlap a z) /\
  (forall i j f a z, (i < j)%nat -> l !! i = Some (false, a) -> l !! j = Some (f, z) -> ~ overlap a z).
Proof.
  split.
  - induction 1 as [reg|reg f z l Hz _ [IH1 IH2]]; [by split; intros|]. split.
    + intros [|j] f' z' a; simpl; [by intros [= <- <-]; apply Hz|]. intros Hj Ha. apply (IH1 j f'); [done|by right].
    + intros [|i] [|j] f' a z' Hij; simpl; try lia.
      * intros [= -> ->] Hj. apply (IH1 j f'); [done|by left].
      * apply IH2. lia.
  - revert reg. induction l as [|[f z] l IH]; intros reg [H1 H2]; constructor.
    + intros a Ha. by apply (H1 0%nat f z a).
    + apply IH. split.
      * intros j f' z' a Hj [[-> ->]|Ha]; [by apply (H2 0%nat (S j) f' z z'); [lia|..]|by apply (H1 (S j) f')].
      * intros i j f' a z' Hij Hi Hj. apply (H2 (S i) (S j) f'); [lia|done..].
Qed.

(** ** Groups *)

Section groups.
Context {W : Type}.

(** What NewServer makes of a configuration. *)
Definition finished (c : Config W) : Config W :=
  let '(stack, _, k) := compile_chain (rev (cPlugin c)) None false c in set_chain stack k.

Lemma compile_chain_chaos ps stack chaos (c : Config W) :
  (compile_chain ps stack chaos c).1.1 = (compile_chain ps stack false c).1.1 /\
  (compile_chain ps stack chaos c).2 = (compile_chain ps stack false c).2.
Proof.
  revert stack chaos c. induction ps as [|p ps IH]; intros stack chaos c; [done|]. cbn [compile_chain].
  set (c' := match hCollect _ with Some _ => _ | None => _ end).
  destruct (IH (Some (p stack)) (chaos || bool_decide (hObjName (p stack) ∈ EnableChaos))%bool c') as [-> ->].
  destruct (IH (Some (p stack)) (false || bool_decide (hObjName (p stack) ∈ EnableChaos))%bool c') as [-> ->]. done.
Qed.

Lemma compile_chain_zone ps stack chaos (c : Config W) : cZone (compile_chain ps stack chaos c).2 = cZone c.
Proof.
  revert stack chaos c. induction ps as [|p ps IH]; intros stack chaos c; [done|]. cbn [compile_chain].
  rewrite IH. by destruct (hCollect (p stack)).
Qed.

Lemma add_site_zones (s : Server W) site :
  sZones (add_site s site) = <[cZone site := default [] (sZones s !! cZone site) ++ [finished site]]> (sZones s).
Proof.
  unfold add_site, finished.
  pose proof (compile_chain_chaos (rev (cPlugin site)) None (sClassChaos s) site) as [E1 E2].
  pose proof (compile_chain_zone (rev (cPlugin site)) None false site) as E3.
  destruct (compile_chain _ _ (sClassChaos s) _) as [[st ch] k], (compile_chain _ _ false _) as [[st' ch'] k'].
  simpl in *. subst st' k'. by rewrite E3.
Qed.

(** The zones of a server hold the configurations of the group in order. *)
Lemma NewServer_zones addr (group : list (Config W)) n :
  default [] (sZones (NewServer addr group) !! n) = map finished (filter (fun c => cZone c = n) group).
Proof.
  unfold NewServer.
  assert (forall (s : Server W), default [] (sZones (fold_left add_site group s) !! n) =
    default [] (sZones s !! n) ++ map finished (filter (fun c => cZone c = n) group)) as Hg.
  { induction group as [|c group IH]; intros s; [by rewrite app_nil_r|]. cbn [fold_left].
    rewrite IH, add_site_zones, filter_cons. destruct (decide (cZone c = n)) as [->|Hne].
    - rewrite lookup_insert_eq. simpl. by rewrite <- app_assoc.
    - by rewrite lookup_insert_ne. }
  rewrite Hg. simpl. by rewrite lookup_empty.
Qed.

Context (resolve : string -> string + string).

Definition listens (c : SiteConfig W) (addrstr : string) : Prop :=
  exists h addr, h ∈ scListenHosts c /\ resolve (JoinHostPort h (scPort c)) = inr addr /\
    addrstr = scTransport c +:+ "://" +:+ addr.

Lemma group_hosts_spec (conf : SiteConfig W) hosts groups groups' :
  group_hosts resolve conf hosts groups = inr groups' ->
  forall k c, c ∈ default [] (groups' !! k) <->
    c ∈ default [] (groups !! k) \/
    (c = conf /\ exists h addr, h ∈ hosts /\ resolve (JoinHostPort h (scPort conf)) = inr addr /\
                                k = scTransport conf +:+ "://" +:+ addr).
Proof.
  revert groups. induction hosts as [|h hosts IH]; intros groups E k c; simpl in E.
  { injection E as <-. split; [by left|]. intros [?|(_ & h & _ & Hh & _)]; [done|]. by apply elem_of_nil in Hh. }
  destruct (resolve _) as [err|addr] eqn:Er; [done|]. rewrite (IH _ E k c). clear IH.
  set (a := scTransport conf +:+ "://" +:+ addr).
  assert (c ∈ default [] (<[a:=default [] (groups !! a) ++ [conf]]> groups !! k) <->
          c ∈ default [] (groups !! k) \/ (c = conf /\ k = a)) as ->.
  { destruct (decide (a = k)) as [<-|Hne].
    - rewrite lookup_insert_eq. simpl. rewrite elem_of_app, list_elem_of_singleton. tauto.
    - rewrite lookup_insert_ne by done. split; [by left|]. by intros [?|[_ ->]]. }
  setoid_rewrite elem_of_cons. split.
  - intros [[?|[-> ->]]|(-> & h' & addr' & ? & ? & ?)]; [by left|right|right]; [by eauto 10|by eauto 10].
  - intros [?|(-> & h' & addr' & [->|?] & Hr & ->)]; [by auto| |right; by eauto 10].
    left. right. rewrite Er in Hr. by injection Hr as <-.
Qed.

Lemma group_configs_spec (cs : list (SiteConfig W)) groups groups' :
  group_configs resolve cs groups = inr groups' ->
  forall k c, c ∈ default [] (groups' !! k) <-> c ∈ default [] (groups !! k) \/ (c ∈ cs /\ listens c k).
Proof.
  revert groups. induction cs as [|conf cs IH]; intros groups E k c; simpl in E.
  { injection E as <-. split; [by left|]. intros [?|[Hc _]]; [done|]. by apply elem_of_nil in Hc. }
  destruct (group_hosts resolve conf _ _) as [err|g] eqn:Eg; [done|]. rewrite (IH _ E k c).
  rewrite (group_hosts_spec _ _ _ _ Eg k c). unfold listens. setoid_rewrite elem_of_cons.
  split.
  - intros [[?|(-> & ?)]|[? ?]]; [by left|by right; split; [left|]|by right; split; [right|]].
  - intros [?|[[->|?] ?]]; [by left; left|by left; right|by right].
Qed.

(** The configurations that serve zone [n] at an address. *)
Definition served_at (servers : gmap string (string * Server W)) (addrstr n : string) : list (Config W) :=
  match servers !! addrstr with Some (_, s) => default [] (sZones s !! n) | None => [] end.

Lemma all_views_elem ds (cs cs' : list (SiteConfig W)) :
  all_views ds cs = inr cs' -> Forall2 (fun c c' => site_views ds c = inr c') cs cs'.
Proof.
  revert cs'. induction cs as [|c cs IH]; intros cs'; simpl; [by intros [= <-]; constructor|].
  destruct (site_views ds c) as [|c'] eqn:E; [done|]. destruct (all_views ds cs) as [|cs2]; [done|].
  intros [= <-]. constructor; [done|]. by apply IH.
Qed.
End groups.

(** ** Theorems *)

(** C39 The check of the zones and listening addresses is exact: it accepts a
    set of server blocks if and only if no address, filtered or not, overlaps
    an unfiltered one before it, that is serves the same zone on the same port
    and transport while one of the two listens wherever the other does. *)
Theorem validate_exact {W} (configs : list (SiteConfig W)) :
  validateZonesAndListeningAddresses configs = None <->
  forall i j f a z, (i < j)%nat ->
    concat (map site_addrs configs) !! i = Some (false, a) ->
    concat (map site_addrs configs) !! j = Some (f, z) -> ~ overlap a z.
Proof.
  unfold validateZonesAndListeningAddresses. rewrite (validate_loop_spec _ _ _ newOverlapZone_ok), no_overlaps_lookup.
  split; [by intros [_ ?]|]. intros H. split; [by intros ? ? ? ? _ []|exact H].
Qed.

(** C38 When the servers are made, the zone of a configuration is served at
    exactly the addresses the configuration listens on: the configurations
    that serve a zone at an address are those of the zone that listen there,
    each with its compiled plugin chain; and their addresses passed the
    overlap check. *)
Theorem make_servers_serves {W} (resolve : string -> string + string) (directives : list string)
    (configs : list (SiteConfig W)) (servers : gmap string (string * Server W)) :
  MakeServers resolve directives configs = Some (inr servers) ->
  exists copied cs, mapM (copy_first configs) configs = Some copied /\
    Forall2 (fun c c' => site_views directives (compiled c) = inr c') copied cs /\
    validateZonesAndListeningAddresses cs = None /\
    forall addrstr n k, k ∈ served_at servers addrstr n <->
      exists c, c ∈ cs /\ listens resolve c addrstr /\ cZone (scConfig c) = n /\ k = finished (scConfig c).
Proof.
  unfold MakeServers. destruct (mapM (copy_first configs) configs) as [copied|]; [|done]. cbn [mbind option_bind].
  destruct (groupConfigsByListenAddr resolve copied); [done|].
  destruct (all_views directives (map compiled copied)) as [|cs] eqn:Ev; [done|].
  destruct (validateZonesAndListeningAddresses cs) eqn:Eval; [done|].
  destruct (groupConfigsByListenAddr resolve cs) as [|groups] eqn:Eg; [done|]. intros [= <-].
  exists copied, cs. split; [done|]. split; [|split; [done|]].
  { apply all_views_elem in Ev. by apply Forall2_fmap_l in Ev. }
  intros addrstr n k. pose proof (group_configs_spec resolve cs ∅ groups Eg addrstr) as Hg.
  unfold served_at. rewrite map_lookup_imap. rewrite lookup_empty in Hg.
  assert (forall c, c ∈ default [] (groups !! addrstr) <-> c ∈ cs /\ listens resolve c addrstr) as Hg'.
  { intros c. rewrite Hg. simpl. rewrite elem_of_nil. tauto. }
  clear Hg. destruct (groups !! addrstr) as [grp|]; simpl in *.
  - rewrite NewServer_zones, list_elem_of_fmap. setoid_rewrite list_elem_of_filter.
    setoid_rewrite list_elem_of_fmap. split.
    + intros (y & -> & Hn & x & -> & Hx). apply Hg' in Hx as [Hx Hl]. by exists x.
    + intros (c & Hc & Hl & Hn & ->). eexists. split; [reflexivity|]. split; [done|]. exists c. split; [done|].
      by apply Hg'.
  - rewrite elem_of_nil. split; [done|]. intros (c & Hc & Hl & _). assert (c ∈ []) as Hf by (by apply Hg').
    by apply elem_of_nil in Hf.
Qed.

Definition example_site (zone host : string) (first : nat) : SiteConfig unit :=
  mkSiteConfig
    (mkConfig zone false false [] EmptyString
       [fun _ => mkHandler (fun _ _ _ st => Some (st, [], RcodeRefused, None)) "refuse" None None] None None ∅ (mkLimits 0 0 0 ∅))
    [host] "53" "dns" first.

Definition example_resolve (hp : string) : string + string := inr hp.

Lemma make_servers_serves_witness :
  exists copied cs,
    mapM (copy_first [example_site "example.org." "10.0.0.1" 0; example_site "example.net." "10.0.0.2" 0])
      [example_site "example.org." "10.0.0.1" 0; example_site "example.net." "10.0.0.2" 0] = Some copied /\
    Forall2 (fun c c' => site_views ["view"%string] (compiled c) = inr c') copied cs /\
    validateZonesAndListeningAddresses cs = None.
Proof.
  destruct (MakeServers example_resolve ["view"%string]
    [example_site "example.org." "10.0.0.1" 0; example_site "example.net." "10.0.0.2" 0]) as [[e|servers]|] eqn:E.
  - exfalso. apply (f_equal (fun o => match o with Some (inr _) => true | _ => false end)) in E. vm_compute in E. discriminate E.
  - destruct (@make_servers_serves unit example_resolve ["view"%string]
      [example_site "example.org." "10.0.0.1" 0; example_site "example.net." "10.0.0.2" 0] servers E)
      as (copied & cs & H1 & H2 & H3 & _).
    exists copied, cs. split; [exact H1|]. split; [exact H2|exact H3].
  - exfalso. apply (f_equal (fun o => match o with Some (inr _) => true | _ => false end)) in E. vm_compute in E. discriminate E.
Defined.
