(* ===== verification/Response.v ===== *)
(** * Classifying replies

    plugin/pkg/response (the type and the class of a message) and
    plugin/pkg/dnsutil/ttl.go (its lowest TTL). *)

From S2P Require Import Prelude.
From S2P Require Import GoStd.
From S2P Require Import DnsMsg.

(** The constants of [response.Type]. *)
Inductive RespType := NoError | NXDomain | ServerError | NoDataT | DelegationT | Meta | Update | OtherError.

#[export] Instance RespType_eq_dec : EqDecision RespType.
Proof. solve_decision. Defined.

Definition RespType_String (t : RespType) : string :=
  match t with
  | NoError => "NOERROR"
  | NXDomain => "NXDOMAIN"
  | ServerError => "SERVERERROR"
  | NoDataT => "NODATA"
  | DelegationT => "DELEGATION"
  | Meta => "META"
  | Update => "UPDATE"
  | OtherError => "OTHERERROR"
  end.

Definition all_types : list RespType := [NoError; NXDomain; ServerError; NoDataT; DelegationT; Meta; Update; OtherError].

(** The type and whether there is an error; the strings are distinct, so the
    order of the map does not matter. *)
Definition TypeFromString (s : string) : RespType * bool :=
  match list_find (fun t => RespType_String t = s) all_types with
  | Some (_, t) => (t, false)
  | None => (NoError, true)
  end.

(** The constants of [response.Class]. *)
Inductive Class_ := All | SuccessC | Denial | ErrorC.

#[export] Instance Class__eq_dec : EqDecision Class_.
Proof. solve_decision. Defined.

Definition Class_String (c : Class_) : string :=
  match c with All => "all" | SuccessC => "success" | Denial => "denial" | ErrorC => "error" end.

Definition ClassFromString (s : string) : Class_ * bool :=
  if decide (s = "all"%string) then (All, false)
  else if decide (s = "success"%string) then (SuccessC, false)
  else if decide (s = "denial"%string) then (Denial, false)
  else if decide (s = "error"%string) then (ErrorC, false)
  else (All, true).

Definition Classify (t : RespType) : Class_ :=
  match t with
  | NoError | DelegationT => SuccessC
  | NXDomain | NoDataT => Denial
  | _ => ErrorC
  end.

Section typify.
Context `{Dm : DnsMsgs}.

(** [None] is the panic of the type assertion. *)
Fixpoint typifyExpiredRRSIG (rrs : list RR) (t : Z) : option bool :=
  match rrs with
  | [] => Some false
  | r :: rrs' =>
      if decide (hRrtype r <> TypeRRSIG) then typifyExpiredRRSIG rrs' t
      else match rdata r with
           | RRSIG _ _ _ _ => if ValidityPeriod r t then typifyExpiredRRSIG rrs' t else Some true
           | _ => None
           end
  end.

Definition typifyExpired (m : Msg) (t : Z) : option bool :=
  a ← typifyExpiredRRSIG (mAnswer m) t;
  if (a : bool) then Some true
  else
    n ← typifyExpiredRRSIG (mNs m) t;
    if (n : bool) then Some true
    else typifyExpiredRRSIG (mExtra m) t.

(** The type, and the OPT record of the message. *)
Definition Typify (m : option Msg) (t : Z) : option (RespType * option RR) :=
  match m with
  | None => Some (OtherError, None)
  | Some m =>
      let opt := IsEdns0 m ≫= (fun i => mExtra m !! i) in
      let do := match opt with Some o => OPT_Do o | None => false end in
      if decide (mOpcode m = OpcodeUpdate) then Some (Update, opt)
      else if decide (mOpcode m = OpcodeNotify) then Some (Meta, opt)
      else if match mQuestion m with
              | q :: _ => bool_decide (qType q = TypeAXFR \/ qType q = TypeIXFR)
              | [] => false
              end
      then Some (Meta, opt)
      else
        expired ← (if do then typifyExpired m t else Some false);
        if (expired : bool) then Some (OtherError, opt)
        else if decide (mAnswer m <> [] /\ mRcode m = RcodeSuccess) then Some (NoError, opt)
        else
          let soa := existsb (fun r => bool_decide (hRrtype r = TypeSOA)) (mNs m) in
          let ns := existsb (fun r => bool_decide (hRrtype r = TypeNS)) (mNs m) in
          if (soa && bool_decide (mRcode m = RcodeSuccess))%bool then Some (NoDataT, opt)
          else if (soa && bool_decide (mRcode m = RcodeNameError))%bool then Some (NXDomain, opt)
          else if decide (mRcode m = RcodeServerFailure \/ mRcode m = RcodeNotImplemented) then Some (ServerError, opt)
          else if (ns && bool_decide (mRcode m = RcodeSuccess))%bool then Some (DelegationT, opt)
          else if decide (mRcode m = RcodeSuccess) then Some (NoError, opt)
          else Some (OtherError, opt)
  end.
End typify.

(** ** The lowest TTL *)

Definition MinimalDefaultTTL : Z := 5 * Second.
Definition MaximumDefaulTTL : Z := 1 * Hour.

(** One turn of the loops over the sections. *)
Definition lower_ttl (minTTL : Z) (r : RR) : Z :=
  if decide (hTtl r < u32 (seconds minTTL))%Z then hTtl r * Second else minTTL.

Definition not_opt (r : RR) : Prop := hRrtype r <> TypeOPT.

#[export] Instance not_opt_dec r : Decision (not_opt r).
Proof. unfold not_opt. apply _. Defined.

Definition MinimalTTL (m : Msg) (mt : RespType) : Z :=
  if decide (mt <> NoError /\ mt <> NXDomain /\ mt <> NoDataT) then MinimalDefaultTTL
  else if decide (mAnswer m = [] /\ mNs m = [] /\
                  match mExtra m with
                  | [] => true
                  | [r] => bool_decide (hRrtype r = TypeOPT)
                  | _ => false
                  end = true) then MinimalDefaultTTL
  else
    let minTTL := fold_left lower_ttl (mAnswer m) MaximumDefaulTTL in
    let minTTL := fold_left lower_ttl (mNs m) minTTL in
    fold_left lower_ttl (filter not_opt (mExtra m)) minTTL.

(** ** Properties *)

Lemma lower_ttl_min minTTL r :
  (0 <= minTTL <= MaximumDefaulTTL)%Z -> (0 <= hTtl r)%Z -> (minTTL mod Second = 0)%Z ->
  lower_ttl minTTL r = Z.min (hTtl r * Second) minTTL /\ (0 <= lower_ttl minTTL r <= MaximumDefaulTTL)%Z /\
  (lower_ttl minTTL r mod Second = 0)%Z.
Proof.
  unfold lower_ttl, MaximumDefaulTTL, Hour, Minute, seconds, Second, u32. intros Hm Hr Hd.
  apply Z.mod_divide in Hd as [k ->]; [|lia]. rewrite Z.quot_mul by lia. rewrite Z.mod_small by lia.
  case_decide; (split; [lia|]); (split; [lia|]); rewrite Z.mod_mul; lia.
Qed.

(** The lowest TTL of the records, capped at an hour. *)
Definition lowest (rrs : list RR) : Z := fold_right Z.min MaximumDefaulTTL (map (fun r => hTtl r * Second)%Z rrs).

Lemma lower_ttl_fold rrs minTTL :
  (0 <= minTTL <= MaximumDefaulTTL)%Z -> (minTTL mod Second = 0)%Z -> Forall (fun r => 0 <= hTtl r)%Z rrs ->
  fold_left lower_ttl rrs minTTL = Z.min minTTL (lowest rrs) /\
  (0 <= fold_left lower_ttl rrs minTTL <= MaximumDefaulTTL)%Z /\
  (fold_left lower_ttl rrs minTTL mod Second = 0)%Z.
Proof.
  intros Hm Hd Hr. revert minTTL Hm Hd. induction Hr as [|r rrs Hr _ IH]; intros minTTL Hm Hd; simpl.
  { unfold lowest. simpl. split; [lia|done]. }
  destruct (lower_ttl_min minTTL r Hm Hr Hd) as (E & Hb & Hd').
  destruct (IH (lower_ttl minTTL r) Hb Hd') as (E' & H'). split; [|exact H'].
  rewrite E', E. unfold lowest. simpl. lia.
Qed.

Lemma lowest_app l1 l2 : lowest (l1 ++ l2) = Z.min (lowest l1) (lowest l2).
Proof.
  unfold lowest. induction l1 as [|r l1 IH]; simpl; [|rewrite IH; lia].
  induction l2 as [|r l2 IH2]; simpl; lia.
Qed.

(** The records whose TTL counts. *)
Definition msg_rrs (m : Msg) : list RR := mAnswer m ++ mNs m ++ filter not_opt (mExtra m).

(** The lowest TTL found in the message, at most an hour; five seconds when
    there are no records, and for messages of the other types. *)
Lemma MinimalTTL_spec m mt :
  Forall (fun r => 0 <= hTtl r)%Z (msg_rrs m) ->
  (0 <= MinimalTTL m mt <= MaximumDefaulTTL)%Z /\ (MinimalTTL m mt mod Second = 0)%Z /\
  (MinimalTTL m mt = lowest (msg_rrs m) \/ MinimalTTL m mt = MinimalDefaultTTL).
Proof.
  intros Hr. unfold MinimalTTL.
  assert ((0 <= MinimalDefaultTTL <= MaximumDefaulTTL)%Z /\ (MinimalDefaultTTL mod Second = 0)%Z) as [Hb Hd] by done.
  case_decide; [by auto|]. case_decide; [by auto|]. unfold msg_rrs in *. apply Forall_app in Hr as [Ha Hr].
  apply Forall_app in Hr as [Hn He].
  destruct (lower_ttl_fold (mAnswer m) MaximumDefaulTTL) as (E1 & B1 & D1); [done|done|done|].
  destruct (lower_ttl_fold (mNs m) _ B1 D1 Hn) as (E2 & B2 & D2).
  destruct (lower_ttl_fold _ _ B2 D2 He) as (E3 & B3 & D3). split; [done|]. split; [done|]. left.
  rewrite E3, E2, E1, !lowest_app.
  assert (lowest (mAnswer m) <= MaximumDefaulTTL)%Z; [|lia].
  unfold lowest. clear. induction (mAnswer m); simpl; [done|lia].
Qed.
