(* ===== verification/PkgCache.v ===== *)
(** * The sharded cache

    plugin/pkg/cache/cache.go: 256 shards, each a map of bounded size from
    which an arbitrary element is evicted when it is full; and
    plugin/cache/freq, which counts hits. *)

From S2P Require Import Prelude.
From S2P Require Import GoStd.

Definition shardSize : Z := 256.

(** ** FNV-1, hash/fnv's New64 *)

Definition fnv_offset64 : Z := 14695981039346656037.
Definition fnv_prime64 : Z := 1099511628211.

Definition fnv_byte (h : Z) (c : Z) : Z := Z.lxor (u64 (h * fnv_prime64)) c.
Definition fnv_write (h : Z) (bs : list Z) : Z := fold_left fnv_byte bs h.

Definition Hash (what : list Z) : Z := fnv_write fnv_offset64 what.

Section cache.
Context `{GR : GoRange} {V : Type}.

Record Shard := mkShard { sItems : gmap Z V; sSize : Z }.

(** The shards are an array: an index out of range would panic. *)
Definition ShardedCache : Type := list Shard.

Definition newShard (size : Z) : Shard := mkShard ∅ size.

Definition Cache_New (size : Z) : ShardedCache :=
  let ssize := Z.quot size shardSize in
  let ssize := if decide (ssize < 4)%Z then 4%Z else ssize in
  replicate (Z.to_nat shardSize) (newShard ssize).

Definition Shard_Len (s : Shard) : Z := Z.of_nat (size (sItems s)).

(** The first key of the range is evicted, any one as far as the program
    knows. *)
Definition Shard_Evict (s : Shard) : Shard :=
  match go_range (sItems s) with
  | (k, _) :: _ => mkShard (delete k (sItems s)) (sSize s)
  | [] => s
  end.

Definition Shard_Add (s : Shard) (key : Z) (el : V) : Shard * bool :=
  let '(s, eviction) :=
    if decide (sSize s <= Shard_Len s)%Z then
      match sItems s !! key with
      | Some _ => (s, false)
      | None =>
          match go_range (sItems s) with
          | (k, _) :: _ => (mkShard (delete k (sItems s)) (sSize s), true)
          | [] => (s, false)
          end
      end
    else (s, false) in
  (mkShard (<[key := el]> (sItems s)) (sSize s), eviction).

Definition Shard_Remove (s : Shard) (key : Z) : Shard := mkShard (delete key (sItems s)) (sSize s).

Definition Shard_Get (s : Shard) (key : Z) : option V := sItems s !! key.

(** [f] may change the map it is given. *)
Fixpoint walk_keys (f : gmap Z V -> Z -> gmap Z V * bool) (keys : list Z) (m : gmap Z V) : gmap Z V :=
  match keys with
  | [] => m
  | k :: keys' => let '(m, ok) := f m k in if (ok : bool) then walk_keys f keys' m else m
  end.

Definition Shard_Walk (f : gmap Z V -> Z -> gmap Z V * bool) (s : Shard) : Shard :=
  mkShard (walk_keys f (go_range (sItems s)).*1 (sItems s)) (sSize s).

Definition shard_of (key : Z) : nat := Z.to_nat (Z.land key (shardSize - 1)).

Definition Cache_Add (c : ShardedCache) (key : Z) (el : V) : option (ShardedCache * bool) :=
  s ← c !! shard_of key;
  let '(s, eviction) := Shard_Add s key el in
  Some (<[shard_of key := s]> c, eviction).

Definition Cache_Get (c : ShardedCache) (key : Z) : option (option V) :=
  s ← c !! shard_of key; Some (Shard_Get s key).

Definition Cache_Remove (c : ShardedCache) (key : Z) : option ShardedCache :=
  s ← c !! shard_of key; Some (<[shard_of key := Shard_Remove s key]> c).

Definition Cache_Len (c : ShardedCache) : Z := fold_left (fun l s => l + Shard_Len s)%Z c 0%Z.

Definition Cache_Walk (f : gmap Z V -> Z -> gmap Z V * bool) (c : ShardedCache) : ShardedCache :=
  map (Shard_Walk f) c.

(** ** The invariant *)

(** A shard holds at most [n] elements; there are 256 of them. *)
Definition shard_ok (n : Z) (s : Shard) : Prop := sSize s = n /\ (0 < n)%Z /\ (Shard_Len s <= n)%Z.
Definition cache_ok (n : Z) (c : ShardedCache) : Prop := length c = Z.to_nat shardSize /\ Forall (shard_ok n) c.

(** The size of the shards of a new cache. *)
Definition shard_cap (size : Z) : Z := Z.max 4 (Z.quot size shardSize).

Lemma Cache_New_ok size : cache_ok (shard_cap size) (Cache_New size).
Proof.
  unfold cache_ok, Cache_New. split; [apply length_replicate|]. apply Forall_replicate.
  unfold shard_ok, Shard_Len, newShard, shard_cap. simpl. rewrite map_size_empty. case_decide; lia.
Qed.

Lemma shard_of_lt key : (shard_of key < Z.to_nat shardSize)%nat.
Proof.
  unfold shard_of, shardSize. change (256 - 1)%Z with (Z.ones 8). rewrite Z.land_ones by lia.
  pose proof (Z.mod_pos_bound key (2 ^ 8) ltac:(lia)). lia.
Qed.

Lemma cache_shard n c key : cache_ok n c -> exists s, c !! shard_of key = Some s /\ shard_ok n s.
Proof.
  intros [Hl Hs]. destruct (lookup_lt_is_Some_2 c (shard_of key)) as [s E].
  { rewrite Hl. apply shard_of_lt. }
  exists s. split; [done|]. by eapply Forall_lookup_1.
Qed.

(** ** Shards *)

Lemma Shard_Add_spec n s key el :
  shard_ok n s ->
  exists s' ev, Shard_Add s key el = (s', ev) /\ shard_ok n s' /\ Shard_Get s' key = Some el /\
    (forall k v, Shard_Get s' k = Some v -> k = key \/ Shard_Get s k = Some v) /\
    (ev = false -> forall k, k <> key -> Shard_Get s' k = Shard_Get s k) /\
    (ev = true -> Shard_Len s = n /\ Shard_Get s key = None).
Proof.
  intros (Hn & Hpos & Hlen). unfold Shard_Add, Shard_Get, shard_ok, Shard_Len in *.
  destruct (decide (sSize s <= Z.of_nat (size (sItems s)))%Z) as [Hfull|Hroom].
  - destruct (sItems s !! key) as [v0|] eqn:Ek.
    + eexists _, _. split; [reflexivity|]. simpl. rewrite map_size_insert_Some by done.
      split; [done|]. split; [apply lookup_insert_eq|]. split; [|split; [|done]].
      * intros k v. rewrite lookup_insert_Some. intros [[-> _]|[_ ?]]; by auto.
      * intros _ k Hk. by apply lookup_insert_ne.
    + destruct (go_range (sItems s)) as [|[k0 v0] l] eqn:Er.
      { apply go_range_nil in Er. rewrite Er, map_size_empty in Hfull. lia. }
      assert (sItems s !! k0 = Some v0) as Hk0 by (apply go_range_elem; rewrite Er; by left).
      eexists _, _. split; [reflexivity|]. simpl.
      rewrite map_size_insert_None by (rewrite lookup_delete_None; by right).
      rewrite map_size_delete_Some by (by rewrite Hk0).
      split; [lia|]. split; [apply lookup_insert_eq|]. split; [|split; [done|intros _; split; [lia|done]]].
      intros k v. rewrite lookup_insert_Some, lookup_delete_Some. intros [[-> _]|[_ [_ ?]]]; by auto.
  - eexists _, _. split; [reflexivity|]. simpl.
    assert (size (<[key:=el]> (sItems s)) <= S (size (sItems s)))%nat.
    { rewrite map_size_insert. by destruct (sItems s !! key); simpl; lia. }
    split; [lia|]. split; [apply lookup_insert_eq|]. split; [|split; [|done]].
    + intros k v. rewrite lookup_insert_Some. intros [[-> _]|[_ ?]]; by auto.
    + intros _ k Hk. by apply lookup_insert_ne.
Qed.

(** ** The whole cache *)

(** The value under a key, in a well-formed cache. *)
Definition get (c : ShardedCache) (key : Z) : option V := c !! shard_of key ≫= (fun s => Shard_Get s key).

Lemma Cache_Get_get n c key : cache_ok n c -> Cache_Get c key = Some (get c key).
Proof. intros Hc. destruct (cache_shard n c key Hc) as (s & E & _). unfold Cache_Get, get. by rewrite E. Qed.

Lemma get_insert_shard n c key s' k :
  cache_ok n c ->
  get (<[shard_of key := s']> c) k = if decide (shard_of k = shard_of key) then Shard_Get s' k else get c k.
Proof.
  intros Hc. destruct (cache_shard n c key Hc) as (s & E & _). unfold get, ShardedCache in *. case_decide as Hd.
  - rewrite Hd, list_lookup_insert_eq by (by eapply lookup_lt_Some). done.
  - by rewrite list_lookup_insert_ne.
Qed.

Lemma cache_ok_insert n c key s' : cache_ok n c -> shard_ok n s' -> cache_ok n (<[shard_of key := s']> c).
Proof. unfold ShardedCache in *. intros [Hl Hs] Hs'. split; [by rewrite length_insert|]. by apply Forall_insert. Qed.

Lemma Cache_Add_spec n c key el :
  cache_ok n c ->
  exists c' ev, Cache_Add c key el = Some (c', ev) /\ cache_ok n c' /\ get c' key = Some el /\
    (forall k v, get c' k = Some v -> k = key \/ get c k = Some v) /\
    (ev = false -> forall k, k <> key -> get c' k = get c k).
Proof.
  intros Hc. destruct (cache_shard n c key Hc) as (s & E & Hs). unfold Cache_Add. rewrite E. simpl.
  destruct (Shard_Add_spec n s key el Hs) as (s' & ev & -> & Hs' & Hget & Hold & Hne & _).
  eexists _, _. split; [reflexivity|]. split; [by apply cache_ok_insert|].
  assert (forall k, shard_of k = shard_of key -> get c k = Shard_Get s k) as Hg.
  { intros k Hk. unfold get. by rewrite Hk, E. }
  split; [|split].
  - by rewrite (get_insert_shard n), decide_True by done.
  - intros k v. rewrite (get_insert_shard n) by done. case_decide as Hd; [|by right]. intros Hv.
    destruct (Hold k v Hv) as [->|?]; [by left|right]. by rewrite Hg.
  - intros Hev k Hk. rewrite (get_insert_shard n) by done. case_decide as Hd; [|done].
    rewrite (Hne Hev k Hk). by rewrite Hg.
Qed.

Lemma Cache_Remove_spec n c key :
  cache_ok n c ->
  exists c', Cache_Remove c key = Some c' /\ cache_ok n c' /\
    forall k, get c' k = if decide (k = key) then None else get c k.
Proof.
  intros Hc. destruct (cache_shard n c key Hc) as (s & E & (H1 & H2 & H3)). unfold Cache_Remove. rewrite E. simpl.
  eexists. split; [reflexivity|]. split.
  - apply cache_ok_insert; [done|]. unfold shard_ok, Shard_Len, Shard_Remove in *. simpl.
    split; [done|]. split; [done|]. rewrite map_size_delete. destruct (sItems s !! key); simpl; lia.
  - intros k. rewrite (get_insert_shard n) by done. unfold Shard_Get, Shard_Remove. simpl.
    case_decide as Hd; case_decide as Hk.
    + subst. by rewrite lookup_delete_eq.
    + rewrite lookup_delete_ne by done. unfold get. by rewrite Hd, E.
    + by subst.
    + done.
Qed.

Lemma Cache_Len_bound n c : cache_ok n c -> (0 <= Cache_Len c <= shardSize * n)%Z.
Proof.
  intros [Hl Hs]. unfold Cache_Len.
  assert (forall a, a <= fold_left (fun l s => l + Shard_Len s)%Z c a <= a + Z.of_nat (length c) * n)%Z as Hf.
  { clear Hl. induction Hs as [|s c (_ & Hp & Hn) _ IH]; intros a; simpl; [lia|].
    specialize (IH (a + Shard_Len s)%Z). unfold Shard_Len in *. lia. }
  specialize (Hf 0%Z). rewrite Hl in Hf. unfold shardSize in *. lia.
Qed.
End cache.

Arguments Shard : clear implicits.
Arguments ShardedCache : clear implicits.

(** ** Frequencies *)

Record Freq := mkFreq { fLast : Z; fHits : Z }.

(** [new(freq.Freq)]. *)
Definition freq_zero : Freq := mkFreq zeroTime 0.

Definition Freq_New (t : Z) : Freq := mkFreq t 0.

(** The number of hits is an int of 64 bits. *)
Definition Freq_Update (f : Freq) (d now : Z) : Freq :=
  let earliest := (now + -1 * d)%Z in
  if decide (fLast f < earliest)%Z then mkFreq now 1 else mkFreq now (fHits f + 1).

Definition Freq_Hits (f : Freq) : Z := fHits f.

Definition Freq_Reset (t hits : Z) : Freq := mkFreq t hits.
