(* ===== verification/GoFloat.v ===== *)
(** * float64

    The IEEE 754 operations the code computes with, from the Standard
    Library's specification of floating-point numbers. *)

From Stdlib Require Import SpecFloat.
From S2P Require Import Prelude.

Definition float64 (n : Z) : spec_float := binary_normalize 53 1024 n 0 false.
Definition fdiv (x y : spec_float) : spec_float := SFdiv 53 1024 x y.
Definition fmul (x y : spec_float) : spec_float := SFmul 53 1024 x y.

(** [int(math.Ceil(x))] of a finite number. *)
Definition ceil_int (x : spec_float) : Z :=
  match x with
  | S754_finite s m e =>
      let v := if s then Z.neg m else Z.pos m in
      if decide (0 <= e)%Z then (v * 2 ^ e)%Z else (- ((- v) / 2 ^ (- e)))%Z
  | _ => 0%Z
  end.

(** [uint16(math.Floor(x))]: the language leaves the result to the
    implementation, [f16], when the number does not fit. *)
Definition floor_uint16 (f16 : spec_float -> Z) (x : spec_float) : Z :=
  match x with
  | S754_zero _ => 0%Z
  | S754_finite s m e =>
      let v := if s then Z.neg m else Z.pos m in
      let n := if decide (0 <= e)%Z then (v * 2 ^ e)%Z else (v / 2 ^ (- e))%Z in
      if decide (0 <= n < 2 ^ 16)%Z then n else u16 (f16 x)
  | _ => u16 (f16 x)
  end.
