(* ===== verification/GoTime.v ===== *)
(** * Numbers and durations in text

    [strconv.Atoi], [time.ParseDuration] and [time.Duration.String], for the
    set-up functions. *)

From Stdlib Require Import SpecFloat.
From S2P Require Import Prelude.
From S2P Require Import GoStd.
From S2P Require Import GoNet.
From S2P Require Import GoText.
From S2P Require Import GoFloat.

(** ** strconv *)

Definition int_error (fn s err : string) : string := "strconv." +:+ fn +:+ ": parsing " +:+ go_quote s +:+ ": " +:+ err.

(** The number of digits, or the reason it is none. *)
Definition parse_int (fn : string) (bits : Z) (s : string) : Z + string :=
  let '(neg, digits) :=
    match s with
    | String "-" s' => (true, s')
    | String "+" s' => (false, s')
    | _ => (false, s)
    end in
  let range := inr (int_error fn s "value out of range") in
  match ParseUint bits digits with
  | (_, Some err) => inr (int_error fn s err)
  | (n, None) =>
      if neg : bool then if decide (2 ^ (bits - 1) < n)%Z then range else inl (- n)%Z
      else if decide (2 ^ (bits - 1) <= n)%Z then range else inl n
  end.

(** Ints have 64 bits. *)
Definition Atoi (s : string) : Z + string := parse_int "Atoi" 64 s.
Definition ParseInt (bits : Z) (s : string) : Z + string := parse_int "ParseInt" bits s.

(** ** time.ParseDuration *)

(** The digits in front: the number, or an overflow, and the rest. *)
Fixpoint leadingInt (x : Z) (s : string) : option (Z * string) :=
  match s with
  | EmptyString => Some (x, s)
  | String c s' =>
      match dec_val c with
      | None => Some (x, s)
      | Some d =>
          if decide (2 ^ 63 / 10 < x)%Z then None
          else let x := (x * 10 + d)%Z in if decide (2 ^ 63 < x)%Z then None else leadingInt x s'
      end
  end.

(** The digits of a fraction, as far as they fit, and the power of ten below. *)
Fixpoint leadingFraction (x scale : Z) (overflow : bool) (s : string) : Z * Z * string :=
  match s with
  | EmptyString => (x, scale, s)
  | String c s' =>
      match dec_val c with
      | None => (x, scale, s)
      | Some d =>
          let y := (x * 10 + d)%Z in
          if (overflow || bool_decide ((2 ^ 63 - 1) / 10 < x)%Z || bool_decide (2 ^ 63 < y)%Z)%bool
          then leadingFraction x scale true s'
          else leadingFraction y (scale * 10) false s'
      end
  end.

(** The letters up to the next digit or dot. *)
Fixpoint unit_name (s : string) : string * string :=
  match s with
  | EmptyString => (EmptyString, EmptyString)
  | String c s' =>
      if decide (c = ch_dot \/ dec_val c <> None) then (EmptyString, s)
      else let '(u, rest) := unit_name s' in (String c u, rest)
  end.

Definition unitMap (u : string) : option Z :=
  if decide (u = "ns") then Some 1%Z
  else if decide (u = "us" \/ u = String "194" (String "181" "s") \/ u = String "206" (String "188" "s")) then Some 1000%Z
  else if decide (u = "ms") then Some 1000000%Z
  else if decide (u = "s") then Some 1000000000%Z
  else if decide (u = "m") then Some 60000000000%Z
  else if decide (u = "h") then Some 3600000000000%Z
  else None.

(** [uint64(x)] of a finite number that is not negative. *)
Definition trunc_uint (x : spec_float) : Z :=
  match x with
  | S754_finite false m e => if decide (0 <= e)%Z then (Z.pos m * 2 ^ e)%Z else (Z.pos m / 2 ^ (- e))%Z
  | _ => 0%Z
  end.

Definition invalid_duration (orig : string) : string := "time: invalid duration " +:+ go_quote orig.

(** One number with its unit, in nanoseconds, and the rest. *)
Definition duration_term (orig s : string) : (Z * string) + string :=
  match s with
  | EmptyString => inr (invalid_duration orig)
  | String c _ =>
      if decide (c <> ch_dot /\ dec_val c = None) then inr (invalid_duration orig)
      else
        match leadingInt 0 s with
        | None => inr (invalid_duration orig)
        | Some (v, s1) =>
            let '(f, scale, s2, post) :=
              match s1 with
              | String c s' =>
                  if decide (c = ch_dot) then let '(f, scale, s2) := leadingFraction 0 1 false s' in (f, scale, s2, bool_decide (slen s2 <> slen s'))
                  else (0%Z, 1%Z, s1, false)
              | EmptyString => (0%Z, 1%Z, s1, false)
              end in
            if (bool_decide (slen s1 = slen s) && negb post)%bool then inr (invalid_duration orig)
            else
              let '(u, rest) := unit_name s2 in
              if decide (u = EmptyString) then inr ("time: missing unit in duration " +:+ go_quote orig)
              else
                match unitMap u with
                | None => inr ("time: unknown unit " +:+ go_quote u +:+ " in duration " +:+ go_quote orig)
                | Some unit =>
                    if decide (2 ^ 63 / unit < v)%Z then inr (invalid_duration orig)
                    else
                      let v := (v * unit)%Z in
                      let v := if decide (0 < f)%Z then (v + trunc_uint (fmul (float64 f) (fdiv (float64 unit) (float64 scale))))%Z else v in
                      if decide (2 ^ 63 < v)%Z then inr (invalid_duration orig) else inl (v, rest)
                end
        end
  end.

Fixpoint duration_loop (fuel : nat) (orig s : string) (d : Z) : Z + string :=
  match fuel with
  | O => inr (invalid_duration orig)
  | S fuel' =>
      if decide (s = EmptyString) then inl d
      else
        match duration_term orig s with
        | inr err => inr err
        | inl (v, rest) => if decide (2 ^ 63 < d + v)%Z then inr (invalid_duration orig) else duration_loop fuel' orig rest (d + v)
        end
  end.

(** Nanoseconds, or the error. *)
Definition ParseDuration (orig : string) : Z + string :=
  let '(neg, s) :=
    match orig with
    | String "-" s' => (true, s')
    | String "+" s' => (false, s')
    | _ => (false, orig)
    end in
  if decide (s = "0") then inl 0%Z
  else if decide (s = EmptyString) then inr (invalid_duration orig)
  else
    match duration_loop (S (slen s)) orig s 0 with
    | inr err => inr err
    | inl d => if neg : bool then inl (- d)%Z else if decide (2 ^ 63 - 1 < d)%Z then inr (invalid_duration orig) else inl d
    end.

(** ** time.Duration.String *)

(** The last [prec] digits as a fraction without zeros at its end, in front of
    [acc]; the number before it. *)
Fixpoint fmtFrac (prec : nat) (v : Z) (print : bool) (acc : string) : Z * string :=
  match prec with
  | O => (v, if print then "." +:+ acc else acc)
  | S prec' =>
      let print := (print || bool_decide (v mod 10 <> 0)%Z)%bool in
      fmtFrac prec' (v / 10) print (if print then Itoa (v mod 10) +:+ acc else acc)
  end.

Definition micro : string := String (ascii_of_nat 194) (String (ascii_of_nat 181) EmptyString).

Definition Duration_String (d : Z) : string :=
  let u := Z.abs d in
  let text :=
    if decide (u = 0)%Z then "0s"
    else if decide (u < 1000)%Z then Itoa u +:+ "ns"
    else if decide (u < 1000000)%Z then let '(u, s) := fmtFrac 3 u false (micro +:+ "s") in Itoa u +:+ s
    else if decide (u < Second)%Z then let '(u, s) := fmtFrac 6 u false "ms" in Itoa u +:+ s
    else
      let '(u, s) := fmtFrac 9 u false "s" in
      let s := Itoa (u mod 60) +:+ s in
      let u := (u / 60)%Z in
      if decide (0 < u)%Z then
        let s := Itoa (u mod 60) +:+ "m" +:+ s in
        let u := (u / 60)%Z in
        if decide (0 < u)%Z then Itoa u +:+ "h" +:+ s else s
      else s in
  if decide (d < 0)%Z then "-" +:+ text else text.

(** ** Facts *)

Lemma uint_go_exact max acc s n : (0 <= acc <= max)%Z -> uint_go max acc s = (n, None) -> (0 <= n <= max)%Z.
Proof.
  revert acc. induction s as [|c s IH]; intros acc Ha; simpl; [by intros [= <-]|].
  destruct (dec_val c) as [d|] eqn:Ed; [|done]. case_decide; [done|]. apply IH.
  assert (0 <= d)%Z; [|nia]. unfold dec_val in Ed. case_decide; simplify_eq; lia.
Qed.

Lemma ParseUint_exact bits s n : (0 <= bits)%Z -> ParseUint bits s = (n, None) -> (0 <= n < 2 ^ bits)%Z.
Proof.
  intros Hb. unfold ParseUint. case_decide; [done|]. pose proof (Z.pow_pos_nonneg 2 bits ltac:(lia) Hb).
  intros E%uint_go_exact; lia.
Qed.

Lemma parse_int_range fn bits s n : (1 <= bits)%Z -> parse_int fn bits s = inl n -> (- 2 ^ (bits - 1) <= n < 2 ^ (bits - 1))%Z.
Proof.
  intros Hb. unfold parse_int. destruct (match s with String "-" s' => _ | _ => _ end) as [neg digits].
  destruct (ParseUint bits digits) as [m [e|]] eqn:E; [done|]. apply ParseUint_exact in E; [|lia].
  pose proof (Z.pow_pos_nonneg 2 (bits - 1) ltac:(lia) ltac:(lia)). destruct neg; case_decide; intros [= <-]; lia.
Qed.

Example durations :
  ParseDuration "1h30m" = inl 5400000000000%Z /\ ParseDuration "1.5s" = inl 1500000000%Z /\ ParseDuration "-.5ms" = inl (-500000)%Z /\
  ParseDuration "30" = inr ("time: missing unit in duration " +:+ go_quote "30").
Proof. vm_compute. repeat split. Qed.
