(* ===== verification/Normalize.v ===== *)
(** * Zones from the configuration

    plugin/normalize.go (hosts of the Corefile and the zones they stand for),
    plugin/pkg/cidr (reverse zones of networks), plugin/pkg/parse/host.go
    (addresses of name servers) and the part of core/dnsserver/register.go that
    makes the configurations of the server blocks.  The networks of
    apparentlymart/go-cidr, the reverse names of miekg/dns and its reader of
    resolv.conf are interfaces. *)

From S2P Require Import Prelude.
From S2P Require Import GoStd.
From S2P Require Import GoNet.
From S2P Require Import GoText.
From S2P Require Import GoTime.
From S2P Require Import DnsNames.
From S2P Require Import DnsMsg.
From S2P Require Import Plugin.
From S2P Require Import Register.

(** ** Networks *)

(** [IPNet.String] of a network that is not nil. *)
Definition networkNumberAndMask (n : IPNet) : option (IP * list Z) :=
  let ip := default (net_IP n) (To4 (net_IP n)) in
  if decide (length ip <> 4 /\ length ip <> 16)%nat then None
  else if decide (length (net_Mask n) = 4)%nat then if decide (length ip = 4)%nat then Some (ip, net_Mask n) else None
  else if decide (length (net_Mask n) = 16)%nat then Some (ip, if decide (length ip = 4)%nat then drop 12 (net_Mask n) else net_Mask n)
  else None.

Definition IPNet_String (n : IPNet) : string :=
  match networkNumberAndMask n with
  | None => "<nil>"
  | Some (ip, m) =>
      match simpleMaskLength m with
      | Some l => IP_String ip +:+ "/" +:+ Itoa l
      | None => IP_String ip +:+ "/" +:+ strings_Join (map (fun b => digit (b / 16) +:+ digit (b mod 16)) m) EmptyString
      end
  end.

(** An address as a number and back. *)
Definition ip_number (ip : IP) : Z := fold_left (fun n b => n * 256 + b)%Z ip 0%Z.
Fixpoint number_ip (len : nat) (n : Z) : IP :=
  match len with
  | O => []
  | S len' => (n / 256 ^ Z.of_nat len') `mod` 256 :: number_ip len' n
  end%Z.

Class Networks := {
  NextSubnet : IPNet -> Z -> IPNet * bool;
  ReverseAddr : string -> option string
}.

(** Documented behaviour, of "NextSubnet returns the next available subnet of
    the desired mask size starting for the maximum IP of the offset subnet. If
    the IP exceeds the maxium IP then the second return value is true" and of
    "ReverseAddr returns the in-addr.arpa. or ip6.arpa. hostname of the IP
    address suitable for reverse DNS (PTR) record lookups". *)
Definition next_subnet (n : IPNet) (prefixLen : Z) : IPNet * bool :=
  let len := length (net_IP n) in
  let bits := (8 * Z.of_nat len)%Z in
  let next := (ip_number (net_IP n) + 2 ^ (bits - prefixLen))%Z in
  (mkIPNet (number_ip len (next `mod` 2 ^ bits)) (net_Mask n), bool_decide (2 ^ bits <= next)%Z).

(** A network of [prefixLen] bits. *)
Definition subnet (n : IPNet) (prefixLen : Z) : Prop :=
  exists bits, (bits = 32 \/ bits = 128)%Z /\ (0 <= prefixLen <= bits)%Z /\ net_Mask n = CIDRMask prefixLen bits /\
    (8 * Z.of_nat (length (net_IP n)) = bits)%Z /\ Forall is_byte (net_IP n) /\ (2 ^ (bits - prefixLen) | ip_number (net_IP n))%Z.

(** ** plugin/pkg/cidr *)

Section cidr.
Context `{Networks}.

(** The networks after the first one. *)
Fixpoint nets_loop (k : nat) (n : IPNet) (newPrefixLen : Z) : list IPNet :=
  match k with
  | O => []
  | S k' => let '(next, exceeds) := NextSubnet n newPrefixLen in next :: if exceeds : bool then [] else nets_loop k' next newPrefixLen
  end.

(** The quotient of the powers of two is exact. *)
Definition nets (network : IPNet) (newPrefixLen : Z) : list IPNet :=
  let '(prefixLen, _) := Mask_Size (net_Mask network) in
  let maxSubnets := (2 ^ (newPrefixLen - prefixLen))%Z in
  let first := mkIPNet (net_IP network) (CIDRMask newPrefixLen (8 * Z.of_nat (length (net_IP network)))) in
  first :: nets_loop (Z.to_nat (maxSubnets - 1)) first newPrefixLen.

(** The division by 8 or 4 is exact in binary, so its ceiling is that of the
    integers. *)
Definition cidr_Split (n : IPNet) : list string :=
  let nstr := IPNet_String n in
  let boundary := if strings_Contains nstr ":" then 4%Z else 8%Z in
  let '(ones, _) := Mask_Size (net_Mask n) in
  if decide (ones `mod` boundary = 0)%Z then [nstr]
  else map IPNet_String (nets n ((ones + boundary - 1) / boundary * boundary)%Z).

Section reverse.
Context `{DnsNames}.

(** The offset after a number of labels. *)
Fixpoint skip_labels (k : nat) (r : string) (offset : nat) : nat :=
  match k with
  | O => offset
  | S k' => let '(offset, end_) := NextLabel r offset in if end_ : bool then offset else skip_labels k' r offset
  end.

(** The zone of one network; an error of the parser leaves a nil address,
    which prints as shown, and a nil network. *)
Definition reverse_zone (s : string) : option string :=
  let parsed := ParseCIDR s in
  match ReverseAddr (IP_String (match parsed with Some (ip, _) => ip | None => [] end)) with
  | None => Some EmptyString
  | Some r =>
      '(_, n) ← parsed;
      let '(ones, bits) := Mask_Size (net_Mask n) in
      let sizeDigit := if decide (length (net_IP n) = 16)%nat then 4%Z else 8%Z in
      let mod_ := ((bits - ones) `rem` sizeDigit)%Z in
      let nearest := (bits - ones + mod_)%Z in
      slice_from r (skip_labels (Z.to_nat (nearest `quot` sizeDigit)) r 0)
  end.

Definition cidr_Reverse (nets : list string) : option (list string) := mapM reverse_zone nets.
End reverse.
End cidr.

(** ** plugin/normalize.go *)

Section normalize.
Context `{DnsNames} `{Networks}.

(** The part before the port and the port; the errors of the code. *)
Definition plugin_SplitHostPort (s : string) : option ((list string * string) + string) :=
  let colon := LastIndexByte ch_colon s in
  if decide (s = EmptyString \/ colon = Some (slen s - 1)%nat)
  then Some (inr ("expecting data after last colon: " +:+ go_quote s))
  else
    let '(s, port) :=
      match colon with
      | None => (s, EmptyString)
      | Some i => match Atoi (sdrop (S i) s) with inl p => (stake i s, Itoa p) | inr _ => (s, EmptyString) end
      end in
    if decide (255 < slen s)%nat
    then Some (inr ("specified zone is too long: " +:+ Itoa (Z.of_nat (slen s)) +:+ " > 255"))
    else if IsDomainName s then
      match ParseCIDR s with
      | None => Some (inl ([s], port))
      | Some (_, n) =>
          if (HasPrefix s ":" || (HasPrefix s "0" && strings_Contains s ":"))%bool then Some (inr ("invalid CIDR " +:+ s))
          else hosts ← cidr_Reverse (cidr_Split n); Some (inl (hosts, port))
      end
    else Some (inr ("zone is not a valid domain name: " +:+ s)).

(** The zones of a host of the Corefile, none when it is not valid. *)
Definition NormalizeExact (h : string) : option (list string) :=
  let '(_, s) := Transport h in
  res ← plugin_SplitHostPort s;
  Some match res with
       | inr _ => []
       | inl (hosts, _) => map Name_Normalize hosts
       end.

(** The deprecated variants: the first zone. *)
Definition MustNormalize (h : string) : option (string + string) :=
  let '(_, s) := Transport h in
  res ← plugin_SplitHostPort s;
  match res with
  | inr err => Some (inr err)
  | inl (hosts, _) => z ← head hosts; Some (inl (Name_Normalize z))
  end.

Definition Host_Normalize (h : string) : option string :=
  res ← MustNormalize h;
  Some match res with inl z => z | inr _ => EmptyString end.

(** The zones of the arguments, or those of the server block. *)
Definition OriginsFromArgsOrServerBlock (args serverblock : list string) : option (list string) :=
  if decide (args = []) then mapM (fun k => zones ← NormalizeExact k; head zones) serverblock
  else @concat string <$> mapM NormalizeExact args.
End normalize.

(** ** plugin/pkg/parse/host.go *)

Definition port_dns : string := "53".
Definition port_tls : string := "853".
Definition port_grpc : string := "443".
Definition port_https : string := "443".

Definition ErrNoNameservers : string := "no nameservers found".

Definition ch_percent : ascii := "%"%char.
Definition stripZone (host : string) : string :=
  match LastIndexByte ch_percent host with Some i => stake i host | None => host end.

Section host.
(** [dns.ClientConfigFromFile]: the servers and the port of a file like
    resolv.conf, or an error. *)
Context (ClientConfigFromFile : string -> (list string * string) + string).

Definition tryFile (s : string) : (list string) + string :=
  match ClientConfigFromFile s with
  | inr err => inr err
  | inl (servers, port) => inl (map (fun s => JoinHostPort s port) servers)
  end.

Definition not_address (host : string) : string := "not an IP address or file: " +:+ go_quote host.

(** The servers that one string stands for. *)
Definition host_servers (h : string) : (list string) + string :=
  let '(trans, host) := Transport h in
  let from_file := match tryFile host with inl ss => inl ss | inr _ => inr (not_address host) end in
  match SplitHostPort host with
  | None =>
      if decide (ParseIP (stripZone host) = None) then from_file
      else inl [if decide (trans = tDNS) then JoinHostPort host port_dns
                else if decide (trans = tTLS) then tTLS +:+ "://" +:+ JoinHostPort host port_tls
                else if decide (trans = tGRPC) then tGRPC +:+ "://" +:+ JoinHostPort host port_grpc
                else if decide (trans = tHTTPS) then tHTTPS +:+ "://" +:+ JoinHostPort host port_https
                else EmptyString]
  | Some (addr, _) => if decide (ParseIP (stripZone addr) = None) then from_file else inl [h]
  end.

Fixpoint host_loop (s : list string) (servers : list string) : (list string) + string :=
  match s with
  | [] => if decide (servers = []) then inr ErrNoNameservers else inl servers
  | h :: s' => match host_servers h with inr err => inr err | inl ss => host_loop s' (servers ++ ss) end
  end.

Definition HostPortOrFile (s : list string) : (list string) + string := host_loop s [].
End host.

Definition HostPort (s defaultPort : string) : string + string :=
  match SplitHostPort s with
  | None =>
      if decide (ParseIP s = None) then inr ("must specify an IP address: `" +:+ s +:+ "'")
      else inl (JoinHostPort s defaultPort)
  | Some (addr, port) =>
      let port := if decide (port = EmptyString) then defaultPort else port in
      if decide (ParseIP addr = None) then inr ("must specify an IP address: `" +:+ addr +:+ "'")
      else inl (JoinHostPort addr port)
  end.

(** ** Server blocks *)

Section blocks.
Context `{DnsNames} `{Networks} (Port : string).

Definition default_port (trans : string) : string :=
  if decide (trans = tDNS) then Port
  else if decide (trans = tTLS) then port_tls
  else if decide (trans = tGRPC) then port_grpc
  else if decide (trans = tHTTPS) then port_https
  else EmptyString.

(** The names that a key expands to are checked once more, with their closing
    dot. *)
Fixpoint check_hosts (hosts : list string) : option (option string) :=
  match hosts with
  | [] => Some None
  | h :: hosts' =>
      res ← plugin_SplitHostPort (Fqdn h);
      match res with inr err => Some (Some err) | inl _ => check_hosts hosts' end
  end.

(** The zones of one key. *)
Definition key_zones (k : string) : option (list zoneAddr + string) :=
  let '(trans, k1) := Transport k in
  res ← plugin_SplitHostPort k1;
  match res with
  | inr err => Some (inr err)
  | inl (hosts, port) =>
      bad ← check_hosts hosts;
      match bad with
      | Some err => Some (inr err)
      | None =>
          let port := if decide (port = EmptyString) then default_port trans else port in
          Some (inl (map (fun h => mkZoneAddr (Fqdn h) port trans EmptyString) hosts))
      end
  end.

Fixpoint block_zones (keys : list string) (zoneAddrs : list zoneAddr) : option (list zoneAddr + string) :=
  match keys with
  | [] => Some (inl zoneAddrs)
  | k :: keys' =>
      res ← key_zones k;
      match res with inr err => Some (inr err) | inl zs => block_zones keys' (zoneAddrs ++ zs) end
  end.

(** A configuration as it is made: its block and its place there, and the
    zone.  The first one of the block is the one its plugins are put in. *)
Record BlockConfig := mkBlockConfig { bcBlock : nat; bcKey : nat; bcAddr : zoneAddr }.

Fixpoint number_zones (ib ik : nat) (zs : list zoneAddr) : list BlockConfig :=
  match zs with [] => [] | z :: zs' => mkBlockConfig ib ik z :: number_zones ib (S ik) zs' end.

(** The keys of each block and the configurations.  A block has as many keys
    as zones: a key that expands to several is replaced by the first of them
    and the others are added. *)
Fixpoint InspectServerBlocks (ib : nat) (blocks : list (list string)) : option ((list (list string) * list BlockConfig) + string) :=
  match blocks with
  | [] => Some (inl ([], []))
  | keys :: blocks' =>
      res ← block_zones keys [];
      match res with
      | inr err => Some (inr err)
      | inl zs =>
          rest ← InspectServerBlocks (S ib) blocks';
          Some match rest with
               | inr err => inr err
               | inl (keys', configs) => inl (map zoneAddr_String zs :: keys', number_zones ib 0 zs ++ configs)
               end
      end
  end.
End blocks.
