(* ===== verification/CachePlugin.v ===== *)
(** * The cache plugin

    plugin/cache: items, the writer that stores replies, and the handler that
    answers from the cache.  Metrics are not modelled. *)

From Stdlib Require Import SpecFloat.
From S2P Require Import Prelude.
From S2P Require Import GoStd.
From S2P Require Import DnsNames.
From S2P Require Import DnsMsg.
From S2P Require Import Request.
From S2P Require Import Plugin.
From S2P Require Import Response.
From S2P Require Import PkgCache.
From S2P Require Import GoFloat.

(** ** Items *)

(** The frequency is behind a pointer, an index into the frequencies of the
    cache. *)
Record Item := mkItem {
  iName : string;
  iQType : Z;
  iRcode : Z;
  iAD : bool;
  iRA : bool;
  iAnswer : list RR;
  iNs : list RR;
  iExtra : list RR;
  iWildcard : string;
  iOrigTTL : Z;
  iStored : Z;
  iFreq : nat
}.

Definition newItem (m : Msg) (now d : Z) (freq : nat) : Item :=
  let '(name, qtype) := match mQuestion m with q :: _ => (qName q, qType q) | [] => (EmptyString, 0%Z) end in
  mkItem name qtype (mRcode m) (mAuthenticatedData m) (mRecursionAvailable m) (mAnswer m) (mNs m)
    (filter not_opt (mExtra m)) EmptyString (u32 (seconds d)) now freq.

Definition set_wildcard (wc : string) (i : Item) : Item :=
  mkItem (iName i) (iQType i) (iRcode i) (iAD i) (iRA i) (iAnswer i) (iNs i) (iExtra i) wc (iOrigTTL i) (iStored i)
    (iFreq i).

(** The records of the result; what the call does to the records it is given
    is [filterRRSlice_heap] below. *)
Definition filterRRSlice (rrs : list RR) (ttl : Z) : list RR := set_hTtl ttl <$> filter not_opt rrs.

Definition item_ttl (i : Item) (now : Z) : Z := (iOrigTTL i - seconds (now - iStored i))%Z.

Section items.
Context `{Dm : DnsMsgs}.

Definition toMsg (i : Item) (m : Msg) (now : Z) (do ad : bool) : Msg :=
  let m1 := SetReply zeroMsg m in
  let m1 := set_mAuthoritative true m1 in
  let m1 := set_mAuthenticatedData (iAD i) m1 in
  let m1 := if (negb do && negb ad)%bool then set_mAuthenticatedData false m1 else m1 in
  let m1 := set_mRecursionAvailable (iRA i) m1 in
  let m1 := set_mRcode (iRcode i) m1 in
  let ttl := u32 (item_ttl i now) in
  set_sections (filterRRSlice (iAnswer i) ttl) (filterRRSlice (iNs i) ttl) (filterRRSlice (iExtra i) ttl) m1.

(** [strings.EqualFold] on names, which are ASCII. *)
Definition item_matches (i : Item) (state : Request) : bool :=
  bool_decide (QType state = iQType i /\ ToLower (QName state) = ToLower (iName i)).
End items.

(** ** Keys *)

Definition byte_codes (s : string) : list Z := map (fun c => Z.of_N (N_of_ascii c)) (bytes_of s).

Definition hash (qname : string) (qtype : Z) (do : bool) : Z :=
  let h := fnv_write fnv_offset64 (byte_codes (if do then "1" else "0")) in
  let h := fnv_write h [Z.land (Z.shiftr qtype 8) 255] in
  let h := fnv_write h [Z.land qtype 255] in
  fnv_write h (byte_codes qname).

(** [None] is the index panic on a reply without a question. *)
Definition cache_key (qname : string) (m : Msg) (t : RespType) (do : bool) : option (option Z) :=
  if mTruncated m then Some None
  else if decide (t = OtherError \/ t = Meta \/ t = Update) then Some None
  else match mQuestion m with
       | [] => None
       | q :: _ => Some (Some (hash qname (qType q) do))
       end.

Definition computeTTL (msgTTL minTTL maxTTL : Z) : Z :=
  let ttl := msgTTL in
  let ttl := if decide (ttl < minTTL)%Z then minTTL else ttl in
  if decide (maxTTL < ttl)%Z then maxTTL else ttl.

(** ** The cache *)

Record CacheConf := mkConf {
  ccZones : list string;
  ccPcap : Z; ccPttl : Z; ccMinpttl : Z;
  ccNcap : Z; ccNttl : Z; ccMinnttl : Z;
  ccFailttl : Z;
  ccPrefetch : Z; ccDuration : Z; ccPercentage : Z;
  ccStaleUpTo : Z; ccVerifyStale : bool;
  ccPexcept : list string; ccNexcept : list string;
  ccKeepttl : bool
}.

Definition defaultCap : Z := 10000.

(** [New]: the defaults. *)
Definition cache_defaults : CacheConf :=
  mkConf [dot] defaultCap MaximumDefaulTTL MinimalDefaultTTL defaultCap (Z.quot MaximumDefaulTTL 2) MinimalDefaultTTL
    MinimalDefaultTTL 0 (1 * Minute) 10 0 false [] [] false.

(** The writer a reply goes through: the request it is for, and the fields of
    [ResponseWriter]. *)
Record RespWriter := mkRW {
  rwState : Request;
  rwDo : bool;
  rwAd : bool;
  rwPrefetch : bool;
  rwWildcard : bool;
  rwPexcept : list string;
  rwNexcept : list string
}.

(** A prefetch that has been started and has not run. *)
Record Job := mkJob { jCtx : Ctx; jWriter : Writer; jRW : RespWriter; jItem : Item; jNow : Z }.

Record CacheData := mkCache {
  cPcache : ShardedCache Item;
  cNcache : ShardedCache Item;
  cFreqs : gmap nat Freq;
  cNextFreq : nat;
  cJobs : list Job
}.

Definition cache_empty (c : CacheConf) : CacheData :=
  mkCache (Cache_New (ccPcap c)) (Cache_New (ccNcap c)) ∅ 0 [].

Definition set_pcache (p : ShardedCache Item) (d : CacheData) : CacheData :=
  mkCache p (cNcache d) (cFreqs d) (cNextFreq d) (cJobs d).
Definition set_ncache (n : ShardedCache Item) (d : CacheData) : CacheData :=
  mkCache (cPcache d) n (cFreqs d) (cNextFreq d) (cJobs d).
Definition set_freq (a : nat) (f : Freq) (d : CacheData) : CacheData :=
  mkCache (cPcache d) (cNcache d) (<[a := f]> (cFreqs d)) (cNextFreq d) (cJobs d).
Definition add_job (j : Job) (d : CacheData) : CacheData :=
  mkCache (cPcache d) (cNcache d) (cFreqs d) (cNextFreq d) (cJobs d ++ [j]).

(** [new(freq.Freq)]: a fresh frequency. *)
Definition new_freq (d : CacheData) : nat * CacheData :=
  (cNextFreq d, mkCache (cPcache d) (cNcache d) (<[cNextFreq d := freq_zero]> (cFreqs d)) (S (cNextFreq d)) (cJobs d)).

Definition freq_of (i : Item) (d : CacheData) : Freq := default freq_zero (cFreqs d !! iFreq i).

Section cache.
Context `{GR : GoRange} `{Dn : DnsNames} `{Dm : DnsMsgs}.

(** The state of the process has a clock, the name the metadata of the query
    hold under zone/wildcard, and the cache. *)
Context {W : Type} (now : W -> Z) (wildcard : W -> string) (put_wildcard : string -> W -> W)
  (data : W -> CacheData) (put_data : CacheData -> W -> W).
Context (c : CacheConf) (next : option (Handler W)).

Definition Cache_Name : string := "cache".

(** ** Storing a reply *)

Definition rw_set (w : RespWriter) (m : Msg) (key : Z) (mt : RespType) (duration : Z) (s : W) : option W :=
  q ← head (mQuestion m);
  let item (d : CacheData) :=
    let '(f, d) := new_freq d in
    let i := newItem m (now s) duration f in
    (if rwWildcard w then set_wildcard (wildcard s) i else i, d) in
  match mt with
  | NoError | DelegationT =>
      if decide (Zones_Matches (rwPexcept w) (qName q) <> EmptyString) then Some s
      else
        let '(i, d) := item (data s) in
        '(p, _) ← Cache_Add (cPcache d) key i;
        let d := set_pcache p d in
        d ← (if rwPrefetch w then n ← Cache_Remove (cNcache d) key; Some (set_ncache n d) else Some d);
        Some (put_data d s)
  | NXDomain | NoDataT | ServerError =>
      if decide (Zones_Matches (rwNexcept w) (qName q) <> EmptyString) then Some s
      else
        let '(i, d) := item (data s) in
        '(n, _) ← Cache_Add (cNcache d) key i;
        Some (put_data (set_ncache n d) s)
  | _ => Some s
  end.

Definition rw_duration (mt : RespType) (msgTTL : Z) : Z :=
  match mt with
  | NXDomain | NoDataT => computeTTL msgTTL (ccMinnttl c) (ccNttl c)
  | ServerError => ccFailttl c
  | _ => computeTTL msgTTL (ccMinpttl c) (ccPttl c)
  end.

(** The new state, and what is written to the client. *)
Definition rw_WriteMsg (w : RespWriter) (res : Msg) (s : W) : option (W * list Msg) :=
  '(mt, _) ← Typify (Some res) (now s);
  key ← cache_key (Name (rwState w)).2 res mt (rwDo w);
  let duration := rw_duration mt (MinimalTTL res mt) in
  s ← (match key with
       | Some key =>
           if decide (0 < duration)%Z then
             if Match (rwState w) res then rw_set w res key mt duration s else Some s
           else Some s
       | None => Some s
       end);
  if rwPrefetch w then Some (s, [])
  else
    let ttl := u32 (seconds duration) in
    let res := set_sections (filterRRSlice (mAnswer res) ttl) (filterRRSlice (mNs res) ttl)
                 (filterRRSlice (mExtra res) ttl) res in
    let res := if (negb (rwDo w) && negb (rwAd w))%bool then set_mAuthenticatedData false res else res in
    Some (s, [res]).

(** Every message a handler writes. *)
Fixpoint rw_write_all (w : RespWriter) (msgs : list Msg) (s : W) : option (W * list Msg) :=
  match msgs with
  | [] => Some (s, [])
  | m :: msgs' =>
      '(s, out) ← rw_WriteMsg w m s;
      '(s, out') ← rw_write_all w msgs' s;
      Some (s, out ++ out')
  end.

(** The writer that verifies a stale item: the flag says whether the last
    message went through. *)
Fixpoint verify_write_all (w : RespWriter) (msgs : list Msg) (refreshed : bool) (s : W)
  : option (W * list Msg * bool) :=
  match msgs with
  | [] => Some (s, [], refreshed)
  | m :: msgs' =>
      if decide (mRcode m = RcodeSuccess \/ mRcode m = RcodeNameError) then
        '(s, out) ← rw_WriteMsg w m s;
        '(s, out', refreshed) ← verify_write_all w msgs' true s;
        Some (s, out ++ out', refreshed)
      else verify_write_all w msgs' false s
  end.

(** ** Looking up *)

Definition item_usable (i : Item) (state : Request) (t : Z) : bool :=
  let ttl := item_ttl i t in
  (item_matches i state &&
   (bool_decide (0 < ttl) || (bool_decide (0 < ccStaleUpTo c) && bool_decide (- ttl < seconds (ccStaleUpTo c)))))%Z%bool.

Definition state_key (state : Request) : option Z :=
  '(_, do) ← Do state;
  Some (hash (Name state).2 (QType state) do).

Definition getIgnoreTTL (t : Z) (state : Request) (d : CacheData) : option (option Item) :=
  k ← state_key state;
  n ← Cache_Get (cNcache d) k;
  match n with
  | Some i =>
      if item_usable i state t then Some (Some i)
      else
        p ← Cache_Get (cPcache d) k;
        Some (p ≫= (fun i => if item_usable i state t then Some i else None))
  | None =>
      p ← Cache_Get (cPcache d) k;
      Some (p ≫= (fun i => if item_usable i state t then Some i else None))
  end.

Definition cache_exists (state : Request) (d : CacheData) : option (option Item) :=
  k ← state_key state;
  n ← Cache_Get (cNcache d) k;
  match n with
  | Some i => Some (Some i)
  | None => Cache_Get (cPcache d) k
  end.

(** ** Prefetching *)

Definition prefetch_threshold (i : Item) : Z :=
  ceil_int (fmul (fdiv (float64 (ccPercentage c)) (float64 100)) (float64 (iOrigTTL i))).

Definition shouldPrefetch (i : Item) (t : Z) (d : CacheData) : CacheData * bool :=
  if decide (ccPrefetch c <= 0)%Z then (d, false)
  else
    let f := Freq_Update (freq_of i d) (ccDuration c) t in
    (set_freq (iFreq i) f d,
     bool_decide (ccPrefetch c <= Freq_Hits f /\ item_ttl i t <= prefetch_threshold i)%Z).

(** A UDP client's address is made a TCP one, so that nothing is truncated. *)
Definition prefetch_writer (w : Writer) : Writer :=
  mkWriter (match RemoteAddr w with UDPAddr ip str => TCPAddr ip str | a => a end) (LocalAddr w).

Definition newPrefetchResponseWriter (state : Request) : option RespWriter :=
  '(_, do) ← Do state;
  Some (mkRW state do false true false [] []).

Definition doRefresh (ctx : Ctx) (w : Writer) (state : Request) (s : W) : option (W * list Msg * Z * option string) :=
  r ← Req state;
  NextOrFailure Cache_Name next ctx w r s.

Definition doPrefetch (j : Job) (s : W) : option W :=
  let state := rwState (jRW j) in
  '(s, msgs, _, _) ← doRefresh (jCtx j) (jWriter j) state s;
  '(s, _) ← rw_write_all (jRW j) msgs s;
  i1 ← cache_exists state (data s);
  match i1 with
  | Some i1 =>
      Some (put_data (set_freq (iFreq i1) (Freq_Reset (jNow j) (Freq_Hits (freq_of (jItem j) (data s)))) (data s)) s)
  | None => Some s
  end.

(** The oldest prefetch runs. *)
Definition run_job (s : W) : option W :=
  match cJobs (data s) with
  | [] => Some s
  | j :: js =>
      let d := data s in
      doPrefetch j (put_data (mkCache (cPcache d) (cNcache d) (cFreqs d) (cNextFreq d) js) s)
  end.

(** ** ServeDNS *)

Definition start_prefetch (ctx : Ctx) (w : Writer) (state : Request) (i : Item) (t : Z) (s : W) : option W :=
  cw ← newPrefetchResponseWriter state;
  Some (put_data (add_job (mkJob ctx (prefetch_writer w) cw i t) (data s)) s).

(** The reply made from an item. *)
Definition serve_item (r : Msg) (i : Item) (t : Z) (do ad : bool) (s : W) : W * Msg :=
  let s := if decide (iWildcard i = EmptyString) then s else put_wildcard (iWildcard i) s in
  let t := if ccKeepttl c then iStored i else t in
  (s, toMsg i r t do ad).

Definition Cache_ServeDNS : Handler W := fun ctx w r s =>
  let state := newRequest w (Some r) in
  '(state, do) ← Do state;
  let ad := mAuthenticatedData r in
  let '(state, qname) := Name state in
  if decide (Zones_Matches (ccZones c) qname = EmptyString) then NextOrFailure Cache_Name next ctx w r s
  else
    let t := now s in
    i ← getIgnoreTTL t state (data s);
    match i with
    | None =>
        let crr := mkRW state do ad false true (ccPexcept c) (ccNexcept c) in
        '(s, msgs, rcode, err) ← doRefresh ctx w state s;
        '(s, out) ← rw_write_all crr msgs s;
        Some (s, out, rcode, err)
    | Some i =>
        let ttl := item_ttl i t in
        if decide (ttl < 0)%Z then
          let t' := (t + ttl * Second)%Z in
          if ccVerifyStale c then
            let crr := mkRW state do false false false [] [] in
            '(s, msgs, rcode, err) ← doRefresh ctx w state s;
            '(s, out, refreshed) ← verify_write_all crr msgs false s;
            if (refreshed : bool) then Some (s, out, rcode, err)
            else
              let '(s, m) := serve_item r i t' do ad s in
              Some (s, out ++ [m], RcodeSuccess, None)
          else
            s ← start_prefetch ctx w state i t' s;
            let '(s, m) := serve_item r i t' do ad s in
            Some (s, [m], RcodeSuccess, None)
        else
          let '(d, prefetch) := shouldPrefetch i t (data s) in
          let s := put_data d s in
          s ← (if (prefetch : bool) then start_prefetch ctx w state i t s else Some s);
          let '(s, m) := serve_item r i t do ad s in
          Some (s, [m], RcodeSuccess, None)
    end.
End cache.

(** ** filterRRSlice and the records it is given *)

(** The records are behind pointers, keys of a heap; [dns.Copy] makes a fresh
    one. *)
Definition heap_copy (h : gmap nat RR) (r : RR) : gmap nat RR * nat := let a := fresh (dom h) in (<[a := r]> h, a).

(** The TTL is set on the record itself, before it is copied; [None] is a nil
    pointer. *)
Fixpoint filterRRSlice_heap (h : gmap nat RR) (rrs : list nat) (ttl : Z) (dup : bool)
  : option (gmap nat RR * list nat) :=
  match rrs with
  | [] => Some (h, [])
  | a :: rrs' =>
      r ← h !! a;
      if decide (hRrtype r = TypeOPT) then filterRRSlice_heap h rrs' ttl dup
      else
        let r := set_hTtl ttl r in
        let h := <[a := r]> h in
        let '(h, b) := if dup then heap_copy h r else (h, a) in
        '(h, rs) ← filterRRSlice_heap h rrs' ttl dup;
        Some (h, b :: rs)
  end.
