(* ===== verification/CacheTheorems.v ===== *)
(** * Properties of the cache *)

From S2P Require Import Prelude.
From S2P Require Import GoStd.
From S2P Require Import DnsNames.
From S2P Require Import DnsMsg.
From S2P Require Import Request.
From S2P Require Import ZoneSpec.
From S2P Require Import Plugin.
From S2P Require Import Response.
From S2P Require Import PkgCache.
From S2P Require Import CachePlugin.

(** ** Histories of a sharded cache *)

Section history.
Context `{GR : GoRange} {V : Type}.

Inductive CacheOp := OpAdd (k : Z) (v : V) | OpRemove (k : Z).

Definition cache_op (c : ShardedCache V) (o : CacheOp) : option (ShardedCache V) :=
  match o with
  | OpAdd k v => '(c, _) ← Cache_Add c k v; Some c
  | OpRemove k => Cache_Remove c k
  end.

Fixpoint cache_ops (c : ShardedCache V) (os : list CacheOp) : option (ShardedCache V) :=
  match os with
  | [] => Some c
  | o :: os' => c ← cache_op c o; cache_ops c os'
  end.

(** The map the operations describe, without evictions. *)
Definition ideal_op (m : gmap Z V) (o : CacheOp) : gmap Z V :=
  match o with OpAdd k v => <[k := v]> m | OpRemove k => delete k m end.
Definition ideal (os : list CacheOp) : gmap Z V := fold_left ideal_op os ∅.

(** The cache may forget, but what it has is what was put in. *)
Definition forgets (c : ShardedCache V) (m : gmap Z V) : Prop := forall k v, get c k = Some v -> m !! k = Some v.

Lemma cache_op_sim n c m o :
  cache_ok n c -> forgets c m ->
  exists c', cache_op c o = Some c' /\ cache_ok n c' /\ forgets c' (ideal_op m o) /\
    match o with OpAdd k v => get c' k = Some v | OpRemove k => get c' k = None end.
Proof.
  intros Hc Hf. destruct o as [k v|k]; simpl.
  - destruct (Cache_Add_spec n c k v Hc) as (c' & ev & -> & Hc' & Hget & Hold & _). exists c'.
    split; [done|]. split; [done|]. split; [|done]. intros k' v' Hk'.
    destruct (decide (k' = k)) as [->|Hne]; [rewrite lookup_insert_eq; congruence|].
    rewrite lookup_insert_ne by done. destruct (Hold k' v' Hk') as [?|?]; [done|by apply Hf].
  - destruct (Cache_Remove_spec n c k Hc) as (c' & -> & Hc' & Hget). exists c'.
    split; [done|]. split; [done|]. split.
    + intros k' v'. rewrite Hget. case_decide as Hd; [done|]. intros Hk'. rewrite lookup_delete_ne by done. by apply Hf.
    + by rewrite Hget, decide_True.
Qed.

Lemma cache_ops_sim n c m os :
  cache_ok n c -> forgets c m ->
  exists c', cache_ops c os = Some c' /\ cache_ok n c' /\ forgets c' (fold_left ideal_op os m).
Proof.
  revert c m. induction os as [|o os IH]; intros c m Hc Hf; simpl; [by exists c|].
  destruct (cache_op_sim n c m o Hc Hf) as (c1 & -> & Hc1 & Hf1 & _). simpl. by apply IH.
Qed.

Lemma New_forgets size : forgets (Cache_New size) (∅ : gmap Z V).
Proof.
  intros k v. unfold get. destruct (Cache_New size !! shard_of k) as [s|] eqn:E; [|done]. simpl.
  apply lookup_replicate in E as [-> _]. unfold Shard_Get, newShard. simpl. by rewrite lookup_empty.
Qed.
End history.

Arguments CacheOp : clear implicits.

(** ** Lifetimes *)

Lemma computeTTL_bounds t lo hi : (lo <= hi)%Z -> (lo <= computeTTL t lo hi <= hi)%Z.
Proof.
  unfold computeTTL. cbv zeta. intros H. destruct (decide (t < lo)%Z); destruct (decide (hi < _)%Z); lia.
Qed.

(** ** The plugin *)

Section plugin.
Context `{GR : GoRange} `{Dn : DnsNames} `{Ok : DnsMsgsOk}.
Context {W : Type} (now : W -> Z) (wildcard : W -> string) (put_wildcard : string -> W -> W)
  (data : W -> CacheData) (put_data : CacheData -> W -> W).

(** The parts of the state do not interfere. *)
Record state_ok : Prop := {
  data_put d s : data (put_data d s) = d;
  now_put d s : now (put_data d s) = now s;
  data_wildcard wc s : data (put_wildcard wc s) = data s
}.
Hypothesis Hst : state_ok.

Definition caches_ok (n p : Z) (d : CacheData) : Prop := cache_ok n (cNcache d) /\ cache_ok p (cPcache d).

Context (c : CacheConf).

(** A writer that is not prefetching passes every message on. *)
Lemma rw_WriteMsg_out w res s s' out :
  rwPrefetch w = false -> rw_WriteMsg now wildcard data put_data c w res s = Some (s', out) -> length out = 1%nat.
Proof.
  intros Hp. unfold rw_WriteMsg. destruct (Typify _ _) as [[mt opt]|]; [|done]. cbn [mbind option_bind].
  destruct (cache_key _ _ _ _) as [key|]; [|done]. cbn [mbind option_bind].
  destruct (match key with Some _ => _ | None => _ end) as [s1|]; [|done]. cbn [mbind option_bind].
  rewrite Hp. by intros [= <- <-].
Qed.

Lemma rw_write_all_out w msgs s s' out :
  rwPrefetch w = false -> rw_write_all now wildcard data put_data c w msgs s = Some (s', out) ->
  length out = length msgs.
Proof.
  intros Hp. revert s out. induction msgs as [|m msgs IH]; intros s out; cbn [rw_write_all]; [by intros [= <- <-]|].
  destruct (rw_WriteMsg _ _ _ _ _ _ _ _) as [[s1 out1]|] eqn:E; [|done]. cbn [mbind option_bind].
  destruct (rw_write_all _ _ _ _ _ _ _ _) as [[s2 out2]|] eqn:E2; [|done]. cbn [mbind option_bind].
  intros [= <- <-]. rewrite length_app, (rw_WriteMsg_out _ _ _ _ _ Hp E), (IH _ _ E2). done.
Qed.

(** Of at most one message, the verifying writer passes it on or reports that
    it did not. *)
Lemma verify_write_all_out w msgs s s' out b :
  rwPrefetch w = false -> (length msgs <= 1)%nat ->
  verify_write_all now wildcard data put_data c w msgs false s = Some (s', out, b) ->
  length out = if b then 1%nat else 0%nat.
Proof.
  intros Hp Hl. destruct msgs as [|m [|]]; simpl in Hl; [|clear Hl|lia]; cbn [verify_write_all]; [by intros [= <- <- <-]|].
  case_decide; [|by intros [= <- <- <-]].
  destruct (rw_WriteMsg _ _ _ _ _ _ _ _) as [[s1 out1]|] eqn:E; [|done]. cbn [mbind option_bind].
  intros [= <- <- <-]. rewrite app_nil_r. by apply (rw_WriteMsg_out _ _ _ _ _ Hp E).
Qed.

(** ** Requests *)

(** A request for one name, given in lower case, one type and one DO bit. *)
Definition asks_for (r : Msg) (qname : string) (qtype : Z) (do : bool) : Prop :=
  exists q, mQuestion r = [q] /\ host_name (qName q) /\ ToLower (qName q) = qname /\ qType q = qtype /\
            from_option OPT_Do false (opt_of r) = do.

Lemma request_prep w r qname qtype do :
  asks_for r qname qtype do ->
  exists state0 state, Do (newRequest w (Some r)) = Some (state0, do) /\ Name state0 = (state, qname) /\
    Req state = Some r /\ QType state = qtype /\ ToLower (QName state) = qname /\ (Name state).2 = qname /\
    state_key state = Some (hash qname qtype do) /\ Do state = Some (state, do).
Proof.
  intros (q & Eq & Hh & El & Et & Ed).
  assert (qname <> EmptyString) as Hne.
  { rewrite <- El. intros E. apply (proj1 (ToLower_nil _)) in E. destruct Hh as [Hv _]. rewrite E in Hv. by destruct Hv as (Hv & _). }
  unfold Do at 1. rewrite decide_False by (by intros []).
  rewrite (Size_first _ r) by done. cbn [mbind option_bind].
  set (n := edns_Size _ _). assert (MinMsgSize <= n)%Z as Hn by apply edns_Size_min.
  simpl. rewrite Ed.
  exists (set_size n do (newRequest w (Some r))), (set_name qname (set_size n do (newRequest w (Some r)))).
  assert (Name (set_size n do (newRequest w (Some r))) = (set_name qname (set_size n do (newRequest w (Some r))), qname)) as EN.
  { unfold Name. simpl. rewrite Eq, Name_String_host by done. by rewrite El. }
  assert (Do (set_name qname (set_size n do (newRequest w (Some r)))) =
          Some (set_name qname (set_size n do (newRequest w (Some r))), do)) as EDo.
  { unfold Do. simpl. rewrite decide_True; [done|]. unfold MinMsgSize in Hn. lia. }
  assert ((Name (set_name qname (set_size n do (newRequest w (Some r))))).2 = qname) as EN2.
  { unfold Name. simpl. by rewrite decide_True. }
  assert (QType (set_name qname (set_size n do (newRequest w (Some r)))) = qtype) as EQ.
  { unfold QType. simpl. by rewrite Eq. }
  split; [done|]. split; [done|]. split; [done|]. split; [done|]. split.
  { unfold QName. simpl. rewrite Eq, Name_String_host by done. done. }
  split; [done|]. split; [|done]. unfold state_key. rewrite EDo. cbn [mbind option_bind]. by rewrite EN2, EQ.
Qed.

(** ** Hits *)

Lemma getIgnoreTTL_total n p t state k d :
  caches_ok n p d -> state_key state = Some k ->
  getIgnoreTTL c t state d = Some
    (match get (cNcache d) k with
     | Some i => if item_usable c i state t then Some i
                 else get (cPcache d) k ≫= (fun i => if item_usable c i state t then Some i else None)
     | None => get (cPcache d) k ≫= (fun i => if item_usable c i state t then Some i else None)
     end).
Proof.
  intros [Hn Hp] Hk. unfold getIgnoreTTL. rewrite Hk. cbn [mbind option_bind].
  rewrite (Cache_Get_get n _ k Hn), (Cache_Get_get p _ k Hp). cbn [mbind option_bind].
  destruct (get (cNcache d) k) as [i|]; [|done]. by destruct (item_usable c i state t).
Qed.

(** The TTL of the records in a reply made from an item. *)
Definition reply_ttl (i : Item) (t : Z) : Z := if ccKeepttl c then iOrigTTL i else Z.max 0 (item_ttl i t).

Definition item_ok (t : Z) (i : Item) : Prop := (0 <= iOrigTTL i < 2 ^ 32)%Z /\ (iStored i <= t)%Z.

Lemma item_ttl_stored i : item_ttl i (iStored i) = iOrigTTL i.
Proof. unfold item_ttl. rewrite Z.sub_diag. change (seconds 0) with 0%Z. lia. Qed.

Lemma item_ttl_le i t : (iStored i <= t)%Z -> (item_ttl i t <= iOrigTTL i)%Z.
Proof. intros Hle. unfold item_ttl. pose proof (seconds_nonneg (t - iStored i) ltac:(lia)). lia. Qed.

Lemma item_ttl_stale i t :
  (0 <= iOrigTTL i)%Z -> (item_ttl i t < 0)%Z -> item_ttl i (t + item_ttl i t * Second) = 0%Z.
Proof.
  intros Ho Hneg. set (k := item_ttl i t) in *.
  assert (seconds (t - iStored i) = iOrigTTL i - k)%Z as Es by (unfold k, item_ttl; lia).
  unfold item_ttl. replace (t + k * Second - iStored i)%Z with ((t - iStored i) + k * Second)%Z by lia.
  unfold seconds, Second in *.
  assert (0 <= t - iStored i)%Z as Hp.
  { destruct (decide (0 <= t - iStored i)%Z) as [|Hlt]; [done|exfalso].
    assert ((t - iStored i) ÷ 1000000000 <= 0)%Z; [|lia]. apply Z.quot_le_upper_bound; lia. }
  rewrite Z.quot_div_nonneg in Es by lia.
  assert ((iOrigTTL i - k) * 1000000000 <= t - iStored i)%Z.
  { rewrite <- Es. pose proof (Z.mul_div_le (t - iStored i) 1000000000). lia. }
  rewrite Z.quot_div_nonneg by lia. rewrite Z.div_add by lia. lia.
Qed.

(** An item answers for a name and type at time [t]: it is about them, and it
    is fresh or not stale for too long. *)
Definition usable_for (qname : string) (qtype t : Z) (i : Item) : Prop :=
  iQType i = qtype /\ ToLower (iName i) = qname /\
  (0 < item_ttl i t \/ 0 < ccStaleUpTo c /\ - item_ttl i t < seconds (ccStaleUpTo c))%Z.

#[local] Instance usable_for_dec qname qtype t i : Decision (usable_for qname qtype t i).
Proof. unfold usable_for. apply _. Defined.

Definition when_usable (qname : string) (qtype t : Z) (o : option Item) : option Item :=
  match o with Some i => if decide (usable_for qname qtype t i) then Some i else None | None => None end.

(** The item that answers, of the negative cache or else of the positive
    one. *)
Definition found (d : CacheData) (qname : string) (qtype : Z) (do : bool) (t : Z) : option Item :=
  let k := hash qname qtype do in
  match when_usable qname qtype t (get (cNcache d) k) with
  | Some i => Some i
  | None => when_usable qname qtype t (get (cPcache d) k)
  end.

Lemma item_usable_spec state qname qtype t i :
  QType state = qtype -> ToLower (QName state) = qname ->
  item_usable c i state t = bool_decide (usable_for qname qtype t i).
Proof.
  intros <- <-. unfold item_usable, item_matches, usable_for. apply eq_true_iff_eq.
  rewrite bool_decide_eq_true, andb_true_iff, orb_true_iff, andb_true_iff, !bool_decide_eq_true.
  split; [intros [[-> ->] ?]|intros (-> & -> & ?)]; tauto.
Qed.

Lemma getIgnoreTTL_found n p t state qname qtype do d :
  caches_ok n p d -> state_key state = Some (hash qname qtype do) ->
  QType state = qtype -> ToLower (QName state) = qname ->
  getIgnoreTTL c t state d = Some (found d qname qtype do t).
Proof.
  intros Hc Hk Ht Hn. rewrite (getIgnoreTTL_total n p t state _ d Hc Hk). f_equal.
  unfold found, when_usable. destruct (get (cNcache d) _) as [i|].
  - rewrite (item_usable_spec _ qname qtype) by done. case_bool_decide; case_decide; try done.
    destruct (get (cPcache d) _) as [j|]; [|done]. simpl. rewrite (item_usable_spec _ qname qtype) by done.
    by case_bool_decide; case_decide.
  - destruct (get (cPcache d) _) as [j|]; [|done]. simpl. rewrite (item_usable_spec _ qname qtype) by done.
    by case_bool_decide; case_decide.
Qed.

(** What a reply made from an item looks like. *)
Definition item_reply (r : Msg) (i : Item) (t : Z) (m : Msg) : Prop :=
  mId m = mId r /\ mQuestion m = mQuestion r /\ mResponse m = true /\ mRcode m = iRcode i /\
  mAnswer m = filterRRSlice (iAnswer i) (reply_ttl i t) /\ mNs m = filterRRSlice (iNs i) (reply_ttl i t) /\
  mExtra m = filterRRSlice (iExtra i) (reply_ttl i t).

Lemma toMsg_reply r i t t' do ad q :
  item_ok t i -> mQuestion r = [q] ->
  t' = (if decide (item_ttl i t < 0)%Z then (t + item_ttl i t * Second)%Z else t) ->
  item_reply r i t (toMsg i r (if ccKeepttl c then iStored i else t') do ad).
Proof.
  intros [Ho Hs] Hq ->. unfold item_reply, toMsg, reply_ttl. rewrite SetReply_ok, Hq.
  assert (u32 (item_ttl i (if ccKeepttl c then iStored i
            else if decide (item_ttl i t < 0)%Z then (t + item_ttl i t * Second)%Z else t)) =
          (if ccKeepttl c then iOrigTTL i else Z.max 0 (item_ttl i t))) as ->.
  { unfold u32. destruct (ccKeepttl c); [rewrite item_ttl_stored; by apply Z.mod_small|].
    pose proof (item_ttl_le i t Hs). case_decide as Hneg.
    - rewrite item_ttl_stale by lia. rewrite Z.max_l by lia. done.
    - rewrite Z.max_r by lia. apply Z.mod_small. lia. }
  by destruct (negb do && negb ad)%bool.
Qed.

Lemma serve_hit next ctx w r s qname qtype do n p i :
  asks_for r qname qtype do -> Zones_Matches (ccZones c) qname <> EmptyString -> caches_ok n p (data s) ->
  found (data s) qname qtype do (now s) = Some i -> item_ok (now s) i ->
  (item_ttl i (now s) < 0)%Z /\ ccVerifyStale c = true \/
  exists s' m, Cache_ServeDNS now wildcard put_wildcard data put_data c next ctx w r s =
    Some (s', [m], RcodeSuccess, None) /\ item_reply r i (now s) m.
Proof.
  intros Ha Hz Hc Hf Hi. destruct (request_prep w r qname qtype do Ha) as (st0 & st & ED & EN & ER & ET & EQ & EN2 & EK & ED2).
  unfold Cache_ServeDNS. rewrite ED. cbn [mbind option_bind]. rewrite EN, decide_False by done.
  rewrite (getIgnoreTTL_found n p _ _ qname qtype do) by done. cbn [mbind option_bind]. rewrite Hf.
  destruct Ha as (q & Hq & _). unfold start_prefetch, newPrefetchResponseWriter. rewrite ED2. cbn [mbind option_bind].
  case_decide as Hneg.
  - destruct (ccVerifyStale c); [by left|]. right. unfold serve_item.
    eexists _, _. split; [reflexivity|]. eapply toMsg_reply; [done|done|]. by rewrite decide_True.
  - right. destruct (shouldPrefetch c i (now s) (data s)) as [d pf]. unfold serve_item.
    destruct pf; eexists _, _; (split; [reflexivity|]); (eapply toMsg_reply; [done|done|]; by rewrite decide_False).
Qed.

(** ** The protocol *)

Lemma serve_replies b next r :
  (forall h, next = Some h -> replies b h r) ->
  replies b (Cache_ServeDNS now wildcard put_wildcard data put_data c next) r.
Proof.
  intros Hn ctx w s s' msgs rcode err. pose proof (NextOrFailure_replies b Cache_Name next r Hn) as Hp.
  assert (forall w' state s0 s1 msgs1 rcode1 err1, Req state = Some r ->
    doRefresh next ctx w' state s0 = Some (s1, msgs1, rcode1, err1) ->
    writes_ok rcode1 msgs1 /\ (b = true -> err1 <> None -> ClientWrite rcode1 = false)) as Hr.
  { intros w' state s0 s1 msgs1 rcode1 err1 Eq. unfold doRefresh. rewrite Eq. apply Hp. }
  unfold Cache_ServeDNS. destruct (Do (newRequest w (Some r))) as [[st0 do]|] eqn:ED; [|done]. cbn [mbind option_bind].
  apply Req_Do in ED. pose proof (Req_Name st0) as Est. rewrite ED in Est.
  destruct (Name st0) as [st qname]. simpl in Est. case_decide; [apply Hp|].
  destruct (getIgnoreTTL c (now s) st (data s)) as [[i|]|]; [| |done]; cbn [mbind option_bind].
  - assert (forall (o : option W) t,
      (s1 ← o; let '(s2, m) := serve_item put_wildcard c r i t do (mAuthenticatedData r) s1 in
       Some (s2, [m], RcodeSuccess, @None string)) = Some (s', msgs, rcode, err) ->
      writes_ok rcode msgs /\ (b = true -> err <> None -> ClientWrite rcode = false)) as Hitem.
    { intros [s1|] t; [|done]. unfold serve_item. cbn [mbind option_bind]. by intros [= <- <- <- <-]. }
    case_decide; [destruct (ccVerifyStale c)|].
    + destruct (doRefresh next ctx w st s) as [[[[s1 msgs1] rcode1] err1]|] eqn:E; [|done]. cbn [mbind option_bind].
      apply Hr in E as [E Hstrict]; [|done]. destruct (verify_write_all _ _ _ _ _ _ _ _ _) as [[[s2 out] v]|] eqn:Ev; [|done]. cbn [mbind option_bind].
      assert (length msgs1 <= 1)%nat as Hl by (unfold writes_ok in E; destruct (ClientWrite rcode1); [lia|subst; simpl; lia]).
      assert (length out = if v then 1%nat else 0%nat) as Hlen by (by eapply verify_write_all_out; [|exact Hl|exact Ev]).
      destruct v.
      * intros [= <- <- <- <-]. split; [|done]. unfold writes_ok in *. destruct (ClientWrite rcode1); [done|]. subst msgs1.
        cbn [verify_write_all] in Ev. by injection Ev as _ <-.
      * destruct out; [|done]. apply (Hitem (Some s2)).
    + apply (Hitem (start_prefetch _ _ _ _ _ _ _ _)).
    + destruct (shouldPrefetch c i (now s) (data s)) as [d pf]. apply (Hitem (if pf then _ else _)).
  - destruct (doRefresh next ctx w st s) as [[[[s1 msgs1] rcode1] err1]|] eqn:E; [|done]. cbn [mbind option_bind].
    apply Hr in E as [E Hstrict]; [|done]. destruct (rw_write_all _ _ _ _ _ _ _ _) as [[s2 out]|] eqn:Ew; [|done]. cbn [mbind option_bind].
    intros [= <- <- <- <-]. split; [|done]. apply rw_write_all_out in Ew; [|done]. unfold writes_ok in *.
    destruct (ClientWrite rcode1); [by rewrite Ew|]. subst msgs1. by destruct out.
Qed.

(** ** Writes *)

Lemma expiredRRSIG_total rrs t : Forall rr_typed rrs -> exists b, typifyExpiredRRSIG rrs t = Some b.
Proof.
  induction 1 as [|r rrs Hr _ [b IH]]; cbn [typifyExpiredRRSIG]; [by eexists|].
  case_decide as Ht; [by exists b|]. assert (hRrtype r = TypeRRSIG) as E by (destruct (decide (hRrtype r = TypeRRSIG)); tauto).
  unfold rr_typed in Hr. rewrite E in Hr.
  destruct (rdata r); simpl in Hr; try done; [destruct (ValidityPeriod r t); by eauto|].
  exfalso. apply Hr. by vm_compute; repeat constructor.
Qed.

(** The records of the message fit their types, and it has a question. *)
Definition msg_ok (m : Msg) : Prop :=
  mQuestion m <> [] /\ Forall rr_typed (mAnswer m) /\ Forall rr_typed (mNs m) /\ Forall rr_typed (mExtra m).

Lemma Typify_total m t : msg_ok m -> exists mt opt, Typify (Some m) t = Some (mt, opt).
Proof.
  intros (_ & Ha & Hn & He). unfold Typify.
  destruct (expiredRRSIG_total _ t Ha) as [ba Ea], (expiredRRSIG_total _ t Hn) as [bn En], (expiredRRSIG_total _ t He) as [be Ee].
  assert (exists b, typifyExpired m t = Some b) as [b Eb].
  { unfold typifyExpired. rewrite Ea, En, Ee. simpl. destruct ba; [by eauto|]. simpl. destruct bn; by eauto. }
  destruct (decide (mOpcode m = OpcodeUpdate)); [by eauto|]. destruct (decide (mOpcode m = OpcodeNotify)); [by eauto|].
  destruct (match mQuestion m with [] => _ | _ :: _ => _ end); [by eauto|].
  generalize (IsEdns0 m ≫= (fun i => mExtra m !! i)) as opt. intros opt.
  generalize (match opt with Some o => OPT_Do o | None => false end) as do. intros do.
  assert (exists b, (if do then typifyExpired m t else Some false) = Some b) as [b' ->] by (destruct do; by eauto).
  cbn [mbind option_bind]. destruct b'; [by eauto|].
  repeat first [by eauto | destruct (decide _) | match goal with |- context [if ?b then _ else _] => destruct b end].
Qed.

(** Which cache a message of a type goes to. *)
Definition positive (mt : RespType) : Prop := mt = NoError \/ mt = DelegationT.
Definition negative (mt : RespType) : Prop := mt = NXDomain \/ mt = NoDataT \/ mt = ServerError.

(** The item that is made of a message at a time. *)
Definition item_of (res : Msg) (t duration : Z) (i : Item) : Prop :=
  exists q, head (mQuestion res) = Some q /\ iName i = qName q /\ iQType i = qType q /\ iRcode i = mRcode res /\
    iAnswer i = mAnswer res /\ iNs i = mNs res /\ iExtra i = filter not_opt (mExtra res) /\
    iOrigTTL i = u32 (seconds duration) /\ iStored i = t.

(** A message may be stored: it is not truncated, it is a reply to the
    request, it has a lifetime, and no exception applies. *)
Definition cacheable (w : RespWriter) (res : Msg) (mt : RespType) (except : list string) : Prop :=
  mTruncated res = false /\ Match (rwState w) res = true /\
  (0 < rw_duration c mt (MinimalTTL res mt))%Z /\
  from_option (fun q => Zones_Matches except (qName q) = EmptyString) False (head (mQuestion res)).

Definition cache_inv (n p t : Z) (d : CacheData) : Prop :=
  caches_ok n p d /\ forall k i, get (cNcache d) k = Some i \/ get (cPcache d) k = Some i -> item_ok t i.

Lemma item_of_ok res t duration i : item_of res t duration i -> item_ok t i.
Proof.
  intros (q & _ & _ & _ & _ & _ & _ & _ & Ho & Hs). split; [|lia]. rewrite Ho. unfold u32. apply Z.mod_pos_bound. lia.
Qed.

Lemma newItem_of res q t duration f wc :
  head (mQuestion res) = Some q -> item_of res t duration (newItem res t duration f) /\
  item_of res t duration (set_wildcard wc (newItem res t duration f)).
Proof.
  intros Hq. destruct (mQuestion res) as [|q' qs] eqn:E; [done|]. injection Hq as ->.
  unfold item_of, newItem. rewrite E. split; by exists q.
Qed.

(** One cache with its items in order. *)
Definition one_ok (n t : Z) (cc : ShardedCache Item) : Prop :=
  cache_ok n cc /\ forall k i, get cc k = Some i -> item_ok t i.

Lemma cache_inv_split n p t d : cache_inv n p t d <-> one_ok n t (cNcache d) /\ one_ok p t (cPcache d).
Proof.
  unfold cache_inv, caches_ok, one_ok. split.
  - intros [[Hn Hp] Hi]. split; (split; [done|]); intros k i Hk; apply (Hi k); by auto.
  - intros [[Hn Hin] [Hp Hip]]. split; [done|]. intros k i [Hk|Hk]; by eauto.
Qed.

Lemma add_item n t cc key i :
  one_ok n t cc -> item_ok t i ->
  exists cc' ev, Cache_Add cc key i = Some (cc', ev) /\ one_ok n t cc' /\ get cc' key = Some i /\
    forall k j, get cc' k = Some j -> get cc k = Some j \/ k = key /\ j = i.
Proof.
  intros [Hc Hi] Hit. destruct (Cache_Add_spec n cc key i Hc) as (cc' & ev & -> & Hc' & Hget & Hold & _).
  assert (forall k j, get cc' k = Some j -> get cc k = Some j \/ k = key /\ j = i) as Hk.
  { intros k j Hj. destruct (Hold k j Hj) as [->|?]; [right|by left]. split; [done|congruence]. }
  exists cc', ev. split; [done|]. split; [|done]. split; [done|]. intros k j Hj.
  destruct (Hk k j Hj) as [?|[_ ->]]; [by eauto|done].
Qed.

Lemma remove_item n t cc key :
  one_ok n t cc -> exists cc', Cache_Remove cc key = Some cc' /\ one_ok n t cc' /\
    forall k j, get cc' k = Some j -> get cc k = Some j.
Proof.
  intros [Hc Hi]. destruct (Cache_Remove_spec n cc key Hc) as (cc' & -> & Hc' & Hget).
  assert (forall k j, get cc' k = Some j -> get cc k = Some j) as Hk.
  { intros k j. rewrite Hget. by case_decide. }
  exists cc'. split; [done|]. split; [|done]. split; [done|]. by eauto.
Qed.

(** What storing a message may change in one of the caches: at most the new
    item is added. *)
Definition adds (cc cc' : ShardedCache Item) (P : Z -> Item -> Prop) : Prop :=
  forall k i, get cc' k = Some i -> get cc k = Some i \/ P k i.

(** The state after the new item has gone into one of the caches. *)
Definition set_into (n p t : Z) (pos : bool) (key : Z) (I : Item -> Prop) (s s' : W) : Prop :=
  now s' = now s /\ cache_inv n p t (data s') /\
  adds (cPcache (data s)) (cPcache (data s')) (fun k i => pos = true /\ k = key /\ I i) /\
  adds (cNcache (data s)) (cNcache (data s')) (fun k i => pos = false /\ k = key /\ I i) /\
  exists i, get (if pos then cPcache (data s') else cNcache (data s')) key = Some i /\ I i.

Definition the_item (w : RespWriter) (res : Msg) (duration : Z) (s : W) : Item :=
  let i := newItem res (now s) duration (cNextFreq (data s)) in
  if rwWildcard w then set_wildcard (wildcard s) i else i.

Lemma the_item_of w res duration s q :
  head (mQuestion res) = Some q -> item_of res (now s) duration (the_item w res duration s) /\
    item_ok (now s) (the_item w res duration s).
Proof.
  intros Hq. destruct (newItem_of res q (now s) duration (cNextFreq (data s)) (wildcard s) Hq) as [I1 I2].
  assert (item_of res (now s) duration (the_item w res duration s)) by (unfold the_item; by destruct (rwWildcard w)).
  split; [done|by eapply item_of_ok].
Qed.

Lemma rw_set_pos n p w res key mt duration s q :
  cache_inv n p (now s) (data s) -> head (mQuestion res) = Some q -> positive mt ->
  Zones_Matches (rwPexcept w) (qName q) = EmptyString ->
  exists s', rw_set now wildcard data put_data w res key mt duration s = Some s' /\
    set_into n p (now s) true key (item_of res (now s) duration) s s'.
Proof using Hst.
  intros [Hn Hp]%cache_inv_split Hq Hmt Hex. destruct (the_item_of w res duration s q Hq) as [Hit Hok].
  destruct (add_item p (now s) (cPcache (data s)) key (the_item w res duration s) Hp Hok) as (p' & ev & Ep & Hp' & Hget & Hold).
  destruct (remove_item n (now s) (cNcache (data s)) key Hn) as (n' & En & Hn' & Hrem).
  assert (adds (cPcache (data s)) p' (fun k i => true = true /\ k = key /\ item_of res (now s) duration i)) as Ha.
  { intros k i Hk. destruct (Hold k i Hk) as [?|[-> ->]]; [by left|by right]. }
  unfold rw_set. rewrite Hq. cbn [mbind option_bind].
  assert (exists s', (let '(i, d) :=
      (let '(f, d) := new_freq (data s) in
       let i := newItem res (now s) duration f in (if rwWildcard w then set_wildcard (wildcard s) i else i, d)) in
     '(p, _) ← Cache_Add (cPcache d) key i;
     let d := set_pcache p d in
     d ← (if rwPrefetch w then n ← Cache_Remove (cNcache d) key; Some (set_ncache n d) else Some d);
     Some (put_data d s)) = Some s' /\ set_into n p (now s) true key (item_of res (now s) duration) s s') as Hgoal.
  { unfold new_freq. cbn [cPcache]. fold (the_item w res duration s). rewrite Ep. cbn [mbind option_bind]. unfold set_pcache.
    cbn [cNcache cPcache cFreqs cNextFreq cJobs]. rewrite En. cbn [mbind option_bind].
    destruct (rwPrefetch w); cbn [mbind option_bind]; eexists; (split; [reflexivity|]); unfold set_into, set_ncache;
      rewrite (now_put Hst), (data_put Hst); cbn [cNcache cPcache]; (split; [done|]);
      (split; [by apply cache_inv_split|]); (split; [done|]); (split; [|by eauto]); intros k i Hk; left; auto. }
  destruct Hmt as [-> | ->]; rewrite decide_False by (by intros []); exact Hgoal.
Qed.

Lemma rw_set_neg n p w res key mt duration s q :
  cache_inv n p (now s) (data s) -> head (mQuestion res) = Some q -> negative mt ->
  Zones_Matches (rwNexcept w) (qName q) = EmptyString ->
  exists s', rw_set now wildcard data put_data w res key mt duration s = Some s' /\
    set_into n p (now s) false key (item_of res (now s) duration) s s'.
Proof using Hst.
  intros [Hn Hp]%cache_inv_split Hq Hmt Hex. destruct (the_item_of w res duration s q Hq) as [Hit Hok].
  destruct (add_item n (now s) (cNcache (data s)) key (the_item w res duration s) Hn Hok) as (n' & ev & En & Hn' & Hget & Hold).
  unfold rw_set. rewrite Hq. cbn [mbind option_bind].
  assert (exists s', (let '(i, d) :=
      (let '(f, d) := new_freq (data s) in
       let i := newItem res (now s) duration f in (if rwWildcard w then set_wildcard (wildcard s) i else i, d)) in
     '(n, _) ← Cache_Add (cNcache d) key i;
     Some (put_data (set_ncache n d) s)) = Some s' /\
     set_into n p (now s) false key (item_of res (now s) duration) s s') as Hgoal.
  { unfold new_freq. cbn [cNcache]. fold (the_item w res duration s). rewrite En. cbn [mbind option_bind].
    eexists. split; [reflexivity|]. unfold set_into, set_ncache. rewrite (now_put Hst), (data_put Hst).
    cbn [cNcache cPcache]. split; [done|]. split; [by apply cache_inv_split|]. split; [intros k i Hk; by left|].
    split; [|by eauto]. intros k i Hk. destruct (Hold k i Hk) as [?|[-> ->]]; [by left|by right]. }
  destruct Hmt as [->|[->| ->]]; rewrite decide_False by (by intros []); exact Hgoal.
Qed.

Lemma rw_set_else w res key mt duration s q :
  head (mQuestion res) = Some q ->
  ~ (positive mt /\ Zones_Matches (rwPexcept w) (qName q) = EmptyString) ->
  ~ (negative mt /\ Zones_Matches (rwNexcept w) (qName q) = EmptyString) ->
  rw_set now wildcard data put_data w res key mt duration s = Some s.
Proof.
  intros Hq Hp Hn. unfold rw_set. rewrite Hq. cbn [mbind option_bind].
  unfold positive, negative in *. destruct mt; try done; rewrite decide_True; try done; intros E; tauto.
Qed.

(** What a write does to the caches: the message is stored in the right one
    when it may be, and otherwise nothing changes. *)
Definition write_effect (n p : Z) (w : RespWriter) (res : Msg) (mt : RespType) (q : Question) (s s' : W) : Prop :=
  let key := hash (Name (rwState w)).2 (qType q) (rwDo w) in
  let duration := rw_duration c mt (MinimalTTL res mt) in
  (positive mt /\ cacheable w res mt (rwPexcept w) /\
     set_into n p (now s) true key (item_of res (now s) duration) s s') \/
  (negative mt /\ cacheable w res mt (rwNexcept w) /\
     set_into n p (now s) false key (item_of res (now s) duration) s s') \/
  (~ (positive mt /\ cacheable w res mt (rwPexcept w)) /\ ~ (negative mt /\ cacheable w res mt (rwNexcept w)) /\ s' = s).

#[local] Instance positive_dec mt : Decision (positive mt).
Proof. unfold positive. apply _. Defined.
#[local] Instance negative_dec mt : Decision (negative mt).
Proof. unfold negative. apply _. Defined.

Lemma rw_set_effect n p w res mt q s :
  cache_inv n p (now s) (data s) -> head (mQuestion res) = Some q ->
  mTruncated res = false -> Match (rwState w) res = true -> (0 < rw_duration c mt (MinimalTTL res mt))%Z ->
  exists s', rw_set now wildcard data put_data w res (hash (Name (rwState w)).2 (qType q) (rwDo w)) mt
               (rw_duration c mt (MinimalTTL res mt)) s = Some s' /\ write_effect n p w res mt q s s'.
Proof using Hst.
  intros Hinv Hq Ht Hm Hd. unfold write_effect.
  assert (forall ex, cacheable w res mt ex <-> Zones_Matches ex (qName q) = EmptyString) as Hc.
  { intros ex. unfold cacheable. rewrite Hq. simpl. tauto. }
  destruct (decide (positive mt /\ Zones_Matches (rwPexcept w) (qName q) = EmptyString)) as [[H1 H2]|Hp].
  { destruct (rw_set_pos n p w res (hash (Name (rwState w)).2 (qType q) (rwDo w)) mt
      (rw_duration c mt (MinimalTTL res mt)) s q) as (s' & E & H'); [done..|]. exists s'. split; [done|].
    left. split; [done|]. split; [by apply Hc|done]. }
  destruct (decide (negative mt /\ Zones_Matches (rwNexcept w) (qName q) = EmptyString)) as [[H1 H2]|Hn].
  { destruct (rw_set_neg n p w res (hash (Name (rwState w)).2 (qType q) (rwDo w)) mt
      (rw_duration c mt (MinimalTTL res mt)) s q) as (s' & E & H'); [done..|]. exists s'. split; [done|].
    right; left. split; [done|]. split; [by apply Hc|done]. }
  exists s. rewrite (rw_set_else _ _ _ _ _ _ q) by done. split; [done|]. right; right.
  split; [intros [? ?%Hc]; tauto|]. split; [intros [? ?%Hc]; tauto|done].
Qed.

Lemma rw_WriteMsg_spec n p w res s :
  cache_inv n p (now s) (data s) -> msg_ok res ->
  exists mt opt q s' out, Typify (Some res) (now s) = Some (mt, opt) /\ head (mQuestion res) = Some q /\
    rw_WriteMsg now wildcard data put_data c w res s = Some (s', out) /\ write_effect n p w res mt q s s'.
Proof using Hst.
  intros Hinv Hm. destruct (Typify_total res (now s) Hm) as (mt & opt & Et).
  destruct Hm as [Hne _]. destruct (mQuestion res) as [|q qs] eqn:Eq; [done|].
  assert (head (mQuestion res) = Some q) as Hq by (by rewrite Eq). exists mt, opt, q.
  assert (exists ko s', cache_key (Name (rwState w)).2 res mt (rwDo w) = Some ko /\
    (match ko with
     | Some key => if decide (0 < rw_duration c mt (MinimalTTL res mt))%Z then
                     if Match (rwState w) res
                     then rw_set now wildcard data put_data w res key mt (rw_duration c mt (MinimalTTL res mt)) s else Some s
                   else Some s
     | None => Some s
     end) = Some s' /\ write_effect n p w res mt q s s') as (ko & s' & Ek & Es & Hcase).
  { unfold cache_key. rewrite Eq. destruct (mTruncated res) eqn:Htr.
    { exists None, s. split; [done|]. split; [done|]. right; right. unfold cacheable. rewrite Htr. by split; [intros (_ & ? & _)|split; [intros (_ & ? & _)|]]. }
    case_decide as Hmt.
    { exists None, s. split; [done|]. split; [done|]. right; right. unfold positive, negative.
      destruct Hmt as [->|[->| ->]]; (split; [by intros [[?|?] _]|]); (split; [by intros [[?|[?|?]] _]|done]). }
    destruct (decide (0 < rw_duration c mt (MinimalTTL res mt))%Z) as [Hd|Hd]; [destruct (Match (rwState w) res) eqn:Hma|].
    - destruct (rw_set_effect n p w res mt q s) as (s' & E & He); [done..|]. by eexists (Some _), s'.
    - exists (Some (hash (Name (rwState w)).2 (qType q) (rwDo w))), s. split; [done|]. split; [done|].
      right; right. unfold cacheable. rewrite Hma. by split; [intros (_ & _ & ? & _)|split; [intros (_ & _ & ? & _)|]].
    - exists (Some (hash (Name (rwState w)).2 (qType q) (rwDo w))), s. split; [done|]. split; [done|].
      right; right. unfold cacheable. by split; [intros (_ & _ & _ & ? & _)|split; [intros (_ & _ & _ & ? & _)|]]. }
  unfold rw_WriteMsg. rewrite Et. cbn [mbind option_bind]. rewrite Ek. cbn [mbind option_bind]. rewrite Es.
  cbn [mbind option_bind]. destruct (rwPrefetch w); by eexists _, _.
Qed.
(** A message that has been stored answers later requests. *)
Lemma stored_found n p w res mt q s s' qname qtype do t2 :
  write_effect n p w res mt q s s' -> head (mQuestion res) = Some q ->
  (Name (rwState w)).2 = qname -> QType (rwState w) = qtype -> rwDo w = do ->
  (positive mt /\ cacheable w res mt (rwPexcept w) /\
     when_usable qname qtype t2 (get (cNcache (data s)) (hash qname qtype do)) = None) \/
  (negative mt /\ cacheable w res mt (rwNexcept w)) ->
  (seconds (t2 - now s) < u32 (seconds (rw_duration c mt (MinimalTTL res mt))))%Z ->
  exists i, found (data s') qname qtype do t2 = Some i /\
    item_of res (now s) (rw_duration c mt (MinimalTTL res mt)) i /\ caches_ok n p (data s').
Proof.
  intros He Hq <- <- <- Hcase Ht. unfold write_effect in He.
  assert (Match (rwState w) res = true) as Hm by (destruct Hcase as [(_ & (_ & ? & _) & _)|(_ & (_ & ? & _))]; done).
  apply Match_spec in Hm as (q' & Eq' & _ & Hnm & Hty). rewrite Eq' in Hq. injection Hq as ->.
  assert (forall i, item_of res (now s) (rw_duration c mt (MinimalTTL res mt)) i ->
    usable_for (Name (rwState w)).2 (QType (rwState w)) t2 i) as Hus.
  { intros i (q2 & Hq2 & En & Et & _ & _ & _ & _ & Eo & Es). rewrite Eq' in Hq2. injection Hq2 as <-.
    unfold usable_for, item_ttl. rewrite En, Et, Hnm, Hty, Eo, Es. split; [done|]. split; [done|]. left. lia. }
  rewrite <- Hty in *. unfold found.
  destruct He as [(Hpos & _ & Hset)|[(Hneg & _ & Hset)|(Hnp & Hnn & _)]].
  - destruct Hset as (_ & Hinv & _ & Hn & (i & Hi & Hof)). exists i. split; [|split; [done|apply Hinv]].
    assert (when_usable (Name (rwState w)).2 (qType q) t2
      (get (cNcache (data s')) (hash (Name (rwState w)).2 (qType q) (rwDo w))) = None) as ->.
    { destruct (get (cNcache (data s')) _) as [j|] eqn:Ej; [|done]. destruct (Hn _ _ Ej) as [Hj|[? _]]; [|done].
      destruct Hcase as [(_ & _ & Hnone)|(Hneg & _)]; [by rewrite Hj in Hnone|].
      unfold positive, negative in *. destruct Hpos as [-> | ->]; by destruct Hneg as [?|[?|?]]. }
    rewrite Hi. simpl. by rewrite decide_True by auto.
  - destruct Hset as (_ & Hinv & _ & _ & (i & Hi & Hof)). exists i. split; [|split; [done|apply Hinv]].
    rewrite Hi. simpl. by rewrite decide_True by auto.
  - exfalso. destruct Hcase as [(? & ? & _)|(? & ?)]; tauto.
Qed.
End plugin.

(** ** Shared records *)

(** A record after [filterRRSlice] has been given its address. *)
Definition touch (ttl : Z) (r : RR) : RR := if decide (hRrtype r = TypeOPT) then r else set_hTtl ttl r.
Definition touched (rrs : list nat) (ttl : Z) (a : nat) (r : RR) : RR := if decide (a ∈ rrs) then touch ttl r else r.

Lemma touch_type ttl r : hRrtype (touch ttl r) = hRrtype r.
Proof. unfold touch. by case_decide. Qed.

Lemma touch_idem ttl r : touch ttl (touch ttl r) = touch ttl r.
Proof. unfold touch at 1. rewrite touch_type. unfold touch. by case_decide. Qed.

Lemma touched_cons a rrs ttl b r :
  touched rrs ttl b (if decide (b = a) then touch ttl r else r) = touched (a :: rrs) ttl b r.
Proof.
  unfold touched. destruct (decide (b = a)) as [->|Hne].
  - rewrite (decide_True (P := a ∈ a :: rrs)) by (by left). case_decide; [apply touch_idem|done].
  - destruct (decide (b ∈ rrs)) as [Hin|Hin].
    + by rewrite decide_True by (by right).
    + rewrite decide_False; [done|]. by intros [?|?]%elem_of_cons.
Qed.

Lemma filterRRSlice_cons r rrs ttl :
  filterRRSlice (r :: rrs) ttl =
  if decide (hRrtype r = TypeOPT) then filterRRSlice rrs ttl else touch ttl r :: filterRRSlice rrs ttl.
Proof.
  unfold filterRRSlice, touch. rewrite filter_cons.
  destruct (decide (hRrtype r = TypeOPT)) as [Ho|Ho].
  - rewrite decide_False by (intros Hn; by apply Hn). done.
  - by rewrite decide_True.
Qed.

(** The records of the result are the given ones with the TTL, and the given
    ones get the TTL too, copied or not. *)
Lemma filter_heap_spec rrs ttl dup h vals :
  Forall2 (fun a r => exists r0, h !! a = Some r0 /\ hRrtype r0 = hRrtype r /\ touch ttl r0 = touch ttl r) rrs vals ->
  exists h' rs, filterRRSlice_heap h rrs ttl dup = Some (h', rs) /\
    Forall2 (fun b r => h' !! b = Some r) rs (filterRRSlice vals ttl) /\
    (forall a r, h !! a = Some r -> h' !! a = Some (touched rrs ttl a r)).
Proof.
  revert h vals. induction rrs as [|a rrs IH]; intros h vals Hw.
  { inversion Hw; subst. exists h, []. split; [done|]. split; [constructor|done]. }
  inversion Hw as [|? r ? vals' (r0 & Ha & Hty & Hto) Hw' E1 E2]; subst. cbn [filterRRSlice_heap]. rewrite Ha.
  cbn [mbind option_bind]. rewrite filterRRSlice_cons, <- Hty. case_decide as Ho.
  - destruct (IH h vals' Hw') as (h' & rs & -> & Hrs & Ht). exists h', rs. split; [done|]. split; [done|].
    intros b r1 Hb. rewrite (Ht b r1 Hb), <- touched_cons. case_decide as Hba; [|done]. subst b.
    rewrite Ha in Hb. injection Hb as <-. unfold touch. by rewrite decide_True.
  - assert (set_hTtl ttl r0 = touch ttl r0) as Es by (unfold touch; by rewrite decide_False). rewrite Es.
    set (h1 := <[a := touch ttl r0]> h).
    assert (forall b r1, h !! b = Some r1 -> h1 !! b = Some (if decide (b = a) then touch ttl r1 else r1)) as H1.
    { intros b r1 Hb. unfold h1. case_decide as Hba.
      - subst b. rewrite lookup_insert_eq. congruence.
      - by rewrite lookup_insert_ne. }
    assert (exists h2 b, (if dup then heap_copy h1 (touch ttl r0) else (h1, a)) = (h2, b) /\
      h2 !! b = Some (touch ttl r0) /\ (forall x r1, h1 !! x = Some r1 -> h2 !! x = Some r1)) as (h2 & b & -> & Hb & H2).
    { destruct dup; eexists _, _; (split; [reflexivity|]).
      - split; [apply lookup_insert_eq|]. intros x r1 Hx. rewrite lookup_insert_ne; [done|]. intros <-.
        apply (is_fresh (dom h1)). by apply elem_of_dom_2 in Hx.
      - split; [apply lookup_insert_eq|done]. }
    destruct (IH h2 vals') as (h' & rs & -> & Hrs & Ht).
    { eapply Forall2_impl; [exact Hw'|]. intros x rx (r1 & Hx & Hty1 & Hto1). pose proof (H2 _ _ (H1 _ _ Hx)) as Hx2.
      eexists. split; [exact Hx2|]. case_decide; [|done]. by rewrite touch_type, touch_idem. }
    exists h', (b :: rs). split; [done|]. split.
    + constructor; [|done]. rewrite (Ht _ _ Hb), <- Hto. unfold touched. case_decide; [by rewrite touch_idem|done].
    + intros x r1 Hx. rewrite (Ht _ _ (H2 _ _ (H1 _ _ Hx))). by rewrite touched_cons.
Qed.

Lemma filterRRSlice_not_opt rrs ttl : filterRRSlice (filter not_opt rrs) ttl = filterRRSlice rrs ttl.
Proof.
  unfold filterRRSlice. f_equal. induction rrs as [|r rrs IH]; [done|]. rewrite !filter_cons.
  destruct (decide (not_opt r)) as [H|H]; [|done]. rewrite filter_cons, decide_True by done. by rewrite IH.
Qed.

(** ** Theorems *)

(** C28 The sharded cache is a map that may forget: whatever is added and
    removed, in any order, no operation panics, a key is only ever found with
    the value that was last added under it and not removed since, the number
    of elements stays within the capacity, and what has just been added is
    there. *)
Theorem sharded_cache_forgets `{GoRange} {V} (size : Z) (os : list (CacheOp V)) :
  exists c, cache_ops (Cache_New size) os = Some c /\
    (forall k v, Cache_Get c k = Some (Some v) -> ideal os !! k = Some v) /\
    (0 <= Cache_Len c <= Z.max 1024 size)%Z /\
    forall k v, exists c' ev, Cache_Add c k v = Some (c', ev) /\ Cache_Get c' k = Some (Some v).
Proof.
  destruct (cache_ops_sim (V:=V) (shard_cap size) (Cache_New size) ∅ os (Cache_New_ok size) (New_forgets size))
    as (c & E & Hc & Hf).
  exists c. split; [done|]. split.
  { intros k v. rewrite (Cache_Get_get _ _ _ Hc). intros [= Hk]. by apply Hf. }
  split.
  { pose proof (Cache_Len_bound _ c Hc) as Hl. unfold shard_cap, shardSize in Hl.
    pose proof (Z.quot_rem' size 256). pose proof (Z.mul_quot_le (Z.max 0 size) 256).
    destruct (decide (0 <= size)%Z); [|assert (Z.quot size 256 <= 0)%Z by (apply Z.quot_le_upper_bound; lia); lia].
    rewrite (Z.max_r 0 size) in * by lia. lia. }
  intros k v. destruct (Cache_Add_spec _ c k v Hc) as (c' & ev & Ea & Hc' & Hget & _).
  exists c', ev. split; [done|]. by rewrite (Cache_Get_get _ _ _ Hc'), Hget.
Qed.

(** C27 A reply that passes through the cache's writer never makes it panic,
    keeps the caches in order, and is stored under the key of the request, in
    the positive or the negative cache according to its type, exactly when it
    is not truncated, answers the request, has a positive lifetime and is not
    in an excepted zone; otherwise nothing changes. *)
Theorem cache_write_exact `{GoRange} `{DnsNames} `{DnsMsgsOk} {W} (now : W -> Z) (wildcard : W -> string)
    (put_wildcard : string -> W -> W) (data : W -> CacheData) (put_data : CacheData -> W -> W) (c : CacheConf)
    (n p : Z) (w : RespWriter) (res : Msg) (s : W) :
  state_ok now put_wildcard data put_data -> cache_inv n p (now s) (data s) -> msg_ok res ->
  exists mt opt q s' out, Typify (Some res) (now s) = Some (mt, opt) /\ head (mQuestion res) = Some q /\
    rw_WriteMsg now wildcard data put_data c w res s = Some (s', out) /\
    write_effect now data c n p w res mt q s s'.
Proof. intros Hst. by apply (rw_WriteMsg_spec now wildcard put_wildcard data put_data Hst). Qed.

(** C11 A stored reply is served: once a reply that may be stored has passed
    the writer, a request for the same name (letter case aside), type and DO
    bit that comes while the lifetime lasts is answered from the cache, and
    not by the next plugin, with the id of the request, the rcode and the
    records of the reply, and the lifetime that is left as TTL.  (For a
    positive reply, provided the negative cache has no usable item.) *)
Theorem cache_store_then_hit `{GoRange} `{DnsNames} `{DnsMsgsOk} {W} (now : W -> Z) (wildcard : W -> string)
    (put_wildcard : string -> W -> W) (data : W -> CacheData) (put_data : CacheData -> W -> W) (c : CacheConf)
    (next : option (Handler W)) (n p : Z) (w : RespWriter) (res r : Msg) (s s' s2 : W) (out : list Msg)
    (mt : RespType) (opt : option RR) (qname : string) (qtype : Z) (do : bool) (ctx : Ctx) (cw : Writer) :
  state_ok now put_wildcard data put_data -> cache_inv n p (now s) (data s) -> msg_ok res ->
  Typify (Some res) (now s) = Some (mt, opt) ->
  (Name (rwState w)).2 = qname -> QType (rwState w) = qtype -> rwDo w = do ->
  (positive mt /\ cacheable c w res mt (rwPexcept w) /\
     when_usable c qname qtype (now s2) (get (cNcache (data s)) (hash qname qtype do)) = None) \/
  (negative mt /\ cacheable c w res mt (rwNexcept w)) ->
  rw_WriteMsg now wildcard data put_data c w res s = Some (s', out) ->
  data s2 = data s' -> (now s <= now s2)%Z ->
  let lifetime := u32 (seconds (rw_duration c mt (MinimalTTL res mt))) in
  let elapsed := seconds (now s2 - now s) in
  (elapsed < lifetime)%Z ->
  asks_for r qname qtype do -> Zones_Matches (ccZones c) qname <> EmptyString ->
  exists s2' m, Cache_ServeDNS now wildcard put_wildcard data put_data c next ctx cw r s2 =
      Some (s2', [m], RcodeSuccess, None) /\
    let ttl := if ccKeepttl c then lifetime else (lifetime - elapsed)%Z in
    mId m = mId r /\ mRcode m = mRcode res /\ mAnswer m = filterRRSlice (mAnswer res) ttl /\
    mNs m = filterRRSlice (mNs res) ttl /\ mExtra m = filterRRSlice (mExtra res) ttl.
Proof.
  intros Hst Hinv Hm Ety En Et Ed Hcase Ew Hd Hle lifetime elapsed Hlt Ha Hz.
  destruct (rw_WriteMsg_spec now wildcard put_wildcard data put_data Hst c n p w res s Hinv Hm)
    as (mt' & opt' & q & s1 & out' & Ety' & Hq & Ew' & He).
  rewrite Ety in Ety'. injection Ety' as <- <-. rewrite Ew in Ew'. injection Ew' as <- <-.
  destruct (stored_found now wildcard data c n p w res mt q s s' qname qtype do (now s2)) as (i & Hf & Hof & Hok); [done..|].
  pose proof Hof as (q2 & _ & _ & _ & Hrc & Han & Hns & Hex & Ho & Hs).
  assert (item_ttl i (now s2) = lifetime - elapsed)%Z as Httl by (unfold item_ttl; by rewrite Ho, Hs).
  rewrite <- Hd in Hf, Hok.
  destruct (serve_hit now wildcard put_wildcard data put_data c next ctx cw r s2 qname qtype do n p i Ha Hz Hok Hf)
    as [[? _]|(s2' & m & E & Hid & _ & _ & Hrcm & Ham & Hnm & Hem)]; [|lia|].
  { split; [|by rewrite Hs]. rewrite Ho. unfold u32. apply Z.mod_pos_bound. lia. }
  exists s2', m. split; [done|]. unfold reply_ttl in *. rewrite Httl, Ho in *.
  rewrite Z.max_r in * by lia. rewrite Hrcm, Ham, Hnm, Hem, Han, Hns, Hex, filterRRSlice_not_opt. done.
Qed.

(** A request the cache has a usable item for, fresh or stale, is answered
    by one message with the id of the request and the item's rcode and
    records; their TTL is what is left of the lifetime (the original one
    under keepttl) and zero once it has passed.  Only a stale item under
    "serve_stale verify" may be answered otherwise. *)
Theorem cache_hit_reply `{GoRange} `{DnsNames} `{DnsMsgsOk} {W} (now : W -> Z) (wildcard : W -> string)
    (put_wildcard : string -> W -> W) (data : W -> CacheData) (put_data : CacheData -> W -> W) (c : CacheConf)
    (next : option (Handler W)) (ctx : Ctx) (w : Writer) (r : Msg) (s : W) (qname : string) (qtype : Z) (do : bool)
    (n p : Z) (i : Item) :
  asks_for r qname qtype do -> Zones_Matches (ccZones c) qname <> EmptyString -> cache_inv n p (now s) (data s) ->
  found c (data s) qname qtype do (now s) = Some i ->
  (item_ttl i (now s) < 0)%Z /\ ccVerifyStale c = true \/
  exists s' m, Cache_ServeDNS now wildcard put_wildcard data put_data c next ctx w r s =
    Some (s', [m], RcodeSuccess, None) /\ item_reply c r i (now s) m.
Proof.
  intros Ha Hz [Hc Hi] Hf. apply (serve_hit now wildcard put_wildcard data put_data c next ctx w r s qname qtype do n p);
    [done..|]. revert Hf. unfold found, when_usable.
  destruct (get (cNcache (data s)) _) as [j|] eqn:En.
  - case_decide; [intros [= <-]; by eapply Hi; left|].
    destruct (get (cPcache (data s)) _) as [j'|] eqn:Ep; [|done]. case_decide; [|done]. intros [= <-]. by eapply Hi; right.
  - destruct (get (cPcache (data s)) _) as [j'|] eqn:Ep; [|done]. case_decide; [|done]. intros [= <-]. by eapply Hi; right.
Qed.

(** The cache keeps the plugin protocol: when the next plugin writes a
    reply exactly when its rcode says that it did, so does the cache, on a
    hit, on a miss, and when a stale item is verified first. *)
Theorem cache_protocol `{GoRange} `{DnsNames} `{DnsMsgs} {W} (now : W -> Z) (wildcard : W -> string)
    (put_wildcard : string -> W -> W) (data : W -> CacheData) (put_data : CacheData -> W -> W) (c : CacheConf)
    (next : option (Handler W)) :
  match next with Some h => protocol_ok h | None => True end ->
  protocol_ok (Cache_ServeDNS now wildcard put_wildcard data put_data c next).
Proof.
  intros Hn. apply protocol_replies. intros r. apply serve_replies. intros h ->. by apply protocol_replies.
Qed.

(** Setting the TTL of the records of a reply gives the records, without
    OPT pseudo-records, with the new TTL; but it sets it on the records that
    were handed in as well, even when the result is made of copies: whoever
    shares them, such as the zone they come from, has its TTLs changed. *)
Theorem filter_changes_shared_records (h : gmap nat RR) (rrs : list nat) (vals : list RR) (ttl : Z) (dup : bool) :
  Forall2 (fun a r => h !! a = Some r) rrs vals ->
  exists h' rs, filterRRSlice_heap h rrs ttl dup = Some (h', rs) /\
    Forall2 (fun b r => h' !! b = Some r) rs (filterRRSlice vals ttl) /\
    (forall a r, h !! a = Some r -> h' !! a = Some (touched rrs ttl a r)).
Proof.
  intros Hw. apply filter_heap_spec. eapply Forall2_impl; [exact Hw|]. intros a r Ha. by exists r.
Qed.

(** ** Closed instances *)

(** A process with a clock, the metadata of a request, and a cache. *)
Record Proc := mkProc { pNow : Z; pWildcard : string; pData : CacheData }.
Definition proc_put_wildcard (wc : string) (s : Proc) : Proc := mkProc (pNow s) wc (pData s).
Definition proc_put_data (d : CacheData) (s : Proc) : Proc := mkProc (pNow s) (pWildcard s) d.
Definition proc0 : Proc := mkProc 0 EmptyString (cache_empty cache_defaults).

Definition cached_query : Msg := set_mQuestion [mkQuestion "WWW.example.org." TypeA ClassINET] zeroMsg.
Definition cached_reply : Msg :=
  set_sections [mkRR "www.example.org." TypeA ClassINET 300 (A [10; 0; 0; 1]%Z)] [] [] (msgs_SetReply zeroMsg cached_query).
Definition cached_writer : RespWriter :=
  mkRW (newRequest example_client (Some cached_query)) false false false false [] [].

#[local] Existing Instance range_sorted.
#[local] Existing Instance dns_reference.
#[local] Existing Instance msgs_reference.
#[local] Existing Instance msgs_reference_ok.

Lemma proc_ok : state_ok pNow proc_put_wildcard pData proc_put_data.
Proof. by constructor. Qed.

Lemma empty_inv (c : CacheConf) t : cache_inv (shard_cap (ccNcap c)) (shard_cap (ccPcap c)) t (cache_empty c).
Proof.
  split; [split; apply Cache_New_ok|]. intros k i [Hk|Hk]; [apply (New_forgets (ccNcap c)) in Hk|apply (New_forgets (ccPcap c)) in Hk];
    by rewrite lookup_empty in Hk.
Qed.

Lemma cached_reply_ok : msg_ok cached_reply.
Proof. split; [done|]. split; [|split; constructor]. constructor; [decided|constructor]. Qed.

Lemma cached_asks : asks_for cached_query "www.example.org." TypeA false.
Proof. exists (mkQuestion "WWW.example.org." TypeA ClassINET). split; [done|]. split; [decided|]. by vm_compute. Qed.

Lemma cached_cacheable : cacheable cache_defaults cached_writer cached_reply NoError [].
Proof. split; [by vm_compute|]. split; [by vm_compute|]. split; by vm_compute. Qed.

Lemma cache_write_exact_witness :
  exists mt opt q s' out, Typify (Some cached_reply) 0 = Some (mt, opt) /\ head (mQuestion cached_reply) = Some q /\
    rw_WriteMsg pNow pWildcard pData proc_put_data cache_defaults cached_writer cached_reply proc0 = Some (s', out) /\
    write_effect pNow pData cache_defaults 39 39 cached_writer cached_reply mt q proc0 s'.
Proof.
  apply (@cache_write_exact range_sorted dns_reference msgs_reference msgs_reference_ok Proc pNow pWildcard
    proc_put_wildcard pData proc_put_data cache_defaults 39 39 cached_writer cached_reply proc0).
  - apply proc_ok.
  - apply (empty_inv cache_defaults).
  - apply cached_reply_ok.
Defined.

(** The process after the reply has been written, and a while later. *)
Definition proc1 : Proc :=
  from_option fst proc0 (rw_WriteMsg pNow pWildcard pData proc_put_data cache_defaults cached_writer cached_reply proc0).
Definition proc_at (t : Z) : Proc := mkProc t EmptyString (pData proc1).

Lemma proc1_written :
  exists out, rw_WriteMsg pNow pWildcard pData proc_put_data cache_defaults cached_writer cached_reply proc0 =
    Some (proc1, out).
Proof.
  destruct (rw_WriteMsg_spec pNow pWildcard proc_put_wildcard pData proc_put_data proc_ok cache_defaults 39 39
    cached_writer cached_reply proc0 (empty_inv cache_defaults 0) cached_reply_ok) as (mt & opt & q & s' & out & _ & _ & E & _).
  exists out. unfold proc1. by rewrite E.
Qed.

Lemma proc1_inv : cache_inv 39 39 0 (pData proc1).
Proof.
  destruct (rw_WriteMsg_spec pNow pWildcard proc_put_wildcard pData proc_put_data proc_ok cache_defaults 39 39
    cached_writer cached_reply proc0 (empty_inv cache_defaults 0) cached_reply_ok) as (mt & opt & q & s' & out & _ & _ & E & He).
  unfold proc1. rewrite E. simpl. destruct He as [(_ & _ & Hs)|[(_ & _ & Hs)|(_ & _ & ->)]]; [apply Hs|apply Hs|].
  apply (empty_inv cache_defaults).
Qed.

Lemma cache_store_then_hit_witness :
  exists s2' m, Cache_ServeDNS pNow pWildcard proc_put_wildcard pData proc_put_data cache_defaults None (mkCtx 0 None)
      example_client cached_query (proc_at (100 * Second)) = Some (s2', [m], RcodeSuccess, None) /\
    mAnswer m = [mkRR "www.example.org." TypeA ClassINET 200 (A [10; 0; 0; 1]%Z)].
Proof.
  destruct proc1_written as (out & E).
  destruct (@cache_store_then_hit range_sorted dns_reference msgs_reference msgs_reference_ok Proc pNow pWildcard
    proc_put_wildcard pData proc_put_data cache_defaults None 39 39 cached_writer cached_reply cached_query
    proc0 proc1 (proc_at (100 * Second)) out NoError None "www.example.org." TypeA false (mkCtx 0 None) example_client)
    as (s2' & m & Es & _ & _ & Ha & _).
  - apply proc_ok.
  - apply (empty_inv cache_defaults).
  - apply cached_reply_ok.
  - by vm_compute.
  - by vm_compute.
  - by vm_compute.
  - reflexivity.
  - left. split; [by left|]. split; [apply cached_cacheable|by vm_compute].
  - apply E.
  - reflexivity.
  - by vm_compute.
  - by vm_compute.
  - apply cached_asks.
  - by vm_compute.
  - exists s2', m. split; [exact Es|]. rewrite Ha. by vm_compute.
Defined.

Lemma cache_hit_reply_witness :
  exists i s' m, Cache_ServeDNS pNow pWildcard proc_put_wildcard pData proc_put_data cache_defaults None (mkCtx 0 None)
      example_client cached_query proc1 = Some (s', [m], RcodeSuccess, None) /\
    item_reply cache_defaults cached_query i 0 m.
Proof.
  destruct (found cache_defaults (pData proc1) "www.example.org." TypeA false 0) as [i|] eqn:E.
  - destruct (@cache_hit_reply range_sorted dns_reference msgs_reference msgs_reference_ok Proc pNow pWildcard
      proc_put_wildcard pData proc_put_data cache_defaults None (mkCtx 0 None) example_client cached_query proc1
      "www.example.org." TypeA false 39 39 i) as [[_ Hv]|(s' & m & Es & Hr)].
    + apply cached_asks.
    + by vm_compute.
    + apply proc1_inv.
    + exact E.
    + discriminate Hv.
    + exists i, s', m. split; [exact Es|exact Hr].
  - apply (f_equal (fun o => match o with Some _ => true | None => false end)) in E. vm_compute in E. discriminate E.
Defined.

Lemma cache_protocol_witness :
  protocol_ok (Cache_ServeDNS pNow pWildcard proc_put_wildcard pData proc_put_data cache_defaults
    (Some (fun _ _ r s => Some (s, [msgs_SetReply zeroMsg r], RcodeSuccess, None)))).
Proof.
  apply (@cache_protocol range_sorted dns_reference msgs_reference Proc pNow pWildcard proc_put_wildcard pData
    proc_put_data cache_defaults). intros ctx w r s s' msgs rcode err [= <- <- <- <-]. reflexivity.
Defined.

Lemma filter_changes_shared_records_witness :
  let r := mkRR "www.example.org." TypeA ClassINET 300 (A [10; 0; 0; 1]%Z) in
  exists h' rs, filterRRSlice_heap {[ 0%nat := r ]} [0%nat] 5 true = Some (h', rs) /\
    h' !! 0%nat = Some (set_hTtl 5 r).
Proof.
  intros r.
  destruct (filter_changes_shared_records {[ 0%nat := r ]} [0%nat] [r] 5 true) as (h' & rs & E & _ & Ht).
  - constructor; [by apply lookup_singleton_Some|constructor].
  - exists h', rs. split; [exact E|]. rewrite (Ht 0%nat r) by (by apply lookup_singleton_Some). reflexivity.
Defined.
