(* ===== verification/Hosts.v ===== *)
(** * The hosts plugin

    plugin/pkg/dnsutil/reverse.go (addresses from names of the reverse zones),
    plugin/pkg/fall (falling through to the next plugin) and plugin/hosts
    (names and addresses from a file in the format of /etc/hosts). *)

From S2P Require Import Prelude.
From S2P Require Import GoStd.
From S2P Require Import GoNet.
From S2P Require Import DnsNames.
From S2P Require Import DnsMsg.
From S2P Require Import DnsUtil.
From S2P Require Import Request.
From S2P Require Import Plugin.

(** ** Reverse names *)

(** The loop that swaps the ends inwards reverses the slice. *)
Definition reverse (slice : list string) : string :=
  match ParseIP (strings_Join (rev slice) dot) ≫= To4 with
  | None => EmptyString
  | Some ip => IP_String ip
  end.

(** Four labels at a time; up to three labels at the end are left out. *)
Fixpoint nibble_groups (slice : list string) : list string :=
  match slice with
  | a :: b :: c :: d :: slice' => strings_Join [a; b; c; d] EmptyString :: nibble_groups slice'
  | _ => []
  end.

Definition reverse6 (slice : list string) : string :=
  match ParseIP (strings_Join (nibble_groups (rev slice)) ":") ≫= To16 with
  | None => EmptyString
  | Some ip => IP_String ip
  end.

Definition ExtractAddressFromReverse (reverseName : string) : string :=
  if HasSuffix reverseName IP4arpa then reverse (strings_Split ch_dot (TrimSuffix reverseName IP4arpa))
  else if HasSuffix reverseName IP6arpa then reverse6 (strings_Split ch_dot (TrimSuffix reverseName IP6arpa))
  else EmptyString.

(** ** Falling through *)

Section fall.
Context `{DnsNames}.

Definition Through (zones : list string) (qname : string) : bool :=
  bool_decide (Zones_Matches zones qname <> EmptyString).
End fall.

(** ** The file *)

Definition ch_nl : ascii := "010"%char.
Definition ch_cr : ascii := "013"%char.
Definition ch_hash : ascii := "#"%char.
Definition ch_percent : ascii := "%"%char.

(** [bufio.ScanLines]: the part after the last newline is a line unless it is
    empty, and a carriage return at the end of a line is dropped. *)
Definition drop_cr (line : string) : string := TrimSuffix line (String ch_cr EmptyString).

Definition MaxScanTokenSize : nat := N.to_nat 65536.

(** The scanner stops at a line that does not fit its buffer. *)
Fixpoint scan_lines (lines : list string) : list string :=
  match lines with
  | [] => []
  | [l] => if decide (l = EmptyString) then [] else if Nat.leb MaxScanTokenSize (slen l) then [] else [drop_cr l]
  | l :: lines' => if Nat.leb MaxScanTokenSize (slen l) then [] else drop_cr l :: scan_lines lines'
  end.

(** [bytes.Fields] on ASCII text. *)
Definition is_space (c : ascii) : bool :=
  let n := N_of_ascii c in ((9 <=? n)%N && (n <=? 13)%N) || (n =? 32)%N.

Fixpoint fields_go (cur s : string) : list string :=
  let out := if decide (cur = EmptyString) then [] else [cur] in
  match s with
  | EmptyString => out
  | String c s' => if is_space c then out ++ fields_go EmptyString s' else fields_go (cur +:+ String c EmptyString) s'
  end.
Definition Fields (s : string) : list string := fields_go EmptyString s.

Definition until (c : ascii) (s : string) : string :=
  match IndexByte c s with Some i => stake i s | None => s end.

(** The zone of an IPv6 address is dropped. *)
Definition hosts_parseIP (addr : string) : option IP := ParseIP (until ch_percent addr).

Record HostsMap := mkHostsMap {
  name4 : gmap string (list IP);
  name6 : gmap string (list IP);
  addrs : gmap string (list string)
}.

Definition newMap : HostsMap := mkHostsMap ∅ ∅ ∅.

(** Appending to the slice under a key. *)
Definition push {V} (k : string) (v : V) (m : gmap string (list V)) : gmap string (list V) :=
  <[k := default [] (m !! k) ++ [v]]> m.

Definition total {V} (m : gmap string (list V)) : Z :=
  map_fold (fun _ l n => (n + Z.of_nat (length l))%Z) 0%Z m.
Definition HostsMap_Len (h : HostsMap) : Z := (total (name4 h) + total (name6 h) + total (addrs h))%Z.

Section hostsfile.
Context `{DnsNames}.

(** The inner loop of [parse], over the names of one line. *)
Fixpoint add_names (origins : list string) (autoReverse : bool) (addr : IP) (names : list string) (m : HostsMap) : HostsMap :=
  match names with
  | [] => m
  | n :: names' =>
      let name := Name_Normalize n in
      let m :=
        if decide (Zones_Matches origins name = EmptyString) then m
        else
          let m := match To4 addr with
                   | Some _ => mkHostsMap (push name addr (name4 m)) (name6 m) (addrs m)
                   | None => mkHostsMap (name4 m) (push name addr (name6 m)) (addrs m)
                   end in
          if autoReverse then mkHostsMap (name4 m) (name6 m) (push (IP_String addr) name (addrs m)) else m in
      add_names origins autoReverse addr names' m
  end.

(** One turn of the loop over the lines. *)
Definition parse_line (origins : list string) (autoReverse : bool) (m : HostsMap) (line : string) : HostsMap :=
  match Fields (until ch_hash line) with
  | f0 :: ((_ :: _) as names) =>
      match hosts_parseIP f0 with
      | None => m
      | Some addr => add_names origins autoReverse addr names m
      end
  | _ => m
  end.

Definition hosts_parse (origins : list string) (autoReverse : bool) (r : string) : HostsMap :=
  fold_left (parse_line origins autoReverse) (scan_lines (strings_Split ch_nl r)) newMap.

(** [Hostsfile] with its options. *)
Record Hostsfile := mkHostsfile {
  Origins : list string;
  hmap : HostsMap;
  inline : HostsMap;
  hf_mtime : Z;
  hf_size : Z;
  autoReverse : bool;
  hf_ttl : Z
}.

(** [file] is what the path leads to: its modification time and its bytes, or
    nothing when it cannot be opened. *)
Definition readHosts (file : option (Z * string)) (h : Hostsfile) : Hostsfile :=
  match file with
  | None => h
  | Some (mtime, content) =>
      let size := Z.of_nat (slen content) in
      if decide (hf_mtime h = mtime /\ hf_size h = size) then h
      else mkHostsfile (Origins h) (hosts_parse (Origins h) (autoReverse h) content) (inline h) mtime size
             (autoReverse h) (hf_ttl h)
  end.

Definition initInline (lines : list string) (h : Hostsfile) : Hostsfile :=
  match lines with
  | [] => h
  | _ => mkHostsfile (Origins h) (hmap h)
           (hosts_parse (Origins h) (autoReverse h) (strings_Join lines (String ch_nl EmptyString)))
           (hf_mtime h) (hf_size h) (autoReverse h) (hf_ttl h)
  end.

Definition lookupStaticHost (m : gmap string (list IP)) (host : string) : list IP := default [] (m !! host).

Definition LookupStaticHostV4 (h : Hostsfile) (host : string) : list IP :=
  let host := ToLower host in
  lookupStaticHost (name4 (hmap h)) host ++ lookupStaticHost (name4 (inline h)) host.

Definition LookupStaticHostV6 (h : Hostsfile) (host : string) : list IP :=
  let host := ToLower host in
  lookupStaticHost (name6 (hmap h)) host ++ lookupStaticHost (name6 (inline h)) host.

(** A nil address prints as "<nil>". *)
Definition LookupStaticAddr (h : Hostsfile) (addr : string) : list string :=
  let addr := IP_String (default [] (hosts_parseIP addr)) in
  if decide (addr = EmptyString) then []
  else default [] (addrs (hmap h) !! addr) ++ default [] (addrs (inline h) !! addr).
End hostsfile.

(** ** Serving *)

Section serve.
Context `{DnsNames} `{DnsMsgs} {W : Type}.
Context (hosts : W -> Hostsfile) (Fall : list string) (next : option (Handler W)).

Definition Hosts_Name : string := "hosts".

Definition hosts_a (zone : string) (ttl : Z) (ips : list IP) : list RR :=
  map (fun ip => mkRR zone TypeA ClassINET ttl (A ip)) ips.
Definition hosts_aaaa (zone : string) (ttl : Z) (ips : list IP) : list RR :=
  map (fun ip => mkRR zone TypeAAAA ClassINET ttl (AAAA ip)) ips.
Definition hosts_ptr (zone : string) (ttl : Z) (names : list string) : list RR :=
  map (fun n => mkRR zone TypePTR ClassINET ttl (PTR (Fqdn n))) names.

Definition otherRecordsExist (h : Hostsfile) (qname : string) : bool :=
  bool_decide (LookupStaticHostV4 h qname <> []) || bool_decide (LookupStaticHostV6 h qname <> []).

(** After the switch. *)
Definition Hosts_answer (h : Hostsfile) (qname : string) (answers : list RR) : Handler W := fun ctx w r s =>
  if decide (answers = [] /\ otherRecordsExist h qname = false) then
    if Through Fall qname then NextOrFailure Hosts_Name next ctx w r s
    else Some (s, [], RcodeServerFailure, None)
  else
    let m := SetReply zeroMsg r in
    let m := set_mAuthoritative true m in
    Some (s, [set_sections answers (mNs m) (mExtra m) m], RcodeSuccess, None).

Definition Hosts_ServeDNS : Handler W := fun ctx w r s =>
  let h := hosts s in
  let '(state, qname) := Name (newRequest w (Some r)) in
  let qtype := QType state in
  if decide (Zones_Matches (Origins h) qname = EmptyString /\ qtype <> TypePTR) then
    NextOrFailure Hosts_Name next ctx w r s
  else if decide (qtype = TypePTR) then
    match LookupStaticAddr h (ExtractAddressFromReverse qname) with
    | [] => NextOrFailure Hosts_Name next ctx w r s
    | names => Hosts_answer h qname (hosts_ptr qname (hf_ttl h) names) ctx w r s
    end
  else if decide (qtype = TypeA) then
    Hosts_answer h qname (hosts_a qname (hf_ttl h) (LookupStaticHostV4 h qname)) ctx w r s
  else if decide (qtype = TypeAAAA) then
    Hosts_answer h qname (hosts_aaaa qname (hf_ttl h) (LookupStaticHostV6 h qname)) ctx w r s
  else Hosts_answer h qname [] ctx w r s.
End serve.
