(* ===== verification/HostsTheorems.v ===== *)
(** * Properties of reverse names and the hosts plugin *)

From S2P Require Import Prelude.
From S2P Require Import GoStd.
From S2P Require Import GoNet.
From S2P Require Import DnsNames.
From S2P Require Import DnsMsg.
From S2P Require Import DnsUtil.
From S2P Require Import Request.
From S2P Require Import ZoneSpec.
From S2P Require Import Plugin.
From S2P Require Import Hosts.

(** ** Reverse names *)

(** The name of an address in the reverse zones (RFC 1035 section 3.5 and
    RFC 3596 section 2.5). *)
Definition nibble_labels (ip : IP) : list string :=
  concat (map (fun b => [digit (b mod 16); digit (b / 16)]) (rev ip)).

Definition reverse_name (ip : IP) : string :=
  if decide (length ip = 4%nat) then strings_Join (rev (map dec_byte ip)) dot +:+ IP4arpa
  else strings_Join (nibble_labels ip) dot +:+ IP6arpa.

Lemma reverse4 ip :
  length ip = 4%nat -> Forall is_byte ip ->
  reverse (strings_Split ch_dot (strings_Join (rev (map dec_byte ip)) dot)) = IP_String ip.
Proof.
  intros Hl Hb. change dot with (String ch_dot EmptyString) at 1. rewrite Split_Join.
  - unfold reverse. rewrite rev_involutive. change (strings_Join (map dec_byte ip) dot) with (print4 ip).
    assert (IP_String ip = print4 ip) as E.
    { unfold IP_String. destruct ip as [|b ip]; [done|]. unfold To4. by rewrite decide_True. }
    rewrite <- E at 1. rewrite ParseIP_String by auto. rewrite To4_To16 by done. done.
  - intros E%(f_equal (@length _)). rewrite length_rev, length_map, Hl in E. done.
  - apply Forall_rev, Forall_fmap. eapply Forall_impl; [exact Hb|]. intros b Hn.
    apply no_sep_free; [by apply dec_byte_ok|by left].
Qed.

(** The hexadecimal digits of a byte, high one first. *)
Definition byte_digits (b : Z) : list string := [digit (b / 16); digit (b mod 16)].

Lemma rev_nibbles ip : rev (nibble_labels ip) = concat (map byte_digits ip).
Proof.
  unfold nibble_labels. induction ip as [|b ip IH]; [done|]. cbn [rev map concat].
  rewrite map_app, concat_app, rev_app_distr, IH. done.
Qed.

(** Two bytes are one group of four digits. *)
Lemma four_digits a b :
  is_byte a -> is_byte b ->
  field (strings_Join [digit (a / 16); digit (a mod 16); digit (b / 16); digit (b mod 16)] EmptyString) (a * 256 + b).
Proof.
  unfold is_byte. intros Ha Hb.
  assert (0 <= a / 16 < 16 /\ 0 <= a mod 16 < 16 /\ 0 <= b / 16 < 16 /\ 0 <= b mod 16 < 16)%Z as (H1 & H2 & H3 & H4)
    by (Z.to_euclidean_division_equations; lia).
  pose proof (Z.div_mod a 16 ltac:(lia)). pose proof (Z.div_mod b 16 ltac:(lia)).
  set (f := strings_Join _ _).
  assert (f = digit (a / 16) +:+ digit (a mod 16) +:+ digit (b / 16) +:+ digit (b mod 16)) as Ef by done.
  split; [|split].
  - unfold no_sep. rewrite Ef, !(no_sep_app (digit _)) by (by apply digit_ok). by apply digit_ok.
  - by rewrite Ef.
  - unfold group6. destruct f as [|c f'] eqn:E; [done|]. rewrite Ef, !number_app, number_digit by done.
    cbn [mbind option_bind]. rewrite number_app, number_digit by done. cbn [mbind option_bind].
    rewrite number_app, number_digit by done. cbn [mbind option_bind]. rewrite number_digit by done.
    cbn [mbind option_bind]. rewrite decide_True by lia. unfold group_bytes. do 2 f_equal; [|f_equal].
    + f_equal. lia.
    + f_equal. lia.
Qed.

Lemma nibble_groups_fields ip :
  Forall is_byte ip -> Forall2 field (nibble_groups (concat (map byte_digits ip))) (pairs16 ip).
Proof.
  revert ip. fix IH 1. intros [|a [|b ip]] Hb; [constructor|constructor|].
  apply Forall_cons in Hb as [Ha Hb]. apply Forall_cons in Hb as [Hb' Hb]. cbn [map concat byte_digits app nibble_groups pairs16].
  constructor; [by apply four_digits|by apply IH].
Qed.

Lemma digit_no_dot d : (0 <= d < 16)%Z -> IndexByte ch_dot (digit d) = None.
Proof. intros Hd. apply no_sep_free; [by apply digit_ok|by left]. Qed.

Lemma reverse_nibbles ip :
  length ip = 16%nat -> Forall is_byte ip ->
  reverse6 (strings_Split ch_dot (strings_Join (nibble_labels ip) dot)) = IP_String ip.
Proof.
  intros Hl Hb. change dot with (String ch_dot EmptyString). rewrite Split_Join.
  - unfold reverse6. rewrite rev_nibbles. destruct (pairs16_bytes ip Hl Hb) as (Ep & Hp & _).
    pose proof (nibble_groups_fields ip Hb) as Hf.
    assert (ParseIP (strings_Join (nibble_groups (concat (map byte_digits ip))) ":") = Some ip) as ->.
    + unfold ParseIP. destruct (nibble_groups (concat (map byte_digits ip))) as [|f [|f' fs]] eqn:E.
      * apply Forall2_length in Hf. by rewrite Hp in Hf.
      * apply Forall2_length in Hf. by rewrite Hp in Hf.
      * rewrite Join_cons. inversion Hf as [|? ? ? ? (Hs & _)]; subst. rewrite no_sep_app by done.
        change (first_sep (":" +:+ ?r)) with (Some ch_colon). cbv iota beta. rewrite decide_False by done.
        rewrite <- Join_cons. change (strings_Join (f :: f' :: fs) ":") with (print_fields (f :: f' :: fs)).
        by rewrite (parse6_fields _ _ Hp Hf), Ep.
    + cbn [mbind option_bind]. unfold To16. by rewrite decide_False, decide_True by lia.
  - intros E%(f_equal (@length _)). do 17 (destruct ip as [|? ip]; try done).
  - unfold nibble_labels. apply Forall_concat, Forall_fmap, Forall_rev. eapply Forall_impl; [exact Hb|].
    unfold is_byte. intros b Hn. simpl. repeat constructor; apply digit_no_dot; Z.to_euclidean_division_equations; lia.
Qed.

Lemma HasSuffix_ip6 s : HasSuffix (s +:+ IP6arpa) IP4arpa = false.
Proof.
  destruct (HasSuffix _ _) eqn:E; [|done]. apply HasSuffix_inv in E as [r E].
  apply (f_equal bytes_of) in E. rewrite !bytes_of_app in E.
  change (bytes_of IP4arpa) with (bytes_of ".in-" ++ bytes_of "addr.arpa.") in E. rewrite app_assoc in E.
  apply app_inj_2 in E as [_ E]; done.
Qed.

Lemma Extract_reverse ip :
  length ip = 4%nat \/ length ip = 16%nat -> Forall is_byte ip ->
  ExtractAddressFromReverse (reverse_name ip) = IP_String ip.
Proof.
  intros Hl Hb. unfold ExtractAddressFromReverse, reverse_name. case_decide as H4.
  - rewrite HasSuffix_app, TrimSuffix_app. by apply reverse4.
  - rewrite HasSuffix_ip6, HasSuffix_app, TrimSuffix_app. apply reverse_nibbles; [lia|done].
Qed.

(** ** The maps hold the entries of the file *)

Section entries.
Context `{DnsNames}.

(** The address and name pairs of a line and of a file, in order. *)
Definition line_entries (origins : list string) (line : string) : list (IP * string) :=
  match Fields (until ch_hash line) with
  | f0 :: ((_ :: _) as names) =>
      match hosts_parseIP f0 with
      | Some addr => map (pair addr) (filter (fun n => Zones_Matches origins n <> EmptyString) (map Name_Normalize names))
      | None => []
      end
  | _ => []
  end.

Definition entries (origins : list string) (content : string) : list (IP * string) :=
  concat (map (line_entries origins) (scan_lines (strings_Split ch_nl content))).

Definition v4_of (n : string) (es : list (IP * string)) : list IP :=
  map fst (filter (fun e => e.2 = n /\ is_Some (To4 e.1)) es).
Definition v6_of (n : string) (es : list (IP * string)) : list IP :=
  map fst (filter (fun e => e.2 = n /\ To4 e.1 = None) es).
Definition names_of (k : string) (es : list (IP * string)) : list string :=
  map snd (filter (fun e => IP_String e.1 = k) es).

Definition map_of (ar : bool) (es : list (IP * string)) (m : HostsMap) : Prop :=
  (forall n, default [] (name4 m !! n) = v4_of n es) /\
  (forall n, default [] (name6 m !! n) = v6_of n es) /\
  (forall k, default [] (addrs m !! k) = if ar then names_of k es else []).

Lemma push_lookup {V} k (v : V) m n :
  default [] (push k v m !! n) = default [] (m !! n) ++ if decide (n = k) then [v] else [].
Proof.
  unfold push. case_decide as Hd; [subst; by rewrite lookup_insert_eq|].
  rewrite lookup_insert_ne by done. by rewrite app_nil_r.
Qed.

(** One more entry at the end. *)
Lemma of_snoc {B} (f : IP * string -> B) (P : IP * string -> Prop) `{!forall x, Decision (P x)} es e :
  map f (filter P (es ++ [e])) = map f (filter P es) ++ if decide (P e) then [f e] else [].
Proof. rewrite filter_app, map_app, filter_cons. by case_decide. Qed.

Lemma add_names_spec origins ar addr names es m :
  map_of ar es m ->
  map_of ar (es ++ map (pair addr) (filter (fun n => Zones_Matches origins n <> EmptyString) (map Name_Normalize names)))
    (add_names origins ar addr names m).
Proof.
  revert es m. induction names as [|n names IH]; intros es m Hm; [by rewrite app_nil_r|].
  cbn [map add_names]. rewrite filter_cons. set (name := Name_Normalize n).
  destruct (decide (Zones_Matches origins name = EmptyString)) as [Hz|Hz].
  - rewrite decide_False by (intros Hn; by apply Hn). by apply IH.
  - rewrite decide_True by done. cbn [map]. change (?e :: ?l) with ([e] ++ l) at 1. rewrite (app_assoc es).
    apply IH. destruct Hm as (H4 & H6 & Ha). clear IH.
    unfold map_of, v4_of, v6_of, names_of. setoid_rewrite of_snoc. cbn [fst snd].
    unfold v4_of, v6_of, names_of in H4, H6, Ha.
    clearbody name. destruct (To4 addr) as [p4|] eqn:E4; destruct ar; cbn [name4 name6 addrs]; split_and!; intros x;
      rewrite ?push_lookup, ?H4, ?H6, ?Ha; cbn [fst snd]; try done;
      repeat case_decide; rewrite ?app_nil_r; try done; exfalso;
      clear H4 H6 Ha Hz E4; unfold is_Some in *; firstorder (eauto || congruence).
Qed.

Lemma parse_line_spec origins ar es m line :
  map_of ar es m -> map_of ar (es ++ line_entries origins line) (parse_line origins ar m line).
Proof.
  intros Hm. unfold parse_line, line_entries. destruct (Fields _) as [|f0 [|n names]]; [by rewrite app_nil_r..|].
  destruct (hosts_parseIP f0) as [addr|]; [by apply add_names_spec|by rewrite app_nil_r].
Qed.

Lemma hosts_parse_spec origins ar content : map_of ar (entries origins content) (hosts_parse origins ar content).
Proof.
  unfold hosts_parse, entries. generalize (scan_lines (strings_Split ch_nl content)) as lines.
  assert (forall lines es m, map_of ar es m ->
    map_of ar (es ++ concat (map (line_entries origins) lines)) (fold_left (parse_line origins ar) lines m)) as Hf.
  { induction lines as [|l lines IH]; intros es m Hm; [by rewrite app_nil_r|].
    simpl. rewrite app_assoc. by apply IH, parse_line_spec. }
  intros lines. apply (Hf lines [] newMap). split_and!; intros x; simpl; rewrite lookup_empty; [done|done|by destruct ar].
Qed.

(** The addresses of the entries have 16 bytes. *)
Lemma entries_bytes origins content e :
  e ∈ entries origins content -> length e.1 = 16%nat /\ Forall is_byte e.1.
Proof.
  unfold entries. rewrite list_elem_of_In. intros (l & (line & <- & _)%in_map_iff & He)%in_concat.
  apply list_elem_of_In in He. unfold line_entries in He.
  destruct (Fields _) as [|f0 [|n names]]; [by apply elem_of_nil in He..|].
  destruct (hosts_parseIP f0) as [addr|] eqn:E; [|by apply elem_of_nil in He].
  apply list_elem_of_fmap in He as (x & -> & _). by eapply ParseIP_bytes.
Qed.

Definition at_addr (ip : IP) (es : list (IP * string)) : list string := map snd (filter (fun e => e.1 = ip) es).

Lemma names_at ip es :
  length ip = 16%nat -> Forall is_byte ip -> (forall e, e ∈ es -> length e.1 = 16%nat /\ Forall is_byte e.1) ->
  names_of (IP_String ip) es = at_addr ip es.
Proof.
  intros Hl Hb Hes. unfold names_of, at_addr. f_equal. induction es as [|e es IH]; [done|].
  rewrite !filter_cons, IH by (intros e' He'; apply Hes; by right).
  destruct (Hes e ltac:(by left)) as [Hle Hbe].
  destruct (decide (e.1 = ip)) as [Ee|Ee].
  - by rewrite decide_True by (by rewrite Ee).
  - rewrite decide_False; [done|]. intros E. by apply Ee, IP_String_inj.
Qed.

(** A name that is in the file has an address, and only then. *)
Lemma has_name n es : v4_of n es <> [] \/ v6_of n es <> [] <-> n ∈ map snd es.
Proof.
  rewrite list_elem_of_fmap. split.
  - intros [Hn|Hn]; [unfold v4_of in Hn|unfold v6_of in Hn];
      (destruct (filter _ es) as [|e l] eqn:E; [done|]; assert (e ∈ e :: l) as He by left; rewrite <- E in He;
       apply list_elem_of_filter in He as [[<- _] He]; by exists e).
  - intros (e & -> & He). destruct (To4 e.1) as [p|] eqn:E4; [left|right]; intros Hn.
    + assert (e.1 ∈ v4_of e.2 es) as Hin; [|rewrite Hn in Hin; by apply elem_of_nil in Hin].
      apply list_elem_of_fmap. exists e. rewrite list_elem_of_filter, E4. by eauto.
    + assert (e.1 ∈ v6_of e.2 es) as Hin; [|rewrite Hn in Hin; by apply elem_of_nil in Hin].
      apply list_elem_of_fmap. exists e. rewrite list_elem_of_filter, E4. by eauto.
Qed.
End entries.

(** ** Serving *)

Section serve.
Context `{DnsNames} `{Dok : DnsMsgsOk} {W : Type}.
Context (hosts : W -> Hostsfile) (Fall : list string) (next : option (Handler W)).

(** The maps of [h] were made from these two files. *)
Definition made_from (h : Hostsfile) (content inl : string) : Prop :=
  hmap h = hosts_parse (Origins h) (autoReverse h) content /\
  inline h = hosts_parse (Origins h) (autoReverse h) inl.

Definition all_entries (h : Hostsfile) (content inl : string) : list (IP * string) :=
  entries (Origins h) content ++ entries (Origins h) inl.

Lemma lookup_v4 h content inl host :
  made_from h content inl -> LookupStaticHostV4 h host = v4_of (ToLower host) (all_entries h content inl).
Proof.
  intros [E1 E2]. unfold LookupStaticHostV4, lookupStaticHost. rewrite E1, E2.
  rewrite !(proj1 (hosts_parse_spec _ _ _)). unfold v4_of, all_entries. by rewrite filter_app, map_app.
Qed.

Lemma lookup_v6 h content inl host :
  made_from h content inl -> LookupStaticHostV6 h host = v6_of (ToLower host) (all_entries h content inl).
Proof.
  intros [E1 E2]. unfold LookupStaticHostV6, lookupStaticHost. rewrite E1, E2.
  rewrite !(proj1 (proj2 (hosts_parse_spec _ _ _))). unfold v6_of, all_entries. by rewrite filter_app, map_app.
Qed.

Lemma lookup_addr h content inl ip :
  made_from h content inl -> autoReverse h = true -> length ip = 4%nat \/ length ip = 16%nat -> Forall is_byte ip ->
  LookupStaticAddr h (IP_String ip) = from_option (fun ip16 => at_addr ip16 (all_entries h content inl)) [] (To16 ip).
Proof.
  intros [E1 E2] Ha Hl Hb. unfold LookupStaticAddr, hosts_parseIP.
  assert (until ch_percent (IP_String ip) = IP_String ip) as ->.
  { unfold until. rewrite IP_String_free; [done| |done..]. intros d Hd.
    assert (Forall (fun d => IndexByte ch_percent (digit d) = None) (seqZ 0 16)) as Hs by (repeat constructor; by vm_compute).
    rewrite Forall_forall in Hs. apply Hs, elem_of_seqZ. lia. }
  rewrite ParseIP_String by done. destruct (To16 ip) as [ip16|] eqn:E; [|by unfold To16 in E; repeat case_decide; done || lia].
  cbn [default from_option]. assert (length ip16 = 16%nat /\ Forall is_byte ip16) as [Hl16 Hb16].
  { unfold To16 in E. repeat case_decide; simplify_eq; split; [simpl; lia|by apply (Forall_app_2 _ v4prefix); [repeat constructor|]|done|done]. }
  rewrite decide_False by (apply IP_String_ne; auto). rewrite E1, E2.
  rewrite !(proj2 (proj2 (hosts_parse_spec _ _ _))), Ha. unfold all_entries.
  rewrite !names_at by (done || (intros e; apply entries_bytes)). unfold at_addr. by rewrite filter_app, map_app.
Qed.

(** The reply with these records. *)
Definition hosts_reply (r : Msg) (answers : list RR) : Msg :=
  set_sections answers [] [] (set_mAuthoritative true (SetReply zeroMsg r)).

Lemma Hosts_answer_some h qname answers ctx w r s :
  answers <> [] -> Hosts_answer Fall next h qname answers ctx w r s = Some (s, [hosts_reply r answers], RcodeSuccess, None).
Proof.
  intros Ha. unfold Hosts_answer. rewrite decide_False by (by intros []). unfold hosts_reply. by rewrite SetReply_ok.
Qed.

Lemma others h content inl qname :
  made_from h content inl -> ToLower qname = qname ->
  otherRecordsExist h qname = bool_decide (qname ∈ map snd (all_entries h content inl)).
Proof.
  intros Hm El. unfold otherRecordsExist. rewrite (lookup_v4 h content inl), (lookup_v6 h content inl), El by done.
  apply eq_true_iff_eq. by rewrite orb_true_iff, !bool_decide_eq_true, has_name.
Qed.
End serve.

(** C12 A query for a name in one of the plugin's zones is answered from the
    entries of the file and of the inline lines, in their order: when an entry
    has the name, by one authoritative reply with the IPv4 addresses for a
    query for A records, the IPv6 addresses for AAAA, and no records for other
    types; when none has it, by the next plugin if the name may fall through,
    and otherwise the server is left to answer SERVFAIL. *)
Theorem hosts_answers `{DnsNames} `{DnsMsgsOk} {W} (hosts : W -> Hostsfile) (Fall : list string)
    (next : option (Handler W)) (ctx : Ctx) (w : Writer) (r : Msg) (q : Question) (qs : list Question) (s : W)
    (content inl : string) :
  made_from (hosts s) content inl -> mQuestion r = q :: qs -> host_name (qName q) -> qType q <> TypePTR ->
  let qname := ToLower (qName q) in
  Zones_Matches (Origins (hosts s)) qname <> EmptyString ->
  let es := all_entries (hosts s) content inl in
  let ttl := hf_ttl (hosts s) in
  Hosts_ServeDNS hosts Fall next ctx w r s =
  if decide (qname ∈ map snd es) then
    Some (s, [hosts_reply r (if decide (qType q = TypeA) then hosts_a qname ttl (v4_of qname es)
                             else if decide (qType q = TypeAAAA) then hosts_aaaa qname ttl (v6_of qname es)
                             else [])], RcodeSuccess, None)
  else if Through Fall qname then NextOrFailure Hosts_Name next ctx w r s
  else Some (s, [], RcodeServerFailure, None).
Proof.
  intros Hm Hq Hh Hp qname Hz es ttl. unfold Hosts_ServeDNS.
  destruct (Name (newRequest w (Some r))) as [st n] eqn:En.
  assert (n = qname) as -> by (change n with (st, n).2; rewrite <- En; by eapply Name_host).
  assert (QType st = qType q) as -> by (unfold Name in En; simpl in En; injection En as <- _; unfold QType; simpl; by rewrite Hq).
  rewrite decide_False by (by intros []). rewrite decide_False by done.
  assert (ToLower qname = qname) as El by apply ToLower_idem.
  rewrite (lookup_v4 _ content inl), (lookup_v6 _ content inl), El by done. fold es ttl.
  set (answers := if decide (qType q = TypeA) then hosts_a qname ttl (v4_of qname es)
                  else if decide (qType q = TypeAAAA) then hosts_aaaa qname ttl (v6_of qname es) else []).
  (* the three cases of the switch, as one *)
  assert (forall X, (if decide (qType q = TypeA) then Hosts_answer Fall next (hosts s) qname (hosts_a qname ttl (v4_of qname es)) ctx w r s
    else if decide (qType q = TypeAAAA) then Hosts_answer Fall next (hosts s) qname (hosts_aaaa qname ttl (v6_of qname es)) ctx w r s
    else Hosts_answer Fall next (hosts s) qname [] ctx w r s) = X <-> Hosts_answer Fall next (hosts s) qname answers ctx w r s = X) as ->.
  { intros X. unfold answers. by repeat case_decide. }
  unfold Hosts_answer, hosts_reply. rewrite (others _ content inl) by done. fold es.
  destruct (decide (qname ∈ map snd es)) as [Hin|Hin].
  - rewrite bool_decide_eq_true_2 by done. rewrite decide_False by (by intros []). by rewrite SetReply_ok.
  - rewrite bool_decide_eq_false_2 by done. rewrite decide_True; [done|]. split; [|done].
    rewrite <- has_name in Hin.
    assert (v4_of qname es = [] /\ v6_of qname es = []) as [H4 H6] by (split; apply dec_stable; tauto).
    unfold answers. rewrite H4, H6. by repeat case_decide.
Qed.

(** C37 Addresses and names correspond: a query for the PTR records of the
    reverse name of an IPv4 or IPv6 address, in upper or lower case, is
    answered with the names of all entries with that address, in order, and
    goes to the next plugin when there are none. *)
Theorem hosts_reverse `{DnsNames} `{DnsMsgsOk} {W} (hosts : W -> Hostsfile) (Fall : list string)
    (next : option (Handler W)) (ctx : Ctx) (w : Writer) (r : Msg) (q : Question) (qs : list Question) (s : W)
    (content inl : string) (ip ip16 : IP) :
  made_from (hosts s) content inl -> autoReverse (hosts s) = true ->
  mQuestion r = q :: qs -> host_name (qName q) -> qType q = TypePTR ->
  Forall is_byte ip -> To16 ip = Some ip16 -> ToLower (qName q) = reverse_name ip ->
  let names := at_addr ip16 (all_entries (hosts s) content inl) in
  Hosts_ServeDNS hosts Fall next ctx w r s =
  if decide (names = []) then NextOrFailure Hosts_Name next ctx w r s
  else Some (s, [hosts_reply r (hosts_ptr (reverse_name ip) (hf_ttl (hosts s)) names)], RcodeSuccess, None).
Proof.
  intros Hm Ha Hq Hh Hp Hb H16 El names. unfold Hosts_ServeDNS.
  destruct (Name (newRequest w (Some r))) as [st n] eqn:En.
  assert (n = reverse_name ip) as -> by (change n with (st, n).2; rewrite <- En, <- El; by eapply Name_host).
  assert (QType st = qType q) as -> by (unfold Name in En; simpl in En; injection En as <- _; unfold QType; simpl; by rewrite Hq).
  rewrite decide_False by (by intros [_ ?]). rewrite decide_True by done.
  assert (length ip = 4%nat \/ length ip = 16%nat) as Hl by (unfold To16 in H16; repeat case_decide; auto; done).
  rewrite Extract_reverse, (lookup_addr _ content inl), H16 by done. cbn [from_option]. fold names.
  destruct names as [|n names]; [done|]. rewrite decide_False by done. by apply Hosts_answer_some.
Qed.

(** ** Closed instances *)

#[local] Existing Instance dns_reference.
#[local] Existing Instance msgs_reference.
#[local] Existing Instance msgs_reference_ok.

Definition hosts_text : string :=
  "10.0.0.1 www.example.org. FTP.example.org # two names" +:+ String ch_nl "2001:db8::1	WWW.example.org elsewhere.net" +:+
  String ch_nl "10.0.0.2 www.example.org" +:+ String ch_nl EmptyString.
Definition hosts_file : Hostsfile :=
  readHosts (Some (5, hosts_text)%Z) (mkHostsfile ["example.org."%string] newMap newMap 0 0 true 3600).
Definition hosts_query (name : string) (typ : Z) : Msg := set_mQuestion [mkQuestion name typ ClassINET] zeroMsg.

Lemma hosts_file_made : made_from hosts_file hosts_text EmptyString.
Proof. split; reflexivity. Qed.

Lemma hosts_answers_witness :
  exists m, Hosts_ServeDNS id [] None (mkCtx 0 None) example_client (hosts_query "www.Example.org." TypeA) hosts_file =
      Some (hosts_file, [m], RcodeSuccess, None) /\
    map rdata (mAnswer m) = [A (v4prefix ++ [10; 0; 0; 1]); A (v4prefix ++ [10; 0; 0; 2])]%Z.
Proof.
  rewrite (@hosts_answers dns_reference msgs_reference msgs_reference_ok Hostsfile id [] None (mkCtx 0 None) example_client
    (hosts_query "www.Example.org." TypeA) (mkQuestion "www.Example.org." TypeA ClassINET) [] hosts_file hosts_text EmptyString).
  - rewrite decide_True by decided. eexists. split; [reflexivity|]. by vm_compute.
  - apply hosts_file_made.
  - reflexivity.
  - decided.
  - discriminate.
  - by vm_compute.
Defined.

Lemma hosts_reverse_witness :
  exists m, Hosts_ServeDNS id [] None (mkCtx 0 None) example_client
      (hosts_query "1.0.0.0.0.0.0.0.0.0.0.0.0.0.0.0.0.0.0.0.0.0.0.0.8.B.D.0.1.0.0.2.ip6.arpa." TypePTR) hosts_file =
      Some (hosts_file, [m], RcodeSuccess, None) /\
    map rdata (mAnswer m) = [PTR "www.example.org."].
Proof.
  rewrite (@hosts_reverse dns_reference msgs_reference msgs_reference_ok Hostsfile id [] None (mkCtx 0 None) example_client
    (hosts_query "1.0.0.0.0.0.0.0.0.0.0.0.0.0.0.0.0.0.0.0.0.0.0.0.8.B.D.0.1.0.0.2.ip6.arpa." TypePTR)
    (mkQuestion "1.0.0.0.0.0.0.0.0.0.0.0.0.0.0.0.0.0.0.0.0.0.0.0.8.B.D.0.1.0.0.2.ip6.arpa." TypePTR ClassINET) []
    hosts_file hosts_text EmptyString [32; 1; 13; 184; 0; 0; 0; 0; 0; 0; 0; 0; 0; 0; 0; 1]%Z
    [32; 1; 13; 184; 0; 0; 0; 0; 0; 0; 0; 0; 0; 0; 0; 1]%Z).
  - rewrite decide_False by (by vm_compute). eexists. split; [reflexivity|]. by vm_compute.
  - apply hosts_file_made.
  - reflexivity.
  - reflexivity.
  - decided.
  - reflexivity.
  - decided.
  - reflexivity.
  - by vm_compute.
Defined.
