(* ===== verification/NormalizeTheorems.v ===== *)
(** * The reverse zones of a network

    The zones that a network in CIDR notation is expanded to hold the reverse
    names of exactly its addresses. *)

From S2P Require Import Prelude.
From S2P Require Import GoStd.
From S2P Require Import GoNet.
From S2P Require Import GoText.
From S2P Require Import GoTime.
From S2P Require Import DnsNames.
From S2P Require Import DnsMsg.
From S2P Require Import DnsUtil.
From S2P Require Import Plugin.
From S2P Require Import Register.
From S2P Require Import Normalize.
From S2P Require Import Hosts.
From S2P Require Import HostsTheorems.

(** ** Numbers in a base *)

Section base.
Context (B : Z) (HB : (1 < B)%Z).

Definition is_digit (d : Z) : Prop := (0 <= d < B)%Z.
Definition num (l : list Z) : Z := fold_left (fun n d => n * B + d)%Z l 0%Z.

Lemma num_from l n : fold_left (fun n d => n * B + d)%Z l n = (n * B ^ Z.of_nat (length l) + num l)%Z.
Proof using HB.
  unfold num. revert n. induction l as [|d l IH]; intros n; simpl; [lia|]. rewrite IH, (IH (0 * B + d)%Z).
  replace (Z.of_nat (S (length l))) with (1 + Z.of_nat (length l))%Z by lia. rewrite Z.pow_add_r, Z.pow_1_r by lia. ring.
Qed.

Lemma num_app l k : num (l ++ k) = (num l * B ^ Z.of_nat (length k) + num k)%Z.
Proof using HB. unfold num at 1. rewrite fold_left_app. apply num_from. Qed.

Lemma num_bounds l : Forall is_digit l -> (0 <= num l < B ^ Z.of_nat (length l))%Z.
Proof using HB.
  induction l as [|d l IH] using rev_ind; intros Hl; [done|]. apply Forall_app in Hl as [Hl [Hd _]%Forall_cons].
  unfold is_digit in Hd. specialize (IH Hl). rewrite num_app, length_app. simpl length. unfold num at 2 4. simpl.
  replace (Z.of_nat (length l + 1)) with (Z.of_nat (length l) + 1)%Z by lia. rewrite Z.pow_add_r by lia. nia.
Qed.

Lemma num_take p l : Forall is_digit l -> (p <= length l)%nat -> num (take p l) = (num l / B ^ Z.of_nat (length l - p))%Z.
Proof using HB.
  intros Hl Hp. rewrite <- (take_drop p l) at 2. rewrite num_app, length_drop.
  rewrite Z.div_add_l by (apply Z.pow_nonzero; lia). rewrite Z.div_small; [lia|].
  rewrite <- length_drop. by apply num_bounds, Forall_drop.
Qed.

Lemma num_inj l k : length l = length k -> Forall is_digit l -> Forall is_digit k -> num l = num k -> l = k.
Proof using HB.
  revert k. induction l as [|d l IH] using rev_ind; intros k Hlen Hl Hk E.
  - by destruct k.
  - destruct k as [|e k _] using rev_ind; [rewrite length_app in Hlen; simpl in Hlen; lia|].
    rewrite !length_app in Hlen. simpl in Hlen. apply Forall_app in Hl as [Hl [Hd _]%Forall_cons].
    apply Forall_app in Hk as [Hk [He _]%Forall_cons]. unfold is_digit in Hd, He.
    rewrite !num_app in E. unfold num at 2 4 in E. simpl in E. rewrite Z.pow_1_r in E.
    assert (num l = num k /\ d = e) as [E1 ->].
    { pose proof (Z.div_mod_unique B (num l) (num k) d e) as Hu. destruct Hu; [lia|lia|lia|split; lia]. }
    f_equal. apply IH; [lia|done..].
Qed.

(** Lists with the same first digits are numbers with the same quotient. *)
Lemma take_eq_num p l k :
  length l = length k -> Forall is_digit l -> Forall is_digit k -> (p <= length l)%nat ->
  take p l = take p k <-> (num l / B ^ Z.of_nat (length l - p) = num k / B ^ Z.of_nat (length l - p))%Z.
Proof using HB.
  intros Hlen Hl Hk Hp. rewrite <- num_take by done. rewrite Hlen, <- num_take by (done || lia). split; [by intros ->|].
  apply num_inj; [rewrite !length_take; lia|by apply Forall_take..].
Qed.
End base.

Lemma ip_number_num ip : ip_number ip = num 256 ip.
Proof. done. Qed.

Lemma number_ip_length len n : length (number_ip len n) = len.
Proof. induction len; simpl; [done|]. by rewrite IHlen. Qed.

Lemma number_ip_bytes len n : Forall is_byte (number_ip len n).
Proof. induction len; simpl; constructor; [|done]. unfold is_byte. apply Z.mod_pos_bound. lia. Qed.

Lemma ip_number_ip len n : (0 <= n < 256 ^ Z.of_nat len)%Z -> ip_number (number_ip len n) = n.
Proof.
  revert n. induction len as [|len IH]; intros n Hn; [simpl in *; rewrite ?Z.pow_0_r in Hn; unfold ip_number; simpl; lia|].
  rewrite ip_number_num in *. cbn [number_ip]. change (?a :: ?l) with ([a] ++ l). rewrite num_app by lia.
  rewrite number_ip_length. unfold num at 1. cbn [fold_left].
  replace (Z.of_nat (S len)) with (1 + Z.of_nat len)%Z in Hn by lia. rewrite Z.pow_add_r, Z.pow_1_r in Hn by lia.
  pose proof (Z.pow_pos_nonneg 256 (Z.of_nat len) ltac:(lia) ltac:(lia)) as Hp.
  assert (forall m, num 256 (number_ip len m) = num 256 (number_ip len (m mod 256 ^ Z.of_nat len))) as Hm.
  { clear. intros m. f_equal. revert m.
    assert (forall k m, (k <= len)%nat -> number_ip k m = number_ip k (m mod 256 ^ Z.of_nat len)) as Hk; [|intros m; by apply Hk].
    induction k as [|k IHk]; intros m Hle; [done|]. cbn [number_ip]. rewrite (IHk m) by lia. f_equal.
    replace (Z.of_nat len) with (Z.of_nat k + (1 + (Z.of_nat len - Z.of_nat k - 1)))%Z by lia.
    rewrite !Z.pow_add_r, Z.pow_1_r by lia. set (P := (256 ^ Z.of_nat k)%Z). set (Q := (256 ^ (Z.of_nat len - Z.of_nat k - 1))%Z).
    assert (0 < P)%Z by (apply Z.pow_pos_nonneg; lia). assert (0 < Q)%Z by (apply Z.pow_pos_nonneg; lia).
    rewrite (Z.rem_mul_r m P (256 * Q)) by nia. rewrite Z.add_comm, Z.mul_comm, Z.div_add_l by lia.
    rewrite (Z.div_small (m mod P)) by (apply Z.mod_pos_bound; lia). rewrite Z.add_0_r.
    rewrite Z.rem_mul_r by lia. rewrite Z.add_comm, Z.mul_comm, Z.add_comm, Z.mod_add by lia. by rewrite Z.mod_mod by lia. }
  rewrite Hm, <- ip_number_num, IH by (apply Z.mod_pos_bound; lia).
  rewrite (Z.mod_small (n / _)) by (split; [apply Z.div_pos; lia|apply Z.div_lt_upper_bound; lia]).
  rewrite (Z.div_mod n (256 ^ Z.of_nat len)) at 3 by lia. lia.
Qed.

(** ** The digits of reverse names *)

(** A byte is a label of an IPv4 name, half of one of an IPv6 name. *)
Definition nibbles (ip : IP) : list Z := concat (map (fun b => [b / 16; b mod 16]%Z) ip).

Lemma num_nibbles ip : Forall is_byte ip -> num 16 (nibbles ip) = ip_number ip.
Proof.
  rewrite ip_number_num. induction ip as [|b ip IH] using rev_ind; intros Hb; [done|].
  apply Forall_app in Hb as [Hb [Hl _]%Forall_cons]. 
  assert (nibbles (ip ++ [b]) = nibbles ip ++ [b / 16; b mod 16]%Z) as -> by (unfold nibbles; by rewrite map_app, concat_app).
  rewrite !num_app, IH by (done || lia).
  unfold num at 2 4. simpl. unfold is_byte in Hl. pose proof (Z.div_mod b 16 ltac:(lia)). lia.
Qed.

Lemma nibbles_digits ip : Forall is_byte ip -> Forall (is_digit 16) (nibbles ip).
Proof.
  intros Hb. apply Forall_concat, Forall_fmap. eapply Forall_impl; [exact Hb|]. intros b Hn. unfold is_byte in Hn. simpl.
  unfold is_digit. repeat constructor; Z.to_euclidean_division_equations; lia.
Qed.

Lemma nibbles_length ip : length (nibbles ip) = (2 * length ip)%nat.
Proof. induction ip as [|b ip IH]; [done|]. unfold nibbles in *. simpl. rewrite IH. lia. Qed.

Definition ip_digits (ip : IP) : list Z := if decide (length ip = 4%nat) then ip else nibbles ip.
Definition digit_label (v4 : bool) (d : Z) : string := if v4 then dec_byte d else digit d.
Definition arpa (v4 : bool) : list string := if v4 then ["in-addr"; "arpa"]%string else ["ip6"; "arpa"]%string.
Definition is_v4 (ip : IP) : bool := bool_decide (length ip = 4%nat).
Definition base_of (v4 : bool) : Z := if v4 then 256%Z else 16%Z.
Definition width_of (v4 : bool) : Z := if v4 then 8%Z else 4%Z.

(** The labels of the zone of the first [p] digits. *)
Definition zone_labels (v4 : bool) (p : nat) (ds : list Z) : list string := rev (map (digit_label v4) (take p ds)) ++ arpa v4.

(** A label of a digit tells it, and is in lower case. *)
Definition label_table (v4 : bool) : list (Z * string) :=
  map (fun k => (Z.of_nat k, digit_label v4 (Z.of_nat k))) (seq 0 (Z.to_nat (base_of v4))).

Lemma label_table_ok v4 :
  NoDup (map snd (label_table v4)) /\ Forall (fun e => label_ok e.2 /\ ToLower e.2 = e.2 /\ slen e.2 <= 3)%nat (label_table v4).
Proof. destruct v4; decided. Qed.

Lemma in_table v4 d : is_digit (base_of v4) d -> label_table v4 !! Z.to_nat d = Some (d, digit_label v4 d).
Proof.
  intros Hd. unfold is_digit in Hd. unfold label_table. rewrite list_lookup_fmap, lookup_seq_lt by lia.
  simpl. by rewrite Z2Nat.id by lia.
Qed.

Lemma digit_label_ok v4 d : is_digit (base_of v4) d -> label_ok (digit_label v4 d) /\ ToLower (digit_label v4 d) = digit_label v4 d.
Proof.
  intros Hd. destruct (label_table_ok v4) as [_ Hf]. apply in_table in Hd.
  eapply Forall_lookup_1 in Hf; [|exact Hd]. by destruct Hf as (? & ? & _).
Qed.

Lemma digit_label_inj v4 d e :
  is_digit (base_of v4) d -> is_digit (base_of v4) e -> digit_label v4 d = digit_label v4 e -> d = e.
Proof.
  intros Hd He E. destruct (label_table_ok v4) as [Hn _]. pose proof Hd as Hd'. pose proof He as He'. apply in_table in Hd, He.
  assert (Z.to_nat d = Z.to_nat e) as En.
  { eapply (NoDup_lookup (map snd (label_table v4))); [exact Hn| |];
      rewrite list_lookup_fmap; [rewrite Hd|rewrite He]; simpl; by rewrite ?E. }
  unfold is_digit in *. lia.
Qed.

Lemma map_label_inj v4 l k :
  Forall (is_digit (base_of v4)) l -> Forall (is_digit (base_of v4)) k ->
  map (digit_label v4) l = map (digit_label v4) k -> l = k.
Proof.
  intros Hl. revert k. induction Hl as [|d l Hd Hl IH]; intros [|e k] Hk E; try done. apply Forall_cons in Hk as [He Hk].
  injection E as E1 E2. f_equal; [by eapply digit_label_inj|by apply IH].
Qed.

Lemma zone_labels_ok v4 p ds : Forall (is_digit (base_of v4)) ds -> Forall label_ok (zone_labels v4 p ds).
Proof.
  intros Hd. apply Forall_app. split; [|destruct v4; decided]. apply Forall_rev, Forall_fmap, Forall_take.
  eapply Forall_impl; [exact Hd|]. intros d. apply digit_label_ok.
Qed.

Lemma zone_labels_lower v4 p ds : Forall (is_digit (base_of v4)) ds -> map ToLower (zone_labels v4 p ds) = zone_labels v4 p ds.
Proof.
  intros Hd. unfold zone_labels. rewrite map_app, map_rev, map_map. f_equal; [|by destruct v4]. f_equal.
  apply Forall_fmap_ext_1. apply Forall_take. eapply Forall_impl; [exact Hd|]. intros d. apply digit_label_ok.
Qed.

(** A name lies in the zone exactly when the digits agree. *)
Lemma zone_labels_suffix v4 p xs ds :
  length xs = length ds -> (p <= length ds)%nat -> Forall (is_digit (base_of v4)) xs -> Forall (is_digit (base_of v4)) ds ->
  label_suffix (zone_labels v4 p xs) (zone_labels v4 (length ds) ds) <-> take p xs = take p ds.
Proof.
  intros Hlen Hp Hx Hd. unfold label_suffix. rewrite !zone_labels_lower by done. unfold zone_labels.
  rewrite (firstn_all ds). split.
  - intros [k E]. rewrite app_assoc in E. apply app_inv_tail in E.
    apply (f_equal (@rev string)) in E. rewrite rev_app_distr, !rev_involutive in E.
    apply (f_equal (take p)) in E. rewrite take_app_length' in E by (rewrite length_map, length_take; lia).
    rewrite <- fmap_take in E. symmetry. apply (map_label_inj v4); [by apply Forall_take..|exact E].
  - intros ->. exists (rev (map (digit_label v4) (drop p ds))). rewrite app_assoc, <- rev_app_distr, <- map_app, take_drop. done.
Qed.

Definition valid_ip (ip : IP) : Prop := (length ip = 4 \/ length ip = 16)%nat /\ Forall is_byte ip.

Lemma ip_digits_ok ip :
  valid_ip ip ->
  Forall (is_digit (base_of (is_v4 ip))) (ip_digits ip) /\ num (base_of (is_v4 ip)) (ip_digits ip) = ip_number ip /\
  (Z.of_nat (length (ip_digits ip)) * width_of (is_v4 ip) = 8 * Z.of_nat (length ip))%Z.
Proof.
  intros [Hl Hb]. unfold ip_digits, is_v4. case_decide as H4; [rewrite bool_decide_eq_true_2 by done|rewrite bool_decide_eq_false_2 by done]; simpl.
  - split; [exact Hb|]. split; [done|lia].
  - split; [by apply nibbles_digits|]. split; [by apply num_nibbles|]. rewrite nibbles_length. lia.
Qed.

Lemma reverse_name_dotted ip :
  valid_ip ip -> reverse_name ip = dotted (zone_labels (is_v4 ip) (length (ip_digits ip)) (ip_digits ip)).
Proof.
  intros [Hl Hb]. unfold reverse_name, zone_labels, ip_digits, is_v4. rewrite firstn_all, dotted_app.
  case_decide as H4; [rewrite bool_decide_eq_true_2 by done|rewrite bool_decide_eq_false_2 by done].
  - rewrite <- strings_Join_dotted. 2:{ intros E%(f_equal (@length _)). rewrite length_rev, length_map, H4 in E. done. }
    by rewrite sapp_assoc.
  - assert (rev (map (digit_label false) (nibbles ip)) = nibble_labels ip) as ->.
    { rewrite <- (rev_involutive (nibble_labels ip)), rev_nibbles. f_equal. unfold nibbles, byte_digits, digit_label.
      clear. induction ip as [|b ip IH]; [done|]. simpl. by rewrite IH. }
    rewrite <- strings_Join_dotted; [by rewrite sapp_assoc|].
    intros E%(f_equal (@length _)). rewrite <- length_rev, rev_nibbles in E. destruct ip; [simpl in *; lia|done].
Qed.

(** ** Printing and parsing networks *)

Definition ch_sl : ascii := "/"%char.

Lemma IndexByte_none_app c s t : IndexByte c s = None -> IndexByte c t = None -> IndexByte c (s +:+ t) = None.
Proof. intros Hs Ht. rewrite IndexByte_app by done. by rewrite Ht. Qed.

Lemma IndexByte_none_Join c fs sep :
  IndexByte c sep = None -> Forall (fun f => IndexByte c f = None) fs -> IndexByte c (strings_Join fs sep) = None.
Proof.
  intros Hs Hf. induction Hf as [|f fs Hf Hfs IH]; [done|]. destruct fs as [|g fs]; [exact Hf|].
  rewrite Join_cons. by apply IndexByte_none_app, IndexByte_none_app.
Qed.

Lemma digit_no_slash d : (0 <= d < 16)%Z -> IndexByte ch_sl (digit d) = None.
Proof.
  intros Hd. assert (Forall (fun k : nat => IndexByte ch_sl (digit (Z.of_nat k)) = None) (seq 0 16)) as Hf by decided.
  rewrite Forall_forall in Hf. specialize (Hf (Z.to_nat d)). rewrite Z2Nat.id in Hf by lia. apply Hf, elem_of_seq. lia.
Qed.

Lemma dec_byte_no_slash b : is_byte b -> IndexByte ch_sl (dec_byte b) = None.
Proof.
  unfold is_byte, dec_byte. intros Hb. repeat case_decide; repeat apply IndexByte_none_app; apply digit_no_slash;
    Z.to_euclidean_division_equations; lia.
Qed.

Lemma hex_group_no_slash g : is_group g -> IndexByte ch_sl (hex_group g) = None.
Proof.
  unfold is_group, hex_group. intros Hg.
  repeat case_decide; repeat apply IndexByte_none_app; try done; apply digit_no_slash; Z.to_euclidean_division_equations; lia.
Qed.

Lemma print6_no_slash gs : Forall is_group gs -> IndexByte ch_sl (print6 gs) = None.
Proof.
  intros Hg. assert (forall hs, Forall is_group hs -> IndexByte ch_sl (print_groups hs) = None) as Hp.
  { intros hs Hh. apply IndexByte_none_Join; [done|]. apply Forall_fmap. eapply Forall_impl; [exact Hh|]. apply hex_group_no_slash. }
  unfold print6. destruct (longest_run 0 gs) as [i n]. case_decide; [by apply Hp|].
  apply IndexByte_none_app; [by apply Hp, Forall_take|]. apply IndexByte_none_app; [done|by apply Hp, Forall_drop].
Qed.

(** An address that does not print as one of the other family. *)
Definition own_form (ip : IP) : Prop := length ip = 16%nat -> To4 ip = None.

Lemma IP_String_form ip :
  valid_ip ip -> own_form ip ->
  IndexByte ch_sl (IP_String ip) = None /\ first_sep (IP_String ip) = Some (if is_v4 ip then ch_dot else ch_colon).
Proof.
  intros [Hl Hb] Ho. unfold IP_String, is_v4. destruct ip as [|b ip]; [simpl in *; lia|].
  destruct Hl as [H4|H16].
  - unfold To4. rewrite decide_True, bool_decide_eq_true_2 by done. split.
    + apply IndexByte_none_Join; [done|]. apply Forall_fmap. eapply Forall_impl; [exact Hb|]. apply dec_byte_no_slash.
    + unfold print4. destruct ip as [|b' ip]; [done|]. cbn [map]. rewrite Join_cons.
      apply Forall_cons in Hb as [Hb _]. rewrite no_sep_app by (by apply dec_byte_ok). done.
  - rewrite (Ho H16), decide_True, bool_decide_eq_false_2 by (done || lia).
    destruct (pairs16_bytes (b :: ip) H16 Hb) as (_ & Hp & Hg). split; [by apply print6_no_slash|].
    apply print6_sep; [done|lia].
Qed.

(** Mask lengths and their text, all of them. *)
Definition mask_fact (bits l : Z) : Prop :=
  simpleMaskLength (CIDRMask l bits) = Some l /\ (8 * Z.of_nat (length (CIDRMask l bits)) = bits)%Z /\
  dtoi 0 (Itoa l) = Some (l, EmptyString) /\ Itoa l <> EmptyString /\ IndexByte ch_colon (Itoa l) = None.

#[local] Instance mask_fact_dec bits l : Decision (mask_fact bits l).
Proof. unfold mask_fact. apply _. Defined.

Lemma mask_facts bits l : (bits = 32 \/ bits = 128)%Z -> (0 <= l <= bits)%Z -> mask_fact bits l.
Proof.
  intros Hb Hl.
  assert (Forall (fun k => mask_fact 32 (Z.of_nat k)) (seq 0 33) /\ Forall (fun k => mask_fact 128 (Z.of_nat k)) (seq 0 129))
    as [H32 H128] by (split; decided).
  rewrite Forall_forall in H32, H128. specialize (H32 (Z.to_nat l)). specialize (H128 (Z.to_nat l)).
  rewrite Z2Nat.id in H32, H128 by lia. destruct Hb as [-> | ->]; [apply H32|apply H128]; apply elem_of_seq; lia.
Qed.

(** ** Networks *)

Lemma subnet_valid n l : subnet n l -> valid_ip (net_IP n).
Proof. intros (bits & Hb & _ & _ & Hl & Hby & _). split; [lia|done]. Qed.

Lemma subnet_String n l : subnet n l -> own_form (net_IP n) -> IPNet_String n = IP_String (net_IP n) +:+ "/" +:+ Itoa l.
Proof.
  intros (bits & Hb & Hr & Hm & Hl & Hby & _) Ho. destruct (mask_facts bits l Hb Hr) as (Hs & Hlen & _).
  unfold IPNet_String, networkNumberAndMask. rewrite Hm.
  assert (default (net_IP n) (To4 (net_IP n)) = net_IP n) as ->.
  { destruct (decide (length (net_IP n) = 16)%nat) as [E|E]; [by rewrite (Ho E)|]. unfold To4. rewrite decide_True by lia. done. }
  rewrite decide_False by lia. destruct Hb as [-> | ->].
  - rewrite decide_True, decide_True by lia. by rewrite Hs.
  - rewrite decide_False, decide_True, decide_False by lia. by rewrite Hs.
Qed.

Lemma To16_String ip ip16 : valid_ip ip -> own_form ip -> To16 ip = Some ip16 -> length ip16 = 16%nat /\ IP_String ip16 = IP_String ip.
Proof.
  intros [Hl Hb] Ho. unfold To16. case_decide as H4.
  - intros E16. injection E16 as <-. split; [simpl; lia|]. unfold IP_String.
    destruct ip as [|b ip]; [simpl in H4; lia|]. cbn [v4prefix app].
    assert (To4 (v4prefix ++ b :: ip) = Some (b :: ip)) as E4.
    { unfold To4. rewrite decide_False by (simpl in *; lia).
      rewrite decide_True; [done|]. split; [simpl in *; lia|done]. }
    cbn [v4prefix app] in E4. rewrite E4. unfold To4. by rewrite decide_True.
  - case_decide; [|done]. by intros [= <-].
Qed.

(** Parsing the text of a network: its address and a network of the same
    family and mask. *)
Lemma ParseCIDR_String n l :
  subnet n l -> own_form (net_IP n) ->
  exists ip16 m, ParseCIDR (IPNet_String n) = Some (ip16, m) /\ IP_String ip16 = IP_String (net_IP n) /\
    Mask_Size (net_Mask m) = (l, 8 * Z.of_nat (length (net_IP n)))%Z /\ length (net_IP m) = length (net_IP n).
Proof.
  intros Hn Ho. pose proof (subnet_valid n l Hn) as Hv. rewrite (subnet_String n l Hn Ho).
  destruct Hn as (bits & Hb & Hr & Hm & Hl & Hby & _). destruct (mask_facts bits l Hb Hr) as (Hs & Hlen & Hd & Hi & _).
  destruct (IP_String_form _ Hv Ho) as [Hns Hsep]. unfold ParseCIDR. change ch_slash_ with ch_sl.
  change ("/" +:+ Itoa l) with (String ch_sl (Itoa l)). set (a := IP_String (net_IP n)) in *.
  assert (IndexByte ch_sl (String ch_sl (Itoa l)) = Some 0%nat) as E0 by done. rewrite IndexByte_app, E0 by done.
  cbn [fmap option_fmap option_map mbind option_bind]. rewrite Nat.add_0_r, stake_app.
  replace (S (slen a)) with (slen (a +:+ String ch_sl EmptyString)) by (rewrite slen_app; simpl; lia).
  replace (a +:+ String ch_sl (Itoa l)) with ((a +:+ String ch_sl EmptyString) +:+ Itoa l) by (by rewrite sapp_assoc).
  rewrite sdrop_app. assert (ParseIP a = To16 (net_IP n)) as -> by (apply ParseIP_String; destruct Hv; done).
  destruct (To16 (net_IP n)) as [ip16|] eqn:E16; [|unfold To16 in E16; repeat case_decide; (done || lia)].
  destruct (To16_String _ _ Hv Ho E16) as [Hl16 Hs16]. cbn [mbind option_bind]. rewrite Hsep.
  match goal with |- context [if ?b then 32%Z else 128%Z] => assert ((if b then 32%Z else 128%Z) = bits) as -> end.
  { unfold is_v4. destruct (decide (length (net_IP n) = 4%nat)).
    - rewrite (bool_decide_eq_true_2 (length _ = _)), bool_decide_eq_true_2 by done. lia.
    - rewrite (bool_decide_eq_false_2 (length _ = _)), bool_decide_eq_false_2 by done. lia. }
  rewrite Hd. cbn [mbind option_bind]. rewrite decide_False by (intros [?|[?|?]]; done || lia).
  eexists _, _. split; [reflexivity|]. split; [exact Hs16|]. cbn [net_IP net_Mask]. split.
  - unfold Mask_Size. rewrite Hs. f_equal. lia.
  - unfold IP_Mask. set (mask := CIDRMask l bits) in *. destruct Hb as [-> | ->].
    + rewrite (decide_False (P := length mask = 16%nat /\ _)) by (intros [? _]; lia). unfold To16 in E16. rewrite decide_True in E16 by lia.
      assert (ip16 = v4prefix ++ net_IP n) as -> by congruence. rewrite (decide_True (P := length mask = 4%nat /\ _)) by (simpl; split; [lia|split; [lia|done]]).
      assert (drop 12 (v4prefix ++ net_IP n) = net_IP n) as -> by done. rewrite decide_True by lia. rewrite length_zip_with. lia.
    + rewrite (decide_False (P := length mask = 16%nat /\ _)) by (intros (_ & ? & _); lia).
      rewrite (decide_False (P := length mask = 4%nat /\ _)) by (intros [? _]; lia).
      unfold To16 in E16. rewrite decide_False, decide_True in E16 by lia. injection E16 as <-.
      rewrite decide_True by lia. rewrite length_zip_with. lia.
Qed.

(** What the code relies on of the packages outside. *)
Class NetworksOk `{Networks} : Prop := {
  NextSubnet_ok n l : subnet n l -> NextSubnet n l = next_subnet n l;
  ReverseAddr_ok ip : valid_ip ip -> own_form ip -> ReverseAddr (IP_String ip) = Some (reverse_name ip);
  ReverseAddr_fails s : ParseIP s = None -> ReverseAddr s = None
}.

Section reverse_zones.
Context `{DOk : DnsNamesOk} `{NOk : NetworksOk}.

Lemma skip_labels_start k r j :
  valid_name r -> (j + k < length (labels r))%nat ->
  skip_labels k r (label_start (labels r) j) = label_start (labels r) (j + k).
Proof using DOk.
  intros Hv. revert j. induction k as [|k IH]; intros j Hk; cbn [skip_labels]; [by rewrite Nat.add_0_r|].
  rewrite NextLabel_start by (done || lia). rewrite IH by lia. f_equal. lia.
Qed.

(** The zone of a network that ends between two digits. *)
Lemma reverse_zone_spec n l p :
  subnet n l -> own_form (net_IP n) -> l = (Z.of_nat p * width_of (is_v4 (net_IP n)))%Z ->
  reverse_zone (IPNet_String n) = Some (dotted (zone_labels (is_v4 (net_IP n)) p (ip_digits (net_IP n)))).
Proof using DOk NOk.
  intros Hn Ho Hl. pose proof (subnet_valid n l Hn) as Hv. destruct (ip_digits_ok _ Hv) as (Hd & _ & Hlen).
  destruct (ParseCIDR_String n l Hn Ho) as (ip16 & m & Ep & Es & Em & Eip). unfold reverse_zone. rewrite Ep, Es.
  rewrite (ReverseAddr_ok _ Hv Ho). cbn [mbind option_bind]. rewrite Em, Eip.
  destruct Hn as (bits & Hb & Hr & _ & Hbits & _). set (v4 := is_v4 (net_IP n)) in *. set (ds := ip_digits (net_IP n)) in *.
  assert ((if decide (length (net_IP n) = 16%nat) then 4 else 8)%Z = width_of v4) as ->.
  { unfold v4, is_v4. case_decide; [rewrite bool_decide_eq_false_2 by lia|rewrite bool_decide_eq_true_2 by lia]; done. }
  assert (width_of v4 <> 0)%Z as Hw by (by destruct v4). assert (0 < width_of v4)%Z as Hw0 by (by destruct v4).
  rewrite <- Hlen, Hl, <- Z.mul_sub_distr_r, Z.rem_mul, Z.add_0_r, Z.quot_mul by done.
  assert (p <= length ds)%nat as Hp by nia.
  replace (Z.to_nat (Z.of_nat (length ds) - Z.of_nat p)) with (length ds - p)%nat by lia.
  rewrite reverse_name_dotted by done. fold v4 ds. set (ls := zone_labels v4 (length ds) ds).
  assert (Forall label_ok ls) as Hok by (by apply zone_labels_ok).
  assert (length ls = length ds + 2)%nat as Hll.
  { unfold ls, zone_labels. rewrite length_app, length_rev, length_map, firstn_all. by destruct v4. }
  assert (ls <> []) as Hne by (intros E; rewrite E in Hll; simpl in Hll; lia).
  pose proof (skip_labels_start (length ds - p) (dotted ls) 0 (valid_name_dotted ls Hne Hok)) as Hsk.
  rewrite labels_dotted in Hsk by done. change (label_start ls 0) with 0%nat in Hsk. rewrite Hsk by lia.
  rewrite label_start_drop. do 2 f_equal.
  unfold ls, zone_labels. rewrite firstn_all, drop_app_le by (rewrite length_rev, length_map; lia). f_equal.
  rewrite <- (take_drop p ds) at 1 2. rewrite map_app, rev_app_distr, drop_app_length'; [done|].
  rewrite length_rev, length_map, length_drop, length_app, length_take, length_drop. lia.
Qed.

(** ** Splitting *)

(** The [i]-th network of [l] bits after [n]. *)
Definition nth_subnet (n : IPNet) (l : Z) (i : Z) : IPNet :=
  let bits := (8 * Z.of_nat (length (net_IP n)))%Z in
  mkIPNet (number_ip (length (net_IP n)) (ip_number (net_IP n) + i * 2 ^ (bits - l))) (CIDRMask l bits).

Lemma nth_subnet_ok n l l' i :
  subnet n l -> (l <= l' <= 8 * Z.of_nat (length (net_IP n)))%Z -> (0 <= i < 2 ^ (l' - l))%Z ->
  subnet (nth_subnet n l' i) l' /\
  ip_number (net_IP (nth_subnet n l' i)) = (ip_number (net_IP n) + i * 2 ^ (8 * Z.of_nat (length (net_IP n)) - l'))%Z /\
  length (net_IP (nth_subnet n l' i)) = length (net_IP n).
Proof.
  intros (bits & Hb & Hr & Hm & Hbits & Hby & [q Hq]) Hl Hi. rewrite Hbits in *.
  assert (num 256 (net_IP n) < 2 ^ bits)%Z as Hlt.
  { replace (2 ^ bits)%Z with (256 ^ Z.of_nat (length (net_IP n)))%Z.
    - by apply num_bounds.
    - change 256%Z with (2 ^ 8)%Z. rewrite <- Z.pow_mul_r by lia. f_equal. lia. }
  assert (0 <= num 256 (net_IP n))%Z as Hge by (by apply num_bounds). rewrite <- ip_number_num in Hlt, Hge.
  assert (2 ^ (bits - l) = 2 ^ (l' - l) * 2 ^ (bits - l'))%Z as Ep by (rewrite <- Z.pow_add_r by lia; f_equal; lia).
  pose proof (Z.pow_pos_nonneg 2 (bits - l') ltac:(lia) ltac:(lia)) as P1.
  pose proof (Z.pow_pos_nonneg 2 (l' - l) ltac:(lia) ltac:(lia)) as P2.
  assert (2 ^ bits = 2 ^ l * 2 ^ (bits - l))%Z as Eb by (rewrite <- Z.pow_add_r by lia; f_equal; lia).
  assert (0 <= ip_number (net_IP n) + i * 2 ^ (bits - l') < 2 ^ bits)%Z as Hnum.
  { split; [nia|]. rewrite Hq in *. rewrite Eb in *. assert (q < 2 ^ l)%Z by nia. nia. }
  assert (ip_number (net_IP (nth_subnet n l' i)) = (ip_number (net_IP n) + i * 2 ^ (bits - l'))%Z) as En.
  { unfold nth_subnet. rewrite Hbits. cbn [net_IP]. apply ip_number_ip.
    change 256%Z with (2 ^ 8)%Z. rewrite <- Z.pow_mul_r by lia. replace (8 * Z.of_nat (length (net_IP n)))%Z with bits by lia. done. }
  assert (length (net_IP (nth_subnet n l' i)) = length (net_IP n)) as El by apply number_ip_length.
  split; [|by rewrite El]. exists bits. split; [done|]. split; [lia|]. unfold nth_subnet at 1. rewrite Hbits. split; [done|].
  rewrite El. split; [done|]. split; [apply number_ip_bytes|]. rewrite En, Hq. exists (q * 2 ^ (l' - l) + i)%Z. rewrite Ep. ring.
Qed.

Lemma number_ip_number ip : Forall is_byte ip -> number_ip (length ip) (ip_number ip) = ip.
Proof.
  intros Hb. apply (num_inj 256); [lia|apply number_ip_length|apply number_ip_bytes|exact Hb|].
  rewrite <- !ip_number_num. apply ip_number_ip. by apply num_bounds.
Qed.

Lemma next_nth n l l' i :
  subnet n l -> (l <= l' <= 8 * Z.of_nat (length (net_IP n)))%Z -> (0 <= i /\ i + 1 < 2 ^ (l' - l))%Z ->
  next_subnet (nth_subnet n l' i) l' = (nth_subnet n l' (i + 1), false).
Proof.
  intros Hn Hl Hi. destruct (nth_subnet_ok n l l' i Hn Hl) as (_ & E & El); [lia|].
  destruct (nth_subnet_ok n l l' (i + 1) Hn Hl) as (Hs & E' & El'); [lia|].
  set (bits := (8 * Z.of_nat (length (net_IP n)))%Z) in *.
  assert (ip_number (net_IP n) + (i + 1) * 2 ^ (bits - l') < 2 ^ bits)%Z as Hlt.
  { rewrite <- E'. destruct Hs as (_ & _ & _ & _ & _ & Hby & _).
    pose proof (num_bounds 256 ltac:(lia) _ Hby) as [_ Hn']. rewrite El' in Hn'.
    change 256%Z with (2 ^ 8)%Z in Hn' at 2. rewrite <- Z.pow_mul_r in Hn' by lia. exact Hn'. }
  unfold next_subnet. rewrite El. fold bits. rewrite E.
  replace (ip_number (net_IP n) + i * 2 ^ (bits - l') + 2 ^ (bits - l'))%Z with (ip_number (net_IP n) + (i + 1) * 2 ^ (bits - l'))%Z by ring.
  rewrite bool_decide_eq_false_2 by lia. rewrite Z.mod_small; [done|]. split; [|done].
  rewrite <- E'. destruct Hs as (_ & _ & _ & _ & _ & Hby & _). by apply num_bounds.
Qed.

Lemma nets_loop_spec n l l' k i :
  subnet n l -> (l <= l' <= 8 * Z.of_nat (length (net_IP n)))%Z -> (Z.of_nat i + Z.of_nat k < 2 ^ (l' - l))%Z ->
  nets_loop k (nth_subnet n l' (Z.of_nat i)) l' = map (fun j => nth_subnet n l' (Z.of_nat j)) (seq (S i) k).
Proof using NOk.
  intros Hn Hl. revert i. induction k as [|k IH]; intros i Hk; [done|]. cbn [nets_loop seq map].
  destruct (nth_subnet_ok n l l' (Z.of_nat i) Hn Hl) as (Hs & _); [lia|].
  rewrite NextSubnet_ok, (next_nth n l) by (done || lia). replace (Z.of_nat i + 1)%Z with (Z.of_nat (S i)) by lia.
  rewrite IH by lia. done.
Qed.

Lemma nets_spec n l l' :
  subnet n l -> (l <= l' <= 8 * Z.of_nat (length (net_IP n)))%Z ->
  nets n l' = map (fun j => nth_subnet n l' (Z.of_nat j)) (seq 0 (Z.to_nat (2 ^ (l' - l)))).
Proof using NOk.
  intros Hn Hl. pose proof Hn as (bits & Hb & Hr & Hm & Hbits & Hby & _). unfold nets.
  assert ((Mask_Size (net_Mask n)).1 = l) as El.
  { unfold Mask_Size. rewrite Hm. by rewrite (proj1 (mask_facts bits l Hb Hr)). }
  destruct (Mask_Size (net_Mask n)) as [? ?]. simpl in El. subst.
  pose proof (Z.pow_pos_nonneg 2 (l' - l) ltac:(lia) ltac:(lia)) as P.
  assert (mkIPNet (net_IP n) (CIDRMask l' (8 * Z.of_nat (length (net_IP n)))) = nth_subnet n l' (Z.of_nat 0)) as ->.
  { unfold nth_subnet. by rewrite Z.mul_0_l, Z.add_0_r, number_ip_number. }
  replace (Z.to_nat (2 ^ (l' - l))) with (S (Z.to_nat (2 ^ (l' - l) - 1))) by lia. cbn [seq map]. f_equal.
  apply (nets_loop_spec n l); [done|done|lia].
Qed.

(** ** The zones of a list of networks *)

(** The first [l] bits of two addresses agree. *)
Definition same_prefix (l : Z) (x a : IP) : Prop :=
  let low := (2 ^ (8 * Z.of_nat (length a) - l))%Z in (ip_number x / low = ip_number a / low)%Z.

Definition net_zone (p : nat) (n : IPNet) : string := dotted (zone_labels (is_v4 (net_IP n)) p (ip_digits (net_IP n))).

Lemma net_zone_contains n l p a :
  subnet n l -> l = (Z.of_nat p * width_of (is_v4 (net_IP n)))%Z -> length a = length (net_IP n) -> Forall is_byte a ->
  IsSubDomain (net_zone p n) (reverse_name a) = true <-> same_prefix l (net_IP n) a.
Proof using DOk.
  intros Hn Hl Hlen Ha. pose proof (subnet_valid n l Hn) as Hv. destruct (ip_digits_ok _ Hv) as (Hd & Hnum & Hdl).
  assert (valid_ip a) as Hva by (split; [rewrite Hlen; apply Hv|done]). destruct (ip_digits_ok _ Hva) as (Hda & Hnuma & Hdla).
  destruct Hn as (bits & Hb & Hr & _ & Hbits & _).
  assert (is_v4 a = is_v4 (net_IP n)) as Ev by (unfold is_v4; by rewrite Hlen). rewrite Ev, Hlen in *.
  rewrite (reverse_name_dotted a Hva), Ev. set (v4 := is_v4 (net_IP n)) in *.
  assert (0 < width_of v4)%Z as Hw by (by destruct v4).
  assert (length (ip_digits (net_IP n)) = length (ip_digits a)) as Ell by nia.
  assert (p <= length (ip_digits a))%nat as Hp by nia.
  assert (forall q ds, Forall (is_digit (base_of v4)) ds -> zone_labels v4 q ds <> []) as Hne.
  { intros q ds _. unfold zone_labels. destruct v4; apply app_cons_not_nil || (intros [_ E]%app_eq_nil; done). }
  assert (forall q ds, Forall (is_digit (base_of v4)) ds -> fq_name (dotted (zone_labels v4 q ds))) as Hfq.
  { intros q ds Hds. right. apply valid_name_dotted; [by apply Hne|by apply zone_labels_ok]. }
  unfold net_zone. fold v4. rewrite IsSubDomain_ok by (by apply Hfq).
  rewrite !labels_dotted by (by apply Hne || by apply zone_labels_ok).
  rewrite zone_labels_suffix by done. rewrite (take_eq_num (base_of v4)) by (done || (by destruct v4) || lia).
  rewrite Hnum, Hnuma, Ell. unfold same_prefix. rewrite Hlen.
  replace (base_of v4 ^ Z.of_nat (length (ip_digits a) - p))%Z with (2 ^ (8 * Z.of_nat (length (net_IP n)) - l))%Z; [done|].
  assert (base_of v4 = 2 ^ width_of v4)%Z as -> by (by destruct v4). rewrite <- Z.pow_mul_r by lia. f_equal. nia.
Qed.

Lemma cidr_Reverse_spec l p ns :
  Forall (fun n => subnet n l /\ own_form (net_IP n) /\ l = (Z.of_nat p * width_of (is_v4 (net_IP n)))%Z) ns ->
  cidr_Reverse (map IPNet_String ns) = Some (map (net_zone p) ns).
Proof using DOk NOk.
  intros Hf. unfold cidr_Reverse. induction Hf as [|n ns (Hn & Ho & Hl) _ IH]; [done|]. cbn [map mapM].
  rewrite (reverse_zone_spec n l p) by done. cbn [mbind option_bind]. by rewrite IH.
Qed.
End reverse_zones.

(** ** Exactness *)

Lemma Contains_byte c s : strings_Contains s (String c EmptyString) = bool_decide (IndexByte c s <> None).
Proof.
  unfold strings_Contains. induction s as [|d s IH]; [done|]. cbn [strings_Index IndexByte].
  unfold HasPrefix. cbn [String.length stake]. destruct (decide (d = c)) as [-> | Hd].
  - rewrite bool_decide_eq_true_2 by done. done.
  - rewrite bool_decide_eq_false_2 by (intros [= ?]; done). destruct (strings_Index s (String c EmptyString)), (IndexByte c s);
      cbn in *; (done || (rewrite bool_decide_eq_true_2 in * by done; done) || idtac).
    all: repeat case_bool_decide; done.
Qed.

Lemma first_sep_colon s : first_sep s = Some ch_colon -> IndexByte ch_colon s <> None.
Proof.
  induction s as [|c s IH]; [done|]. simpl. case_decide as Hc.
  - intros [= ->]. by rewrite decide_True.
  - intros E. case_decide; [done|]. destruct (IndexByte ch_colon s); [done|]. by apply IH in E.
Qed.

Lemma subnet_colon n l :
  subnet n l -> own_form (net_IP n) -> strings_Contains (IPNet_String n) ":" = negb (is_v4 (net_IP n)).
Proof.
  intros Hn Ho. pose proof (subnet_valid n l Hn) as Hv. destruct (IP_String_form _ Hv Ho) as [_ Hsep].
  rewrite (subnet_String n l Hn Ho). change ":"%string with (String ch_colon EmptyString). rewrite Contains_byte.
  destruct (is_v4 (net_IP n)) eqn:E.
  - rewrite bool_decide_eq_false_2; [done|]. intros Hne. apply Hne. destruct Hn as (bits & Hb & Hr & _).
    apply IndexByte_none_app; [|apply IndexByte_none_app; [done|by apply (mask_facts bits l)]].
    unfold is_v4 in E. apply bool_decide_eq_true in E. unfold IP_String. destruct (net_IP n) as [|b ip] eqn:Ei; [done|].
    unfold To4. rewrite decide_True by done. apply IndexByte_none_Join; [done|]. apply Forall_fmap.
    destruct Hv as [_ Hby]. eapply Forall_impl; [exact Hby|]. intros d Hd. apply no_sep_free; [by apply dec_byte_ok|by right].
  - rewrite bool_decide_eq_true_2; [done|]. apply first_sep_colon in Hsep.
    destruct (IndexByte ch_colon (IP_String (net_IP n))) eqn:Ei; [|done].
    clear -Ei. revert n0 Ei. induction (IP_String (net_IP n)) as [|c s IH]; [done|]. intros n0. rewrite sapp_cons. cbn [IndexByte].
    case_decide; [done|]. destruct (IndexByte ch_colon s) as [k|]; [|done]. intros _. specialize (IH k eq_refl).
    by destruct (IndexByte ch_colon (s +:+ _)).
Qed.

(** Addresses whose first 16 bits are not all zero keep their form. *)
Lemma big_own_form ip : Forall is_byte ip -> (length ip = 16%nat -> 256 ^ 14 <= ip_number ip)%Z -> own_form ip.
Proof.
  intros Hb Hn Hl. specialize (Hn Hl). unfold To4. rewrite decide_False by lia. rewrite decide_False; [done|]. intros [_ E].
  rewrite <- (take_drop 12 ip), E, ip_number_num, num_app, length_drop, Hl in Hn by lia.
  pose proof (num_bounds 256 ltac:(lia) (drop 12 ip) (Forall_drop _ 12 _ Hb)) as Hd. rewrite length_drop, Hl in Hd.
  change (num 256 v4prefix) with 65535%Z in Hn. simpl in Hn, Hd. lia.
Qed.

(** Among the networks of [l'] bits of a network of [l], one has the first
    bits of an address exactly when the network has. *)
Lemma split_prefix n l l' a :
  subnet n l -> (l <= l' <= 8 * Z.of_nat (length (net_IP n)))%Z -> length a = length (net_IP n) ->
  (exists i, 0 <= i < 2 ^ (l' - l) /\ same_prefix l' (net_IP (nth_subnet n l' i)) a)%Z <-> same_prefix l (net_IP n) a.
Proof.
  intros Hn Hl Ha. unfold same_prefix. rewrite Ha. set (bits := (8 * Z.of_nat (length (net_IP n)))%Z) in *.
  pose proof (Z.pow_pos_nonneg 2 (bits - l') ltac:(lia) ltac:(lia)) as P1.
  pose proof (Z.pow_pos_nonneg 2 (l' - l) ltac:(lia) ltac:(lia)) as P2.
  assert (2 ^ (bits - l) = 2 ^ (bits - l') * 2 ^ (l' - l))%Z as Ep by (rewrite <- Z.pow_add_r by lia; f_equal; lia).
  pose proof Hn as (bits' & _ & Hr & _ & Hbits & _ & [q Hq]). fold bits in Hbits. subst bits'.
  set (P := (2 ^ (bits - l'))%Z) in *. set (K := (2 ^ (l' - l))%Z) in *. rewrite Ep in *.
  rewrite Hq, Z.div_mul, <- Z.div_div by nia. split.
  - intros (i & Hi & E). destruct (nth_subnet_ok n l l' i Hn Hl) as (_ & En & _); [exact Hi|].
    rewrite En in E. fold bits P in E. rewrite Hq in E.
    replace (q * (P * K) + i * P)%Z with ((q * K + i) * P)%Z in E by ring. rewrite Z.div_mul in E by lia. rewrite <- E.
    rewrite Z.div_add_l, Z.div_small by lia. lia.
  - intros E. exists (ip_number a / P - q * K)%Z. pose proof (Z.div_mod (ip_number a / P) K ltac:(lia)) as Hm. rewrite <- E in Hm.
    pose proof (Z.mod_pos_bound (ip_number a / P) K P2). assert (0 <= ip_number a / P - q * K < K)%Z as Hi by nia.
    split; [exact Hi|]. destruct (nth_subnet_ok n l l' _ Hn Hl Hi) as (_ & En & _). rewrite En. fold bits P. rewrite Hq.
    replace (q * (P * K) + (ip_number a / P - q * K) * P)%Z with ((ip_number a / P) * P)%Z by ring. by rewrite Z.div_mul by lia.
Qed.

Section exact.
Context `{DOk : DnsNamesOk} `{NOk : NetworksOk}.

(** The networks that a network is split into: of [p] whole digits, in their
    own form. *)
Lemma cidr_Split_spec n l :
  subnet n l -> (length (net_IP n) = 16%nat -> 256 ^ 14 <= ip_number (net_IP n))%Z ->
  exists l' p, (l <= l' <= 8 * Z.of_nat (length (net_IP n)))%Z /\ l' = (Z.of_nat p * width_of (is_v4 (net_IP n)))%Z /\
    cidr_Split n = map IPNet_String (map (fun j => nth_subnet n l' (Z.of_nat j)) (seq 0 (Z.to_nat (2 ^ (l' - l))))).
Proof using NOk.
  intros Hn Hbig. pose proof (subnet_valid n l Hn) as [Hv4 Hby]. assert (own_form (net_IP n)) as Ho by (by apply big_own_form).
  unfold cidr_Split. rewrite (subnet_colon n l Hn Ho).
  assert ((if negb (is_v4 (net_IP n)) then 4 else 8)%Z = width_of (is_v4 (net_IP n))) as -> by (by destruct (is_v4 (net_IP n))).
  pose proof Hn as (bits & Hb & Hr & Hm & Hbits & _).
  assert ((Mask_Size (net_Mask n)).1 = l) as El. { unfold Mask_Size. rewrite Hm. by rewrite (proj1 (mask_facts bits l Hb Hr)). }
  destruct (Mask_Size (net_Mask n)) as [ones ?]. simpl in El. subst ones. set (w := width_of (is_v4 (net_IP n))).
  assert (0 < w)%Z as Hw by (unfold w; by destruct (is_v4 (net_IP n))).
  assert (exists D, bits = D * w)%Z as [D HD].
  { exists (bits / w)%Z. unfold w. destruct Hb as [-> | ->]; by destruct (is_v4 (net_IP n)). }
  case_decide as Hmod.
  - exists l, (Z.to_nat (l / w)). apply Z.div_exact in Hmod; [|lia]. split; [lia|].
    split; [rewrite Z2Nat.id by (apply Z.div_pos; lia); lia|]. rewrite Z.sub_diag. simpl. f_equal. f_equal.
    unfold nth_subnet. rewrite Z.mul_0_l, Z.add_0_r, number_ip_number, Hbits, <- Hm by done. by destruct n.
  - set (p := ((l + w - 1) / w)%Z). exists (p * w)%Z, (Z.to_nat p).
    assert (l <= p * w)%Z. { unfold p. pose proof (Z.div_mod (l + w - 1) w ltac:(lia)). pose proof (Z.mod_pos_bound (l + w - 1) w Hw). lia. }
    assert (p <= D)%Z. { unfold p. apply Z.lt_succ_r, Z.div_lt_upper_bound; [lia|]. nia. }
    assert (0 <= p)%Z by nia. split; [nia|]. split; [by rewrite Z2Nat.id|]. by rewrite (nets_spec n l) by (done || nia).
Qed.
End exact.

(** C19 A network in CIDR notation is expanded to zones that hold the reverse
    names of exactly its addresses: the name of an address lies in one of them
    if and only if the address has the bits of the network.  The networks of
    IPv6 are those that do not start with 16 zero bits, as SplitHostPort
    demands. *)
Theorem reverse_zones_exact `{DnsNamesOk} `{NetworksOk} (n : IPNet) (l : Z) :
  subnet n l -> (length (net_IP n) = 16%nat -> 256 ^ 14 <= ip_number (net_IP n))%Z ->
  exists zones, cidr_Reverse (cidr_Split n) = Some zones /\
    forall a, length a = length (net_IP n) -> Forall is_byte a ->
    (exists z, z ∈ zones /\ IsSubDomain z (reverse_name a) = true) <-> same_prefix l (net_IP n) a.
Proof.
  intros Hn Hbig. destruct (cidr_Split_spec n l Hn Hbig) as (l' & p & Hl & Hp & ->).
  set (ns := map (fun j => nth_subnet n l' (Z.of_nat j)) (seq 0 (Z.to_nat (2 ^ (l' - l))))).
  assert (forall j, (j < Z.to_nat (2 ^ (l' - l)))%nat -> let m := nth_subnet n l' (Z.of_nat j) in
    subnet m l' /\ own_form (net_IP m) /\ l' = (Z.of_nat p * width_of (is_v4 (net_IP m)))%Z /\ length (net_IP m) = length (net_IP n)) as Hm.
  { intros j Hj m. destruct (nth_subnet_ok n l l' (Z.of_nat j) Hn Hl) as (Hs & En & El); [lia|]. fold m in Hs, En, El.
    split; [done|]. split; [|unfold is_v4; rewrite El; done]. apply big_own_form; [apply (subnet_valid m l' Hs)|].
    rewrite El. intros H16. specialize (Hbig H16). rewrite En. pose proof (Z.pow_nonneg 2 (8 * Z.of_nat (length (net_IP n)) - l')). nia. }
  exists (map (net_zone p) ns). split.
  { apply (cidr_Reverse_spec l'). apply Forall_fmap, Forall_forall. intros j [_ Hj]%elem_of_seq. destruct (Hm j Hj) as (? & ? & ? & _). done. }
  intros a Ha Hab. rewrite <- (split_prefix n l l' a Hn Hl Ha). split.
  - intros (z & Hz & Hsub). apply list_elem_of_fmap in Hz as (m & -> & Hz). apply list_elem_of_fmap in Hz as (j & -> & [_ Hj]%elem_of_seq).
    destruct (Hm j Hj) as (Hs & _ & Hp' & El). exists (Z.of_nat j). split; [lia|]. by apply (net_zone_contains _ l' p a Hs Hp'); [rewrite El|..].
  - intros (i & Hi & Hsame). assert (Z.to_nat i < Z.to_nat (2 ^ (l' - l)))%nat as Hj by lia. destruct (Hm _ Hj) as (Hs & _ & Hp' & El).
    rewrite Z2Nat.id in Hs, Hp', El by lia. exists (net_zone p (nth_subnet n l' i)). split.
    + apply list_elem_of_fmap. eexists. split; [reflexivity|]. apply list_elem_of_fmap. exists (Z.to_nat i).
      rewrite Z2Nat.id by lia. split; [done|]. apply elem_of_seq. lia.
    + by apply (net_zone_contains _ l' p a Hs Hp'); [rewrite El|..].
Qed.

(** ** Every host has zones or is refused *)

Section total.
Context `{DOk : DnsNamesOk} `{NOk : NetworksOk}.

Lemma reverse_name_valid ip : valid_ip ip -> valid_name (reverse_name ip).
Proof.
  intros Hv. rewrite reverse_name_dotted by done. destruct (ip_digits_ok ip Hv) as (Hd & _ & _).
  apply valid_name_dotted; [|by apply zone_labels_ok]. unfold zone_labels. intros [_ E]%app_eq_nil. by destruct (is_v4 ip).
Qed.

Lemma skip_labels_le k r off : valid_name r -> (off <= slen r)%nat -> (skip_labels k r off <= slen r)%nat.
Proof using DOk.
  intros Hv. revert off. induction k as [|k IH]; intros off Ho; [done|]. cbn [skip_labels].
  pose proof (NextLabel_index r off Hv Ho) as Hn. destruct (NextLabel r off) as [off' []]; [done|by apply IH].
Qed.

(** An address of 16 bytes prints as one in its own form. *)
Lemma String_own_form ip :
  length ip = 16%nat -> Forall is_byte ip -> exists ip', valid_ip ip' /\ own_form ip' /\ IP_String ip = IP_String ip'.
Proof.
  intros Hl Hb. destruct (To4 ip) as [p4|] eqn:E.
  - exists p4. unfold To4 in E. rewrite decide_False in E by lia. case_decide as Hp; [|done]. injection E as <-.
    assert (length (drop 12 ip) = 4%nat) as H4 by (rewrite length_drop; lia).
    split; [split; [by left|by apply Forall_drop]|]. split; [unfold own_form; lia|].
    unfold IP_String. destruct ip as [|b ip]; [done|]. unfold To4. rewrite decide_False by lia. rewrite decide_True by done.
    destruct (drop 12 (b :: ip)) as [|d p4]; [done|]. by rewrite decide_True by done.
  - exists ip. split; [split; [by right|done]|]. split; [by intros _|done].
Qed.

Lemma reverse_zone_total s : is_Some (reverse_zone s).
Proof using DOk NOk.
  unfold reverse_zone. destruct (ParseCIDR s) as [[ip n]|] eqn:E.
  - assert (length ip = 16%nat /\ Forall is_byte ip) as [Hl Hb].
    { unfold ParseCIDR in E. destruct (IndexByte _ _); [|done]. cbn [mbind option_bind] in E.
      destruct (ParseIP _) as [ip'|] eqn:Ei; [|done]. cbn [mbind option_bind] in E. destruct (dtoi _ _) as [[? ?]|]; [|done].
      cbn [mbind option_bind] in E. case_decide; [done|]. injection E as <- _. by apply ParseIP_bytes in Ei. }
    destruct (String_own_form ip Hl Hb) as (ip' & Hv & Ho & ->). rewrite ReverseAddr_ok by done. cbn [mbind option_bind].
    destruct (Mask_Size _) as [ones bits]. unfold slice_from. rewrite decide_True; [by eexists|].
    apply skip_labels_le; [by apply reverse_name_valid|lia].
  - rewrite ReverseAddr_fails; [by eexists|done].
Qed.

Lemma SplitHostPort_total s : is_Some (plugin_SplitHostPort s).
Proof using DOk NOk.
  unfold plugin_SplitHostPort. case_decide; [by eexists|].
  destruct (match LastIndexByte ch_colon s with None => _ | Some _ => _ end) as [s' port]. case_decide; [by eexists|].
  destruct (IsDomainName s'); [|by eexists]. destruct (ParseCIDR s') as [[ip n]|]; [|by eexists].
  destruct (_ || _)%bool; [by eexists|].
  assert (is_Some (cidr_Reverse (cidr_Split n))) as [hosts ->]; [|by eexists].
  apply mapM_is_Some, Forall_true. apply reverse_zone_total.
Qed.

Lemma NormalizeExact_total h : is_Some (NormalizeExact h).
Proof using DOk NOk.
  unfold NormalizeExact. destruct (Transport h) as [t s]. destruct (SplitHostPort_total s) as [res ->]. by eexists.
Qed.

(** Keys of a server block that stand for a zone. *)
Definition keys_ok (keys : list string) : Prop := Forall (fun k => exists z zs, NormalizeExact k = Some (z :: zs)) keys.

Lemma Origins_total args keys : keys_ok keys -> is_Some (OriginsFromArgsOrServerBlock args keys).
Proof using DOk NOk.
  intros Hk. unfold OriginsFromArgsOrServerBlock. case_decide.
  - apply mapM_is_Some. eapply Forall_impl; [exact Hk|]. intros k (z & zs & E). exists z. by rewrite E.
  - apply fmap_is_Some, mapM_is_Some, Forall_true. apply NormalizeExact_total.
Qed.
End total.

(** ** A concrete implementation *)

Definition networks_reference : Networks := {|
  NextSubnet := next_subnet;
  ReverseAddr := fun s => ip ← ParseIP s; Some (reverse_name (default ip (To4 ip)))
|}.

Definition networks_reference_ok : @NetworksOk networks_reference.
Proof.
  constructor; [done| |intros s; simpl; by intros ->]. intros ip Hv Ho. pose proof Hv as [Hl Hb]. simpl. rewrite ParseIP_String by done. destruct Hl as [H4|H16].
  - destruct (To16 ip) as [ip16|] eqn:E; [|unfold To16 in E; by rewrite decide_True in E].
    pose proof (To4_To16 ip H4) as E4. rewrite E in E4. cbn [mbind option_bind] in *. by rewrite E4.
  - unfold To16. rewrite decide_False, decide_True by lia. cbn [mbind option_bind]. by rewrite (Ho H16).
Qed.

(** 192.168.2.0/23: two networks of 24 bits. *)
Definition example_net : IPNet := mkIPNet [192; 168; 2; 0]%Z (CIDRMask 23 32).

Lemma reverse_zones_exact_witness :
  exists zones, @cidr_Reverse networks_reference dns_reference (@cidr_Split networks_reference example_net) = Some zones /\
    forall a, length a = 4%nat -> Forall is_byte a ->
    (exists z, z ∈ zones /\ @IsSubDomain dns_reference z (reverse_name a) = true) <-> same_prefix 23 [192; 168; 2; 0]%Z a.
Proof.
  apply (@reverse_zones_exact dns_reference dns_reference_ok networks_reference networks_reference_ok example_net 23).
  - exists 32%Z. split; [by left|]. split; [lia|]. split; [done|]. split; [done|]. split; [decided|]. by exists (192 * 2 ^ 15 + 168 * 2 ^ 7 + 1)%Z.
  - discriminate.
Defined.

#[local] Existing Instance dns_reference.
#[local] Existing Instance networks_reference.

Example normalize_network :
  NormalizeExact "192.168.2.0/23" = Some ["2.168.192.in-addr.arpa."; "3.168.192.in-addr.arpa."]%string /\
  NormalizeExact "tls://Example.ORG:8053" = Some ["example.org."]%string /\
  NormalizeExact "2001:db8::/34" =
    Some ["0.8.b.d.0.1.0.0.2.ip6.arpa."; "1.8.b.d.0.1.0.0.2.ip6.arpa."; "2.8.b.d.0.1.0.0.2.ip6.arpa."; "3.8.b.d.0.1.0.0.2.ip6.arpa."]%string.
Proof. vm_compute. repeat split. Qed.
