(* ===== verification/Caddy.v ===== *)
(** * Reading the configuration

    The controller of github.com/coredns/caddy that hands the tokens of a
    directive to the set-up function of its plugin, as an interface; the monad
    the set-up functions are written in; and what it means that a set-up
    function always ends with a configuration or an error. *)

From S2P Require Import Prelude.
From S2P Require Import GoStd.
From S2P Require Import GoText.
From S2P Require Import GoTime.

(** ** The interface *)

(** [c_tokens] are the tokens that are not loaded yet; the code does not read
    them, their number bounds the loops. *)
Class Caddy := {
  Controller : Type;
  c_Next : Controller -> bool * Controller;
  c_NextArg : Controller -> bool * Controller;
  c_NextBlock : Controller -> bool * Controller;
  c_RemainingArgs : Controller -> list string * Controller;
  c_Val : Controller -> string;
  c_ServerBlockKeys : Controller -> list string;
  c_ArgErr : Controller -> string;
  c_Errf : Controller -> string -> string;
  c_tokens : Controller -> list string
}.

(** Documented behaviour: Next "loads the next token. Returns true if a token
    was loaded; false otherwise"; NextArg "loads the next token if it is on the
    same line. Returns true if a token was loaded; false otherwise"; NextBlock
    "returns true if a token was loaded, or false when the block's closing
    curly brace was loaded and thus the block ended"; RemainingArgs "loads any
    more arguments (tokens on the same line) into a slice and returns them". *)
Definition loaded_one (before after : list string) (b : bool) : Prop :=
  after `suffix_of` before /\ (b = true -> length after < length before)%nat.

Class CaddyOk `{Caddy} : Prop := {
  Next_tokens c b c' : c_Next c = (b, c') -> loaded_one (c_tokens c) (c_tokens c') b;
  NextArg_tokens c b c' : c_NextArg c = (b, c') -> loaded_one (c_tokens c) (c_tokens c') b;
  NextBlock_tokens c b c' : c_NextBlock c = (b, c') -> loaded_one (c_tokens c) (c_tokens c') b;
  RemainingArgs_tokens c args c' : c_RemainingArgs c = (args, c') -> c_tokens c = args ++ c_tokens c'
}.

(** ** Set-up functions *)

Section setup.
Context `{Caddy}.

(** A value and the controller after it, or an error; [None] is a panic. *)
Definition cfg (A : Type) : Type := Controller -> option ((A * Controller) + string).

#[export] Instance cfg_ret : MRet cfg := fun A a c => Some (inl (a, c)).
#[export] Instance cfg_bind : MBind cfg := fun A B k m c =>
  match m c with
  | None => None
  | Some (inr err) => Some (inr err)
  | Some (inl (a, c)) => k a c
  end.

Definition c_next : cfg bool := fun c => Some (inl (c_Next c)).
Definition c_nextArg : cfg bool := fun c => Some (inl (c_NextArg c)).
Definition c_nextBlock : cfg bool := fun c => Some (inl (c_NextBlock c)).
Definition c_val : cfg string := fun c => Some (inl (c_Val c, c)).
Definition c_args : cfg (list string) := fun c => Some (inl (c_RemainingArgs c)).
Definition c_keys : cfg (list string) := fun c => Some (inl (c_ServerBlockKeys c, c)).

Definition c_fail {A} (err : string) : cfg A := fun _ => Some (inr err).
(** An error with the place in the file. *)
Definition c_errf {A} (err : string) : cfg A := fun c => Some (inr (c_Errf c err)).
Definition c_argErr {A} : cfg A := fun c => Some (inr (c_ArgErr c)).
(** A panic, or what another function gives. *)
Definition c_lift {A} (o : option A) : cfg A := fun c => a ← o; Some (inl (a, c)).
Definition c_try {A} (r : A + string) : cfg A := match r with inl a => mret a | inr err => c_fail err end.

(** A loop takes a token in every turn. *)
Fixpoint c_loop {S} (fuel : nat) (cond : cfg bool) (body : S -> cfg S) (s : S) : cfg S :=
  match fuel with
  | O => fun _ => None
  | Datatypes.S fuel' => b ← cond; if b : bool then s ← body s; c_loop fuel' cond body s else mret s
  end.
Definition c_while {S} (cond : cfg bool) (body : S -> cfg S) (s : S) : cfg S :=
  fun c => c_loop (Datatypes.S (length (c_tokens c))) cond body s c.

(** A loop that stops with the first result. *)
Fixpoint c_loop_until {A} (fuel : nat) (cond : cfg bool) (body : cfg (option A)) : cfg (option A) :=
  match fuel with
  | O => fun _ => None
  | Datatypes.S fuel' =>
      b ← cond;
      if b : bool then r ← body; match r with Some a => mret (Some a) | None => c_loop_until fuel' cond body end else mret None
  end.
Definition c_until {A} (cond : cfg bool) (body : cfg (option A)) : cfg (option A) :=
  fun c => c_loop_until (Datatypes.S (length (c_tokens c))) cond body c.

(** ** Set-up functions that end *)

(** The function ends, without taking tokens back, and its result has the
    property; the tokens are ones with [P]. *)
Definition ends {A} (P : string -> Prop) (m : cfg A) (Q : A -> Prop) : Prop :=
  forall c, Forall P (c_tokens c) ->
    match m c with
    | None => False
    | Some (inr _) => True
    | Some (inl (a, c')) => c_tokens c' `suffix_of` c_tokens c /\ Q a
    end.

Context (P : string -> Prop).

Lemma suffix_Forall (l k : list string) : l `suffix_of` k -> Forall P k -> Forall P l.
Proof. intros [pre ->] Hf. by apply Forall_app in Hf as [_ Hf]. Qed.

Lemma ends_ret {A} (a : A) (Q : A -> Prop) : Q a -> ends P (mret a) Q.
Proof. intros Ha c _. by split. Qed.

Lemma ends_bind {A B} (m : cfg A) (k : A -> cfg B) (I : A -> Prop) (Q : B -> Prop) :
  ends P m I -> (forall a, I a -> ends P (k a) Q) -> ends P (m ≫= k) Q.
Proof.
  intros Hm Hk c Hc. specialize (Hm c Hc). unfold mbind, cfg_bind. destruct (m c) as [[[a c']|err]|]; [|done|done].
  destruct Hm as [Hl Ha]. specialize (Hk a Ha c' (suffix_Forall _ _ Hl Hc)). destruct (k a c') as [[[b c'']|err]|]; [|done|done].
  destruct Hk as [Hl' Hb]. split; [by etrans|done].
Qed.

Lemma ends_mono {A} (m : cfg A) (I Q : A -> Prop) : ends P m I -> (forall a, I a -> Q a) -> ends P m Q.
Proof. intros Hm Hi c Hc. specialize (Hm c Hc). destruct (m c) as [[[a c']|err]|]; [|done|done]. destruct Hm. auto. Qed.

Lemma ends_fail {A} err (Q : A -> Prop) : ends P (c_fail err) Q.
Proof. done. Qed.

Lemma ends_errf {A} err (Q : A -> Prop) : ends P (c_errf err) Q.
Proof. done. Qed.

Lemma ends_argErr {A} (Q : A -> Prop) : ends P c_argErr Q.
Proof. done. Qed.

Lemma ends_val : ends P c_val (fun _ => True).
Proof. intros c _. by split. Qed.

Lemma ends_lift {A} (o : option A) (Q : A -> Prop) : (exists a, o = Some a /\ Q a) -> ends P (c_lift o) Q.
Proof. intros (a & -> & Ha) c _. by split. Qed.

Lemma ends_try {A} (r : A + string) (Q : A -> Prop) : (forall a, r = inl a -> Q a) -> ends P (c_try r) Q.
Proof. destruct r as [a|err]; intros Ha; [by apply ends_ret, Ha|done]. Qed.

Lemma ends_try_bind {A B} (r : A + string) (k : A -> cfg B) (Q : B -> Prop) :
  (forall a, r = inl a -> ends P (k a) Q) -> ends P (c_try r ≫= k) Q.
Proof. intros Hk. apply (ends_bind _ _ (fun a => r = inl a)); [by apply ends_try|done]. Qed.
End setup.

Section caddy_ends.
Context `{COk : CaddyOk} (P : string -> Prop).

Lemma ends_keys (Q : list string -> Prop) : (forall c, Q (c_ServerBlockKeys c)) -> ends P c_keys Q.
Proof. intros HQ c _. split; [done|apply HQ]. Qed.

(** A condition that takes a token when it holds. *)
Definition takes (cond : cfg bool) : Prop :=
  forall c, exists b c', cond c = Some (inl (b, c')) /\ loaded_one (c_tokens c) (c_tokens c') b.

Lemma takes_next : takes c_next.
Proof using COk. intros c. unfold c_next. destruct (c_Next c) as [b c'] eqn:E. exists b, c'. split; [done|]. by apply Next_tokens in E. Qed.

Lemma takes_nextArg : takes c_nextArg.
Proof using COk. intros c. unfold c_nextArg. destruct (c_NextArg c) as [b c'] eqn:E. exists b, c'. split; [done|]. by apply NextArg_tokens in E. Qed.

Lemma takes_nextBlock : takes c_nextBlock.
Proof using COk. intros c. unfold c_nextBlock. destruct (c_NextBlock c) as [b c'] eqn:E. exists b, c'. split; [done|]. by apply NextBlock_tokens in E. Qed.

Lemma ends_takes cond : takes cond -> ends P cond (fun _ => True).
Proof. intros Ht c _. destruct (Ht c) as (b & c' & -> & Hs & _). by split. Qed.

Lemma ends_args : ends P c_args (Forall P).
Proof using COk.
  intros c Hc. unfold c_args. destruct (c_RemainingArgs c) as [args c'] eqn:E. apply RemainingArgs_tokens in E. rewrite E in Hc |- *.
  apply Forall_app in Hc as [Ha _]. split; [by exists args|done].
Qed.

(** A loop whose body keeps an invariant ends with it. *)
Lemma ends_while {S} (cond : cfg bool) (body : S -> cfg S) (I : S -> Prop) (s : S) :
  takes cond -> (forall s, I s -> ends P (body s) I) -> I s -> ends P (c_while cond body s) I.
Proof.
  intros Ht Hb Hs c Hc. unfold c_while. assert (length (c_tokens c) < Datatypes.S (length (c_tokens c)))%nat as Hf by lia. revert Hf.
  generalize (Datatypes.S (length (c_tokens c))) as fuel. intros fuel. revert c s Hs Hc.
  induction fuel as [|fuel IH]; intros c s Hs Hc Hf; [lia|].
  cbn [c_loop]. unfold mbind at 1, cfg_bind at 1. destruct (Ht c) as (b & c1 & -> & Hl & Hlt). destruct b; [|by split].
  specialize (Hlt eq_refl). assert (Forall P (c_tokens c1)) as Hc1 by by eapply suffix_Forall.
  unfold mbind, cfg_bind. specialize (Hb s Hs c1 Hc1). destruct (body s c1) as [[[s' c2]|err]|]; [|done|done].
  destruct Hb as [Hl2 Hs']. pose proof (suffix_length _ _ Hl2). specialize (IH c2 s' Hs' (suffix_Forall _ _ _ Hl2 Hc1) ltac:(lia)).
  destruct (c_loop fuel cond body s' c2) as [[[s'' c3]|err]|]; [|done|done].
  destruct IH as [Hl3 Hs'']. split; [|done]. by do 2 (etrans; [eassumption|]).
Qed.

Lemma ends_until {A} (cond : cfg bool) (body : cfg (option A)) (Q : A -> Prop) :
  takes cond -> ends P body (fun r => match r with Some a => Q a | None => True end) ->
  ends P (c_until cond body) (fun r => match r with Some a => Q a | None => True end).
Proof.
  intros Ht Hb c Hc. unfold c_until. assert (length (c_tokens c) < Datatypes.S (length (c_tokens c)))%nat as Hf by lia. revert Hf.
  generalize (Datatypes.S (length (c_tokens c))) as fuel. intros fuel. revert c Hc. induction fuel as [|fuel IH]; intros c Hc Hf; [lia|].
  cbn [c_loop_until]. unfold mbind at 1, cfg_bind at 1. destruct (Ht c) as (b & c1 & -> & Hl & Hlt). destruct b; [|by split].
  specialize (Hlt eq_refl). assert (Forall P (c_tokens c1)) as Hc1 by by eapply suffix_Forall.
  unfold mbind, cfg_bind. specialize (Hb c1 Hc1). destruct (body c1) as [[[[a|] c2]|err]|]; [| |done|done]; destruct Hb as [Hl2 Ha].
  - split; [by etrans|done].
  - pose proof (suffix_length _ _ Hl2). specialize (IH c2 (suffix_Forall _ _ _ Hl2 Hc1) ltac:(lia)).
    destruct (c_loop_until fuel cond body c2) as [[[r c3]|err]|]; [|done|done].
    destruct IH as [Hl3 Hr]. split; [|done]. by do 2 (etrans; [eassumption|]).
Qed.
End caddy_ends.

Create HintDb caddy.
#[export] Hint Resolve ends_fail ends_errf ends_argErr ends_val ends_args : caddy.
#[export] Hint Resolve takes_next takes_nextArg takes_nextBlock ends_takes : caddy.

(** One step of a set-up function. *)
Ltac c_step :=
  match goal with
  | |- ends _ (mbind _ c_next) _ => eapply ends_bind; [apply ends_takes, takes_next|intros ? _]
  | |- ends _ (mbind _ c_nextArg) _ => eapply ends_bind; [apply ends_takes, takes_nextArg|intros ? _]
  | |- ends _ (mbind _ c_nextBlock) _ => eapply ends_bind; [apply ends_takes, takes_nextBlock|intros ? _]
  | |- ends _ (mbind _ c_val) _ => eapply ends_bind; [apply ends_val|intros ? _]
  | |- ends _ (mbind _ c_args) _ => eapply ends_bind; [apply ends_args|intros ? ?]
  | |- ends _ (mbind _ (c_try _)) _ => apply ends_try_bind; intros ? ?
  | |- ends _ (c_fail _) _ => apply ends_fail
  | |- ends _ (c_errf _) _ => apply ends_errf
  | |- ends _ c_argErr _ => apply ends_argErr
  | |- ends _ (mbind _ (c_fail _)) _ => eapply (ends_bind _ _ _ (fun _ => True)); [apply ends_fail|intros ? _]
  | |- ends _ (mbind _ (c_errf _)) _ => eapply (ends_bind _ _ _ (fun _ => True)); [apply ends_errf|intros ? _]
  | |- ends _ (mbind _ c_argErr) _ => eapply (ends_bind _ _ _ (fun _ => True)); [apply ends_argErr|intros ? _]
  end.

(** ** A concrete implementation *)

(** A token with its line. *)
Record Token := mkToken { tLine : nat; tText : string }.

(** The token that is loaded, those behind it, and whether a block is open. *)
Record Dispenser := mkDispenser { dCur : option Token; dRest : list Token; dNesting : bool }.

Definition d_load (t : Token) (ts : list Token) (d : Dispenser) : Dispenser := mkDispenser (Some t) ts (dNesting d).
Definition d_Val (d : Dispenser) : string := match dCur d with Some t => tText t | None => EmptyString end.

Definition d_Next (d : Dispenser) : bool * Dispenser :=
  match dRest d with [] => (false, d) | t :: ts => (true, d_load t ts d) end.

Definition d_NextArg (d : Dispenser) : bool * Dispenser :=
  match dRest d with
  | [] => (false, d)
  | t :: ts =>
      match dCur d with
      | None => (true, d_load t ts d)
      | Some cur => if decide (tLine cur = tLine t) then (true, d_load t ts d) else (false, d)
      end
  end.

Definition d_nest (b : bool) (d : Dispenser) : Dispenser := mkDispenser (dCur d) (dRest d) b.

(** A block opens with a brace on the line. *)
Definition d_NextBlock (d : Dispenser) : bool * Dispenser :=
  if dNesting d then
    let '(ok, d1) := d_Next d in
    if decide (d_Val d1 = "}") then (false, d_nest false d1) else (ok, d1)
  else
    let '(ok, d1) := d_NextArg d in
    if ok : bool then
      if decide (d_Val d1 = "{") then
        let '(ok, d2) := d_Next d1 in
        if decide (d_Val d2 = "}") then (false, d2) else (ok, d_nest true d2)
      else (false, d)
    else (false, d1).

Definition same_line (cur : option Token) (t : Token) : bool :=
  match cur with Some c => bool_decide (tLine c = tLine t) | None => true end.

Fixpoint d_line (cur : option Token) (ts : list Token) : list string * option Token * list Token :=
  match ts with
  | [] => ([], cur, ts)
  | t :: ts' =>
      if (same_line cur t && bool_decide (tText t <> "{"))%bool
      then let '(args, cur', rest) := d_line (Some t) ts' in (tText t :: args, cur', rest)
      else ([], cur, ts)
  end.

Definition d_RemainingArgs (d : Dispenser) : list string * Dispenser :=
  let '(args, cur, rest) := d_line (dCur d) (dRest d) in (args, mkDispenser cur rest (dNesting d)).

(** The keys of the server block are the same for every token. *)
Definition caddy_reference (keys : list string) : Caddy := {|
  Controller := Dispenser;
  c_Next := d_Next;
  c_NextArg := d_NextArg;
  c_NextBlock := d_NextBlock;
  c_RemainingArgs := d_RemainingArgs;
  c_Val := d_Val;
  c_ServerBlockKeys := fun _ => keys;
  c_ArgErr := fun d => "Wrong argument count or unexpected line ending after '" +:+ d_Val d +:+ "'";
  c_Errf := fun _ err => "Parse error: " +:+ err;
  c_tokens := fun d => map tText (dRest d)
|}.

Definition d_tokens (d : Dispenser) : list string := map tText (dRest d).

Lemma d_Next_tokens d b d' : d_Next d = (b, d') -> loaded_one (d_tokens d) (d_tokens d') b.
Proof.
  unfold d_Next, loaded_one, d_tokens. destruct (dRest d) as [|t ts] eqn:E; intros [= <- <-]; [by rewrite E|].
  split; [by exists [tText t]|simpl; lia].
Qed.

Lemma d_NextArg_tokens d b d' : d_NextArg d = (b, d') -> loaded_one (d_tokens d) (d_tokens d') b.
Proof.
  unfold d_NextArg, loaded_one, d_tokens. destruct (dRest d) as [|t ts] eqn:E; [intros [= <- <-]; by rewrite E|].
  destruct (dCur d); [case_decide|]; intros [= <- <-]; rewrite ?E; (split; [first [by exists [tText t]|by exists []]|simpl; by try lia]).
Qed.

Lemma d_line_tokens cur ts args cur' rest : d_line cur ts = (args, cur', rest) -> map tText ts = args ++ map tText rest.
Proof.
  revert cur args. induction ts as [|t ts IH]; intros cur args; simpl; [by intros [= <- <- <-]|].
  destruct (_ && _)%bool; [|by intros [= <- <- <-]].
  destruct (d_line (Some t) ts) as [[a c'] r] eqn:E. intros [= <- <- <-]. apply IH in E. simpl. by rewrite E.
Qed.

Lemma loaded_one_trans l1 l2 l3 b b' : loaded_one l1 l2 true -> loaded_one l2 l3 b -> loaded_one l1 l3 b'.
Proof.
  intros [H12 L12] [H23 _]. split; [by etrans|]. intros _. apply suffix_length in H23. specialize (L12 eq_refl). lia.
Qed.

Definition caddy_reference_ok keys : @CaddyOk (caddy_reference keys).
Proof.
  constructor; simpl; intros c; fold (d_tokens c).
  - apply d_Next_tokens.
  - apply d_NextArg_tokens.
  - intros b c'. fold (d_tokens c'). unfold d_NextBlock. destruct (dNesting c).
    + destruct (d_Next c) as [ok d1] eqn:E. apply d_Next_tokens in E. case_decide; intros [= <- <-]; [by destruct E|done].
    + destruct (d_NextArg c) as [ok d1] eqn:E. apply d_NextArg_tokens in E. destruct ok; [|by intros [= <- <-]].
      case_decide; [|by intros [= <- <-]]. destruct (d_Next d1) as [ok d2] eqn:E2. apply d_Next_tokens in E2.
      case_decide; intros [= <- <-]; by apply (loaded_one_trans _ _ _ _ _ E E2).
  - intros args c'. unfold d_RemainingArgs. destruct (d_line (dCur c) (dRest c)) as [[a cur] rest] eqn:E. intros [= <- <-].
    by apply d_line_tokens in E.
Qed.

(** The tokens of a text, line by line. *)
Fixpoint tokens_from (line : nat) (lines : list (list string)) : list Token :=
  match lines with
  | [] => []
  | l :: lines' => map (mkToken line) l ++ tokens_from (S line) lines'
  end.
Definition corefile (lines : list (list string)) : Dispenser := mkDispenser None (tokens_from 1 lines) false.
