(* ===== verification/Service.v ===== *)
(** * Services

    plugin/etcd/msg: the service definitions of a backend, the records made
    from them, and the keys they live under. *)

From S2P Require Import Prelude.
From S2P Require Import GoStd.
From S2P Require Import GoNet.
From S2P Require Import DnsNames.
From S2P Require Import DnsMsg.
From S2P Require Import DnsUtil.

Record Service := mkService {
  Host : string;
  sPort : Z;
  sPriority : Z;
  sWeight : Z;
  Text : string;
  Mail : bool;
  sTTL : Z;
  TargetStrip : Z;
  sGroup : string;
  Key : string
}.

#[export] Instance Service_eq_dec : EqDecision Service.
Proof. solve_decision. Defined.

Definition set_Host (h : string) (s : Service) : Service :=
  mkService h (sPort s) (sPriority s) (sWeight s) (Text s) (Mail s) (sTTL s) (TargetStrip s) (sGroup s) (Key s).

(** The type of what the Host field holds, and the address if it is one. *)
Definition HostType (s : Service) : Z * IP :=
  match ParseIP (Host s) with
  | None => if decide (Text s = EmptyString) then (TypeCNAME, []) else (TypeTXT, [])
  | Some ip =>
      match To4 ip with
      | Some ip4 => (TypeA, ip4)
      | None => (TypeAAAA, default [] (To16 ip))
      end
  end.

(** ** Texts *)

(** The loop of [split255], from [s[p:]] on. *)
Fixpoint split255_loop (fuel : nat) (s : string) : list string :=
  match fuel with
  | O => []
  | S fuel' =>
      if decide (255 <= slen s)%nat then stake 255 s :: split255_loop fuel' (sdrop 255 s) else [s]
  end.

Definition split255 (s : string) : list string :=
  if decide (slen s < 255)%nat then [s] else split255_loop (S (slen s)) s.

(** ** Groups *)

Definition Count_slash (s : string) : nat := length (filter (fun c => c = ch_slash) (bytes_of s)).

(** The first loop of [Group]: the group, its depth, and the depths seen.  It
    stops early at a service higher up that has no group. *)
Fixpoint group_scan (sx : list Service) (slashes : nat) (group : string) : nat * string * list nat :=
  match sx with
  | [] => (slashes, group, [])
  | s :: sx' =>
      let x := Count_slash (Key s) in
      if decide (x < slashes)%nat then
        if decide (sGroup s = EmptyString) then (slashes, group, [x])
        else let '(sl, g, ls) := group_scan sx' x (sGroup s) in (sl, g, x :: ls)
      else let '(sl, g, ls) := group_scan sx' slashes group in (sl, g, x :: ls)
  end.

(** The second loop; [None] is a disagreement.  The depths that the first loop
    did not get to are 0. *)
Fixpoint group_pick (sx : list Service) (ls : list nat) (slashes : nat) (group : string) : option (list Service) :=
  match sx with
  | [] => Some []
  | s :: sx' =>
      let rest := group_pick sx' (tail ls) slashes group in
      if decide (sGroup s = EmptyString) then cons s <$> rest
      else if decide (default 0%nat (head ls) = slashes /\ sGroup s <> group) then None
      else if decide (sGroup s = group) then cons s <$> rest
      else rest
  end.

Definition Group (sx : list Service) : list Service :=
  match sx with
  | [] => []
  | s0 :: _ =>
      let '(slashes, group, ls) := group_scan sx (Count_slash (Key s0)) (sGroup s0) in
      if decide (group = EmptyString) then sx else default sx (group_pick sx ls slashes group)
  end.

(** ** Keys *)

(** [path.Join]: leading empty elements are left out. *)
Fixpoint path_Join (elems : list string) : string :=
  match elems with
  | [] => EmptyString
  | e :: elems' => if decide (e = EmptyString) then path_Join elems' else Clean (strings_Join elems "/")
  end.

Section names.
Context `{DnsNames}.

(** The loop of [targetStrip]. *)
Fixpoint strip_offset (n : nat) (name : string) (offset : nat) (end_ : bool) : nat * bool :=
  match n with
  | O => (offset, end_)
  | S n' => let '(offset, end_) := NextLabel name offset in strip_offset n' name offset end_
  end.

Definition targetStrip (name : string) (n : Z) : option string :=
  let '(offset, end_) := strip_offset (Z.to_nat n) name 0 false in
  slice_from name (if (end_ : bool) then 0%nat else offset).

(** The name of the target, with labels stripped when asked to. *)
Definition target_host (s : Service) : option string :=
  let host := Fqdn (Host s) in
  if decide (0 < TargetStrip s)%Z then targetStrip host (TargetStrip s) else Some host.

Definition NewSRV (s : Service) (name : string) (weight : Z) : option RR :=
  host ← target_host s;
  Some (mkRR name TypeSRV ClassINET (sTTL s) (SRV (u16 (sPriority s)) weight (u16 (sPort s)) host)).

Definition NewMX (s : Service) (name : string) : option RR :=
  host ← target_host s;
  Some (mkRR name TypeMX ClassINET (sTTL s) (MX (u16 (sPriority s)) host)).

Definition NewNS (s : Service) (name : string) : option RR :=
  host ← target_host s;
  Some (mkRR name TypeNS ClassINET (sTTL s) (NS host)).

Definition NewA (s : Service) (name : string) (ip : IP) : RR := mkRR name TypeA ClassINET (sTTL s) (A ip).
Definition NewAAAA (s : Service) (name : string) (ip : IP) : RR := mkRR name TypeAAAA ClassINET (sTTL s) (AAAA ip).
Definition NewCNAME (s : Service) (name target : string) : RR :=
  mkRR name TypeCNAME ClassINET (sTTL s) (CNAME (Fqdn target)).
Definition NewTXT (s : Service) (name : string) : RR :=
  mkRR name TypeTXT ClassINET (sTTL s) (TXT (split255 (Text s))).
Definition NewPTR (s : Service) (name target : string) : RR :=
  mkRR name TypePTR ClassINET (sTTL s) (PTR (Fqdn target)).

(** The loop that swaps the ends inwards reverses the labels. *)
Definition Path (s prefix : string) : string :=
  path_Join (("/" +:+ prefix +:+ "/") :: rev (SplitDomainName s)).

(** Everything after the first element is reversed and then loses its last,
    which was the prefix; [None] is an index out of range. *)
Definition Domain (s : string) : option string :=
  let l := strings_Split ch_slash s in
  let l := if decide (last l = Some EmptyString) then removelast l else l in
  match l with
  | [] | [_] => None
  | _ :: rest => Join (removelast (rev rest))
  end.

Definition is_star (k : string) : bool := bool_decide (k = "*"%string \/ k = "any"%string).

Fixpoint before_star (l : list string) : list string * bool :=
  match l with
  | [] => ([], false)
  | k :: l' => if is_star k then ([], true) else let '(b, star) := before_star l' in (k :: b, star)
  end.

Definition PathWithWildcard (s prefix : string) : string * bool :=
  let '(l, star) := before_star (rev (SplitDomainName s)) in
  (path_Join (("/" +:+ prefix +:+ "/") :: l), star).
End names.
