(* ===== verification/Backend.v ===== *)
(** * Lookups in a service backend

    plugin/backend.go and plugin/backend_lookup.go: the interface between the
    lookups and a backend that holds services (etcd, Kubernetes), and the
    records of each type made from the services. *)

From Stdlib Require Import SpecFloat.
From S2P Require Import Prelude.
From S2P Require Import GoStd.
From S2P Require Import GoFloat.
From S2P Require Import GoNet.
From S2P Require Import DnsNames.
From S2P Require Import DnsMsg.
From S2P Require Import DnsUtil.
From S2P Require Import Request.
From S2P Require Import Plugin.
From S2P Require Import Service.

(** The interface; a left value is an error. *)
Record ServiceBackend (W : Type) := mkBackend {
  Services : Ctx -> Request -> bool -> st W (string + list Service);
  Reverse : Ctx -> Request -> bool -> st W (string + list Service);
  bLookup : Ctx -> Request -> string -> Z -> st W (string + option Msg);
  IsNameError : string -> bool;
  bSerial : Request -> st W Z;
  bMinTTL : Request -> Z
}.
Arguments Services {W}. Arguments Reverse {W}. Arguments bLookup {W}. Arguments IsNameError {W}.
Arguments bSerial {W}. Arguments bMinTTL {W}.

(** Assigning to [state.Req.Question[0].Name]; the message is shared with
    everyone who has the request. *)
Definition rename (n : string) (state : Request) : option Request :=
  m ← Req state;
  match mQuestion m with
  | [] => None
  | q :: qs => Some (set_Req (set_mQuestion (mkQuestion n (qType q) (qClass q) :: qs) m) state)
  end.

(** What a handler's switch over the types gives: an error, or the records, the
    additional ones, and whether they are truncated. *)
Definition Looked : Type := string + (list RR * list RR * bool).

Definition looked_list (r : string + list RR) : Looked :=
  match r with inl err => inl err | inr rs => inr (rs, [], false) end.
Definition looked_both (r : string + (list RR * list RR)) : Looked :=
  match r with inl err => inl err | inr (rs, ex) => inr (rs, ex, false) end.
Definition looked_addrs (r : string + (list RR * bool)) : Looked :=
  match r with inl err => inl err | inr (rs, tc) => inr (rs, [], tc) end.
Definition looked_error (r : string + (list RR * bool)) : Looked :=
  match r with inl err => inl err | inr _ => inr ([], [], false) end.

(** The three lookups that follow CNAMEs have one shape. *)
Inductive Kind := kA | kAAAA | kTXT.

Section backend.
Context `{DnsNames} `{DnsMsgs} {W : Type} (b : ServiceBackend W) (ctx : Ctx) (zone : string).

(** The request comes back with the question it has afterwards, whose name is
    the printed form of the one it had. *)
Definition checkForApex (state : Request) : st W (Request * (string + list Service)) :=
  let '(state1, name) := Name state in
  if decide (name <> zone) then r ← Services b ctx state1 false; mret (state, r)
  else
    let old := QName state1 in
    apex ← of_option (Join ["apex.dns"%string; zone]);
    state2 ← of_option (rename apex (Clear state1));
    r ← Services b ctx state2 false;
    state3 ← of_option (rename old state2);
    caller ← of_option (m ← Req state3; Some (set_Req m state));
    match r with
    | inr services => mret (caller, inr services)
    | inl _ => r ← Services b ctx state3 false; mret (caller, r)
    end.

(** The record a service gives directly, with what it is known by among the
    duplicates. *)
Definition own_record (k : Kind) (serv : Service) (qname : string) : option (string * RR) :=
  let '(what, ip) := HostType serv in
  match k with
  | kA => if decide (what = TypeA) then Some (Host serv, NewA serv qname ip) else None
  | kAAAA => if decide (what = TypeAAAA) then Some (Host serv, NewAAAA serv qname ip) else None
  | kTXT => if decide (what = TypeTXT) then Some (Text serv, NewTXT serv qname) else None
  end.

(** The case of a CNAME: the records it adds, and whether they are truncated.
    [rec] looks the target up in the zone. *)
Definition follow (rec : Request -> list RR -> st W (string + (list RR * bool))) (k : Kind) (state : Request)
    (previousRecords : list RR) (serv : Service) : st W (list RR * bool) :=
  let '(state, name) := Name state in
  if Name_Matches name (Fqdn (Host serv)) then mret ([], false)
  else
    let newRecord := NewCNAME serv (QName state) (Host serv) in
    if decide (7 < length previousRecords)%nat then mret ([], false)
    else if DuplicateCNAME newRecord previousRecords then mret ([], false)
    else if IsSubDomain zone (Fqdn (Host serv)) then
      state1 ← of_option (NewWithQuestion state (Host serv) (QType state));
      r ← rec (set_rZone zone state1) (previousRecords ++ [newRecord]);
      match r with
      | inl _ => mret ([], false)
      | inr (nextRecords, tc) => mret (match nextRecords with [] => [] | _ => newRecord :: nextRecords end, tc)
      end
    else
      r ← bLookup b ctx state (Fqdn (Host serv)) (QType state);
      match r with
      | inl _ => mret ([], false)
      | inr None => panic
      | inr (Some m1) =>
          mret (newRecord :: mAnswer m1, match k with kTXT => false | _ => mTruncated m1 end)
      end.

Fixpoint rr_loop (rec : Request -> list RR -> st W (string + (list RR * bool))) (k : Kind) (state : Request)
    (previousRecords : list RR) (dup : gset string) (services : list Service) (records : list RR) (truncated : bool)
  : st W (list RR * bool) :=
  match services with
  | [] => mret (records, truncated)
  | serv :: services' =>
      if decide ((HostType serv).1 = TypeCNAME) then
        '(rs, tc) ← follow rec k state previousRecords serv;
        rr_loop rec k state previousRecords dup services' (records ++ rs) (truncated || tc)
      else
        match own_record k serv (QName state) with
        | Some (key, r) =>
            if decide (key ∈ dup) then rr_loop rec k state previousRecords dup services' records truncated
            else rr_loop rec k state previousRecords ({[ key ]} ∪ dup) services' (records ++ [r]) truncated
        | None => rr_loop rec k state previousRecords dup services' records truncated
        end
  end.

Fixpoint backend_rr (fuel : nat) (k : Kind) (state : Request) (previousRecords : list RR)
  : st W (string + (list RR * bool)) :=
  match fuel with
  | O => panic
  | S fuel' =>
      '(state, r) ← match k with
                    | kTXT => r ← Services b ctx state false; mret (state, r)
                    | _ => checkForApex state
                    end;
      match r with
      | inl err => mret (inl err)
      | inr services =>
          rs ← rr_loop (backend_rr fuel' k) k state previousRecords ∅ services [] false;
          mret (inr rs)
      end
  end.

(** Each nested lookup has one more previous record, and none starts with more
    than eight. *)
Definition lookup_depth : nat := 9.

Definition backend_A := backend_rr lookup_depth kA.
Definition backend_AAAA := backend_rr lookup_depth kAAAA.
Definition backend_TXT := backend_rr lookup_depth kTXT.

(** ** SRV and MX *)

(** The sum of the weights by priority. *)
Definition add_weight (w : gmap Z Z) (serv : Service) : gmap Z Z :=
  let weight := if decide (sWeight serv = 0)%Z then 100%Z else sWeight serv in
  match w !! sPriority serv with
  | None => <[sPriority serv := weight]> w
  | Some x => <[sPriority serv := i64 (x + weight)]> w
  end.

(** [f16] is the implementation's conversion of a number that does not fit. *)
Context (f16 : spec_float -> Z).

Definition srv_weight (w : gmap Z Z) (serv : Service) : Z :=
  let w1 := fdiv (float64 100) (float64 (default 0%Z (w !! sPriority serv))) in
  let w1 := if decide (sWeight serv = 0)%Z then fmul w1 (float64 100) else fmul w1 (float64 (sWeight serv)) in
  let weight := floor_uint16 f16 w1 in
  if decide (weight = 0)%Z then 1%Z else weight.

Record dup_item := mkDup { dName : string; dPort : Z; dAddr : string }.

Definition isDuplicate (m : list dup_item) (name addr : string) (port : Z) : bool * list dup_item :=
  let i := if decide (addr <> EmptyString) then mkDup name 0 addr else mkDup name port EmptyString in
  if existsb (fun j => bool_decide (dName j = dName i /\ dPort j = dPort i /\ dAddr j = dAddr i)) m
  then (true, m) else (false, i :: m).

Definition newAddress (s : Service) (name : string) (ip : IP) (what : Z) : RR :=
  mkRR name what ClassINET (sTTL s) (if decide (what = TypeA) then A ip else AAAA ip).

Definition is_cname (r : RR) : bool := match rdata r with CNAME _ => true | _ => false end.

(** The addresses of a target that is a name: from elsewhere or from the zone
    itself. *)
Definition target_addresses (state : Request) (target : string) : st W (list RR) :=
  if negb (IsSubDomain zone target) then
    r1 ← bLookup b ctx state target TypeA;
    e1 ← match r1 with inl _ => mret [] | inr None => panic | inr (Some m1) => mret (mAnswer m1) end;
    r2 ← bLookup b ctx state target TypeAAAA;
    e2 ← match r2 with
         | inl _ => mret []
         | inr None => panic
         | inr (Some m1) => mret (filter (fun a => is_cname a = false) (mAnswer m1))
         end;
    mret (e1 ++ e2)
  else
    state1 ← of_option (NewWithQuestion state target TypeA);
    r ← backend_A state1 [];
    match r with inl _ => mret [] | inr (addr, _) => mret addr end.

Fixpoint srv_loop (w : gmap Z Z) (state : Request) (services : list Service) (dup : list dup_item)
    (lookup : gset string) (records extra : list RR) : st W (list RR * list RR) :=
  match services with
  | [] => mret (records, extra)
  | serv :: services' =>
      if decide (sPort serv = -1)%Z then srv_loop w state services' dup lookup records extra
      else
        let weight := srv_weight w serv in
        let '(what, ip) := HostType serv in
        if decide (what = TypeCNAME) then
          srv ← of_option (NewSRV serv (QName state) weight);
          target ← of_option (target_host serv);
          if decide (target ∈ lookup) then srv_loop w state services' dup lookup (records ++ [srv]) extra
          else
            e ← target_addresses state target;
            srv_loop w state services' dup ({[ target ]} ∪ lookup) (records ++ [srv]) (extra ++ e)
        else if decide (what = TypeA \/ what = TypeAAAA) then
          let addr := Host serv in
          host ← of_option (Domain (Key serv));
          let serv := set_Host host serv in
          srv ← of_option (NewSRV serv (QName state) weight);
          target ← of_option (target_host serv);
          let '(ok1, dup) := isDuplicate dup target EmptyString (u16 (sPort serv)) in
          let '(ok2, dup) := isDuplicate dup target addr 0 in
          srv_loop w state services' dup lookup (if ok1 then records else records ++ [srv])
            (if ok2 then extra else extra ++ [newAddress serv target ip what])
        else srv_loop w state services' dup lookup records extra
  end.

Definition backend_SRV (state : Request) : st W (string + (list RR * list RR)) :=
  r ← Services b ctx state false;
  match r with
  | inl err => mret (inl err)
  | inr services =>
      rs ← srv_loop (fold_left add_weight services ∅) state services [] ∅ [] [];
      mret (inr rs)
  end.

Fixpoint mx_loop (state : Request) (services : list Service) (dup : list dup_item)
    (lookup : gset string) (records extra : list RR) : st W (list RR * list RR) :=
  match services with
  | [] => mret (records, extra)
  | serv :: services' =>
      if negb (Mail serv) then mx_loop state services' dup lookup records extra
      else
        let '(what, ip) := HostType serv in
        if decide (what = TypeCNAME) then
          mx ← of_option (NewMX serv (QName state));
          target ← of_option (target_host serv);
          if decide (target ∈ lookup) then mx_loop state services' dup lookup (records ++ [mx]) extra
          else
            e ← target_addresses state target;
            mx_loop state services' dup ({[ target ]} ∪ lookup) (records ++ [mx]) (extra ++ e)
        else if decide (what = TypeA \/ what = TypeAAAA) then
          let addr := Host serv in
          host ← of_option (Domain (Key serv));
          let serv := set_Host host serv in
          mx ← of_option (NewMX serv (QName state));
          target ← of_option (target_host serv);
          let '(ok1, dup) := isDuplicate dup target EmptyString (u16 (sPriority serv)) in
          let '(ok2, dup) := isDuplicate dup host addr 0 in
          mx_loop state services' dup lookup (if ok1 then records else records ++ [mx])
            (if ok2 then extra else extra ++ [newAddress serv host ip what])
        else mx_loop state services' dup lookup records extra
  end.

Definition backend_MX (state : Request) : st W (string + (list RR * list RR)) :=
  r ← Services b ctx state false;
  match r with
  | inl err => mret (inl err)
  | inr services => rs ← mx_loop state services [] ∅ [] []; mret (inr rs)
  end.

(** ** The others *)

Definition backend_CNAME (state : Request) : st W (string + list RR) :=
  r ← Services b ctx state true;
  match r with
  | inl err => mret (inl err)
  | inr [] => mret (inr [])
  | inr (serv :: _) =>
      mret (inr (match ParseIP (Host serv) with
                 | None => [NewCNAME serv (QName state) (Host serv)]
                 | Some _ => []
                 end))
  end.

Fixpoint ptr_loop (qname : string) (services : list Service) (dup : gset string) : list RR :=
  match services with
  | [] => []
  | serv :: services' =>
      match ParseIP (Host serv) with
      | Some _ => ptr_loop qname services' dup
      | None =>
          if decide (Host serv ∈ dup) then ptr_loop qname services' dup
          else NewPTR serv qname (Host serv) :: ptr_loop qname services' ({[ Host serv ]} ∪ dup)
      end
  end.

Definition backend_PTR (state : Request) : st W (string + list RR) :=
  r ← Reverse b ctx state true;
  match r with
  | inl err => mret (inl err)
  | inr services => mret (inr (ptr_loop (QName state) services ∅))
  end.

Fixpoint ns_loop (qname : string) (services : list Service) (seen : gset string) (records extra : list RR)
  : option (string + (list RR * list RR)) :=
  match services with
  | [] => Some (inr (records, extra))
  | serv :: services' =>
      let '(what, ip) := HostType serv in
      if decide (what = TypeCNAME) then Some (inl ("NS record must be an IP address: " +:+ Host serv))
      else if decide (what = TypeA \/ what = TypeAAAA) then
        host ← Domain (Key serv);
        let serv := set_Host host serv in
        ns ← NewNS serv qname;
        target ← target_host serv;
        let extra := extra ++ [newAddress serv target ip what] in
        if decide (target ∈ seen) then ns_loop qname services' seen records extra
        else ns_loop qname services' ({[ target ]} ∪ seen) (records ++ [ns]) extra
      else ns_loop qname services' seen records extra
  end.

(** The request comes back with the question it has afterwards: on an error of
    the backend the name is not reset. *)
Definition backend_NS (state : Request) : st W (Request * (string + (list RR * list RR))) :=
  let old := QName state in
  name ← of_option (Join ["ns.dns."%string; zone]);
  state ← of_option (rename name (Clear state));
  r ← Services b ctx state false;
  match r with
  | inl err => mret (state, inl err)
  | inr services =>
      state ← of_option (rename old state);
      res ← of_option (ns_loop (QName state) services ∅ [] []);
      mret (state, res)
  end.

Definition hostmaster : string := "hostmaster".

Definition backend_SOA (state : Request) : st W (list RR) :=
  let minTTL := bMinTTL b state in
  let ttl := if decide (minTTL < 300)%Z then minTTL else 300%Z in
  mbox ← of_option (Join [hostmaster; zone]);
  ns ← of_option (Join ["ns.dns"%string; zone]);
  serial ← bSerial b state;
  mret [mkRR zone TypeSOA ClassINET ttl (SOA ns mbox serial 7200 1800 86400 minTTL)].

(** The message that is written, and what is returned. *)
Definition BackendError (rcode : Z) (state : Request) (err : option string) : st W (Msg * Z * option string) :=
  req ← of_option (Req state);
  let m := set_mAuthoritative true (SetRcode zeroMsg req rcode) in
  soa ← backend_SOA state;
  mret (set_sections (mAnswer m) soa (mExtra m) m, RcodeSuccess, err).
End backend.
