(* ===== verification/Etcd.v ===== *)
(** * The etcd plugin

    plugin/etcd: a backend whose services are JSON values in etcd, and the
    handler that answers from it.  The client of etcd and the decoding of JSON
    are parameters. *)

From Stdlib Require Import SpecFloat.
From S2P Require Import Prelude.
From S2P Require Import GoStd.
From S2P Require Import GoNet.
From S2P Require Import DnsNames.
From S2P Require Import DnsMsg.
From S2P Require Import Request.
From S2P Require Import Plugin.
From S2P Require Import Hosts.
From S2P Require Import Service.
From S2P Require Import Backend.

Record KeyValue := mkKV { kvKey : string; kvValue : string; kvLease : Z }.
Record GetResponse := mkGet { Count : Z; Kvs : list KeyValue }.

Definition etcd_priority : Z := 10.
Definition etcd_ttl : Z := 300.

(** Errors are known by their text. *)
Definition errKeyNotFound : string := "key not found".

Definition etcd_TTL (kv : KeyValue) (serv : Service) : Z :=
  let etcdTTL := u32 (kvLease kv) in
  if decide (etcdTTL = 0 /\ sTTL serv = 0)%Z then etcd_ttl
  else if decide (etcdTTL = 0)%Z then sTTL serv
  else if decide (sTTL serv = 0)%Z then etcdTTL
  else if decide (etcdTTL < sTTL serv)%Z then etcdTTL
  else sTTL serv.

Definition shouldInclude (serv : Service) (qType : Z) : bool :=
  bool_decide ((qType = TypeTXT /\ Text serv <> EmptyString) \/ Host serv <> EmptyString).

(** The parts of a key against those of a name with wildcards. *)
Fixpoint parts_match (nameParts keyParts : list string) : bool :=
  match nameParts, keyParts with
  | [], _ => true
  | _ :: _, [] => false
  | n :: ns, k :: ks => (is_star n || bool_decide (k = n)) && parts_match ns ks
  end.

Definition set_Key (k : string) (s : Service) : Service :=
  mkService (Host s) (sPort s) (sPriority s) (sWeight s) (Text s) (Mail s) (sTTL s) (TargetStrip s) (sGroup s) k.
Definition set_ttl_priority (t p : Z) (s : Service) : Service :=
  mkService (Host s) (sPort s) p (sWeight s) (Text s) (Mail s) t (TargetStrip s) (sGroup s) (Key s).

Section etcd.
Context `{DnsNames} `{DnsMsgs} {W : Type}.

(** The client's Get, of one key or of all keys with a prefix; the decoder;
    the upstream; the clock, in seconds. *)
Context (Get : string -> bool -> st W (string + GetResponse)).
Context (Unmarshal : string -> string + Service).
Context (up : Ctx -> Request -> string -> Z -> st W (string + option Msg)).
Context (unix : W -> Z).
Context (f16 : spec_float -> Z).

Definition etcd_get (path : string) (recursive : bool) : st W (string + GetResponse) :=
  let found r := match r with
                 | inl err => mret (inl err)
                 | inr resp => if decide (Count resp = 0)%Z then mret (inl errKeyNotFound) else mret (inr resp)
                 end in
  if recursive then
    let path := if HasSuffix path "/" then path else path +:+ "/" in
    r ← Get path true;
    match r with
    | inl err => mret (inl err)
    | inr resp =>
        if decide (Count resp = 0)%Z then r ← Get (TrimSuffix path "/") false; found r
        else mret (inr resp)
    end
  else r ← Get path false; found r.

Fixpoint loopNodes (kv : list KeyValue) (nameParts : list string) (star : bool) (qType : Z) (bx : list Service)
  : string + list Service :=
  match kv with
  | [] => inr []
  | n :: kv' =>
      if (star && negb (parts_match nameParts (strings_Split ch_slash (kvKey n))))%bool
      then loopNodes kv' nameParts star qType bx
      else
        match Unmarshal (kvValue n) with
        | inl err => inl (kvKey n +:+ ": " +:+ err)
        | inr serv =>
            let serv := set_Key (kvKey n) serv in
            if decide (serv ∈ bx) then loopNodes kv' nameParts star qType bx
            else
              let serv' := set_ttl_priority (etcd_TTL n serv)
                             (if decide (sPriority serv = 0)%Z then etcd_priority else sPriority serv) serv in
              match loopNodes kv' nameParts star qType (serv :: bx) with
              | inl err => inl err
              | inr sx => inr (if shouldInclude serv' qType then serv' :: sx else sx)
              end
        end
  end.

Definition etcd_Records (prefix : string) (state : Request) (exact : bool) : st W (string + list Service) :=
  let '(state, name) := Name state in
  let '(path, star) := PathWithWildcard name prefix in
  r ← etcd_get path (negb exact);
  match r with
  | inl err => mret (inl err)
  | inr resp => mret (loopNodes (Kvs resp) (strings_Split ch_slash (Path name prefix)) star (QType state) [])
  end.

Definition etcd_Services (prefix : string) (state : Request) (exact : bool) : st W (string + list Service) :=
  r ← etcd_Records prefix state exact;
  match r with
  | inl err => mret (inl err)
  | inr services => mret (inr (Group services))
  end.

Definition etcd_backend (prefix : string) : ServiceBackend W := {|
  Services := fun _ state exact => etcd_Services prefix state exact;
  Reverse := fun _ state exact => etcd_Services prefix state exact;
  bLookup := up;
  IsNameError := fun err => bool_decide (err = errKeyNotFound);
  bSerial := fun _ w => Some (w, u32 (unix w));
  bMinTTL := fun _ => 30%Z
|}.

(** ** The handler *)

Context (Zones Fall : list string) (PathPrefix : string) (next : option (Handler W)).

Definition Etcd_Name : string := "etcd".

(** What the switch over the types gives: the request, whose question NS may
    have changed, and the error or the records. *)
Definition etcd_switch (ctx : Ctx) (zone : string) (state : Request) : st W (Request * Looked) :=
  let e := etcd_backend PathPrefix in
  let qtype := QType state in
  if decide (qtype = TypeA) then r ← backend_A e ctx zone state []; mret (state, looked_addrs r)
  else if decide (qtype = TypeAAAA) then r ← backend_AAAA e ctx zone state []; mret (state, looked_addrs r)
  else if decide (qtype = TypeTXT) then r ← backend_TXT e ctx zone state []; mret (state, looked_addrs r)
  else if decide (qtype = TypeCNAME) then r ← backend_CNAME e ctx state; mret (state, looked_list r)
  else if decide (qtype = TypePTR) then r ← backend_PTR e ctx state; mret (state, looked_list r)
  else if decide (qtype = TypeMX) then r ← backend_MX e ctx zone state; mret (state, looked_both r)
  else if decide (qtype = TypeSRV) then r ← backend_SRV e ctx zone f16 state; mret (state, looked_both r)
  else if decide (qtype = TypeSOA) then rs ← backend_SOA e zone state; mret (state, inr (rs, [], false))
  else if decide (qtype = TypeNS /\ (Name state).2 = zone) then
    '(state1, r) ← backend_NS e ctx zone state;
    mret (match Req state1 with Some m => set_Req m state | None => state end, looked_both r)
  else
    r ← backend_A e ctx zone state [];
    mret (state, looked_error r).

Definition etcd_error (zone : string) (rcode : Z) (state : Request) (err : option string)
  : st W (list Msg * Z * option string) :=
  '(m, rcode, err) ← BackendError (etcd_backend PathPrefix) zone rcode state err;
  mret ([m], rcode, err).

Definition etcd_next (ctx : Ctx) (w : Writer) (r : Msg) : st W (list Msg * Z * option string) := fun s =>
  '(s, msgs, rcode, err) ← NextOrFailure Etcd_Name next ctx w r s; Some (s, (msgs, rcode, err)).

(** The part after the zone has been found; [r] is the request's message,
    which is what the next plugin gets. *)
Definition etcd_serve (ctx : Ctx) (w : Writer) (zone : string) (state : Request) : st W (list Msg * Z * option string) :=
  '(state, res) ← etcd_switch ctx zone state;
  r ← of_option (Req state);
  match res with
  | inl err =>
      if bool_decide (err = errKeyNotFound) then
        if Through Fall (Name state).2 then
          etcd_next ctx w r
        else etcd_error zone RcodeNameError state None
      else etcd_error zone RcodeServerFailure state (Some err)
  | inr ([], _, _) => etcd_error zone RcodeSuccess state None
  | inr (records, extra, truncated) =>
      let m := SetReply zeroMsg r in
      let m := set_mAuthoritative true (set_mTruncated truncated m) in
      mret ([set_sections (mAnswer m ++ records) (mNs m) (mExtra m ++ extra) m], RcodeSuccess, None)
  end.

Definition Etcd_ServeDNS : Handler W := fun ctx w r s =>
  let '(state, name) := Name (newRequest w (Some r)) in
  let zone := Zones_Matches Zones name in
  if decide (zone = EmptyString) then NextOrFailure Etcd_Name next ctx w r s
  else '(s, (msgs, rcode, err)) ← etcd_serve ctx w zone state s; Some (s, msgs, rcode, err).
End etcd.
