(* ===== verification/BackendTheorems.v ===== *)
(** * Properties of services, backends and the etcd plugin *)

From Stdlib Require Import SpecFloat.
From S2P Require Import Prelude.
From S2P Require Import GoStd.
From S2P Require Import GoFloat.
From S2P Require Import GoNet.
From S2P Require Import DnsNames.
From S2P Require Import DnsMsg.
From S2P Require Import DnsUtil.
From S2P Require Import Request.
From S2P Require Import Plugin.
From S2P Require Import Hosts.
From S2P Require Import Service.
From S2P Require Import Backend.
From S2P Require Import Etcd.

(** ** What the lookups need of a backend *)

(** A request with a question. *)
Definition has_question (state : Request) : Prop := exists m q qs, Req state = Some m /\ mQuestion m = q :: qs.

(** Services the record makers cope with: no labels to strip and, where [named]
    asks for it, a key with a name in it. *)
Definition service_ok `{DnsNames} (named : Prop) (s : Service) : Prop :=
  (TargetStrip s <= 0)%Z /\ (named -> is_Some (Domain (Key s))).

Definition services_ok `{DnsNames} (named : Prop) (r : string + list Service) : Prop :=
  match r with inl _ => True | inr sx => Forall (service_ok named) sx end.

(** An upstream that answers does so with a message, whose records have the
    data their headers say. *)
Definition lookup_ok (r : string + option Msg) : Prop :=
  match r with inl _ => True | inr None => False | inr (Some m) => Forall rr_typed (mAnswer m) end.

(** [named] are the types and zones for which the keys have names in them,
    which the lookups of SRV, MX and NS records rely on. *)
Class BackendOk {W} `{DnsNames} (b : ServiceBackend W) (named : Z -> string -> Prop) : Prop := {
  Services_ok ctx state exact :
    has_question state -> wp (Services b ctx state exact) (services_ok (named (QType state) (rZone state)));
  Reverse_ok ctx state exact : has_question state -> wp (Reverse b ctx state exact) (fun _ => True);
  bLookup_ok ctx state name typ : has_question state -> wp (bLookup b ctx state name typ) lookup_ok;
  bSerial_ok state : wp (bSerial b state) (fun _ => True)
}.

Lemma has_question_Name `{DnsMsgs} state : has_question state -> has_question (Name state).1.
Proof. intros (m & q & qs & Hr & Hq). exists m, q, qs. by rewrite Req_Name. Qed.

Lemma rename_ok n state :
  has_question state ->
  exists s', rename n state = Some s' /\ has_question s' /\ QType s' = QType state /\ rZone s' = rZone state.
Proof.
  intros (m & q & qs & Hr & Hq). unfold rename, QType. rewrite Hr. cbn [mbind option_bind]. rewrite Hq.
  eexists. split; [done|]. split; [by eexists _, _, _|done].
Qed.

Lemma NewWithQuestion_ok `{DnsNames} `{DnsMsgs} state name typ :
  has_question state -> exists s', NewWithQuestion state name typ = Some s' /\ has_question s'.
Proof.
  intros (m & q & qs & Hr & Hq). unfold NewWithQuestion. rewrite Hr. cbn [mbind option_bind]. rewrite Hq.
  eexists. split; [done|]. by eexists _, _, _.
Qed.

Lemma Join_total `{DnsNames} l ls : exists s, Join (ls ++ [l]) = Some s.
Proof. unfold Join. rewrite last_snoc. simpl. case_decide; by eexists. Qed.

Lemma target_host_total `{DnsNames} s : (TargetStrip s <= 0)%Z -> target_host s = Some (Fqdn (Host s)).
Proof. intros Ht. unfold target_host. by rewrite decide_False by lia. Qed.

(** ** Totality and typing *)

Section lookups.
Context `{DnsNames} `{DnsMsgs} {W : Type} (b : ServiceBackend W) (named : Z -> string -> Prop) `{Bok : !BackendOk b named}
  (ctx : Ctx) (zone : string).

Definition typed_rrs (r : string + (list RR * bool)) : Prop :=
  match r with inl _ => True | inr (rs, _) => Forall rr_typed rs end.

Lemma checkForApex_wp state :
  has_question state -> wp (checkForApex b ctx zone state) (fun '(s', r) => has_question s').
Proof using Bok.
  intros Hq. unfold checkForApex. pose proof (has_question_Name state Hq) as Hq1.
  destruct (Name state) as [state1 name]. simpl in Hq1. case_decide as Hn.
  - apply wp_bind. eapply wp_mono; [by apply Services_ok|]. intros r Hr. by apply wp_ret.
  - destruct (Join_total zone ["apex.dns"%string]) as [apex Ea]. apply wp_bind. eapply wp_option; [exact Ea|].
    destruct (rename_ok apex (Clear state1)) as (state2 & E2 & Hq2 & _); [done|].
    apply wp_bind. eapply wp_option; [exact E2|]. apply wp_bind. eapply wp_mono; [by apply Services_ok|]. intros r Hr.
    destruct (rename_ok (QName state1) state2 Hq2) as (state3 & E3 & Hq3 & _).
    apply wp_bind. eapply wp_option; [exact E3|]. destruct Hq3 as (m & q & qs & Hm & Hqs).
    apply wp_bind. eapply wp_option; [by rewrite Hm|].
    assert (has_question (set_Req m state)) as Hc by (by exists m, q, qs).
    destruct r as [err|services]; [|by apply wp_ret].
    apply wp_bind. eapply wp_mono; [apply Services_ok; by exists m, q, qs|]. intros r' Hr'. by apply wp_ret.
Qed.

Lemma own_record_typed k serv qname key r : own_record k serv qname = Some (key, r) -> rr_typed r.
Proof.
  unfold own_record. destruct (HostType serv) as [what ip]. destruct k; case_decide; try done; by intros [= _ <-].
Qed.

Lemma follow_wp rec k state prev serv :
  has_question state ->
  (forall s1 r1, has_question s1 -> length r1 = S (length prev) -> (length r1 <= 8)%nat -> wp (rec s1 r1) typed_rrs) ->
  wp (follow b ctx zone rec k state prev serv) (fun '(rs, _) => Forall rr_typed rs).
Proof using Bok.
  intros Hq Hrec. unfold follow. pose proof (has_question_Name state Hq) as Hq1.
  destruct (Name state) as [state1 name]. simpl in Hq1.
  destruct (Name_Matches _ _); [by apply wp_ret|]. case_decide as Hlen; [by apply wp_ret|].
  destruct (DuplicateCNAME _ _); [by apply wp_ret|]. destruct (IsSubDomain _ _).
  - destruct (NewWithQuestion_ok state1 (Host serv) (QType state1) Hq1) as (s2 & E2 & Hq2).
    apply wp_bind. eapply wp_option; [exact E2|]. apply wp_bind.
    eapply wp_mono; [apply Hrec; [exact Hq2|rewrite length_app; simpl; lia..]|].
    intros [err|[nextRecords tc]] Hr; apply wp_ret; [done|]. destruct nextRecords; [done|]. by constructor.
  - apply wp_bind. eapply wp_mono; [by apply bLookup_ok|]. intros [err|[m1|]] Hr; [by apply wp_ret| |done].
    apply wp_ret. by constructor.
Qed.

Lemma rr_loop_wp rec k state prev dup services records tc :
  has_question state -> Forall rr_typed records ->
  (forall s1 r1, has_question s1 -> length r1 = S (length prev) -> (length r1 <= 8)%nat -> wp (rec s1 r1) typed_rrs) ->
  wp (rr_loop b ctx zone rec k state prev dup services records tc) (fun '(rs, _) => Forall rr_typed rs).
Proof using Bok.
  intros Hq Hrs Hrec. revert dup records tc Hrs. induction services as [|serv services IH]; intros dup records tc Hrs; [by apply wp_ret|].
  cbn [rr_loop]. case_decide.
  - apply wp_bind. eapply wp_mono; [by apply follow_wp|]. intros [rs tc'] Hr. apply IH. by apply Forall_app.
  - destruct (own_record k serv (QName state)) as [[key r]|] eqn:E; [|by apply IH].
    apply own_record_typed in E. case_decide; apply IH; [done|]. apply Forall_app. split; [done|]. by constructor.
Qed.

(** With enough fuel for the records that may still come, a lookup returns. *)
Lemma backend_rr_wp fuel k state prev :
  has_question state -> (1 <= fuel)%nat -> (lookup_depth <= fuel + length prev)%nat ->
  wp (backend_rr b ctx zone fuel k state prev) typed_rrs.
Proof using Bok.
  unfold lookup_depth. revert state prev. induction fuel as [|fuel IH]; intros state prev Hq Hf Hd; [lia|]. cbn [backend_rr].
  assert (wp (match k with kTXT => r ← Services b ctx state false; mret (state, r) | _ => checkForApex b ctx zone state end)
    (fun '(s', r) => has_question s')) as Hs.
  { destruct k; [by apply checkForApex_wp..|]. apply wp_bind. eapply wp_mono; [by apply Services_ok|].
    intros r Hr. by apply wp_ret. }
  apply wp_bind. eapply wp_mono; [exact Hs|]. intros [s' [err|services]] Hq'; [by apply wp_ret|].
  apply wp_bind. eapply wp_mono.
  - apply rr_loop_wp; [done|constructor|]. intros s1 r1 Hq1 Hl Hle. apply IH; [done|lia..].
  - intros [rs tc] Hrs. by apply wp_ret.
Qed.

Lemma backend_addr_wp k state : has_question state -> wp (backend_rr b ctx zone lookup_depth k state []) typed_rrs.
Proof using Bok. intros Hq. apply backend_rr_wp; [done|unfold lookup_depth; simpl; lia..]. Qed.

Definition typed_pair (r : list RR * list RR) : Prop := Forall rr_typed r.1 /\ Forall rr_typed r.2.
Definition typed_both (r : string + (list RR * list RR)) : Prop := match r with inl _ => True | inr p => typed_pair p end.

Lemma newAddress_typed s name ip what : what = TypeA \/ what = TypeAAAA -> rr_typed (newAddress s name ip what).
Proof. by intros [-> | ->]. Qed.

Lemma target_addresses_wp state target :
  has_question state -> wp (target_addresses b ctx zone state target) (Forall rr_typed).
Proof using Bok.
  intros Hq. unfold target_addresses. destruct (negb _).
  - apply wp_bind. eapply wp_mono; [by apply bLookup_ok|]. intros r1 Hr1. apply wp_bind.
    apply (wp_mono _ (Forall rr_typed)); [destruct r1 as [|[m1|]]; [by apply wp_ret|by apply wp_ret|done]|]. intros e1 He1.
    apply wp_bind. eapply wp_mono; [by apply bLookup_ok|]. intros r2 Hr2. apply wp_bind.
    apply (wp_mono _ (Forall rr_typed)).
    + destruct r2 as [|[m2|]]; [by apply wp_ret| |done]. apply wp_ret. simpl in Hr2. rewrite Forall_forall in *. intros x [_ Hx]%list_elem_of_filter. by apply Hr2.
    + intros e2 He2. apply wp_ret. by apply Forall_app.
  - destruct (NewWithQuestion_ok state target TypeA Hq) as (s1 & E1 & Hq1).
    apply wp_bind. eapply wp_option; [exact E1|]. apply wp_bind. eapply wp_mono; [by apply backend_addr_wp|].
    intros [err|[addr tc]] Hr; by apply wp_ret.
Qed.

Lemma typed_snoc (rs : list RR) (r : RR) : Forall rr_typed rs -> rr_typed r -> Forall rr_typed (rs ++ [r]).
Proof. intros Hrs Hr. apply Forall_app. split; [done|by constructor]. Qed.

Lemma named_all (P : Prop) services : P -> Forall (service_ok P) services -> Forall (service_ok True) services.
Proof. intros HP Hs. eapply Forall_impl; [exact Hs|]. intros s [Ht Hk]. split; [done|]. intros _. by apply Hk. Qed.

Lemma srv_loop_wp f16 w state services dup lookup records extra :
  has_question state -> Forall (service_ok True) services -> typed_pair (records, extra) ->
  wp (srv_loop b ctx zone f16 w state services dup lookup records extra) typed_pair.
Proof using Bok.
  intros Hq Hs. revert dup lookup records extra.
  induction Hs as [|serv services [Hts [host Hk]%(fun f => f I)] Hs IH]; intros dup lookup records extra [Hr Hx]; [by apply wp_ret|].
  cbn [srv_loop]. case_decide; [by apply IH|]. destruct (HostType serv) as [what ip].
  destruct (decide (what = TypeCNAME)); [|destruct (decide (what = TypeA \/ what = TypeAAAA)); [|by apply IH]].
  - unfold NewSRV. rewrite target_host_total by done. do 2 (apply wp_bind; eapply wp_option; [reflexivity|]).
    case_decide; [apply IH; split; [by apply typed_snoc|done]|].
    apply wp_bind. eapply wp_mono; [by apply target_addresses_wp|]. intros addrs Haddrs.
    apply IH. split; [by apply typed_snoc|by apply Forall_app].
  - apply wp_bind. eapply wp_option; [exact Hk|]. unfold NewSRV. rewrite target_host_total by done.
    do 2 (apply wp_bind; eapply wp_option; [reflexivity|]).
    destruct (isDuplicate dup _ _ _) as [ok1 dup1]. destruct (isDuplicate dup1 _ _ _) as [ok2 dup2].
    apply IH. split; simpl; [destruct ok1|destruct ok2]; try done; apply typed_snoc; try done. by apply newAddress_typed.
Qed.

Lemma mx_loop_wp state services dup lookup records extra :
  has_question state -> Forall (service_ok True) services -> typed_pair (records, extra) ->
  wp (mx_loop b ctx zone state services dup lookup records extra) typed_pair.
Proof using Bok.
  intros Hq Hs. revert dup lookup records extra.
  induction Hs as [|serv services [Hts [host Hk]%(fun f => f I)] Hs IH]; intros dup lookup records extra [Hr Hx]; [by apply wp_ret|].
  cbn [mx_loop]. destruct (negb _); [by apply IH|]. destruct (HostType serv) as [what ip].
  destruct (decide (what = TypeCNAME)); [|destruct (decide (what = TypeA \/ what = TypeAAAA)); [|by apply IH]].
  - unfold NewMX. rewrite target_host_total by done. do 2 (apply wp_bind; eapply wp_option; [reflexivity|]).
    case_decide; [apply IH; split; [by apply typed_snoc|done]|].
    apply wp_bind. eapply wp_mono; [by apply target_addresses_wp|]. intros addrs Haddrs.
    apply IH. split; [by apply typed_snoc|by apply Forall_app].
  - apply wp_bind. eapply wp_option; [exact Hk|]. unfold NewMX. rewrite target_host_total by done.
    do 2 (apply wp_bind; eapply wp_option; [reflexivity|]).
    destruct (isDuplicate dup _ _ _) as [ok1 dup1]. destruct (isDuplicate dup1 _ _ _) as [ok2 dup2].
    apply IH. split; simpl; [destruct ok1|destruct ok2]; try done; apply typed_snoc; try done. by apply newAddress_typed.
Qed.

Lemma SRV_wp f16 state :
  has_question state -> named (QType state) (rZone state) -> wp (backend_SRV b ctx zone f16 state) typed_both.
Proof using Bok.
  intros Hq Hn. unfold backend_SRV. apply wp_bind. eapply wp_mono; [by apply Services_ok|].
  intros [err|services] Hs; [by apply wp_ret|]. apply wp_bind. eapply wp_mono; [apply srv_loop_wp; [done|by apply (named_all _ _ Hn)|by split]|].
  intros rs Hrs. by apply wp_ret.
Qed.

Lemma MX_wp state :
  has_question state -> named (QType state) (rZone state) -> wp (backend_MX b ctx zone state) typed_both.
Proof using Bok.
  intros Hq Hn. unfold backend_MX. apply wp_bind. eapply wp_mono; [by apply Services_ok|].
  intros [err|services] Hs; [by apply wp_ret|]. apply wp_bind. eapply wp_mono; [apply mx_loop_wp; [done|by apply (named_all _ _ Hn)|by split]|].
  intros rs Hrs. by apply wp_ret.
Qed.

Definition typed_list (r : string + list RR) : Prop := match r with inl _ => True | inr rs => Forall rr_typed rs end.

Lemma CNAME_wp state : has_question state -> wp (backend_CNAME b ctx state) typed_list.
Proof using Bok.
  intros Hq. unfold backend_CNAME. apply wp_bind. eapply wp_mono; [by apply Services_ok|].
  intros [err|[|serv services]] Hs; apply wp_ret; simpl; [done|constructor|].
  destruct (ParseIP _); by repeat constructor.
Qed.

Lemma ptr_loop_typed qname services dup : Forall rr_typed (ptr_loop qname services dup).
Proof.
  revert dup. induction services as [|serv services IH]; intros dup; [constructor|]. simpl.
  destruct (ParseIP _); [apply IH|]. case_decide; [apply IH|]. constructor; [done|apply IH].
Qed.

Lemma PTR_wp state : has_question state -> wp (backend_PTR b ctx state) typed_list.
Proof using Bok.
  intros Hq. unfold backend_PTR. apply wp_bind. eapply wp_mono; [by apply Reverse_ok|].
  intros [err|services] Hs; apply wp_ret; [done|]. apply ptr_loop_typed.
Qed.

Lemma ns_loop_typed qname services seen records extra :
  Forall (service_ok True) services -> typed_pair (records, extra) ->
  exists r, ns_loop qname services seen records extra = Some r /\ typed_both r.
Proof.
  intros Hs. revert seen records extra.
  induction Hs as [|serv services [Hts [host Hk]%(fun f => f I)] Hs IH]; intros seen records extra [Hr Hx]; [by eexists|].
  cbn [ns_loop]. destruct (HostType serv) as [what ip].
  destruct (decide (what = TypeCNAME)); [by eexists|]. case_decide; [|by apply IH].
  rewrite Hk. cbn [mbind option_bind]. unfold NewNS. rewrite target_host_total by done. cbn [mbind option_bind].
  case_decide; apply IH; (split; [|apply typed_snoc; [done|by apply newAddress_typed]]); [done|by apply typed_snoc].
Qed.

Lemma NS_wp state :
  has_question state -> named (QType state) (rZone state) ->
  wp (backend_NS b ctx zone state) (fun '(s', r) => has_question s' /\ typed_both r).
Proof using Bok.
  intros Hq Hn. unfold backend_NS. destruct (Join_total zone ["ns.dns."%string]) as [n En].
  apply wp_bind. eapply wp_option; [exact En|]. destruct (rename_ok n (Clear state) Hq) as (s1 & E1 & Hq1 & Ht1 & Hz1).
  apply wp_bind. eapply wp_option; [exact E1|]. apply wp_bind. eapply wp_mono; [by apply Services_ok|].
  intros [err|services] Hs; [by apply wp_ret|].
  destruct (rename_ok (QName state) s1 Hq1) as (s2 & E2 & Hq2 & _). apply wp_bind. eapply wp_option; [exact E2|].
  destruct (ns_loop_typed (QName s2) services ∅ [] []) as (r & Er & Hr);
    [apply (named_all _ _ Hn); by rewrite Ht1, Hz1 in Hs|by split|].
  apply wp_bind. eapply wp_option; [exact Er|]. by apply wp_ret.
Qed.

Lemma SOA_wp state : wp (backend_SOA b zone state) (Forall rr_typed).
Proof using Bok.
  unfold backend_SOA. destruct (Join_total zone [hostmaster]) as [mb Em], (Join_total zone ["ns.dns"%string]) as [ns En].
  apply wp_bind. eapply wp_option; [exact Em|]. apply wp_bind. eapply wp_option; [exact En|].
  apply wp_bind. eapply wp_mono; [apply bSerial_ok|]. intros serial _. apply wp_ret. by repeat constructor.
Qed.

(** What a handler's switch leaves it with. *)
Definition looked_ok (r : Looked) : Prop :=
  match r with inl _ => True | inr (rs, ex, _) => Forall rr_typed rs /\ Forall rr_typed ex end.

Definition switch_ok (r : Request * Looked) : Prop := has_question r.1 /\ looked_ok r.2.

Lemma looked_addrs_wp k state :
  has_question state -> wp (r ← backend_rr b ctx zone lookup_depth k state []; mret (state, looked_addrs r)) switch_ok.
Proof using Bok.
  intros Hq. apply wp_bind. eapply wp_mono; [by apply backend_addr_wp|]. intros [err|[rs tc]] Hr; by apply wp_ret.
Qed.

Lemma looked_error_wp k state state' :
  has_question state -> has_question state' ->
  wp (r ← backend_rr b ctx zone lookup_depth k state' []; mret (state, looked_error r)) switch_ok.
Proof using Bok.
  intros Hq Hq'. apply wp_bind. eapply wp_mono; [by apply backend_addr_wp|]. intros [err|[rs tc]] Hr; apply wp_ret; [done|].
  by split; [|split].
Qed.

Lemma looked_list_wp (m : st W (string + list RR)) state :
  has_question state -> wp m typed_list -> wp (r ← m; mret (state, looked_list r)) switch_ok.
Proof.
  intros Hq Hm. apply wp_bind. eapply wp_mono; [exact Hm|]. intros [err|rs] Hr; apply wp_ret; [done|]. by split; [|split].
Qed.

Lemma looked_both_wp (m : st W (string + (list RR * list RR))) state :
  has_question state -> wp m typed_both -> wp (r ← m; mret (state, looked_both r)) switch_ok.
Proof.
  intros Hq Hm. apply wp_bind. eapply wp_mono; [exact Hm|]. intros [err|[rs ex]] Hr; by apply wp_ret.
Qed.

Lemma looked_soa_wp state :
  has_question state -> wp (rs ← backend_SOA b zone state; mret (state, inr (rs, [], false) : Looked)) switch_ok.
Proof using Bok.
  intros Hq. apply wp_bind. eapply wp_mono; [by apply SOA_wp|]. intros rs Hr. apply wp_ret. by split; [|split].
Qed.

Lemma looked_ns_wp state :
  has_question state -> named (QType state) (rZone state) ->
  wp ('(state1, r) ← backend_NS b ctx zone state;
      mret (match Req state1 with Some m => set_Req m state | None => state end, looked_both r)) switch_ok.
Proof using Bok.
  intros Hq Hn. apply wp_bind. eapply wp_mono; [by apply NS_wp|]. intros [s1 r] [(m & q & qs & Hm & Hqs) Hr]. apply wp_ret.
  rewrite Hm. split; [by exists m, q, qs|]. by destruct r as [|[rs ex]].
Qed.

Definition typed_msg (m : Msg) : Prop := Forall rr_typed (mAnswer m) /\ Forall rr_typed (mNs m) /\ Forall rr_typed (mExtra m).

Definition written_ok (r : list Msg * Z * option string) : Prop := writes_ok r.1.2 r.1.1 /\ Forall typed_msg r.1.1.

Lemma BackendError_wp `{!DnsMsgsOk} rcode state err :
  has_question state -> wp ('(m, rcode, err) ← BackendError b zone rcode state err; mret ([m], rcode, err)) written_ok.
Proof using Bok.
  intros (m & q & qs & Hm & _). unfold BackendError. apply wp_bind. apply wp_bind. eapply wp_option; [exact Hm|].
  apply wp_bind. eapply wp_mono; [by apply SOA_wp|]. intros soa Hsoa. apply wp_ret. apply wp_ret.
  split; [done|]. constructor; [|constructor]. unfold typed_msg. rewrite SetRcode_ok, SetReply_ok. simpl. done.
Qed.
End lookups.

(** ** Keys and names *)

Definition elem_ok (e : string) : Prop :=
  e <> EmptyString /\ e <> "."%string /\ e <> ".."%string /\ IndexByte ch_slash e = None.

#[export] Instance elem_ok_dec e : Decision (elem_ok e).
Proof. unfold elem_ok. apply _. Defined.

Lemma clean_go_skip rooted out es : clean_go rooted out (EmptyString :: es) = clean_go rooted out es.
Proof. reflexivity. Qed.

Lemma clean_go_keep rooted out e es : elem_ok e -> clean_go rooted out (e :: es) = clean_go rooted (e :: out) es.
Proof.
  intros (H1 & H2 & H3 & _). cbn [clean_go]. rewrite decide_False by (by intros [?|?]). by rewrite decide_False.
Qed.

Lemma clean_go_ok rooted out es : Forall elem_ok es -> clean_go rooted out es = rev out ++ es.
Proof.
  intros Hes. revert out. induction Hes as [|e es He _ IH]; intros out; [by rewrite app_nil_r|].
  rewrite clean_go_keep, IH by done. simpl. by rewrite <- app_assoc.
Qed.

(** The key of a name is the prefix and the labels, outermost first. *)
Lemma path_of prefix ls :
  elem_ok prefix -> Forall elem_ok ls ->
  path_Join (("/" +:+ prefix +:+ "/") :: ls) = strings_Join (EmptyString :: prefix :: ls) "/".
Proof.
  intros Hp Hls. cbn [path_Join]. rewrite decide_False by done.
  assert (forall es, es <> [] -> Forall (fun f => IndexByte ch_slash f = None) es ->
    strings_Split ch_slash (strings_Join es "/") = es) as Hsp.
  { intros es. change "/"%string with (String ch_slash EmptyString). apply Split_Join. }
  assert (Forall (fun f => IndexByte ch_slash f = None) (prefix :: ls)) as Hfree.
  { constructor; [apply Hp|]. eapply Forall_impl; [exact Hls|]. by intros l (_ & _ & _ & ?). }
  assert (exists es, strings_Join (("/" +:+ prefix +:+ "/") :: ls) "/" = strings_Join (EmptyString :: es) "/" /\
    Forall (fun f => IndexByte ch_slash f = None) es /\ es <> [] /\ clean_go true [] (EmptyString :: es) = prefix :: ls)
    as (es & -> & Hes & Hne & Hcl).
  { apply Forall_cons in Hfree as [Hfp Hfl]. destruct ls as [|l ls].
    - exists [prefix; EmptyString]. split; [done|]. split; [constructor; [done|]; constructor; [done|constructor]|]. split; [done|].
      by rewrite clean_go_skip, clean_go_keep, clean_go_skip.
    - exists (prefix :: EmptyString :: l :: ls). split.
      { rewrite !Join_cons, !sapp_assoc. done. }
      split; [constructor; [done|]; constructor; done|]. split; [done|].
      rewrite clean_go_skip, clean_go_keep, clean_go_skip by done.
      by apply (clean_go_ok true [prefix]). }
  unfold Clean. destruct es as [|e es]; [done|]. rewrite Join_cons, sapp_nil_l.
  assert (HasPrefix ("/" +:+ strings_Join (e :: es) "/") "/" = true) as ->.
  { unfold HasPrefix. apply bool_decide_eq_true. simpl. done. }
  change ("/" +:+ strings_Join (e :: es) "/") with (EmptyString +:+ "/" +:+ strings_Join (e :: es) "/").
  rewrite <- Join_cons, Hsp, Hcl by (done || by constructor). done.
Qed.

Lemma label_elem l : label_ok l -> IndexByte ch_slash l = None -> elem_ok l.
Proof. intros [Hne Hc] Hs. split; [done|]. split; [by intros ->|]. split; [by intros ->|done]. Qed.

Section paths.
Context `{DnsNamesOk}.

(** A name whose labels can be elements of a path. *)
Definition path_name (s : string) : Prop := valid_name s /\ Forall (fun l => IndexByte ch_slash l = None) (labels s).

#[export] Instance path_name_dec s : Decision (path_name s).
Proof. unfold path_name. apply _. Defined.

Lemma path_name_elems s : path_name s -> Forall elem_ok (labels s).
Proof.
  intros [(_ & Hl & _) Hs]. rewrite Forall_forall in *. intros l Hin. by apply label_elem; [apply Hl|apply Hs].
Qed.

Lemma Path_shape s prefix :
  path_name s -> elem_ok prefix -> Path s prefix = strings_Join (EmptyString :: prefix :: rev (labels s)) "/".
Proof.
  intros Hs Hp. unfold Path. rewrite SplitDomainName_ok by (right; apply Hs).
  apply path_of; [done|]. by apply Forall_rev, path_name_elems.
Qed.

Lemma Domain_Path_eq s prefix : path_name s -> elem_ok prefix -> Domain (Path s prefix) = Some s.
Proof.
  intros Hs Hp. rewrite Path_shape by done. unfold Domain. pose proof (path_name_elems s Hs) as He.
  destruct Hs as [(Hne & Hl & Hd) Hfree].
  change "/"%string with (String ch_slash EmptyString). rewrite Split_Join; [|done|].
  - rewrite decide_False.
    + cbn [rev]. rewrite rev_involutive, removelast_last, Join_dotted by done. by rewrite <- Hd.
    + change (EmptyString :: prefix :: rev (labels s)) with ([EmptyString; prefix] ++ rev (labels s)).
      destruct (labels s) as [|l ls]; [done|]. cbn [rev]. rewrite app_assoc, last_snoc. intros [= ->].
      by apply Forall_cons in He as [[? _] _].
  - constructor; [done|]. constructor; [apply Hp|]. by apply Forall_rev.
Qed.
End paths.

(** ** The etcd backend keeps the interface *)

Lemma group_pick_sub sx ls slashes group sx' : group_pick sx ls slashes group = Some sx' -> sx' `sublist_of` sx.
Proof.
  revert ls sx'. induction sx as [|s sx IH]; intros ls sx'; simpl; [by intros [= <-]|].
  destruct (group_pick sx (tail ls) slashes group) as [rest|] eqn:E; apply IH in E || clear E.
  - repeat case_decide; simpl; try done; intros [= <-]; by constructor.
  - by repeat case_decide.
Qed.

Lemma Group_sub sx : Group sx `sublist_of` sx.
Proof.
  unfold Group. destruct sx as [|s0 sx]; [done|]. destruct (group_scan _ _ _) as [[slashes group] ls]. case_decide; [done|].
  destruct (group_pick _ _ _ _) as [sx'|] eqn:E; simpl; [by apply group_pick_sub in E|done].
Qed.

Lemma Group_single s : Group [s] = [s].
Proof.
  unfold Group. cbn [group_scan]. rewrite decide_False by lia. case_decide; [done|]. simpl.
  rewrite (decide_False (P := sGroup s = EmptyString)) by done. rewrite decide_False by (by intros [_ ?]).
  by rewrite decide_True.
Qed.

Section etcd.
Context `{DnsNames} `{Mok : DnsMsgsOk} {W : Type}.
Context (Get : string -> bool -> st W (string + GetResponse)).
Context (Unmarshal : string -> string + Service).
Context (up : Ctx -> Request -> string -> Z -> st W (string + option Msg)).
Context (unix : W -> Z) (f16 : spec_float -> Z) (prefix : string).

(** The client answers, with keys that have a name in them; decoded services
    strip nothing; the upstream answers with a message. *)
Record etcd_ok : Prop := {
  Get_ok path p : wp (Get path p) (fun r => match r with
                                            | inl _ => True
                                            | inr resp => Forall (fun kv => is_Some (Domain (kvKey kv))) (Kvs resp)
                                            end);
  Unmarshal_ok v s : Unmarshal v = inr s -> (TargetStrip s <= 0)%Z;
  up_ok ctx state name typ : has_question state -> wp (up ctx state name typ) lookup_ok
}.

Context (Eok : etcd_ok).

Lemma loopNodes_ok kv parts star qType bx :
  Forall (fun kv => is_Some (Domain (kvKey kv))) kv -> services_ok True (loopNodes Unmarshal kv parts star qType bx).
Proof using Eok.
  intros Hkv. revert bx. induction Hkv as [|n kv Hn Hkv IH]; intros bx; simpl; [constructor|].
  destruct (_ && _)%bool; [apply IH|]. destruct (Unmarshal (kvValue n)) as [err|serv] eqn:E; [done|].
  case_decide; [apply IH|]. specialize (IH (set_Key (kvKey n) serv :: bx)).
  destruct (loopNodes _ _ _ _ _ _) as [err|sx]; [done|]. simpl in *. destruct (shouldInclude _ _); [|done].
  constructor; [|done]. split; [by apply (Unmarshal_ok Eok) in E|done].
Qed.

Lemma etcd_get_wp path recursive :
  wp (etcd_get Get path recursive) (fun r => match r with
                                             | inl _ => True
                                             | inr resp => Forall (fun kv => is_Some (Domain (kvKey kv))) (Kvs resp)
                                             end).
Proof using Eok.
  unfold etcd_get. destruct recursive; apply wp_bind; (eapply wp_mono; [apply (Get_ok Eok)|]);
    intros [err|resp] Hr; try (by apply wp_ret); case_decide; try (by apply wp_ret).
  apply wp_bind. eapply wp_mono; [apply (Get_ok Eok)|]. intros [err|resp'] Hr'; [by apply wp_ret|]. case_decide; by apply wp_ret.
Qed.

Lemma etcd_Services_wp state exact : wp (etcd_Services Get Unmarshal prefix state exact) (services_ok True).
Proof using Eok.
  unfold etcd_Services. apply wp_bind. eapply (wp_mono _ (services_ok True)).
  - unfold etcd_Records. destruct (Name state) as [s1 name]. destruct (PathWithWildcard name prefix) as [path star].
    apply wp_bind. eapply wp_mono; [apply etcd_get_wp|]. intros [err|resp] Hr; [by apply wp_ret|].
    apply wp_ret. by apply loopNodes_ok.
  - intros [err|sx] Hs; [by apply wp_ret|]. apply wp_ret. simpl in *. rewrite Forall_forall in *.
    intros s Hin. apply Hs. eapply elem_of_submseteq; [exact Hin|]. apply sublist_submseteq, Group_sub.
Qed.

#[export] Instance etcd_backend_ok : BackendOk (etcd_backend Get Unmarshal up unix prefix) (fun _ _ => True).
Proof using Eok.
  constructor; simpl.
  - intros ctx state exact _. apply etcd_Services_wp.
  - intros ctx state exact _. eapply wp_mono; [apply etcd_Services_wp|done].
  - intros ctx state name typ. apply (up_ok Eok).
  - intros state w. by eexists _, _.
Qed.

Context (Zones Fall : list string) (next : option (Handler W)).

(** A handler that returns, keeps the protocol and writes typed records. *)
Definition answers (h : Handler W) : Prop := forall ctx w r s,
  mQuestion r <> [] -> exists s' msgs rcode err, h ctx w r s = Some (s', msgs, rcode, err) /\
  writes_ok rcode msgs /\ Forall typed_msg msgs.

Context (Hnext : match next with Some h => answers h | None => True end).

Lemma etcd_switch_wp ctx zone state :
  has_question state -> wp (etcd_switch Get Unmarshal up unix f16 prefix ctx zone state) switch_ok.
Proof using Eok.
  intros Hq. pose proof etcd_backend_ok as Hb. unfold etcd_switch.
  do 3 (case_decide; [by eapply looked_addrs_wp|]).
  case_decide; [apply looked_list_wp; [done|]; by eapply CNAME_wp|].
  case_decide; [apply looked_list_wp; [done|]; by eapply PTR_wp|].
  case_decide; [apply looked_both_wp; [done|]; by eapply MX_wp|].
  case_decide; [apply looked_both_wp; [done|]; by eapply SRV_wp|].
  case_decide; [by eapply looked_soa_wp|]. case_decide; [by eapply looked_ns_wp|by eapply looked_error_wp].
Qed.

Lemma etcd_next_wp ctx w r :
  mQuestion r <> [] ->
  wp (etcd_next next ctx w r) written_ok.
Proof using Hnext.
  intros Hr s. unfold etcd_next, NextOrFailure. destruct next as [h|].
  - destruct (Hnext ctx w r s Hr) as (s' & msgs & rcode & err & E & Hw). rewrite E. simpl. by eexists _, _.
  - simpl. eexists _, _. split; [done|]. split; [done|constructor].
Qed.

Lemma etcd_serve_wp ctx w zone state :
  has_question state ->
  wp (etcd_serve Get Unmarshal up unix f16 Fall prefix next ctx w zone state) written_ok.
Proof using Eok Mok Hnext.
  intros Hq. unfold etcd_serve. apply wp_bind. eapply wp_mono; [by apply etcd_switch_wp|].
  intros [s' res] [Hq' Hres]. pose proof Hq' as (m & q & qs & Hm & Hqs). apply wp_bind. eapply wp_option; [exact Hm|].
  destruct res as [err|[[records extra] truncated]].
  - case_bool_decide; [destruct (Through _ _)|]; [|by eapply (BackendError_wp _ _ (Bok := etcd_backend_ok))..]. apply etcd_next_wp. by rewrite Hqs.
  - destruct Hres as [Hrs Hex]. destruct records as [|r records]; [by eapply (BackendError_wp _ _ (Bok := etcd_backend_ok))|]. apply wp_ret.
    split; [done|]. constructor; [|constructor]. unfold typed_msg. rewrite SetReply_ok. simpl. done.
Qed.

Lemma Etcd_answers : answers (Etcd_ServeDNS Get Unmarshal up unix f16 Zones Fall prefix next).
Proof using Eok Mok Hnext.
  intros ctx w r s Hr. unfold Etcd_ServeDNS. pose proof (Req_Name (newRequest w (Some r))) as Hn.
  destruct (Name (newRequest w (Some r))) as [state name]. simpl in Hn. case_decide.
  - pose proof (etcd_next_wp ctx w r Hr s) as (s' & [[msgs rc] err] & E & Hw). unfold etcd_next in E.
    destruct (NextOrFailure _ _ _ _ _ _) as [[[[? ?] ?] ?]|]; [|done]. simpl in E. injection E as <- <- <- <-. by eexists _, _, _, _.
  - assert (has_question state) as Hq by (destruct (mQuestion r) as [|q qs] eqn:Eq; [done|]; by exists r, q, qs).
    destruct (etcd_serve_wp ctx w (Zones_Matches Zones name) state Hq s) as (s' & [[msgs rc] err] & E & Hw). rewrite E.
    simpl. by eexists _, _, _, _.
Qed.
End etcd.

(** ** Theorems *)


(** The key of a name leads back to the name. *)
Theorem domain_of_path `{DnsNamesOk} (s prefix : string) :
  path_name s -> elem_ok prefix -> Domain (Path s prefix) = Some s.
Proof. apply Domain_Path_eq. Qed.

(** The etcd plugin answers every query with a question: it never panics,
    writes exactly one message or lets the server reply, and the records it
    writes are typed, as long as the client, the upstream and the next plugin
    answer. *)
Theorem etcd_answers `{DnsNames} `{DnsMsgsOk} {W} (Get : string -> bool -> st W (string + GetResponse))
    (Unmarshal : string -> string + Service) (up : Ctx -> Request -> string -> Z -> st W (string + option Msg))
    (unix : W -> Z) (f16 : spec_float -> Z) (Zones Fall : list string) (prefix : string) (next : option (Handler W)) :
  etcd_ok Get Unmarshal up -> match next with Some h => answers h | None => True end ->
  answers (Etcd_ServeDNS Get Unmarshal up unix f16 Zones Fall prefix next).
Proof. intros He Hn. by apply Etcd_answers. Qed.

(** *** Addresses *)

(** The first record of each key. *)
Fixpoint distinct (seen : gset string) (l : list (string * RR)) : list (string * RR) :=
  match l with
  | [] => []
  | (k, r) :: l' => if decide (k ∈ seen) then distinct seen l' else (k, r) :: distinct ({[ k ]} ∪ seen) l'
  end.

Lemma distinct_spec seen l :
  distinct seen l `sublist_of` l /\ NoDup (map fst (distinct seen l)) /\
  (forall k, k ∈ map fst (distinct seen l) -> k ∉ seen) /\
  (forall k, k ∈ map fst l -> k ∈ seen \/ k ∈ map fst (distinct seen l)).
Proof.
  revert seen. induction l as [|[k r] l IH]; intros seen; simpl.
  { split; [constructor|]. split; [constructor|]. split; intros k Hk; by apply elem_of_nil in Hk. }
  case_decide as Hk.
  - destruct (IH seen) as (Hs & Hn & Hd & Hc). split; [by constructor|]. split; [done|]. split; [done|].
    intros k' [->|Hk']%elem_of_cons; [by left|by apply Hc].
  - destruct (IH ({[ k ]} ∪ seen)) as (Hs & Hn & Hd & Hc). split; [by constructor|]. simpl. split; [|split].
    + constructor; [|done]. intros Hin. apply Hd, not_elem_of_union in Hin as [Hin _]. by apply Hin, elem_of_singleton.
    + intros k' [->|Hk']%elem_of_cons; [done|]. by apply Hd, not_elem_of_union in Hk' as [_ ?].
    + intros k' [->|Hk']%elem_of_cons; [right; by left|]. destruct (Hc k' Hk') as [Hin|Hin]; [|right; by right].
      apply elem_of_union in Hin as [->%elem_of_singleton|?]; [right; by left|by left].
Qed.

Section addresses.
Context `{DnsNames} `{DnsMsgs} {W : Type} (b : ServiceBackend W) (ctx : Ctx) (zone : string).

Lemma rr_loop_direct rec k state prev dup services records tc (w : W) :
  Forall (fun s => (HostType s).1 <> TypeCNAME) services ->
  rr_loop b ctx zone rec k state prev dup services records tc w =
  Some (w, (records ++ map snd (distinct dup (omap (fun s => own_record k s (QName state)) services)), tc)).
Proof.
  intros Hs. revert dup records. induction Hs as [|s services Hs _ IH]; intros dup records; [by rewrite app_nil_r|].
  cbn [rr_loop omap list_omap]. rewrite decide_False by done.
  destruct (own_record k s (QName state)) as [[key r]|]; [|apply IH]. cbn [distinct].
  case_decide; rewrite IH; [done|]. by rewrite <- app_assoc.
Qed.
End addresses.

(** When no service of a name is an alias, a lookup of its addresses gives
    the addresses of the services that have one of the wanted kind, in order,
    once per host. *)
Theorem backend_addresses_exact `{DnsNames} `{DnsMsgs} {W} (b : ServiceBackend W) (ctx : Ctx) (zone : string) (k : Kind)
    (state : Request) (w w' : W) (services : list Service) :
  k <> kTXT -> (Name state).2 <> zone -> Services b ctx (Name state).1 false w = Some (w', inr services) ->
  Forall (fun s => (HostType s).1 <> TypeCNAME) services ->
  let own := omap (fun s => own_record k s (QName state)) services in
  exists rs, backend_rr b ctx zone lookup_depth k state [] w = Some (w', inr (map snd rs, false)) /\
    rs `sublist_of` own /\ NoDup (map fst rs) /\ forall host, host ∈ map fst own -> host ∈ map fst rs.
Proof.
  intros Hk Hn Hs Hno own. destruct (distinct_spec ∅ own) as (Hsub & Hnd & _ & Hall).
  exists (distinct ∅ own). split; [|split; [done|split; [done|]]].
  - change lookup_depth with (S 8). cbn [backend_rr].
    assert (match k with kTXT => r ← Services b ctx state false; mret (state, r) | _ => checkForApex b ctx zone state end w
            = Some (w', (state, inr services))) as E.
    { assert (checkForApex b ctx zone state w = Some (w', (state, inr services))) as E; [|by destruct k].
      unfold checkForApex. destruct (Name state) as [s1 n]. simpl in Hn, Hs. rewrite decide_True by done.
      unfold mbind, st_bind. by rewrite Hs. }
    unfold mbind at 1, st_bind at 1. rewrite E. cbn [mbind option_bind].
    unfold mbind, st_bind. rewrite rr_loop_direct by done. done.
  - intros host Hh. destruct (Hall host Hh) as [Hin|?]; [by apply elem_of_empty in Hin|done].
Qed.

(** *** A stored service is served *)

Section stored.
Context `{DnsNamesOk} `{Mok : DnsMsgsOk} {W : Type}.

Lemma before_star_none l : Forall (fun k => is_star k = false) l -> before_star l = (l, false).
Proof. induction 1 as [|k l Hk _ IH]; [done|]. simpl. by rewrite Hk, IH. Qed.

(** Neither the key nor the search has a slash at the end. *)
Lemma Path_no_slash s prefix : path_name s -> elem_ok prefix -> HasSuffix (Path s prefix) "/" = false.
Proof.
  intros Hs Hp. destruct (HasSuffix _ _) eqn:E; [|done]. apply HasSuffix_inv in E as [r E].
  pose proof (Domain_Path_eq s prefix Hs Hp) as Hd. rewrite Path_shape in E by done.
  assert (strings_Split ch_slash (r +:+ "/") = EmptyString :: prefix :: rev (labels s)) as Hsp.
  { rewrite <- E. change "/"%string with (String ch_slash EmptyString). apply Split_Join; [done|].
    constructor; [done|]. constructor; [apply Hp|]. apply Forall_rev, Hs. }
  assert (last (strings_Split ch_slash (r +:+ "/")) = Some EmptyString) as Hl.
  { unfold strings_Split. generalize EmptyString at 1 as cur. clear. induction r as [|c r IH]; intros cur; [done|].
    rewrite sapp_cons. cbn [split_at_byte]. case_decide; [|apply IH].
    specialize (IH EmptyString). destruct (split_at_byte ch_slash EmptyString (r +:+ "/")); [done|]. exact IH. }
  rewrite Hsp in Hl. pose proof (path_name_elems s Hs) as He. destruct Hs as [(Hne & _) _].
  destruct (labels s) as [|l ls]; [done|]. cbn [rev] in Hl.
  change (EmptyString :: prefix :: rev ls ++ [l]) with (([EmptyString; prefix] ++ rev ls) ++ [l]) in Hl.
  rewrite last_snoc in Hl. injection Hl as ->. by apply Forall_cons in He as [[? _] _].
Qed.

Context (Get : string -> bool -> st W (string + GetResponse)) (Unmarshal : string -> string + Service).

(** The service as it comes out of etcd. *)
Definition stored_service (kv : KeyValue) (serv : Service) : Service :=
  let serv := set_Key (kvKey kv) serv in
  set_ttl_priority (etcd_TTL kv serv) (if decide (sPriority serv = 0)%Z then etcd_priority else sPriority serv) serv.

Lemma etcd_Services_stored prefix state name s s1 s2 v lease serv :
  (Name state).2 = name -> path_name name -> Forall (fun l => is_star l = false) (labels name) -> elem_ok prefix ->
  let path := Path name prefix in
  Get (path +:+ "/") true s = Some (s1, inr (mkGet 0 [])) ->
  Get path false s1 = Some (s2, inr (mkGet 1 [mkKV path v lease])) ->
  Unmarshal v = inr serv -> Host serv <> EmptyString ->
  etcd_Services Get Unmarshal prefix state false s = Some (s2, inr [stored_service (mkKV path v lease) serv]).
Proof.
  intros Hn Hp Hstar Hpre path E1 E2 Eu Hh. unfold etcd_Services, etcd_Records.
  destruct (Name state) as [st0 n0]. simpl in Hn. subst n0.
  assert (PathWithWildcard name prefix = (path, false)) as ->.
  { unfold PathWithWildcard. rewrite before_star_none; [done|]. rewrite SplitDomainName_ok by (right; apply Hp).
    by apply Forall_rev. }
  assert (HasSuffix path "/" = false) as Hslash by (by apply Path_no_slash).
  unfold etcd_get. cbn [negb]. rewrite Hslash. cbv iota zeta.
  unfold mbind, st_bind. rewrite E1. cbn [mbind option_bind Count]. rewrite decide_True by done.
  rewrite TrimSuffix_app, E2. cbn [mbind option_bind Count]. rewrite decide_False by done.
  unfold mret, st_ret. cbn [mbind option_bind Kvs loopNodes kvKey kvValue andb]. rewrite Eu. rewrite decide_False by (by intros ?%elem_of_nil).
  unfold shouldInclude. rewrite bool_decide_eq_true_2 by (by right). by rewrite Group_single.
Qed.
End stored.


(** ** Closed instances *)

#[local] Existing Instance dns_reference.
#[local] Existing Instance dns_reference_ok.
#[local] Existing Instance msgs_reference.
#[local] Existing Instance msgs_reference_ok.

(** A store that does not change, a decoder for values that are just a host,
    and an upstream that answers nothing. *)
Definition Store : Type := list KeyValue.
Definition store_Get (path : string) (prefix : bool) : st Store (string + GetResponse) := fun s =>
  let found := filter (fun kv => (if prefix then HasPrefix (kvKey kv) path else bool_decide (kvKey kv = path)) = true) s in
  Some (s, inr (mkGet (Z.of_nat (length found)) found)).
Definition host_value (v : string) : string + Service := inr (mkService v 0 0 0 EmptyString false 0 0 EmptyString EmptyString).
Definition no_upstream : Ctx -> Request -> string -> Z -> st Store (string + option Msg) := fun _ _ _ _ s => Some (s, inl "no"%string).
Definition f16_zero : spec_float -> Z := fun _ => 0%Z.

Definition etcd_query (name : string) (typ : Z) : Msg := set_mQuestion [mkQuestion name typ ClassINET] zeroMsg.
Definition etcd_store : Store := [mkKV "/skydns/org/example/www" "10.0.0.1" 0; mkKV "/skydns/org/example/ftp/x1" "WWW.example.org" 0;
  mkKV "/skydns/org/example/ftp/x2" "ftp.example.org" 0].

Definition example_etcd : Handler Store :=
  Etcd_ServeDNS store_Get host_value no_upstream (fun _ => 0%Z) f16_zero ["example.org."%string] [] "skydns" None.

(** A backend that is a fixed list of services. *)
Definition list_backend (sx : list Service) : ServiceBackend unit :=
  mkBackend unit (fun _ _ _ => mret (inr sx)) (fun _ _ _ => mret (inr sx)) (fun _ _ _ _ => mret (inl "no"%string))
    (fun _ => false) (fun _ => mret 1%Z) (fun _ => 30%Z).

Definition alias (key host : string) : Service := mkService host 0 10 0 EmptyString true 300 0 EmptyString key.
Definition alias_circle : list Service := [alias "/skydns/org/example/a/x" "b.example.org"; alias "/skydns/org/example/a/y" "c.example.org"].

Lemma list_backend_ok sx :
  Forall (fun s => (TargetStrip s <= 0)%Z /\ is_Some (Domain (Key s))) sx -> BackendOk (list_backend sx) (fun _ _ => True).
Proof.
  intros Hs. constructor; intros; apply wp_ret; try done. eapply Forall_impl; [exact Hs|]. by intros s [Ht Hk].
Qed.

Definition backend_request : Request := newRequest example_client (Some (etcd_query "a.example.org." TypeA)).

Lemma backend_request_asks : has_question backend_request.
Proof. by eexists _, _, _. Qed.


Lemma domain_of_path_witness : Domain (Path "service.staging.skydns.local." "skydns") = Some "service.staging.skydns.local."%string.
Proof. apply (@domain_of_path dns_reference dns_reference_ok); decided. Defined.

Definition store_ok (s : Store) : Prop := Forall (fun kv => is_Some (Domain (kvKey kv))) s.

(** The example store as the process state: it is not written to. *)
Definition fixed_Get (path : string) (prefix : bool) : st unit (string + GetResponse) := fun u =>
  match store_Get path prefix etcd_store with Some (_, r) => Some (u, r) | None => None end.

Lemma fixed_etcd_ok : etcd_ok fixed_Get host_value (fun _ _ _ _ => mret (inl "no"%string)).
Proof.
  constructor.
  - intros path p u. unfold fixed_Get, store_Get. eexists _, _. split; [reflexivity|]. cbn [Kvs].
    assert (store_ok etcd_store) as Hs by (unfold store_ok; decided).
    unfold store_ok in Hs. rewrite Forall_forall in *. intros kv [_ Hkv]%list_elem_of_filter. by apply Hs.
  - intros v s [= <-]. done.
  - intros. by apply wp_ret.
Qed.

Lemma etcd_answers_witness :
  answers (Etcd_ServeDNS fixed_Get host_value (fun _ _ _ _ => mret (inl "no"%string)) (fun _ => 0%Z) f16_zero
    ["example.org."%string] [] "skydns" None).
Proof.
  apply (@etcd_answers dns_reference msgs_reference msgs_reference_ok unit); [apply fixed_etcd_ok|exact I].
Defined.

Definition address (host : string) : Service := mkService host 0 10 0 EmptyString true 300 0 EmptyString "/skydns/org/example/a/x".
Definition addresses : list Service := [address "10.0.0.1"; address "::1"; address "10.0.0.2"; address "10.0.0.1"].

Lemma backend_addresses_exact_witness :
  exists rs : list (string * RR), backend_rr (list_backend addresses) (mkCtx 0 None) "example.org." lookup_depth kA backend_request [] tt =
    Some (tt, inr (map snd rs, false)) /\ NoDup (map fst rs).
Proof.
  destruct (@backend_addresses_exact dns_reference msgs_reference unit (list_backend addresses) (mkCtx 0 None) "example.org." kA
    backend_request tt tt addresses) as (rs & E & _ & Hn & _).
  - discriminate.
  - by vm_compute.
  - reflexivity.
  - decided.
  - exists rs. split; [exact E|exact Hn].
Defined.


(** When the name servers of a zone are not in etcd, a query for them is
    answered with a name error for a question that was not asked: the name
    that the search put into the request is not taken back. *)
Theorem etcd_ns_wrong_question :
  exists m q, example_etcd (mkCtx 0 None) example_client (etcd_query "example.org." TypeNS) etcd_store =
      Some (etcd_store, [m], RcodeSuccess, None) /\
    mRcode m = RcodeNameError /\ mQuestion m = [q] /\ qName q <> "example.org."%string.
Proof.
  destruct (example_etcd (mkCtx 0 None) example_client (etcd_query "example.org." TypeNS) etcd_store)
    as [[[[s [|m msgs]] rc] err]|] eqn:E; vm_compute in E; [discriminate E| |discriminate E].
  injection E as <- <- <- <- <-. eexists _, _. split; [reflexivity|]. by vm_compute.
Qed.
