(* ===== verification/KubeObject.v ===== *)
(** * The objects of the kubernetes plugin

    plugin/kubernetes/object: the stripped-down objects the plugin keeps, and
    their making from the objects of the Kubernetes API, of which the records
    here have the fields that are read. *)

From S2P Require Import Prelude.
From S2P Require Import GoStd.

(** ** The API's objects *)

(** [metav1.ObjectMeta]; times are nanoseconds since the epoch. *)
Record ObjectMeta := mkMeta {
  ResourceVersion : string;
  oName : string;
  oNamespace : string;
  Labels : gmap string string;
  DeletionTimestamp : option Z
}.

Record ServicePort := mkServicePort { spName : string; spProtocol : string; spPort : Z }.

Record LoadBalancerIngress := mkIngress { lbIP : string; lbHostname : string }.

Record apiService := mkApiService {
  as_Meta : ObjectMeta;
  as_Type : string;
  as_ClusterIP : string;
  as_ClusterIPs : list string;
  as_ExternalName : string;
  as_Ports : list ServicePort;
  as_ExternalIPs : list string;
  as_Ingress : list LoadBalancerIngress
}.

Record apiPod := mkApiPod { ap_Meta : ObjectMeta; ap_PodIP : string }.

Record apiEndpointAddress := mkApiAddress {
  aa_IP : string;
  aa_Hostname : string;
  aa_NodeName : option string;
  aa_TargetRef : option string
}.
Record EndpointPort := mkEndpointPort { epPort : Z; epName : string; epProtocol : string }.
Record apiSubset := mkApiSubset { au_Addresses : list apiEndpointAddress; au_Ports : list EndpointPort }.
Record apiEndpoints := mkApiEndpoints { ae_Meta : ObjectMeta; ae_Subsets : list apiSubset }.

(** The ports and endpoints of a slice, of which much may be nil. *)
Record slicePort := mkSlicePort { lp_Port : option Z; lp_Name : option string; lp_Protocol : option string }.
Record sliceEndpoint := mkSliceEndpoint {
  le_Addresses : list string;
  le_Ready : option bool;
  le_Hostname : option string;
  le_TargetRef : option string;
  le_NodeName : option string
}.
Record EndpointSlice := mkSlice {
  al_Meta : ObjectMeta;
  al_Ports : list slicePort;
  al_Endpoints : list sliceEndpoint
}.

Definition ServiceTypeExternalName : string := "ExternalName".
Definition ServiceTypeClusterIP : string := "ClusterIP".
Definition ServiceTypeNodePort : string := "NodePort".
Definition ServiceTypeLoadBalancer : string := "LoadBalancer".
Definition ClusterIPNone : string := "None".
Definition LabelServiceName : string := "kubernetes.io/service-name".

(** ** The plugin's objects *)

Record KService := mkKService {
  svcVersion : string;
  svcName : string;
  svcNamespace : string;
  svcIndex : string;
  ClusterIPs : list string;
  svcType : string;
  ExternalName : string;
  svcPorts : list ServicePort;
  ExternalIPs : list string
}.

Definition ServiceKey (name namespace : string) : string := name +:+ "." +:+ namespace.

(** An index out of range panics. *)
Definition Headless (s : KService) : option bool := ip ← head (ClusterIPs s); Some (bool_decide (ip = ClusterIPNone)).

Definition ToService (svc : apiService) : KService :=
  let meta := as_Meta svc in
  mkKService (ResourceVersion meta) (oName meta) (oNamespace meta) (ServiceKey (oName meta) (oNamespace meta))
    (if decide (0 < length (as_ClusterIPs svc))%nat then as_ClusterIPs svc else [as_ClusterIP svc])
    (as_Type svc) (as_ExternalName svc)
    (if decide (length (as_Ports svc) = 0)%nat then [mkServicePort EmptyString EmptyString (-1)] else as_Ports svc)
    (as_ExternalIPs svc ++ map (fun lb => if decide (lbIP lb <> EmptyString) then lbIP lb else lbHostname lb) (as_Ingress svc)).

Record KPod := mkKPod { podVersion : string; PodIP : string; podName : string; podNamespace : string }.

Definition errPodTerminating : string := "pod terminating".

(** The pod comes with the error. *)
Definition ToPod (p : apiPod) : KPod * option string :=
  let meta := ap_Meta p in
  (mkKPod (ResourceVersion meta) (ap_PodIP p) (oName meta) (oNamespace meta),
   match DeletionTimestamp meta with
   | Some t => if decide (t <> zeroTime) then Some errPodTerminating else None
   | None => None
   end).

Record KNamespace := mkKNamespace { nsVersion : string; nsName : string }.

Definition ToNamespace (meta : ObjectMeta) : KNamespace := mkKNamespace (ResourceVersion meta) (oName meta).

Record EndpointAddress := mkEndpointAddress {
  eaIP : string;
  Hostname : string;
  NodeName : string;
  TargetRefName : string
}.
Record EndpointSubset := mkEndpointSubset { Addresses : list EndpointAddress; Ports : list EndpointPort }.
Record KEndpoints := mkKEndpoints {
  endVersion : string;
  endName : string;
  endNamespace : string;
  endIndex : string;
  IndexIP : list string;
  Subsets : list EndpointSubset
}.

Definition EndpointsKey (name namespace : string) : string := name +:+ "." +:+ namespace.

(** The entry that stands for no ports. *)
Definition no_ports : list EndpointPort := [mkEndpointPort (-1) EmptyString EmptyString].

Definition ToEndpointSubset (eps : apiSubset) : EndpointSubset :=
  mkEndpointSubset
    (map (fun a => mkEndpointAddress (aa_IP a) (aa_Hostname a) (default EmptyString (aa_NodeName a))
                     (default EmptyString (aa_TargetRef a))) (au_Addresses eps))
    (if decide (length (au_Ports eps) = 0)%nat then no_ports else au_Ports eps).

Definition ToEndpoints (e : apiEndpoints) : KEndpoints :=
  let meta := ae_Meta e in
  mkKEndpoints (ResourceVersion meta) (oName meta) (oNamespace meta) (EndpointsKey (oName meta) (oNamespace meta))
    (flat_map (fun eps => map aa_IP (au_Addresses eps)) (ae_Subsets e))
    (map ToEndpointSubset (ae_Subsets e)).

(** Dereferencing nil panics. *)
Definition ToEndpointPort (p : slicePort) : option EndpointPort :=
  port ← lp_Port p; name ← lp_Name p; protocol ← lp_Protocol p; Some (mkEndpointPort port name protocol).

Definition endpointsliceReady (ready : option bool) : bool := default true ready.

(** The addresses of an endpoint; names of pods that are no labels are left out. *)
Definition slice_addresses (node : bool) (e : sliceEndpoint) : list EndpointAddress :=
  if endpointsliceReady (le_Ready e) then
    map (fun a =>
      mkEndpointAddress a (default EmptyString (le_Hostname e))
        (if node then default EmptyString (le_NodeName e) else EmptyString)
        (match le_TargetRef e with
         | Some n => if decide (slen n < 64)%nat then n else EmptyString
         | None => EmptyString
         end)) (le_Addresses e)
  else [].

Definition slice_endpoints (node : bool) (s : EndpointSlice) : option KEndpoints :=
  let meta := al_Meta s in
  ports ← (if decide (length (al_Ports s) = 0)%nat then Some no_ports else mapM ToEndpointPort (al_Ports s));
  let addresses := flat_map (slice_addresses node) (al_Endpoints s) in
  Some (mkKEndpoints (ResourceVersion meta) (oName meta) (oNamespace meta)
          (EndpointsKey (default EmptyString (Labels meta !! LabelServiceName)) (oNamespace meta))
          (map eaIP addresses) [mkEndpointSubset addresses ports]).

Definition EndpointSliceToEndpoints (s : EndpointSlice) : option KEndpoints := slice_endpoints true s.

(** The older version has no names of nodes. *)
Definition EndpointSliceV1beta1ToEndpoints (s : EndpointSlice) : option KEndpoints := slice_endpoints false s.

(** ** Copies

    A slice is copied element by element into one of the same length. *)

Definition Service_DeepCopyObject (s : KService) : KService :=
  mkKService (svcVersion s) (svcName s) (svcNamespace s) (svcIndex s) (map id (ClusterIPs s)) (svcType s) (ExternalName s)
    (map id (svcPorts s)) (map id (ExternalIPs s)).

Definition Pod_DeepCopyObject (p : KPod) : KPod := mkKPod (podVersion p) (PodIP p) (podName p) (podNamespace p).

Definition Namespace_DeepCopyObject (n : KNamespace) : KNamespace := mkKNamespace (nsVersion n) (nsName n).

Definition CopyWithoutSubsets (e : KEndpoints) : KEndpoints :=
  mkKEndpoints (endVersion e) (endName e) (endNamespace e) (endIndex e) (map id (IndexIP e)) [].

Definition Endpoints_DeepCopyObject (e : KEndpoints) : KEndpoints :=
  mkKEndpoints (endVersion e) (endName e) (endNamespace e) (endIndex e) (map id (IndexIP e))
    (map (fun eps => mkEndpointSubset
       (map (fun a => mkEndpointAddress (eaIP a) (Hostname a) (NodeName a) (TargetRefName a)) (Addresses eps))
       (map (fun p => mkEndpointPort (epPort p) (epName p) (epProtocol p)) (Ports eps))) (Subsets e)).

(** A copy has everything the object has. *)
Lemma deep_copies (s : KService) (p : KPod) (n : KNamespace) (e : KEndpoints) :
  Service_DeepCopyObject s = s /\ Pod_DeepCopyObject p = p /\ Namespace_DeepCopyObject n = n /\ Endpoints_DeepCopyObject e = e.
Proof.
  split; [|split; [by destruct p|split; [by destruct n|]]].
  - unfold Service_DeepCopyObject. rewrite !map_id. by destruct s.
  - unfold Endpoints_DeepCopyObject. destruct e as [v n' ns i ips subs]. simpl. rewrite map_id. f_equal.
    induction subs as [|[addrs ports] subs IH]; [done|]. simpl. rewrite IH. do 2 f_equal.
    + induction addrs as [|[] addrs IHa]; [done|]. simpl. by rewrite IHa.
    + induction ports as [|[] ports IHp]; [done|]. simpl. by rewrite IHp.
Qed.

(** ** What the conversions promise *)

(** A service has an address to look at and a port to go through; the index
    of endpoints is made of their addresses, and no subset is without ports. *)
Definition service_shape (s : KService) : Prop :=
  ClusterIPs s <> [] /\ svcPorts s <> [] /\ svcIndex s = ServiceKey (svcName s) (svcNamespace s).

Definition endpoints_shape (e : KEndpoints) : Prop :=
  IndexIP e = flat_map (fun sub => map eaIP (Addresses sub)) (Subsets e) /\ Forall (fun sub => Ports sub <> []) (Subsets e).

Lemma ToService_shape s : service_shape (ToService s).
Proof.
  unfold ToService, service_shape. simpl. split; [|split; [|done]].
  - case_decide as H; [|done]. by destruct (as_ClusterIPs s); [simpl in H; lia|].
  - case_decide as H; [done|]. by destruct (as_Ports s).
Qed.

Lemma ToEndpoints_shape e : endpoints_shape (ToEndpoints e).
Proof.
  unfold ToEndpoints, endpoints_shape. simpl. split.
  - induction (ae_Subsets e) as [|sub subs IH]; [done|]. simpl. rewrite IH. f_equal. by rewrite map_map.
  - rewrite Forall_map. apply Forall_true. intros sub. simpl. case_decide as H; [done|]. by destruct (au_Ports sub).
Qed.

Lemma slice_endpoints_shape node s e : slice_endpoints node s = Some e -> endpoints_shape e.
Proof.
  unfold slice_endpoints. destruct (if decide _ then _ else _) as [ports|] eqn:Ep; [|done]. simpl. intros [= <-].
  split; simpl; [by rewrite app_nil_r|]. constructor; [|done]. simpl. intros ->.
  case_decide as H; [done|]. apply mapM_Some_1, Forall2_length in Ep. by rewrite Ep in H.
Qed.
