(* ===== verification/KubeController.v ===== *)
(** * The watch cache of the kubernetes plugin

    plugin/kubernetes/controller.go and plugin/kubernetes/object/informer.go:
    the stores of objects with their indexes, the processing of the changes
    the API server reports, and the two times that become the serials of the
    zones.  The stores themselves are client-go's [cache.Indexer], an
    interface here with its documented behaviour as laws. *)

From S2P Require Import Prelude.
From S2P Require Import GoStd.
From S2P Require Import KubeObject.

(** ** client-go *)

(** A store of objects by key; an index is named by its index function. *)
Class Indexers := {
  Indexer : Type -> Type;
  NewIndexer {A} : Indexer A;
  ix_Get {A} : Indexer A -> string -> option A;
  ix_Add {A} : string -> A -> Indexer A -> Indexer A;
  ix_Update {A} : string -> A -> Indexer A -> Indexer A;
  ix_Delete {A} : string -> Indexer A -> Indexer A;
  ix_List {A} : Indexer A -> list A;
  ix_ByIndex {A} : (A -> list string) -> Indexer A -> string -> list A;
  MetaNamespaceKeyFunc : string -> string -> string
}.

(** Documented behaviour: a store maps keys to objects; List "returns a list
    of all the currently non-empty accumulators", in no particular order;
    ByIndex "returns the stored objects whose set of indexed values for the
    named index includes the given indexed value"; the key is
    "<namespace>/<name> unless <namespace> is empty, then it's just <name>". *)
Class IndexersOk `{Indexers} := {
  contents {A} : Indexer A -> gmap string A;
  New_ok {A} : contents (NewIndexer (A := A)) = ∅;
  Get_ok {A} (ix : Indexer A) k : ix_Get ix k = contents ix !! k;
  Add_ok {A} (ix : Indexer A) k o : contents (ix_Add k o ix) = <[k := o]> (contents ix);
  Update_ok {A} (ix : Indexer A) k o : contents (ix_Update k o ix) = <[k := o]> (contents ix);
  Delete_ok {A} (ix : Indexer A) k : contents (ix_Delete k ix) = delete k (contents ix);
  List_ok {A} (ix : Indexer A) : ix_List ix ≡ₚ (map_to_list (contents ix)).*2;
  ByIndex_ok {A} (ix : Indexer A) f v : ix_ByIndex f ix v ≡ₚ filter (fun o => v ∈ f o) (map_to_list (contents ix)).*2;
  KeyFunc_ok ns n : MetaNamespaceKeyFunc ns n = if decide (ns = EmptyString) then n else ns +:+ "/" +:+ n
}.

Definition indexers_reference : Indexers := {|
  Indexer := fun A => gmap string A;
  NewIndexer := fun A => ∅;
  ix_Get := fun A ix k => ix !! k;
  ix_Add := fun A k o ix => <[k := o]> ix;
  ix_Update := fun A k o ix => <[k := o]> ix;
  ix_Delete := fun A k ix => delete k ix;
  ix_List := fun A ix => (map_to_list ix).*2;
  ix_ByIndex := fun A f ix v => filter (fun o => v ∈ f o) (map_to_list ix).*2;
  MetaNamespaceKeyFunc := fun ns n => if decide (ns = EmptyString) then n else ns +:+ "/" +:+ n
|}.

Definition indexers_reference_ok : @IndexersOk indexers_reference.
Proof. by refine {| contents := fun A (ix : @Indexer indexers_reference A) => ix |}. Defined.

(** ** Changes *)

Inductive DeltaType := Added | Updated | Deleted | Replaced | Sync.

(** The object of a change, or what is left when a deletion was missed. *)
Inductive DeltaObject (Api : Type) := dObject (o : Api) | DeletedFinalStateUnknown (key : string).
Arguments dObject {Api}. Arguments DeletedFinalStateUnknown {Api}.

(** A change and the time, in seconds, at which the loop gets to it. *)
Record Delta (Api : Type) := mkDelta { dType : DeltaType; dObj : DeltaObject Api; dNow : Z }.
Arguments mkDelta {Api}. Arguments dType {Api}. Arguments dObj {Api}. Arguments dNow {Api}.

Section processor.
Context `{Indexers} {Api Obj S : Type}.

(** The conversion gives an object, maybe with an error; it may panic.  The
    store is a part of the state, which the handlers see as well; an informer
    has one. *)
Context (convert : Api -> option (Obj * option string)) (key : Obj -> string).
Context (store : S -> option (Indexer Obj)) (put_store : Indexer Obj -> S -> S).
Context (OnAdd : Z -> S -> S) (OnUpdate : Z -> Obj -> Obj -> S -> option S) (OnDelete : Z -> S -> S).

(** One turn of the loop: the state and the error that ends it. *)
Definition process_delta (d : Delta Api) : st S (option string) := fun s =>
  ix ← store s;
  match dType d with
  | Sync | Added | Updated =>
      match dObj d with
      | DeletedFinalStateUnknown _ => None
      | dObject o =>
          '(obj, err) ← convert o;
          match err with
          | Some e => Some (s, Some e)
          | None =>
              match ix_Get ix (key obj) with
              | Some old =>
                  s ← OnUpdate (dNow d) old obj (put_store (ix_Update (key obj) obj ix) s);
                  Some (s, None)
              | None => Some (OnAdd (dNow d) (put_store (ix_Add (key obj) obj ix) s), None)
              end
          end
      end
  | Deleted =>
      match dObj d with
      | DeletedFinalStateUnknown k => Some (OnDelete (dNow d) (put_store (ix_Delete k ix) s), None)
      | dObject o =>
          '(obj, err) ← convert o;
          match err with
          | Some e =>
              if decide (e <> errPodTerminating) then Some (s, Some e)
              else Some (OnDelete (dNow d) (put_store (ix_Delete (key obj) ix) s), None)
          | None => Some (OnDelete (dNow d) (put_store (ix_Delete (key obj) ix) s), None)
          end
      end
  | Replaced => Some (s, None)
  end.

(** The function that [DefaultProcessor] builds; the latencies it records are
    left out. *)
Fixpoint process (ds : list (Delta Api)) : st S (option string) :=
  match ds with
  | [] => mret None
  | d :: ds' => e ← process_delta d; match e with Some _ => mret e | None => process ds' end
  end.
End processor.

(** ** The controller *)

(** Which objects the endpoints are made from. *)
Inductive EndpointSource := fromSlices | fromSlicesV1beta1 | fromEndpoints.

Section controller.
Context `{Indexers}.

(** A lister that was not asked for is nil, as is its controller; [*Synced] is
    what a controller's HasSynced says. *)
Record dnsControl := mkControl {
  modified : Z;
  extModified : Z;
  svcLister : Indexer KService;
  podLister : option (Indexer KPod);
  epLister : option (Indexer KEndpoints);
  nsLister : Indexer KNamespace;
  epSource : EndpointSource;
  svcSynced : bool;
  podSynced : bool;
  epSynced : bool;
  nsSynced : bool;
  shutdown : bool
}.

Definition set_modified (t : Z) (c : dnsControl) : dnsControl :=
  mkControl t (extModified c) (svcLister c) (podLister c) (epLister c) (nsLister c) (epSource c)
    (svcSynced c) (podSynced c) (epSynced c) (nsSynced c) (shutdown c).
Definition set_extModified (t : Z) (c : dnsControl) : dnsControl :=
  mkControl (modified c) t (svcLister c) (podLister c) (epLister c) (nsLister c) (epSource c)
    (svcSynced c) (podSynced c) (epSynced c) (nsSynced c) (shutdown c).
Definition set_svcLister (ix : Indexer KService) (c : dnsControl) : dnsControl :=
  mkControl (modified c) (extModified c) ix (podLister c) (epLister c) (nsLister c) (epSource c)
    (svcSynced c) (podSynced c) (epSynced c) (nsSynced c) (shutdown c).
Definition set_podLister (ix : Indexer KPod) (c : dnsControl) : dnsControl :=
  mkControl (modified c) (extModified c) (svcLister c) (Some ix) (epLister c) (nsLister c) (epSource c)
    (svcSynced c) (podSynced c) (epSynced c) (nsSynced c) (shutdown c).
Definition set_epLister (ix : Indexer KEndpoints) (c : dnsControl) : dnsControl :=
  mkControl (modified c) (extModified c) (svcLister c) (podLister c) (Some ix) (nsLister c) (epSource c)
    (svcSynced c) (podSynced c) (epSynced c) (nsSynced c) (shutdown c).
Definition set_nsLister (ix : Indexer KNamespace) (c : dnsControl) : dnsControl :=
  mkControl (modified c) (extModified c) (svcLister c) (podLister c) (epLister c) ix (epSource c)
    (svcSynced c) (podSynced c) (epSynced c) (nsSynced c) (shutdown c).
Definition set_shutdown (c : dnsControl) : dnsControl :=
  mkControl (modified c) (extModified c) (svcLister c) (podLister c) (epLister c) (nsLister c) (epSource c)
    (svcSynced c) (podSynced c) (epSynced c) (nsSynced c) true.

(** A new lister comes with a new controller, which has not synced. *)
Definition watch_endpoints (src : EndpointSource) (c : dnsControl) : dnsControl :=
  mkControl (modified c) (extModified c) (svcLister c) (podLister c) (Some NewIndexer) (nsLister c) src
    (svcSynced c) (podSynced c) false (nsSynced c) (shutdown c).

Definition newdnsController (initPodCache initEndpointsCache : bool) : dnsControl :=
  mkControl 0 0 NewIndexer (if initPodCache then Some NewIndexer else None)
    (if initEndpointsCache then Some NewIndexer else None) NewIndexer fromSlices false false false false false.

Definition WatchEndpoints : dnsControl -> dnsControl := watch_endpoints fromEndpoints.
Definition WatchEndpointSliceV1beta1 : dnsControl -> dnsControl := watch_endpoints fromSlicesV1beta1.

(** The second is the error of a second stop. *)
Definition Stop (c : dnsControl) : dnsControl * option string :=
  if shutdown c then (c, Some "shutdown already in progress"%string) else (set_shutdown c, None).

Definition control_HasSynced (c : dnsControl) : bool :=
  svcSynced c && (match epLister c with Some _ => epSynced c | None => true end) &&
  (match podLister c with Some _ => podSynced c | None => true end) && nsSynced c.

(** *** Indexes *)

Definition podIPIndexFunc (p : KPod) : list string := [PodIP p].
Definition svcIPIndexFunc (s : KService) : list string := ClusterIPs s.
Definition svcExtIPIndexFunc (s : KService) : list string := ExternalIPs s.
Definition svcNameNamespaceIndexFunc (s : KService) : list string := [svcIndex s].
Definition epNameNamespaceIndexFunc (e : KEndpoints) : list string := [endIndex e].
Definition epIPIndexFunc (e : KEndpoints) : list string := IndexIP e.

Definition control_ServiceList (c : dnsControl) : list KService := ix_List (svcLister c).
Definition control_SvcIndex (idx : string) (c : dnsControl) : list KService :=
  ix_ByIndex svcNameNamespaceIndexFunc (svcLister c) idx.
Definition control_SvcIndexReverse (ip : string) (c : dnsControl) : list KService :=
  ix_ByIndex svcIPIndexFunc (svcLister c) ip.
Definition control_SvcExtIndexReverse (ip : string) (c : dnsControl) : list KService :=
  ix_ByIndex svcExtIPIndexFunc (svcLister c) ip.

(** A method of a nil lister panics. *)
Definition control_PodIndex (ip : string) (c : dnsControl) : option (list KPod) :=
  ix ← podLister c; Some (ix_ByIndex podIPIndexFunc ix ip).
Definition control_EndpointsList (c : dnsControl) : option (list KEndpoints) :=
  ix ← epLister c; Some (ix_List ix).
Definition control_EpIndex (idx : string) (c : dnsControl) : option (list KEndpoints) :=
  ix ← epLister c; Some (ix_ByIndex epNameNamespaceIndexFunc ix idx).
Definition control_EpIndexReverse (ip : string) (c : dnsControl) : option (list KEndpoints) :=
  ix ← epLister c; Some (ix_ByIndex epIPIndexFunc ix ip).

Definition control_GetNamespaceByName (name : string) (c : dnsControl) : string + KNamespace :=
  match ix_Get (nsLister c) name with
  | None => inl "namespace not found"%string
  | Some ns => inr ns
  end.

(** *** Modification times *)

Definition control_Modified (external : bool) (c : dnsControl) : Z := if external then extModified c else modified c.

Definition updateModified (now : Z) (c : dnsControl) : dnsControl := set_modified now c.
Definition updateExtModifed (now : Z) (c : dnsControl) : dnsControl := set_extModified now c.
End controller.

Definition addr_equal (a b : EndpointAddress) : bool :=
  bool_decide (eaIP a = eaIP b) && bool_decide (Hostname a = Hostname b).
Definition port_equal (a b : EndpointPort) : bool :=
  bool_decide (epName a = epName b) && bool_decide (epPort a = epPort b) && bool_decide (epProtocol a = epProtocol b).

(** The loop over the indexes of two slices of the same length. *)
Fixpoint same_elements {A} (eqb : A -> A -> bool) (l k : list A) : bool :=
  match l, k with
  | x :: l', y :: k' => eqb x y && same_elements eqb l' k'
  | _, _ => true
  end.

Definition subsetsEquivalent (sa sb : EndpointSubset) : bool :=
  if decide (length (Addresses sa) <> length (Addresses sb)) then false
  else if decide (length (Ports sa) <> length (Ports sb)) then false
  else same_elements addr_equal (Addresses sa) (Addresses sb) && same_elements port_equal (Ports sa) (Ports sb).

Definition endpointsEquivalent (a b : option KEndpoints) : bool :=
  match a, b with
  | Some a, Some b =>
      if decide (length (Subsets a) <> length (Subsets b)) then false
      else same_elements subsetsEquivalent (Subsets a) (Subsets b)
  | _, _ => false
  end.

Definition service_port_equal (a b : ServicePort) : bool :=
  bool_decide (spName a = spName b) && bool_decide (spPort a = spPort b) && bool_decide (spProtocol a = spProtocol b).

(** Whether internal and external records change; converting nil panics. *)
Definition serviceModified (oldSvc newSvc : option KService) : option (bool * bool) :=
  match oldSvc, newSvc with
  | Some o, None => Some (true, bool_decide (0 < length (ExternalIPs o))%nat)
  | None, Some n => Some (true, bool_decide (0 < length (ExternalIPs n))%nat)
  | None, None => None
  | Some o, Some n =>
      let extSvc := if decide (length (ExternalIPs o) <> length (ExternalIPs n)) then true
                    else negb (same_elements (fun a b => bool_decide (a = b)) (ExternalIPs o) (ExternalIPs n)) in
      let intSvc := bool_decide (ExternalName o <> ExternalName n) in
      if (intSvc && extSvc)%bool then Some (intSvc, extSvc)
      else if decide (length (svcPorts o) <> length (svcPorts n)) then Some (true, true)
      else if negb (same_elements service_port_equal (svcPorts o) (svcPorts n)) then Some (true, true)
      else Some (intSvc, extSvc)
  end.

(** What an [interface{}] handed to the handlers holds. *)
Inductive KObject := oService (s : KService) | oPod (p : KPod) | oEndpoints (e : KEndpoints) | oNs (n : KNamespace).

Definition GetResourceVersion (o : KObject) : string :=
  match o with
  | oService s => svcVersion s
  | oPod p => podVersion p
  | oEndpoints e => endVersion e
  | oNs n => nsVersion n
  end.

(** Type assertions: [None] is a panic, and asserting on nil panics. *)
Definition as_service (o : option KObject) : option (option KService) :=
  match o with None => Some None | Some (oService s) => Some (Some s) | Some _ => None end.
Definition as_endpoints (o : option KObject) : option (option KEndpoints) :=
  match o with Some (oEndpoints e) => Some (Some e) | _ => None end.

Section events.
Context `{Indexers}.

Definition detectChanges (now : Z) (oldObj newObj : option KObject) (c : dnsControl) : option dnsControl :=
  let same := match newObj, oldObj with
              | Some n, Some o => bool_decide (GetResourceVersion o = GetResourceVersion n)
              | _, _ => false
              end in
  if same then Some c
  else
    match (match newObj with None => oldObj | Some _ => newObj end) with
    | Some (oService _) =>
        o ← as_service oldObj; n ← as_service newObj;
        '(imod, emod) ← serviceModified o n;
        let c := if (imod : bool) then updateModified now c else c in
        Some (if (emod : bool) then updateExtModifed now c else c)
    | Some (oPod _) => Some (updateModified now c)
    | Some (oEndpoints _) =>
        o ← as_endpoints oldObj; n ← as_endpoints newObj;
        Some (if endpointsEquivalent o n then c else updateModified now c)
    | _ => Some c
    end.

Definition control_Add (now : Z) (c : dnsControl) : dnsControl := updateModified now c.
Definition control_Delete (now : Z) (c : dnsControl) : dnsControl := updateModified now c.
Definition control_Update (now : Z) (oldObj newObj : KObject) (c : dnsControl) : option dnsControl :=
  detectChanges now (Some oldObj) (Some newObj) c.

(** *** The informers *)

Definition meta_key (namespace name : string) : string := MetaNamespaceKeyFunc namespace name.

Definition process_services : list (Delta apiService) -> st dnsControl (option string) :=
  process (fun s => Some (ToService s, None)) (fun s => meta_key (svcNamespace s) (svcName s))
    (fun c => Some (svcLister c)) set_svcLister control_Add (fun now o n => control_Update now (oService o) (oService n)) control_Delete.

Definition process_pods : list (Delta apiPod) -> st dnsControl (option string) :=
  process (fun p => Some (ToPod p)) (fun p => meta_key (podNamespace p) (podName p))
    podLister set_podLister
    control_Add (fun now o n => control_Update now (oPod o) (oPod n)) control_Delete.

Definition process_endpoints {Api} (convert : Api -> option KEndpoints)
  : list (Delta Api) -> st dnsControl (option string) :=
  process (fun e => e ← convert e; Some (e, None)) (fun e => meta_key (endNamespace e) (endName e))
    epLister set_epLister
    control_Add (fun now o n => control_Update now (oEndpoints o) (oEndpoints n)) control_Delete.

(** Namespaces have no handlers. *)
Definition process_namespaces : list (Delta ObjectMeta) -> st dnsControl (option string) :=
  process (fun n => Some (ToNamespace n, None)) (fun n => meta_key EmptyString (nsName n))
    (fun c => Some (nsLister c)) set_nsLister (fun _ c => c) (fun _ _ _ c => Some c) (fun _ c => c).
End events.
