(* ===== verification/Kubernetes.v ===== *)
(** * The kubernetes plugin

    plugin/kubernetes: the interface to the watch cache, the parsing of query
    names, the lookup of services, endpoints and pods, reverse lookups, the
    addresses of the server itself, the search path for autopath, and the
    handler. *)

From Stdlib Require Import SpecFloat.
From S2P Require Import Prelude.
From S2P Require Import GoStd.
From S2P Require Import GoNet.
From S2P Require Import DnsNames.
From S2P Require Import DnsMsg.
From S2P Require Import DnsUtil.
From S2P Require Import Request.
From S2P Require Import Plugin.
From S2P Require Import Hosts.
From S2P Require Import Service.
From S2P Require Import Backend.
From S2P Require Import KubeObject.
From S2P Require Import KubeController.

(** ** The interface to the cache *)

Record dnsController (W : Type) := mkController {
  ServiceList : st W (list KService);
  EndpointsList : st W (list KEndpoints);
  SvcIndex : string -> st W (list KService);
  SvcIndexReverse : string -> st W (list KService);
  SvcExtIndexReverse : string -> st W (list KService);
  PodIndex : string -> st W (list KPod);
  EpIndex : string -> st W (list KEndpoints);
  EpIndexReverse : string -> st W (list KEndpoints);
  GetNamespaceByName : string -> st W (string + KNamespace);
  HasSynced : st W bool;
  Modified : bool -> st W Z
}.
Arguments ServiceList {W}. Arguments EndpointsList {W}. Arguments SvcIndex {W}. Arguments SvcIndexReverse {W}.
Arguments SvcExtIndexReverse {W}. Arguments PodIndex {W}. Arguments EpIndex {W}. Arguments EpIndexReverse {W}.
Arguments GetNamespaceByName {W}. Arguments HasSynced {W}. Arguments Modified {W}.

(** The controller as an implementation: it only reads. *)
Section control.
Context `{Indexers} {W : Type} (get : W -> dnsControl).

Definition reads {A} (f : dnsControl -> A) : st W A := fun w => Some (w, f (get w)).
Definition reads_opt {A} (f : dnsControl -> option A) : st W A := fun w => a ← f (get w); Some (w, a).

Definition controller : dnsController W := {|
  ServiceList := reads control_ServiceList;
  EndpointsList := reads_opt control_EndpointsList;
  SvcIndex := fun idx => reads (control_SvcIndex idx);
  SvcIndexReverse := fun ip => reads (control_SvcIndexReverse ip);
  SvcExtIndexReverse := fun ip => reads (control_SvcExtIndexReverse ip);
  PodIndex := fun ip => reads_opt (control_PodIndex ip);
  EpIndex := fun idx => reads_opt (control_EpIndex idx);
  EpIndexReverse := fun ip => reads_opt (control_EpIndexReverse ip);
  GetNamespaceByName := fun name => reads (control_GetNamespaceByName name);
  HasSynced := reads control_HasSynced;
  Modified := fun external => reads (control_Modified external)
|}.
End control.

(** ** Query names *)

Definition Svc : string := "svc".
Definition Pod : string := "pod".
Definition DNSSchemaVersion : string := "1.1.0".
Definition podModeDisabled : string := "disabled".
Definition podModeVerified : string := "verified".
Definition podModeInsecure : string := "insecure".
Definition kube_defaultTTL : Z := 5.
Definition kube_prefix : string := "c".
Definition defaultNSName : string := "ns.dns.".

Definition errNoItems : string := "no items found".
Definition errNsNotExposed : string := "namespace is not exposed".
Definition errInvalidRequest : string := "invalid query name".

Record recordRequest := mkRecordRequest {
  rrPort : string;
  rrProtocol : string;
  rrEndpoint : string;
  rrService : string;
  rrNamespace : string;
  podOrSvc : string
}.

Definition ch_underscore : ascii := "_"%char.
Definition ch_dash : ascii := "-"%char.

Definition stripUnderscore (s : string) : string :=
  match s with
  | String c s' => if decide (c = ch_underscore) then s' else s
  | EmptyString => s
  end.

(** The labels from the last on. *)
Definition parse_segs (segs : list string) : recordRequest * option string :=
  match rev segs with
  | [] => (mkRecordRequest EmptyString EmptyString EmptyString EmptyString EmptyString EmptyString, None)
  | kind :: rest =>
      if decide (kind <> Pod /\ kind <> Svc) then
        (mkRecordRequest EmptyString EmptyString EmptyString EmptyString EmptyString kind, Some errInvalidRequest)
      else
        match rest with
        | [] => (mkRecordRequest EmptyString EmptyString EmptyString EmptyString EmptyString kind, None)
        | [ns] => (mkRecordRequest EmptyString EmptyString EmptyString EmptyString ns kind, None)
        | [ns; svc] => (mkRecordRequest EmptyString EmptyString EmptyString svc ns kind, None)
        | [ns; svc; ep] => (mkRecordRequest EmptyString EmptyString ep svc ns kind, None)
        | [ns; svc; proto; port] =>
            (mkRecordRequest (stripUnderscore port) (stripUnderscore proto) EmptyString svc ns kind, None)
        | ns :: svc :: _ => (mkRecordRequest EmptyString EmptyString EmptyString svc ns kind, Some errInvalidRequest)
        end
  end.

Definition recordRequest_String (r : recordRequest) : string :=
  rrPort r +:+ "." +:+ rrProtocol r +:+ "." +:+ rrEndpoint r +:+ "." +:+ rrService r +:+ "." +:+ rrNamespace r +:+
  "." +:+ podOrSvc r.

Section parse.
Context `{DnsNames}.

(** The name without the zone; an error counts as no name. *)
Definition trimmed (name zone : string) : option string :=
  r ← TrimZone name zone; Some (match r with inl base => base | inr _ => EmptyString end).

Definition parseRequest (name zone : string) : option (recordRequest * option string) :=
  base ← trimmed name zone;
  if decide (base = EmptyString \/ base = Svc \/ base = Pod) then
    Some (mkRecordRequest EmptyString EmptyString EmptyString EmptyString EmptyString EmptyString, None)
  else Some (parse_segs (SplitDomainName base)).
End parse.

(** ** Matching *)

Definition match_ (a b : string) : bool := EqualFold a b.

Definition matchPortAndProtocol (aPort bPort aProtocol bProtocol : string) : bool :=
  (match_ aPort bPort || bool_decide (aPort = EmptyString)) &&
  (match_ aProtocol bProtocol || bool_decide (aProtocol = EmptyString)).

(** [strings.Replace] of one byte by another, everywhere. *)
Fixpoint replace_byte (c d : ascii) (s : string) : string :=
  match s with
  | EmptyString => EmptyString
  | String x s' => String (if decide (x = c) then d else x) (replace_byte c d s')
  end.

Definition count_byte (c : ascii) (s : string) : nat := length (filter (fun x => x = c) (bytes_of s)).

Definition endpointHostname (addr : EndpointAddress) (endpointNameMode : bool) : string :=
  if decide (Hostname addr <> EmptyString) then Hostname addr
  else if decide (endpointNameMode = true /\ TargetRefName addr <> EmptyString) then TargetRefName addr
  else if strings_Contains (eaIP addr) "." then replace_byte ch_dot ch_dash (eaIP addr)
  else if strings_Contains (eaIP addr) ":" then replace_byte ch_colon ch_dash (eaIP addr)
  else EmptyString.

(** A [msg.Service] with the fields that are set. *)
Definition kube_service (host : string) (port ttl : Z) (key : string) : Service :=
  mkService host port 0 0 EmptyString false ttl 0 EmptyString key.

(** ** The plugin *)

Record Kubernetes := mkKubernetes {
  kZones : list string;
  Namespaces : gset string;
  podMode : string;
  endpointNameMode : bool;
  kFall : list string;
  kTtl : Z;
  ignoreEmptyService : bool;
  initPodCache : bool;
  primaryZoneIndex : nat;
  localIPs : list IP;
  autoPathSearch : list string
}.

(** [New], with nothing else set. *)
Definition newKubernetes (zones : list string) : Kubernetes :=
  mkKubernetes zones ∅ podModeDisabled false [] kube_defaultTTL false false 0 [] [].

Section kubernetes.
Context `{DnsNames} `{DnsMsgs} {W : Type} (conn : dnsController W) (k : Kubernetes).
Context (up : Ctx -> Request -> string -> Z -> st W (string + option Msg)) (f16 : spec_float -> Z).

(** An index out of range panics. *)
Definition primaryZone : option string := kZones k !! primaryZoneIndex k.

Definition filteredNamespaceExists (namespace : string) : st W bool :=
  r ← GetNamespaceByName conn namespace; mret (match r with inl _ => false | inr _ => true end).

Definition configuredNamespace (namespace : string) : bool :=
  negb (bool_decide (0 < size (Namespaces k))%nat && negb (bool_decide (namespace ∈ Namespaces k))).

Definition namespaceExposed (namespace : string) : st W bool :=
  if configuredNamespace namespace then filteredNamespaceExists namespace else mret false.

(** *** Pods *)

(** The address that the label of a pod spells. *)
Definition pod_ip (podname : string) : string :=
  if decide (count_byte ch_dash podname = 3%nat /\ strings_Contains podname "--" = false)
  then replace_byte ch_dash ch_dot podname else replace_byte ch_dash ch_colon podname.

Definition findPods (r : recordRequest) (zone : string) : st W (string + list Service) :=
  if decide (podMode k = podModeDisabled) then mret (inl errNoItems)
  else
    let namespace := rrNamespace r in
    exposed ← namespaceExposed namespace;
    if negb exposed then mret (inl errNoItems)
    else
      let podname := rrService r in
      if decide (podname = EmptyString) then
        exposed ← namespaceExposed namespace;
        mret (if (exposed : bool) then inr [] else inl errNoItems)
      else
        let zonePath := Path zone kube_prefix in
        let ip := pod_ip podname in
        let s := kube_service ip 0 (kTtl k) (strings_Join [zonePath; Pod; namespace; podname] "/") in
        if decide (podMode k = podModeInsecure) then
          exposed ← namespaceExposed namespace;
          if negb exposed then mret (inl errNoItems)
          else match ParseIP ip with None => mret (inl errNoItems) | Some _ => mret (inr [s]) end
        else
          ps ← PodIndex conn ip;
          let pods := omap (fun p => if decide (ip = PodIP p /\ match_ namespace (podNamespace p) = true)
                                     then Some s else None) ps in
          mret (match pods with [] => inl errNoItems | _ => inr pods end).

(** *** Services *)

(** The services of one object of endpoints. *)
Definition endpoint_services (r : recordRequest) (zonePath : string) (svc : KService) (ep : KEndpoints) : list Service :=
  if decide (EndpointsKey (svcName svc) (svcNamespace svc) <> endIndex ep) then []
  else
    flat_map (fun eps =>
      flat_map (fun addr =>
        if decide (rrEndpoint r <> EmptyString /\ match_ (rrEndpoint r) (endpointHostname addr (endpointNameMode k)) = false)
        then []
        else
          flat_map (fun p =>
            if matchPortAndProtocol (rrPort r) (epName p) (rrProtocol r) (epProtocol p)
            then [kube_service (eaIP addr) (epPort p) (kTtl k)
                    (strings_Join [zonePath; Svc; svcNamespace svc; svcName svc; endpointHostname addr (endpointNameMode k)] "/")]
            else []) (Ports eps)) (Addresses eps)) (Subsets ep).

(** The services of a cluster address, and whether a port matched. *)
Definition cluster_services (r : recordRequest) (zonePath : string) (svc : KService) : list Service * bool :=
  let ports := filter (fun p => matchPortAndProtocol (rrPort r) (spName p) (rrProtocol r) (spProtocol p) = true) (svcPorts svc) in
  (flat_map (fun p =>
     map (fun ip => kube_service ip (spPort p) (kTtl k) (strings_Join [zonePath; Svc; svcNamespace svc; svcName svc] "/"))
       (ClusterIPs svc)) ports,
   bool_decide (ports <> [])).

Definition pods_count (eps : list KEndpoints) : nat :=
  sum_list_with (fun ep => sum_list_with (fun sub => length (Addresses sub)) (Subsets ep)) eps.

(** With "ignore empty_service": whether the service is to be left out. *)
Definition empty_service (idx : string) (svc : KService) : st W bool :=
  if decide (ignoreEmptyService k = true /\ svcType svc <> ServiceTypeExternalName) then
    headless ← of_option (Headless svc);
    if (headless : bool) then mret false
    else eps ← EpIndex conn idx; mret (bool_decide (pods_count eps = 0%nat))
  else mret false.

(** The loop over the services of the index; the endpoints are looked up when
    they are first needed.  [found] tells that the error has been reset. *)
Fixpoint services_loop (r : recordRequest) (zonePath idx : string) (l : list KService) (endpoints : list KEndpoints)
    (services : list Service) (found : bool) : st W (list Service * bool) :=
  match l with
  | [] => mret (services, found)
  | svc :: l' =>
      if negb (match_ (rrNamespace r) (svcNamespace svc) && match_ (rrService r) (svcName svc))
      then services_loop r zonePath idx l' endpoints services found
      else
        skip ← empty_service idx svc;
        if (skip : bool) then services_loop r zonePath idx l' endpoints services found
        else if decide (svcType svc = ServiceTypeExternalName) then
          if decide (rrEndpoint r <> EmptyString) then services_loop r zonePath idx l' endpoints services found
          else
            let s := kube_service (ExternalName svc) 0 (kTtl k)
                       (strings_Join [zonePath; Svc; svcNamespace svc; svcName svc] "/") in
            if decide ((HostType s).1 = TypeCNAME)
            then services_loop r zonePath idx l' endpoints (services ++ [s]) true
            else services_loop r zonePath idx l' endpoints services found
        else
          headless ← of_option (Headless svc);
          if ((headless : bool) || bool_decide (rrEndpoint r <> EmptyString))%bool then
            eps ← match endpoints with [] => EpIndex conn idx | _ => mret endpoints end;
            let new := flat_map (endpoint_services r zonePath svc) eps in
            services_loop r zonePath idx l' eps (services ++ new) (found || bool_decide (new <> []))
          else
            let '(new, matched) := cluster_services r zonePath svc in
            services_loop r zonePath idx l' endpoints (services ++ new) (found || matched)
  end.

Definition findServices (r : recordRequest) (zone : string) : st W (string + list Service) :=
  exposed ← namespaceExposed (rrNamespace r);
  if negb exposed then mret (inl errNoItems)
  else if decide (rrService r = EmptyString) then
    exposed ← namespaceExposed (rrNamespace r);
    mret (if (exposed : bool) then inr [] else inl errNoItems)
  else
    let idx := ServiceKey (rrService r) (rrNamespace r) in
    serviceList ← SvcIndex conn idx;
    '(services, found) ← services_loop r (Path zone kube_prefix) idx serviceList [] [] false;
    mret (if (found : bool) then inr services else inl errNoItems).

Definition kube_Records (state : Request) : st W (string + list Service) :=
  let '(state, name) := Name state in
  '(r, e) ← of_option (parseRequest name (rZone state));
  match e with
  | Some err => mret (inl err)
  | None =>
      if decide (podOrSvc r = EmptyString) then mret (inr [])
      else if decide (0 < IsReverse name)%Z then mret (inl errNoItems)
      else
        exposed ← namespaceExposed (rrNamespace r);
        if negb exposed then mret (inl errNsNotExposed)
        else if decide (podOrSvc r = Pod) then findPods r (rZone state)
        else findServices r (rZone state)
  end.

(** *** The server's own addresses *)

Definition isDefaultNS (name zone : string) : bool :=
  bool_decide (strings_Index name defaultNSName = Some 0%nat) &&
  bool_decide (strings_Index name zone = Some (slen defaultNSName)).

(** The names and addresses that a service gives; nil is no bytes. *)
Definition ns_of_service (external headless : bool) (zone : string) (endpoint : KEndpoints) (svc : KService)
  : option (list (string * IP)) :=
  let addr ip := default [] (ParseIP ip) in
  let endpoints svcName :=
    flat_map (fun s => map (fun a => (endpointHostname a (endpointNameMode k) +:+ "." +:+ svcName, addr (eaIP a)))
                         (Addresses s)) (Subsets endpoint) in
  if external then
    let name := strings_Join [svcName svc; svcNamespace svc; zone] "." in
    hl ← (if headless then Headless svc else Some false);
    Some (if (hl : bool) then endpoints name else map (fun ip => (name, addr ip)) (ExternalIPs svc))
  else
    let name := strings_Join [svcName svc; svcNamespace svc; Svc; zone] "." in
    hl ← Headless svc;
    Some (if (hl : bool) then endpoints name else map (fun ip => (name, addr ip)) (ClusterIPs svc)).

Fixpoint ns_endpoints (external headless : bool) (zone : string) (eps : list KEndpoints) : st W (list (string * IP)) :=
  match eps with
  | [] => mret []
  | ep :: eps' =>
      svcs ← SvcIndex conn (endIndex ep);
      found ← of_option (mapM (ns_of_service external headless zone ep) svcs);
      rest ← ns_endpoints external headless zone eps';
      mret (concat found ++ rest)
  end.

(** What the local addresses lead to, and whether they are any endpoints. *)
Fixpoint ns_local (external headless : bool) (zone : string) (ips : list IP) : st W (list (string * IP) * bool) :=
  match ips with
  | [] => mret ([], false)
  | ip :: ips' =>
      eps ← EpIndexReverse conn (IP_String ip);
      found ← ns_endpoints external headless zone eps;
      '(rest, any) ← ns_local external headless zone ips';
      mret (found ++ rest, bool_decide (eps <> []) || any)
  end.

Definition ns_record (na : string * IP) : RR :=
  let '(name, ip) := na in
  match To4 ip with
  | None => mkRR name TypeAAAA ClassINET 0 (AAAA ip)
  | Some _ => mkRR name TypeA ClassINET 0 (A ip)
  end.

Definition nsAddrs (external headless : bool) (zone : string) : st W (list RR) :=
  '(found, foundEndpoint) ← ns_local external headless zone (localIPs k);
  mret (map ns_record (if (foundEndpoint : bool) then found else map (fun ip => (defaultNSName +:+ zone, ip)) (localIPs k))).

(** *** Lookups *)

(** The address of a record and its type. *)
Definition rr_address (ns : RR) : option (Z * IP) :=
  match rdata ns with A ip => Some (TypeA, ip) | AAAA ip => Some (TypeAAAA, ip) | _ => None end.

Definition kube_Services (ctx : Ctx) (state : Request) (exact : bool) : st W (string + list Service) :=
  let '(state, name) := Name state in
  let qtype := QType state in
  if decide (qtype = TypeTXT) then
    t ← of_option (trimmed name (rZone state));
    if decide (SplitDomainName t = ["dns-version"%string]) then
      mret (inr [mkService EmptyString 0 0 0 DNSSchemaVersion false 28800 0 EmptyString (Path (QName state) kube_prefix)])
    else
      services ← kube_Records state;
      mret (match services with inr (_ :: _) => inr [] | _ => inl errNoItems end)
  else if decide (qtype = TypeNS) then
    nss ← nsAddrs false false (rZone state);
    mret (inr (omap (fun ns => '(_, ip) ← rr_address ns;
                               Some (kube_service (IP_String ip) 0 (kTtl k) (Path (hName ns) kube_prefix))) nss))
  else if isDefaultNS name (rZone state) then
    nss ← nsAddrs false false (rZone state);
    mret (inr (omap (fun ns => '(t, ip) ← rr_address ns;
                               if decide (t = qtype)
                               then Some (kube_service (IP_String ip) 0 (kTtl k) (Path (QName state) kube_prefix))
                               else None) nss))
  else
    r ← kube_Records state;
    mret (if decide (qtype <> TypeSRV) then r
          else match r with
               | inl err => inl err
               | inr s => inr (filter (fun svc => (HostType svc).1 <> TypeCNAME) s)
               end).

Definition kube_IsNameError (err : string) : bool :=
  bool_decide (err = errNoItems \/ err = errNsNotExposed \/ err = errInvalidRequest).

(** *** Reverse lookups *)

(** Whether a restriction to some namespaces leaves out this one. *)
Definition namespace_hidden (namespace : string) : st W bool :=
  if decide (0 < size (Namespaces k))%nat then exposed ← namespaceExposed namespace; mret (negb exposed) else mret false.

(** The name of the first service that may be told about. *)
Fixpoint reverse_services (l : list KService) : st W (option (list Service)) :=
  match l with
  | [] => mret None
  | svc :: l' =>
      hidden ← namespace_hidden (svcNamespace svc);
      if (hidden : bool) then reverse_services l'
      else
        zone ← of_option primaryZone;
        mret (Some [kube_service (strings_Join [svcName svc; svcNamespace svc; Svc; zone] ".") 0 (kTtl k) EmptyString])
  end.

Definition reverse_hostnames (ip : string) (ep : KEndpoints) : list string :=
  flat_map (fun eps =>
    flat_map (fun addr => if decide (eaIP addr = ip) then [endpointHostname addr (endpointNameMode k)] else [])
      (Addresses eps)) (Subsets ep).

Fixpoint reverse_endpoints (ip : string) (l : list KEndpoints) : st W (list Service) :=
  match l with
  | [] => mret []
  | ep :: l' =>
      hidden ← namespace_hidden (endNamespace ep);
      if (hidden : bool) then reverse_endpoints ip l'
      else
        svcs ← of_option (mapM (fun host =>
                 zone ← primaryZone;
                 Some (kube_service (strings_Join [host; endIndex ep; Svc; zone] ".") 0 (kTtl k) EmptyString))
               (reverse_hostnames ip ep));
        rest ← reverse_endpoints ip l';
        mret (svcs ++ rest)
  end.

Definition serviceRecordForIP (ip : string) : st W (list Service) :=
  svcs ← SvcIndexReverse conn ip;
  found ← reverse_services svcs;
  match found with
  | Some s => mret s
  | None => eps ← EpIndexReverse conn ip; reverse_endpoints ip eps
  end.

Definition kube_Reverse (state : Request) : st W (string + list Service) :=
  let '(state, name) := Name state in
  let ip := ExtractAddressFromReverse name in
  if decide (ip = EmptyString) then
    r ← kube_Records state; mret (match r with inl err => inl err | inr _ => inr [] end)
  else
    records ← serviceRecordForIP ip;
    mret (match records with [] => inl errNoItems | _ => inr records end).

Definition kube_backend : ServiceBackend W := {|
  Services := kube_Services;
  Reverse := fun _ state _ => kube_Reverse state;
  bLookup := up;
  IsNameError := kube_IsNameError;
  bSerial := fun _ => t ← Modified conn false; mret (u32 t);
  bMinTTL := fun _ => kTtl k
|}.

(** *** Search paths *)

(** The pod with an address, if pods are kept. *)
Definition podWithIP (ip : string) : st W (option KPod) :=
  if decide (podMode k <> podModeVerified) then mret None
  else ps ← PodIndex conn ip; mret (head ps).

Definition kube_AutoPath (state : Request) : st W (list string) :=
  let '(state, name) := Name state in
  let zone := Zones_Matches (kZones k) name in
  if decide (zone = EmptyString) then mret []
  else if negb (initPodCache k) then mret []
  else
    let '(_, ip) := Request_IP state in
    pod ← podWithIP ip;
    match pod with
    | None => mret []
    | Some pod =>
        let search :=
          if decide (zone = dot) then [podNamespace pod +:+ ".svc."; "svc."; "."]%string
          else [podNamespace pod +:+ ".svc." +:+ zone; "svc." +:+ zone; zone] in
        mret (search ++ autoPathSearch k ++ [EmptyString])
    end.

(** ** The handler *)

Context (next : option (Handler W)).

Definition Kubernetes_Name : string := "kubernetes".

(** The switch over the types, without transfers. *)
Definition kube_switch (ctx : Ctx) (qname zone : string) (state : Request) : st W (Request * Looked) :=
  let e := kube_backend in
  let qtype := QType state in
  if decide (qtype = TypeA) then r ← backend_A e ctx zone state []; mret (state, looked_addrs r)
  else if decide (qtype = TypeAAAA) then r ← backend_AAAA e ctx zone state []; mret (state, looked_addrs r)
  else if decide (qtype = TypeTXT) then r ← backend_TXT e ctx zone state []; mret (state, looked_addrs r)
  else if decide (qtype = TypeCNAME) then r ← backend_CNAME e ctx state; mret (state, looked_list r)
  else if decide (qtype = TypePTR) then r ← backend_PTR e ctx state; mret (state, looked_list r)
  else if decide (qtype = TypeMX) then r ← backend_MX e ctx zone state; mret (state, looked_both r)
  else if decide (qtype = TypeSRV) then r ← backend_SRV e ctx zone f16 state; mret (state, looked_both r)
  else if decide (qtype = TypeSOA) then
    if decide (qname = zone) then rs ← backend_SOA e zone state; mret (state, inr (rs, [], false))
    else mret (state, inr ([], [], false))
  else if decide (qtype = TypeNS /\ (Name state).2 = zone) then
    '(state1, r) ← backend_NS e ctx zone state;
    mret (match Req state1 with Some m => set_Req m state | None => state end, looked_both r)
  else
    fake ← of_option (NewWithQuestion state (QName state) TypeA);
    r ← backend_A e ctx zone (set_rZone (rZone state) fake) [];
    mret (state, looked_error r).

Definition kube_error (zone : string) (rcode : Z) (state : Request) : st W (list Msg * Z * option string) :=
  '(m, rcode, err) ← BackendError kube_backend zone rcode state None;
  mret ([m], rcode, err).

Definition kube_next (ctx : Ctx) (w : Writer) (r : Msg) : st W (list Msg * Z * option string) := fun s =>
  '(s, msgs, rcode, err) ← NextOrFailure Kubernetes_Name next ctx w r s; Some (s, (msgs, rcode, err)).

(** The part after the zone has been found. *)
Definition kube_serve (ctx : Ctx) (w : Writer) (qname zone : string) (state : Request) : st W (list Msg * Z * option string) :=
  if decide (QType state = TypeAXFR \/ QType state = TypeIXFR) then mret ([], RcodeRefused, None)
  else
    '(state, res) ← kube_switch ctx qname zone state;
    r ← of_option (Req state);
    match res with
    | inl err =>
        if kube_IsNameError err then
          if Through (kFall k) (Name state).2 then kube_next ctx w r
          else
            synced ← HasSynced conn;
            kube_error zone (if (synced : bool) then RcodeNameError else RcodeServerFailure) state
        else mret ([], RcodeServerFailure, Some err)
    | inr ([], _, _) => kube_error zone RcodeSuccess state
    | inr (records, extra, truncated) =>
        let m := SetReply zeroMsg r in
        let m := set_mAuthoritative true (set_mTruncated truncated m) in
        mret ([set_sections (mAnswer m ++ records) (mNs m) (mExtra m ++ extra) m], RcodeSuccess, None)
    end.

Definition Kubernetes_ServeDNS : Handler W := fun ctx w r s =>
  let state := newRequest w (Some r) in
  let qname := QName state in
  let zone := Zones_Matches (kZones k) qname in
  if decide (zone = EmptyString) then NextOrFailure Kubernetes_Name next ctx w r s
  else
    zone ← (if decide (slen zone <= slen qname)%nat then slice_from qname (slen qname - slen zone) else None);
    '(s, (msgs, rcode, err)) ← kube_serve ctx w qname zone (set_rZone zone state) s;
    Some (s, msgs, rcode, err).
End kubernetes.
