(* ===== verification/KubeExternal.v ===== *)
(** * External names of a cluster, and transfers of its zones

    plugin/kubernetes/external.go and plugin/kubernetes/xfr.go, and the
    k8s_external plugin that serves the external names.  A transfer reads the
    cache as it is when it starts: the goroutine that does so is not
    interleaved with changes. *)

From Stdlib Require Import SpecFloat.
From S2P Require Import Prelude.
From S2P Require Import GoStd.
From S2P Require Import GoFloat.
From S2P Require Import GoNet.
From S2P Require Import DnsNames.
From S2P Require Import DnsMsg.
From S2P Require Import DnsUtil.
From S2P Require Import Request.
From S2P Require Import Plugin.
From S2P Require Import Transfer.
From S2P Require Import Hosts.
From S2P Require Import Service.
From S2P Require Import Backend.
From S2P Require Import KubeObject.
From S2P Require Import KubeController.
From S2P Require Import Kubernetes.

Definition kEndpoint : string := "endpoint".
Definition kPortProtocol : string := "port.protocol".

(** ** The kubernetes plugin's side *)

(** The labels of an external name, from the last on: the port, the protocol,
    the endpoint, the service; [None] is a name that is too long. *)
Definition external_labels (rest : list string) : option (string * string * string * string) :=
  match rest with
  | [svc] => Some (EmptyString, EmptyString, EmptyString, svc)
  | [svc; ep] => Some (EmptyString, EmptyString, stripUnderscore ep, svc)
  | [svc; proto; port] => Some (stripUnderscore port, stripUnderscore proto, EmptyString, svc)
  | _ => None
  end.

Section external.
Context `{DnsNames} `{DnsMsgs} {W : Type} (conn : dnsController W) (k : Kubernetes).

Fixpoint ext_reverse (l : list KService) : st W (list Service) :=
  match l with
  | [] => mret []
  | svc :: l' =>
      hidden ← namespace_hidden conn k (svcNamespace svc);
      rest ← ext_reverse l';
      mret (if (hidden : bool) then rest
            else kube_service (strings_Join [svcName svc; svcNamespace svc] ".") 0 (kTtl k) EmptyString :: rest)
  end.

Definition serviceRecordForExternalIP (ip : string) : st W (list Service) :=
  svcs ← SvcExtIndexReverse conn ip; ext_reverse svcs.

Definition ExternalReverse (ip : string) : st W (string + list Service) :=
  records ← serviceRecordForExternalIP ip;
  mret (match records with [] => inl errNoItems | _ => inr records end).

(** The services of the endpoints of a headless service. *)
Definition ext_endpoint_services (port protocol endpoint zonePath : string) (svc : KService) (ep : KEndpoints) : list Service :=
  if decide (EndpointsKey (svcName svc) (svcNamespace svc) <> endIndex ep) then []
  else
    flat_map (fun eps =>
      flat_map (fun addr =>
        if decide (endpoint <> EmptyString /\ match_ endpoint (endpointHostname addr (endpointNameMode k)) = false) then []
        else
          flat_map (fun p =>
            if matchPortAndProtocol port (epName p) protocol (epProtocol p)
            then [kube_service (eaIP addr) (epPort p) (kTtl k)
                    (strings_Join [zonePath; svcNamespace svc; svcName svc; endpointHostname addr (endpointNameMode k)] "/")]
            else []) (Ports eps)) (Addresses eps)) (Subsets ep).

Definition ext_ip_services (port protocol zonePath : string) (svc : KService) : list Service :=
  flat_map (fun ip =>
    flat_map (fun p =>
      if matchPortAndProtocol port (spName p) protocol (spProtocol p)
      then [kube_service ip (spPort p) (kTtl k) (strings_Join [zonePath; svcNamespace svc; svcName svc] "/")] else [])
      (svcPorts svc)) (ExternalIPs svc).

(** The guard of a lookup among the endpoints. *)
Definition ext_by_endpoints (headless : bool) (endpoint : string) (svc : KService) : option bool :=
  if decide (headless = true /\ ExternalIPs svc = []) then
    h ← Headless svc; Some (h || bool_decide (endpoint <> EmptyString))
  else Some false.

Fixpoint external_loop (headless : bool) (namespace service port protocol endpoint zonePath idx : string)
    (l : list KService) (endpoints : list KEndpoints) (services : list Service) : st W (list Service) :=
  match l with
  | [] => mret services
  | svc :: l' =>
      if decide (namespace <> svcNamespace svc \/ service <> svcName svc)
      then external_loop headless namespace service port protocol endpoint zonePath idx l' endpoints services
      else
        by_ep ← of_option (ext_by_endpoints headless endpoint svc);
        if (by_ep : bool) then
          eps ← match endpoints with [] => EpIndex conn idx | _ => mret endpoints end;
          external_loop headless namespace service port protocol endpoint zonePath idx l' eps
            (services ++ flat_map (ext_endpoint_services port protocol endpoint zonePath svc) eps)
        else
          external_loop headless namespace service port protocol endpoint zonePath idx l' endpoints
            (services ++ ext_ip_services port protocol zonePath svc)
  end.

(** The code is a success when there is a service. *)
Definition external_forward (state : Request) (name : string) (headless : bool) : st W (list Service * Z) :=
  base ← of_option (trimmed name (rZone state));
  match rev (SplitDomainName base) with
  | [] => mret ([], RcodeServerFailure)
  | namespace :: rest =>
      exposed ← namespaceExposed conn k namespace;
      if negb exposed then mret ([], RcodeNameError)
      else
        match rest with
        | [] => mret ([], RcodeSuccess)
        | _ =>
            match external_labels rest with
            | None => mret ([], RcodeNameError)
            | Some (port, protocol, endpoint, service) =>
                let idx := ServiceKey service namespace in
                serviceList ← SvcIndex conn idx;
                services ← external_loop headless namespace service port protocol endpoint (Path (rZone state) kube_prefix)
                             idx serviceList [] [];
                let rcode := match services with [] => RcodeNameError | _ => RcodeSuccess end in
                mret (if decide (QType state = TypePTR) then [] else services, rcode)
            end
        end
  end.

Definition kube_External (state : Request) (headless : bool) : st W (list Service * Z) :=
  let '(state, name) := Name state in
  let ip := ExtractAddressFromReverse name in
  if decide (QType state = TypePTR /\ ip <> EmptyString) then
    r ← ExternalReverse ip;
    mret (match r with inl _ => ([], RcodeNameError) | inr svcs => (svcs, RcodeSuccess) end)
  else external_forward state name headless.

Definition kube_ExternalAddress (zone : string) (headless : bool) : st W (list RR) := nsAddrs conn k true headless zone.

Definition kube_ExternalSerial : st W Z := t ← Modified conn true; mret (u32 t).

(** *** All external services *)

Definition push_service (key : string) (s : Service) (m : gmap string (list Service)) : gmap string (list Service) :=
  <[key := default [] (m !! key) ++ [s]]> m.

(** One port of one address of a headless service. *)
Definition headless_port (zonePath : string) (svc : KService) (addr : EndpointAddress) (p : EndpointPort)
    (m : gmap string (list Service)) : option (gmap string (list Service)) :=
  let baseSvc := strings_Join [zonePath; svcNamespace svc; svcName svc] "/" in
  let s := kube_service (eaIP addr) (epPort p) (kTtl k)
             (strings_Join [baseSvc; endpointHostname addr (endpointNameMode k)] "/") in
  let m := push_service (strings_Join [baseSvc; kEndpoint] "/") s m in
  if decide (epName p = EmptyString) then Some m
  else
    host ← Domain (Key s);
    let key := strings_Join [zonePath; svcNamespace svc; svcName svc; ToLower ("_" +:+ epProtocol p); ToLower ("_" +:+ epName p)] "/" in
    Some (push_service (strings_Join [key; kPortProtocol] "/") (kube_service host (epPort p) (kTtl k) key) m).

Fixpoint foldM {A S} (f : A -> S -> option S) (l : list A) (s : S) : option S :=
  match l with [] => Some s | x :: l' => s ← f x s; foldM f l' s end.

Definition headless_endpoints (zonePath : string) (svc : KService) (eps : list KEndpoints) (m : gmap string (list Service))
  : option (gmap string (list Service)) :=
  foldM (fun ep => foldM (fun sub => foldM (fun addr => foldM (headless_port zonePath svc addr) (Ports sub)) (Addresses sub))
                     (Subsets ep)) eps m.

(** The plain name and the full one, whose target has two labels less. *)
Definition ip_services (zonePath : string) (svc : KService) : list Service :=
  flat_map (fun ip =>
    flat_map (fun p =>
      [kube_service ip (spPort p) (kTtl k) (strings_Join [zonePath; svcNamespace svc; svcName svc] "/");
       mkService ip (spPort p) 0 0 EmptyString false (kTtl k) 2 EmptyString
         (strings_Join [zonePath; svcNamespace svc; svcName svc; ToLower ("_" +:+ spProtocol p); ToLower ("_" +:+ spName p)] "/")])
      (svcPorts svc)) (ExternalIPs svc).

Fixpoint ext_services_loop (zonePath : string) (headless : bool) (l : list KService) (services : list Service)
    (m : gmap string (list Service)) : st W (list Service * gmap string (list Service)) :=
  match l with
  | [] => mret (services, m)
  | svc :: l' =>
      by_ep ← of_option (ext_by_endpoints headless EmptyString svc);
      if (by_ep : bool) then
        eps ← EpIndex conn (ServiceKey (svcName svc) (svcNamespace svc));
        m ← of_option (headless_endpoints zonePath svc eps m);
        ext_services_loop zonePath headless l' services m
      else ext_services_loop zonePath headless l' (services ++ ip_services zonePath svc) m
  end.

Definition kube_ExternalServices (zone : string) (headless : bool) : st W (list Service * gmap string (list Service)) :=
  svcs ← ServiceList conn; ext_services_loop (Path zone kube_prefix) headless svcs [] ∅.

(** ** Transfers of the cluster's zone *)

Context (f16 : spec_float -> Z).

(** The records of one address, and the name in the record. *)
Definition emitAddressRecord (s : Service) : option (list (list RR) * string) :=
  let ip := default [] (ParseIP (Host s)) in
  let t := (HostType s).1 in
  if decide (t = TypeA) then n ← Domain (Key s); Some ([[NewA s n ip]], n)
  else if decide (t = TypeAAAA) then n ← Domain (Key s); Some ([[NewAAAA s n ip]], n)
  else Some ([], EmptyString).

Definition no_service : Service := kube_service EmptyString 0 0 EmptyString.

Definition calcSRVWeight (numservices : nat) : Z :=
  let w := fold_left add_weight (replicate numservices no_service) ∅ in
  let weight := floor_uint16 f16 (fmul (fdiv (float64 100) (float64 (default 0%Z (w !! 0%Z)))) (float64 100)) in
  if decide (weight = 0)%Z then 1%Z else weight.

(** The SRV record of a service under its key. *)
Definition srv_of (s : Service) (weight : Z) : option (list RR) :=
  n ← Domain (Key s); r ← NewSRV s n weight; Some [r].

(** All addresses in turn; the host is the one of the last. *)
Fixpoint xfr_addresses (key : string) (ips : list string) (host : string) : option (list (list RR) * string) :=
  match ips with
  | [] => Some ([], host)
  | ip :: ips' =>
      '(rs, host) ← emitAddressRecord (kube_service ip 0 (kTtl k) key);
      '(rest, host) ← xfr_addresses key ips' host;
      Some (rs ++ rest, host)
  end.

Definition port_key (base : list string) (protocol name : string) : string :=
  strings_Join (base ++ [ToLower ("_" +:+ protocol); ToLower ("_" +:+ name)]) "/".

Definition xfr_port (base : list string) (host : string) (p : ServicePort) : option (list (list RR)) :=
  bare ← srv_of (kube_service host (spPort p) (kTtl k) (strings_Join base "/")) 100;
  if decide (spName p = EmptyString) then Some [bare]
  else
    full ← srv_of (kube_service host (spPort p) (kTtl k) (port_key base (spProtocol p) (spName p))) 100;
    Some [bare; full].

Definition xfr_cluster (base : list string) (svc : KService) : option (list (list RR)) :=
  '(addrs, host) ← xfr_addresses (strings_Join base "/") (ClusterIPs svc) EmptyString;
  ports ← mapM (xfr_port base host) (svcPorts svc);
  Some (addrs ++ concat ports).

Definition xfr_endpoint (base : list string) (weight : Z) (sub : EndpointSubset) (addr : EndpointAddress)
  : option (list (list RR)) :=
  '(own, _) ← emitAddressRecord (kube_service (eaIP addr) 0 (kTtl k) (strings_Join base "/"));
  '(named, host) ← emitAddressRecord (kube_service (eaIP addr) 0 (kTtl k)
                     (strings_Join (base ++ [endpointHostname addr (endpointNameMode k)]) "/"));
  ports ← mapM (fun p => if decide (epName p = EmptyString) then Some []
                         else srv_of (kube_service host (epPort p) (kTtl k) (port_key base (epProtocol p) (epName p))) weight)
            (Ports sub);
  Some (own ++ named ++ filter (fun rs => rs <> []) ports).

Definition xfr_subset (base : list string) (sub : EndpointSubset) : option (list (list RR)) :=
  l ← mapM (xfr_endpoint base (calcSRVWeight (length (Addresses sub))) sub) (Addresses sub); Some (concat l).

Definition xfr_service (zonePath : string) (svc : KService) : st W (list (list RR)) :=
  let base := [zonePath; Svc; svcNamespace svc; svcName svc] in
  if decide (svcType svc = ServiceTypeClusterIP \/ svcType svc = ServiceTypeNodePort \/ svcType svc = ServiceTypeLoadBalancer) then
    first ← of_option (head (ClusterIPs svc));
    match ParseIP first with
    | Some _ => of_option (xfr_cluster base svc)
    | None =>
        eps ← EpIndex conn (svcName svc +:+ "." +:+ svcNamespace svc);
        l ← of_option (mapM (fun ep => l ← mapM (xfr_subset base) (Subsets ep); Some (concat l)) eps);
        mret (concat l)
    end
  else if decide (svcType svc = ServiceTypeExternalName) then
    let s := kube_service (ExternalName svc) 0 (kTtl k) (strings_Join base "/") in
    if decide ((HostType s).1 = TypeCNAME) then n ← of_option (Domain (Key s)); mret [[NewCNAME s n (Host s)]]
    else mret []
  else mret [].

Fixpoint xfr_services (zonePath : string) (l : list KService) : st W (list (list RR)) :=
  match l with
  | [] => mret []
  | svc :: l' =>
      exposed ← namespaceExposed conn k (svcNamespace svc);
      rs ← (if (exposed : bool) then xfr_service zonePath svc else mret []);
      rest ← xfr_services zonePath l';
      mret (rs ++ rest)
  end.

(** All addresses go out again for each of them; a name server once. *)
Fixpoint xfr_ns (zone : string) (all nsAddrs : list RR) (seen : gset string) : list (list RR) :=
  match nsAddrs with
  | [] => []
  | a :: nsAddrs' =>
      if decide (hName a ∈ seen) then all :: xfr_ns zone all nsAddrs' seen
      else [mkRR zone TypeNS ClassINET (kTtl k) (NS (hName a))] :: all :: xfr_ns zone all nsAddrs' ({[ hName a ]} ∪ seen)
  end.

Context (up : Ctx -> Request -> string -> Z -> st W (string + option Msg)) `{GoSort}.

(** No request is needed for the SOA record. *)
Definition empty_request : Request := newRequest (mkWriter (OtherAddr EmptyString) (OtherAddr EmptyString)) None.

Definition kube_Transfer : Transferer W := fun zone serial =>
  if decide (Zones_Matches (kZones k) zone = EmptyString) then mret (inr ErrNotAuthoritative)
  else
    soa ← backend_SOA (kube_backend conn k up) zone empty_request;
    serviceList ← ServiceList conn;
    s ← of_option (r ← head soa; match rdata r with SOA _ _ s _ _ _ _ => Some s | _ => None end);
    if decide (serial <> 0 /\ s = serial)%Z then mret (inl [soa])
    else
      addrs ← nsAddrs conn k false false zone;
      services ← xfr_services (Path zone "coredns") (go_sort (fun a b => str_lt (svcName a) (svcName b)) serviceList);
      mret (inl ([soa] ++ xfr_ns zone addrs addrs ∅ ++ services ++ [soa])).
End external.

(** ** The k8s_external plugin *)

(** The plugin that knows the cluster. *)
Record Externaler (W : Type) := mkExternaler {
  eExternal : Request -> bool -> st W (list Service * Z);
  eExternalAddress : Request -> bool -> st W (list RR);
  eExternalServices : string -> bool -> st W (list Service * gmap string (list Service));
  eExternalSerial : string -> st W Z
}.
Arguments eExternal {W}. Arguments eExternalAddress {W}. Arguments eExternalServices {W}. Arguments eExternalSerial {W}.

Definition kube_externaler `{DnsNames} `{DnsMsgs} {W} (conn : dnsController W) (k : Kubernetes) : Externaler W := {|
  eExternal := kube_External conn k;
  eExternalAddress := fun state headless => kube_ExternalAddress conn k (rZone state) headless;
  eExternalServices := kube_ExternalServices conn k;
  eExternalSerial := fun _ => kube_ExternalSerial conn
|}.

Record External := mkExternal {
  xtZones : list string;
  xtHostmaster : string;
  xtApex : string;
  xtTtl : Z;
  xtHeadless : bool
}.

Definition newExternal (zones : list string) : External := mkExternal zones "hostmaster" "dns" 5 false.

Section k8s_external.
Context `{DnsNames} `{DnsMsgs} {W : Type} (e : External).
(** The kubernetes plugin and the upstream. *)
Context (x : Externaler W) (upstream : Ctx -> Request -> string -> Z -> st W (string + option Msg)) (f16 : spec_float -> Z).

Definition ext_soa (zone : string) : st W RR :=
  mbox ← of_option (Join [xtHostmaster e; xtApex e; zone]);
  ns ← of_option (Join ["ns1"%string; xtApex e; zone]);
  serial ← eExternalSerial x zone;
  mret (mkRR zone TypeSOA ClassINET (xtTtl e) (SOA ns mbox serial 7200 1800 86400 (xtTtl e))).

Definition ext_ns (zone : string) : option RR :=
  ns ← Join ["ns1"%string; xtApex e; zone]; Some (mkRR zone TypeNS ClassINET (xtTtl e) (NS ns)).

Definition set_hName_ttl (n : string) (t : Z) (r : RR) : RR := mkRR n (hRrtype r) (hClass r) t (rdata r).

(** *** Records *)

(** The records an upstream adds for an alias. *)
Definition ext_upstream (ctx : Ctx) (state : Request) (host : string) (t : Z) : st W (list RR * bool) :=
  r ← upstream ctx state (Fqdn host) t;
  match r with
  | inl _ => mret ([], false)
  | inr None => panic
  | inr (Some resp) => mret (mAnswer resp, mTruncated resp)
  end.

(** [a] and [aaaa]; [want] is the type. *)
Fixpoint ext_addrs (ctx : Ctx) (want : Z) (state : Request) (services : list Service) (dup : gset string)
  : st W (list RR * bool) :=
  match services with
  | [] => mret ([], false)
  | s :: services' =>
      let '(what, ip) := HostType s in
      if decide (what = TypeCNAME) then
        '(more, tc) ← ext_upstream ctx state (Host s) want;
        '(rest, tc') ← ext_addrs ctx want state services' dup;
        mret (NewCNAME s (QName state) (Host s) :: more ++ rest, tc || tc')
      else if decide (what = want /\ Host s ∉ dup) then
        '(rest, tc) ← ext_addrs ctx want state services' ({[ Host s ]} ∪ dup);
        let rr := if decide (want = TypeA) then NewA s (QName state) ip else NewAAAA s (QName state) ip in
        mret (set_hTtl (xtTtl e) rr :: rest, tc)
      else ext_addrs ctx want state services' dup
  end.

Definition ext_a (ctx : Ctx) (services : list Service) (state : Request) := ext_addrs ctx TypeA state services ∅.
Definition ext_aaaa (ctx : Ctx) (services : list Service) (state : Request) := ext_addrs ctx TypeAAAA state services ∅.

Fixpoint ext_ptr (services : list Service) (qname : string) (dup : gset string) : option (list RR) :=
  match services with
  | [] => Some []
  | s :: services' =>
      if decide (Host s ∈ dup) then ext_ptr services' qname dup
      else
        zone ← head (xtZones e);
        target ← Join [Host s; zone];
        rest ← ext_ptr services' qname ({[ Host s ]} ∪ dup);
        Some (set_hTtl (xtTtl e) (NewPTR s qname target) :: rest)
  end.

Fixpoint ext_srv_loop (ctx : Ctx) (w : gmap Z Z) (state : Request) (services : list Service) (dup : list dup_item)
    (records extra : list RR) : st W (list RR * list RR) :=
  match services with
  | [] => mret (records, extra)
  | s :: services' =>
      if decide (sPort s = -1)%Z then ext_srv_loop ctx w state services' dup records extra
      else
        let weight := srv_weight f16 w s in
        let '(what, ip) := HostType s in
        if decide (what = TypeCNAME) then
          let addr := Fqdn (Host s) in
          srv ← of_option (NewSRV s (QName state) weight);
          target ← of_option (target_host s);
          let '(ok1, dup) := isDuplicate dup target EmptyString (u16 (sPort s)) in
          let '(ok2, dup) := isDuplicate dup target addr 0 in
          more ← (if (ok2 : bool) then mret []
                  else
                    '(m1, _) ← ext_upstream ctx state (Host s) TypeA;
                    '(m2, _) ← ext_upstream ctx state (Host s) TypeAAAA;
                    mret (m1 ++ m2));
          ext_srv_loop ctx w state services' dup (if ok1 then records else records ++ [srv]) (extra ++ more)
        else if decide (what = TypeA \/ what = TypeAAAA) then
          let addr := Host s in
          host ← of_option (Domain (Key s));
          let s := set_Host host s in
          srv ← of_option (NewSRV s (QName state) weight);
          target ← of_option (target_host s);
          let '(ok1, dup) := isDuplicate dup target EmptyString (u16 (sPort s)) in
          let '(ok2, dup) := isDuplicate dup target addr 0 in
          ext_srv_loop ctx w state services' dup (if ok1 then records else records ++ [srv])
            (if ok2 then extra
             else extra ++ [mkRR target what ClassINET (xtTtl e) (if decide (what = TypeA) then A ip else AAAA ip)])
        else ext_srv_loop ctx w state services' dup records extra
  end.

Definition ext_srv (ctx : Ctx) (services : list Service) (state : Request) : st W (list RR * list RR) :=
  ext_srv_loop ctx (fold_left add_weight services ∅) state services [] [] [].

(** *** The apex *)

Definition ext_reply (req : Msg) : Msg := set_mAuthoritative true (SetReply zeroMsg req).

Definition set_mAnswer (rs : list RR) (m : Msg) : Msg := set_sections rs (mNs m) (mExtra m) m.
Definition set_mNs (rs : list RR) (m : Msg) : Msg := set_sections (mAnswer m) rs (mExtra m) m.

Definition serveApex (state : Request) : st W Msg :=
  req ← of_option (Req state);
  let m := ext_reply req in
  if decide (QType state = TypeSOA) then soa ← ext_soa (rZone state); mret (set_mAnswer [soa] m)
  else if decide (QType state = TypeNS) then
    ns ← of_option (ext_ns (rZone state));
    addr ← eExternalAddress x state (xtHeadless e);
    extra ← of_option (mapM (fun rr => n ← Join ["ns1"%string; xtApex e; QName state]; Some (set_hName_ttl n (xtTtl e) rr)) addr);
    mret (set_sections [ns] (mNs m) extra m)
  else soa ← ext_soa (rZone state); mret (set_mNs [soa] m).

Definition ext_nxdomain (state : Request) (m : Msg) : st W Msg :=
  soa ← ext_soa (rZone state); mret (set_mNs [soa] (SetRcode m m RcodeNameError)).

Definition serveSubApex (state : Request) (name : string) : st W Msg :=
  base ← of_option (trimmed name (rZone state));
  req ← of_option (Req state);
  let m := ext_reply req in
  match CountLabel base with
  | 2 =>
      let nl := fst (NextLabel base 0) in
      ns ← of_option (slice base 0 nl);
      if decide (ns <> "ns1."%string) then ext_nxdomain state m
      else
        addr ← eExternalAddress x state (xtHeadless e);
        let qtype := QType state in
        let answer := filter (fun rr => (qtype = TypeA \/ qtype = TypeAAAA) /\ hRrtype rr = qtype)
                        (map (set_hName_ttl (QName state) (xtTtl e)) addr) in
        match answer with
        | [] => soa ← ext_soa (rZone state); mret (set_mNs [soa] m)
        | _ => mret (set_mAnswer answer m)
        end
  | 1 => soa ← ext_soa (rZone state); mret (set_mNs [soa] m)
  | _ => ext_nxdomain state m
  end.

(** *** The handler *)

(** The loop over the zones: the apex of any of them, or below its name
    servers. *)
Fixpoint ext_apex (zones : list string) (state : Request) (name : string) : st W (option Msg) :=
  match zones with
  | [] => mret None
  | z :: zones' =>
      if decide (name = z) then m ← serveApex state; mret (Some m)
      else if IsSubDomain (xtApex e +:+ "." +:+ z) name then m ← serveSubApex state name; mret (Some m)
      else ext_apex zones' state name
  end.

Definition ext_answer (ctx : Ctx) (state : Request) : st W Msg :=
  '(svc, rcode) ← eExternal x state (xtHeadless e);
  req ← of_option (Req state);
  let m := ext_reply req in
  match svc with
  | [] => soa ← ext_soa (rZone state); mret (set_mNs [soa] (set_mRcode rcode m))
  | _ =>
      let qtype := QType state in
      '(answer, extra, tc) ←
        (if decide (qtype = TypeA) then '(rs, tc) ← ext_a ctx svc state; mret (rs, [], tc)
         else if decide (qtype = TypeAAAA) then '(rs, tc) ← ext_aaaa ctx svc state; mret (rs, [], tc)
         else if decide (qtype = TypeSRV) then '(rs, ex) ← ext_srv ctx svc state; mret (rs, ex, false)
         else if decide (qtype = TypePTR) then rs ← of_option (ext_ptr svc (QName state) ∅); mret (rs, [], false)
         else mret ([], [], false));
      let m := set_mTruncated tc (set_sections answer (mNs m) extra m) in
      match answer with
      | [] => soa ← ext_soa (rZone state); mret (set_mNs [soa] m)
      | _ => mret m
      end
  end.

(** [configured] tells that there is a kubernetes plugin: the functions of [x]
    are nil otherwise. *)
Context (next : option (Handler W)) (configured : bool).

Definition External_Name : string := "k8s_external".

Definition External_ServeDNS : Handler W := fun ctx w r s =>
  let '(state, name) := Name (newRequest w (Some r)) in
  let zone := Zones_Matches (xtZones e) name in
  if decide (zone = EmptyString \/ configured = false) then NextOrFailure External_Name next ctx w r s
  else
    let state := set_rZone zone state in
    '(s, found) ← ext_apex (xtZones e) state name s;
    match found with
    | Some m => Some (s, [m], RcodeSuccess, None)
    | None => '(s, m) ← ext_answer ctx state s; Some (s, [m], RcodeSuccess, None)
    end.

(** *** Transfers *)

(** A request with only a question name. *)
Definition named_request (name : string) : Request :=
  newRequest (mkWriter (OtherAddr EmptyString) (OtherAddr EmptyString))
    (Some (set_mQuestion [mkQuestion name 0 0] zeroMsg)).

Definition ext_ctx : Ctx := mkCtx 0 None.

Definition nonempty (rs : list RR) : list (list RR) := match rs with [] => [] | _ => [rs] end.

(** The addresses of services under a name. *)
Definition xt_addresses (svcs : list Service) (s : Request) : st W (list (list RR)) :=
  '(as_, _) ← ext_a ext_ctx svcs s;
  '(aaaas, _) ← ext_aaaa ext_ctx svcs s;
  mret (nonempty as_ ++ nonempty aaaas).

(** The SRV records whose names have not been seen. *)
Fixpoint unseen (seen : gset string) (recs : list RR) : list (list RR) * gset string :=
  match recs with
  | [] => ([], seen)
  | srv :: recs' =>
      if decide (hName srv ∈ seen) then unseen seen recs'
      else let '(rest, seen) := unseen ({[ hName srv ]} ∪ seen) recs' in ([srv] :: rest, seen)
  end.

Fixpoint xt_services (svcs : list Service) (seen : gset string) : st W (list (list RR)) :=
  match svcs with
  | [] => mret []
  | svc :: svcs' =>
      name ← of_option (Domain (Key svc));
      let s := named_request name in
      addrs ← (if decide (TargetStrip svc = 0)%Z then xt_addresses [svc] s else mret []);
      '(recs, _) ← ext_srv ext_ctx [svc] s;
      let '(new, seen) := unseen seen recs in
      rest ← xt_services svcs' seen;
      mret (addrs ++ new ++ rest)
  end.

(** Addresses and SRV records of services under a name, the latter twice. *)
Definition xt_headless (svcs : list Service) (name : string) : st W (list (list RR)) :=
  let s := named_request name in
  addrs ← xt_addresses svcs s;
  '(recs, _) ← ext_srv ext_ctx svcs s;
  mret (addrs ++ [recs] ++ map (fun srv => [srv]) recs).

Fixpoint xt_each (svcs : list Service) : st W (list (list RR)) :=
  match svcs with
  | [] => mret []
  | svc :: svcs' =>
      name ← of_option (Domain (Key svc));
      own ← xt_headless [svc] name;
      rest ← xt_each svcs';
      mret (own ++ rest)
  end.

(** The key without its last part, and that part. *)
Definition split_key (key : string) : option (string * string) :=
  i ← LastIndexByte ch_slash key; Some (stake i key, sdrop (S i) key).

Fixpoint xt_groups (l : list (string * list Service)) : st W (list (list RR)) :=
  match l with
  | [] => mret []
  | (key, svcs) :: l' =>
      '(front, switchKey) ← of_option (split_key key);
      name ← of_option (Domain front);
      batch ← (if decide (switchKey = kEndpoint) then own ← xt_headless svcs name; each ← xt_each svcs; mret (own ++ each)
               else if decide (switchKey = kPortProtocol) then '(recs, _) ← ext_srv ext_ctx svcs (named_request name); mret [recs]
               else mret []);
      rest ← xt_groups l';
      mret (batch ++ rest)
  end.

Context `{GoRange}.

Definition ext_Transfer : Transferer W := fun zone serial =>
  if decide (Zones_Matches (xtZones e) zone <> zone) then mret (inr ErrNotAuthoritative)
  else
    let zone := if decide (zone = dot) then EmptyString else zone in
    let state := set_rZone zone empty_request in
    soa ← (if configured then ext_soa zone else panic);
    s ← of_option (match rdata soa with SOA _ _ s _ _ _ _ => Some s | _ => None end);
    if decide (serial <> 0 /\ s <= serial)%Z then mret (inl [[soa]])
    else
      let nsName := "ns1." +:+ xtApex e +:+ "." +:+ zone in
      addrs ← eExternalAddress x state (xtHeadless e);
      '(svcs, headlessSvcs) ← eExternalServices x zone (xtHeadless e);
      named ← xt_services svcs ∅;
      groups ← xt_groups (go_range headlessSvcs);
      mret (inl ([soa] :: [mkRR zone TypeNS ClassINET (xtTtl e) (NS nsName)] ::
                 map (fun rr => [set_hName_ttl nsName (xtTtl e) rr]) addrs ++ named ++ groups ++ [[soa]])).
End k8s_external.
