(* ===== verification/KubeKeys.v ===== *)
(** * Keys made of cluster names

    When the key of a service has a name in it: the keys that the kubernetes
    plugin joins by hand always do, and the keys of names do when some label
    has no slash. *)

From S2P Require Import Prelude.
From S2P Require Import GoStd.
From S2P Require Import GoNet.
From S2P Require Import DnsNames.
From S2P Require Import DnsUtil.
From S2P Require Import Service.
From S2P Require Import BackendTheorems.

Lemma Split_app c s t : strings_Split c (s +:+ String c t) = strings_Split c s ++ strings_Split c t.
Proof.
  unfold strings_Split.
  assert (forall cur, split_at_byte c cur (s +:+ String c t) = split_at_byte c cur s ++ split_at_byte c EmptyString t) as E; [|apply E].
  induction s as [|d s IH]; intros cur.
  - rewrite sapp_nil_l. simpl. by rewrite decide_True.
  - rewrite sapp_cons. cbn [split_at_byte]. case_decide; rewrite IH; done.
Qed.

Lemma Split_not_nil c s : strings_Split c s <> [].
Proof. unfold strings_Split. generalize EmptyString as cur. induction s as [|d s IH]; intros cur; [done|]. simpl. by case_decide. Qed.

Lemma Split_Join_concat c fs :
  fs <> [] -> strings_Split c (strings_Join fs (String c EmptyString)) = concat (map (strings_Split c) fs).
Proof.
  intros Hne. induction fs as [|f fs IH]; [done|]. destruct fs as [|g fs]; [simpl; by rewrite app_nil_r|].
  rewrite Join_cons, sapp_cons, sapp_nil_l, Split_app, IH by done. done.
Qed.

Lemma Join_some `{DnsNames} ls : ls <> [] -> is_Some (Join ls).
Proof. destruct ls as [|l ls _] using rev_ind; [done|]. intros _. destruct (Join_total l ls) as [s ->]. by eexists. Qed.

(** Three parts after the last empty one has been dropped. *)
Lemma Domain_parts `{DnsNames} s :
  (let l := strings_Split ch_slash s in
   (3 <= length (if decide (last l = Some EmptyString) then removelast l else l))%nat) -> is_Some (Domain s).
Proof.
  unfold Domain. cbv zeta. destruct (if decide _ then _ else _) as [|a [|b rest]]; simpl; [lia..|]. intros Hl.
  apply Join_some. destruct rest as [|c rest]; [simpl in Hl; lia|]. simpl. rewrite <- app_assoc. simpl.
  destruct (rev rest); [done|]. simpl. destruct l; done.
Qed.

Lemma removelast_len {A} (l : list A) : length (removelast l) = pred (length l).
Proof. destruct l as [|x l _] using rev_ind; [done|]. rewrite removelast_last, length_app. simpl. lia. Qed.

Lemma Domain_deep `{DnsNames} a b c d rest :
  is_Some (Domain (strings_Join (a :: b :: c :: d :: rest) "/")).
Proof.
  apply Domain_parts. cbv zeta. change "/"%string with (String ch_slash EmptyString). rewrite Split_Join_concat by done.
  assert (4 <= length (concat (map (strings_Split ch_slash) (a :: b :: c :: d :: rest))))%nat as Hl.
  { simpl. rewrite !length_app. pose proof (Split_not_nil ch_slash a). pose proof (Split_not_nil ch_slash b).
    pose proof (Split_not_nil ch_slash c). pose proof (Split_not_nil ch_slash d).
    destruct (strings_Split ch_slash a), (strings_Split ch_slash b), (strings_Split ch_slash c), (strings_Split ch_slash d); simpl; try done; lia. }
  case_decide; [|lia]. rewrite removelast_len. lia.
Qed.

(** What is between slashes in a label does not start with a dot. *)
Definition no_dot_first (e : string) : Prop := match e with String c _ => c <> DnsNames.ch_dot | EmptyString => True end.

Lemma no_dot_snoc cur d : no_dot_first cur -> d <> DnsNames.ch_dot \/ cur <> EmptyString -> no_dot_first (cur +:+ String d EmptyString).
Proof. destruct cur; [|done]. by intros _ [?|?]. Qed.

Lemma label_parts l : label_chars l = true -> Forall no_dot_first (strings_Split ch_slash l).
Proof.
  assert (forall n l, (slen l <= n)%nat -> label_chars l = true -> forall cur, no_dot_first cur ->
    Forall no_dot_first (split_at_byte ch_slash cur l)) as Hgo; [|intros Hl; by apply (Hgo (slen l))].
  clear l. induction n as [|n IH]; intros l Hl Hc cur Hcur; destruct l as [|d l]; simpl in *;
    try (constructor; [done|constructor]); [lia|].
  destruct (decide (d = DnsNames.ch_dot)) as [->|Hd]; [done|].
  destruct (decide (d = ch_bslash)) as [->|Hb].
  - destruct l as [|x l]; [done|]. rewrite decide_False by done. cbn [split_at_byte]. simpl in Hl.
    assert (no_dot_first (cur +:+ String ch_bslash EmptyString)) as H1 by (apply no_dot_snoc; [done|by left]).
    case_decide; [constructor; [done|]; apply IH; [lia|done|done]|]. apply IH; [lia|done|].
    apply no_dot_snoc; [done|]. right. by destruct cur.
  - case_decide; [constructor; [done|]|]; (apply IH; [lia|done|]); [done|]. apply no_dot_snoc; [done|by left].
Qed.

Lemma clean_go_down rooted out es :
  Forall no_dot_first es -> clean_go rooted out es = rev out ++ filter (fun e => e <> EmptyString) es.
Proof.
  intros Hes. revert out. induction Hes as [|e es He _ IH]; intros out; [by rewrite app_nil_r|].
  destruct (decide (e = EmptyString)) as [->|Hne].
  - rewrite clean_go_skip, IH, filter_cons_False by (by intros ?). done.
  - rewrite filter_cons_True by done. cbn [clean_go].
    rewrite decide_False by (intros [?|?]; [done|by subst]). rewrite decide_False by (by intros ->).
    rewrite IH. simpl. by rewrite <- app_assoc.
Qed.

Lemma IndexByte_snoc c s d : IndexByte c s = None -> d <> c -> IndexByte c (s +:+ String d EmptyString) = None.
Proof. intros Hs Hd. rewrite IndexByte_app by done. simpl. by rewrite decide_False. Qed.

Lemma Split_free c s : Forall (fun f => IndexByte c f = None) (strings_Split c s).
Proof.
  unfold strings_Split. assert (forall cur, IndexByte c cur = None -> Forall (fun f => IndexByte c f = None) (split_at_byte c cur s)) as E;
    [|by apply E].
  induction s as [|d s IH]; intros cur Hc; simpl; [by constructor|]. case_decide; [constructor; [done|by apply IH]|].
  apply IH. by apply IndexByte_snoc.
Qed.

(** The parts of a rooted path are what is left of its elements. *)
Lemma Split_Clean p ls :
  p <> EmptyString -> no_dot_first p -> IndexByte ch_slash p = None -> Forall (fun l => label_chars l = true) ls ->
  strings_Split ch_slash (path_Join (("/" +:+ p +:+ "/") :: ls)) =
  EmptyString :: p :: filter (fun e => e <> EmptyString) (concat (map (strings_Split ch_slash) ls)).
Proof.
  intros Hp1 Hp2 Hp3 Hls. cbn [path_Join]. rewrite decide_False by done. unfold Clean. set (path := strings_Join _ "/").
  assert (HasPrefix path "/" = true) as ->.
  { unfold path, HasPrefix. apply bool_decide_eq_true. destruct ls; [done|]. rewrite Join_cons. done. }
  assert (strings_Split ch_slash path = [EmptyString; p; EmptyString] ++ concat (map (strings_Split ch_slash) ls)) as ->.
  { unfold path. change "/"%string with (String ch_slash EmptyString). rewrite Split_Join_concat by done. cbn [map concat]. f_equal.
    rewrite sapp_cons, sapp_nil_l. unfold strings_Split. cbn [split_at_byte]. rewrite decide_True by done. f_equal.
    by rewrite split_at_byte_free. }
  assert (Forall no_dot_first (concat (map (strings_Split ch_slash) ls))) as Hd.
  { apply Forall_concat, Forall_map. eapply Forall_impl; [exact Hls|]. intros l. apply label_parts. }
  rewrite clean_go_down by (by repeat (constructor; [done|])). cbn [rev app].
  rewrite filter_cons_False by (by intros ?). rewrite filter_cons_True by done. rewrite filter_cons_False by (by intros ?).
  set (es := filter _ _). change (String ch_slash (strings_Join (p :: es) "/")) with (EmptyString +:+ "/" +:+ strings_Join (p :: es) "/").
  rewrite <- Join_cons. change "/"%string with (String ch_slash EmptyString). apply Split_Join; [done|].
  constructor; [done|]. constructor; [done|]. apply Forall_forall. intros e [_ He]%list_elem_of_filter.
  assert (Forall (fun f => IndexByte ch_slash f = None) (concat (map (strings_Split ch_slash) ls))) as Hf
    by (apply Forall_concat, Forall_map, Forall_true; intros l; apply Split_free).
  rewrite Forall_forall in Hf. by apply Hf.
Qed.

(** The key of a name with a label that has no slash in it has a name in it. *)
Lemma Domain_Path_some `{DnsNamesOk} n p l :
  valid_name n -> p <> EmptyString -> no_dot_first p -> IndexByte ch_slash p = None ->
  l ∈ labels n -> IndexByte ch_slash l = None -> is_Some (Domain (Path n p)).
Proof.
  intros Hn Hp1 Hp2 Hp3 Hl Hs. apply Domain_parts. cbv zeta. unfold Path. rewrite SplitDomainName_ok by (by right).
  destruct Hn as (_ & Hls & _).
  assert (l <> EmptyString) as Hne by (rewrite Forall_forall in Hls; by apply Hls).
  rewrite Split_Clean; [|done..|apply Forall_rev; eapply Forall_impl; [exact Hls|]; by intros ? []].
  set (es := filter _ _).
  assert (l ∈ es) as Hin.
  { apply list_elem_of_filter. split; [done|]. apply list_elem_of_In, in_concat. exists [l]. split; [|by left].
    apply in_map_iff. exists l. split; [unfold strings_Split; by rewrite split_at_byte_end|].
    apply in_rev. rewrite rev_involutive. by apply list_elem_of_In. }
  rewrite decide_False.
  - destruct es; [by apply elem_of_nil in Hin|]. simpl. lia.
  - assert (Forall (fun e => e <> EmptyString) es) as Hes by (apply Forall_forall; intros e [? _]%list_elem_of_filter; done).
    destruct es as [|e es _] using rev_ind; [by apply elem_of_nil in Hin|].
    change (EmptyString :: p :: es ++ [e]) with ((EmptyString :: p :: es) ++ [e]). rewrite last_snoc. intros [= ->].
    apply Forall_app in Hes as [_ Hes]. by apply Forall_cons in Hes as [? _].
Qed.
