(* ===== verification/KubernetesTheorems.v ===== *)
(** * Theorems on the kubernetes plugin

    The contract between the plugin and its cache, the handler against that
    contract, the cache as an implementation of it, and queries answered from
    what the API server reported. *)

From Stdlib Require Import SpecFloat.
From S2P Require Import Prelude.
From S2P Require Import GoStd.
From S2P Require Import GoNet.
From S2P Require Import DnsNames.
From S2P Require Import DnsMsg.
From S2P Require Import DnsUtil.
From S2P Require Import Request.
From S2P Require Import Plugin.
From S2P Require Import ZoneSpec.
From S2P Require Import Hosts.
From S2P Require Import HostsTheorems.
From S2P Require Import Service.
From S2P Require Import Backend.
From S2P Require Import BackendTheorems.
From S2P Require Import KubeObject.
From S2P Require Import KubeController.
From S2P Require Import Kubernetes.
From S2P Require Import KubeKeys.

(** ** The contract of the cache *)

(** Names that the API server admits are labels. *)
Definition service_good (s : KService) : Prop :=
  service_shape s /\ label_ok (svcName s) /\ label_ok (svcNamespace s).

Definition endpoints_good (mode : bool) (e : KEndpoints) : Prop :=
  Forall (fun sub => Forall (fun a => label_ok (endpointHostname a mode)) (Addresses sub)) (Subsets e).

(** The cache answers, with good objects; it has pods when it is asked to keep
    them. *)
Class ControllerOk {W} (conn : dnsController W) (mode pods : bool) : Prop := {
  ServiceList_ok : wp (ServiceList conn) (Forall service_good);
  SvcIndex_ok idx : wp (SvcIndex conn idx) (Forall service_good);
  SvcIndexReverse_ok ip : wp (SvcIndexReverse conn ip) (Forall service_good);
  SvcExtIndexReverse_ok ip : wp (SvcExtIndexReverse conn ip) (Forall service_good);
  EpIndex_ok idx : wp (EpIndex conn idx) (Forall (endpoints_good mode));
  EpIndexReverse_ok ip : wp (EpIndexReverse conn ip) (Forall (endpoints_good mode));
  PodIndex_ok ip : pods = true -> wp (PodIndex conn ip) (fun _ => True);
  GetNamespaceByName_ok n : wp (GetNamespaceByName conn n) (fun _ => True);
  HasSynced_ok : wp (HasSynced conn) (fun _ => True);
  Modified_ok ext : wp (Modified conn ext) (fun _ => True)
}.

(** Pods are kept in verified mode, and one zone is the primary. *)
Definition config_ok (pods : bool) (k : Kubernetes) : Prop :=
  (podMode k <> podModeDisabled -> podMode k <> podModeInsecure -> pods = true) /\ is_Some (primaryZone k).

Ltac wp_step := apply wp_bind; eapply wp_mono.

Lemma TrimZone_total `{DnsNamesOk} q z : is_Some (TrimZone q z).
Proof.
  unfold TrimZone. pose proof (PrevLabel_index q (CountLabel z)) as Hi. destruct (PrevLabel q (CountLabel z)) as [i ok]. simpl in Hi.
  destruct (ok || _)%bool; [by eexists|]. unfold slice. rewrite decide_True by lia. by eexists.
Qed.

Lemma trimmed_total `{DnsNamesOk} q z : is_Some (trimmed q z).
Proof. unfold trimmed. destruct (TrimZone_total q z) as [r ->]. by eexists. Qed.

Lemma parseRequest_total `{DnsNamesOk} name zone : is_Some (parseRequest name zone).
Proof. unfold parseRequest. destruct (trimmed_total name zone) as [b ->]. simpl. case_decide; by eexists. Qed.

Lemma shape_headless s : service_shape s -> is_Some (Headless s).
Proof. intros (Hc & _). unfold Headless. destruct (ClusterIPs s); [done|]. by eexists. Qed.

Section lookups.
Context `{Nok : DnsNamesOk} `{DnsMsgs} {W : Type} (conn : dnsController W) (k : Kubernetes) (pods : bool).
Context (Cok : ControllerOk conn (endpointNameMode k) pods) (Kok : config_ok pods k).

#[local] Abbreviation good := (Forall (service_ok True)).
Definition good_services (r : string + list Service) : Prop := match r with inl _ => True | inr sx => good sx end.

Lemma deep_ok host port a b c d rest :
  service_ok True (kube_service host port (kTtl k) (strings_Join (a :: b :: c :: d :: rest) "/")).
Proof. split; [done|]. intros _. apply Domain_deep. Qed.

Lemma namespaceExposed_wp n : wp (namespaceExposed conn k n) (fun _ => True).
Proof using Cok.
  unfold namespaceExposed, filteredNamespaceExists. destruct (configuredNamespace k n); [|by apply wp_ret].
  wp_step; [apply GetNamespaceByName_ok|]. intros r _. by apply wp_ret.
Qed.

Lemma findPods_wp r zone : wp (findPods conn k r zone) good_services.
Proof using Cok Kok.
  unfold findPods. case_decide as Hd; [by apply wp_ret|].
  wp_step; [apply namespaceExposed_wp|]. intros [|] _; [|by apply wp_ret]. cbn [negb]. case_decide.
  { wp_step; [apply namespaceExposed_wp|]. intros [|] _; apply wp_ret; [constructor|done]. }
  case_decide as Hi.
  - wp_step; [apply namespaceExposed_wp|]. intros [|] _; [|by apply wp_ret]. cbn [negb].
    destruct (ParseIP _); apply wp_ret; [|done]. constructor; [|constructor]. apply deep_ok.
  - wp_step; [apply PodIndex_ok, Kok; done|]. intros ps _. apply wp_ret.
    assert (forall s, service_ok True s -> good (omap (fun p => if decide (pod_ip (rrService r) = PodIP p /\
      match_ (rrNamespace r) (podNamespace p) = true) then Some s else None) ps)) as Hg.
    { intros s Hs. induction ps as [|p ps IH]; [constructor|]. cbn [omap list_omap]. case_decide; [by constructor|done]. }
    specialize (Hg _ (deep_ok (pod_ip (rrService r)) 0 (Path zone kube_prefix) Pod (rrNamespace r) (rrService r) [])).
    destruct (omap _ ps); [done|exact Hg].
Qed.

Lemma flat_map_Forall {A B} (P : B -> Prop) (f : A -> list B) l : (forall x, x ∈ l -> Forall P (f x)) -> Forall P (flat_map f l).
Proof.
  intros Hf. induction l as [|x l IH]; simpl; [constructor|]. apply Forall_app. split; [apply Hf; by left|].
  apply IH. intros y Hy. apply Hf. by right.
Qed.

Lemma endpoint_services_good r zp svc ep : good (endpoint_services k r zp svc ep).
Proof.
  unfold endpoint_services. case_decide; [constructor|]. apply flat_map_Forall. intros sub _.
  apply flat_map_Forall. intros a _. case_decide; [constructor|]. apply flat_map_Forall. intros p _.
  destruct (matchPortAndProtocol _ _ _ _); [|constructor]. constructor; [apply deep_ok|constructor].
Qed.

Lemma cluster_services_good r zp svc : good (cluster_services k r zp svc).1.
Proof.
  unfold cluster_services. cbn [fst]. apply flat_map_Forall. intros p _. apply Forall_map, Forall_true. intros ip. apply deep_ok.
Qed.

Lemma empty_service_wp idx svc : service_good svc -> wp (empty_service conn k idx svc) (fun _ => True).
Proof using Cok.
  intros [Hs _]. unfold empty_service. case_decide; [|by apply wp_ret]. destruct (shape_headless svc Hs) as [h Eh].
  apply wp_bind. eapply wp_option; [exact Eh|]. destruct h; [by apply wp_ret|].
  wp_step; [apply EpIndex_ok|]. intros eps _. by apply wp_ret.
Qed.

Lemma services_loop_wp r zp idx l eps services found :
  Forall service_good l -> good services ->
  wp (services_loop conn k r zp idx l eps services found) (fun '(s, _) => good s).
Proof using Cok.
  intros Hl. revert eps services found. induction Hl as [|svc l Hsvc Hl IH]; intros eps services found Hg; [by apply wp_ret|].
  cbn [services_loop]. destruct (negb _); [by apply IH|].
  wp_step; [by apply empty_service_wp|]. intros [|] _; [by apply IH|].
  destruct (decide (svcType svc = _)).
  - destruct (decide (rrEndpoint r <> _)); [by apply IH|]. destruct (decide (_ = TypeCNAME)); apply IH; [|done].
    apply Forall_app. split; [done|]. constructor; [apply deep_ok|constructor].
  - destruct (shape_headless svc (proj1 Hsvc)) as [h Eh]. apply wp_bind. eapply wp_option; [exact Eh|].
    destruct (_ || _)%bool.
    + apply wp_bind. apply (wp_mono _ (fun _ => True)).
      { destruct eps; [|by apply wp_ret]. eapply wp_mono; [apply EpIndex_ok|done]. }
      intros eps' _. apply IH. apply Forall_app. split; [done|]. apply flat_map_Forall. intros ep _. apply endpoint_services_good.
    + pose proof (cluster_services_good r zp svc) as Hc. destruct (cluster_services k r zp svc) as [new m].
      apply IH. by apply Forall_app.
Qed.

Lemma findServices_wp r zone : wp (findServices conn k r zone) good_services.
Proof using Cok.
  unfold findServices. wp_step; [apply namespaceExposed_wp|]. intros [|] _; [|by apply wp_ret]. cbn [negb]. case_decide.
  { wp_step; [apply namespaceExposed_wp|]. intros [|] _; apply wp_ret; [constructor|done]. }
  wp_step; [apply SvcIndex_ok|]. intros l Hl. wp_step; [apply services_loop_wp; [done|constructor]|].
  intros [s [|]] Hs; apply wp_ret; [exact Hs|done].
Qed.

Lemma Records_wp state : wp (kube_Records conn k state) good_services.
Proof using Cok Kok Nok.
  unfold kube_Records. destruct (Name state) as [s1 name]. destruct (parseRequest_total name (rZone s1)) as [[r e] Ep].
  apply wp_bind. eapply wp_option; [exact Ep|]. destruct e; [by apply wp_ret|].
  case_decide; [apply wp_ret; constructor|]. case_decide; [by apply wp_ret|].
  wp_step; [apply namespaceExposed_wp|]. intros [|] _; [|by apply wp_ret]. cbn [negb].
  case_decide; [apply findPods_wp|apply findServices_wp].
Qed.

(** *** The server's own addresses *)

(** A name whose key has a name in it. *)
Definition keyed_name (n : string) : Prop :=
  valid_name n /\ exists l, l ∈ labels n /\ IndexByte ch_slash l = None.

Lemma keyed_dotted ls zone l :
  ls <> [] -> Forall label_ok ls -> valid_name zone -> l ∈ ls -> IndexByte ch_slash l = None -> keyed_name (dotted ls +:+ zone).
Proof.
  intros Hne Hls (Hz & Hzl & Ez) Hl Hs. rewrite Ez, <- dotted_app.
  assert (ls ++ labels zone <> []) as Hn by (by destruct ls).
  assert (Forall label_ok (ls ++ labels zone)) as Ha by (by apply Forall_app).
  split; [by apply valid_name_dotted|]. exists l. rewrite labels_dotted by done. split; [|done]. apply elem_of_app. by left.
Qed.

Lemma svc_label : label_ok Svc.
Proof. decided. Qed.

Lemma ns_of_service_ok zone ep svc :
  service_good svc -> endpoints_good (endpointNameMode k) ep ->
  exists l, ns_of_service k false false zone ep svc = Some l /\ (valid_name zone -> Forall (fun na => keyed_name na.1) l).
Proof.
  intros (Hs & Hn & Hns) He. unfold ns_of_service. destruct (shape_headless svc Hs) as [h ->]. cbn [mbind option_bind].
  eexists. split; [reflexivity|]. intros Hz.
  set (name := strings_Join [svcName svc; svcNamespace svc; Svc; zone] ".").
  assert (name = dotted [svcName svc; svcNamespace svc; Svc] +:+ zone) as En
    by (unfold name; simpl; change dot with "."%string; by rewrite !sapp_assoc, ?sapp_nil_l).
  destruct h.
  - apply flat_map_Forall. intros sub Hsub. unfold endpoints_good in He. rewrite Forall_forall in He.
    specialize (He _ Hsub). apply Forall_map. eapply Forall_impl; [exact He|]. intros a Ha. simpl.
    rewrite En. change (endpointHostname a (endpointNameMode k) +:+ "." +:+ dotted [svcName svc; svcNamespace svc; Svc] +:+ zone)
      with (endpointHostname a (endpointNameMode k) +:+ dot +:+ dotted [svcName svc; svcNamespace svc; Svc] +:+ zone).
    rewrite <- !sapp_assoc.
    rewrite (sapp_assoc (endpointHostname a (endpointNameMode k))).
    apply (keyed_dotted [endpointHostname a (endpointNameMode k); svcName svc; svcNamespace svc; Svc] zone Svc); try done.
    + repeat (constructor; [done || apply svc_label|]). constructor.
    + by do 3 right; left.
  - apply Forall_map, Forall_true. intros ip. simpl. rewrite En.
    apply (keyed_dotted [svcName svc; svcNamespace svc; Svc] zone Svc); try done.
    + repeat (constructor; [done || apply svc_label|]). constructor.
    + by do 2 right; left.
Qed.

Lemma ns_endpoints_wp zone eps :
  Forall (endpoints_good (endpointNameMode k)) eps ->
  wp (ns_endpoints conn k false false zone eps) (fun l => valid_name zone -> Forall (fun na => keyed_name na.1) l).
Proof using Cok.
  induction 1 as [|ep eps He _ IH]; [apply wp_ret; by constructor|]. cbn [ns_endpoints].
  wp_step; [apply SvcIndex_ok|]. intros svcs Hsvcs.
  assert (exists ls, mapM (ns_of_service k false false zone ep) svcs = Some ls /\
    (valid_name zone -> Forall (fun na => keyed_name na.1) (concat ls))) as (ls & El & Hls).
  { induction Hsvcs as [|svc svcs Hsvc _ IHs]; [exists []; split; [done|]; by constructor|].
    destruct (ns_of_service_ok zone ep svc Hsvc He) as (l & E1 & H1). destruct IHs as (ls & E2 & H2).
    exists (l :: ls). cbn [mapM]. rewrite E1. cbn [mbind option_bind]. rewrite E2. split; [done|]. intros Hz. simpl. apply Forall_app. auto. }
  apply wp_bind. eapply wp_option; [exact El|]. wp_step; [exact IH|]. intros rest Hrest. apply wp_ret. intros Hz.
  apply Forall_app. auto.
Qed.

Lemma ns_local_wp zone ips :
  wp (ns_local conn k false false zone ips) (fun '(l, _) => valid_name zone -> Forall (fun na => keyed_name na.1) l).
Proof using Cok.
  induction ips as [|ip ips IH]; [apply wp_ret; by constructor|]. cbn [ns_local].
  wp_step; [apply EpIndexReverse_ok|]. intros eps Heps. wp_step; [by apply ns_endpoints_wp|]. intros found Hf.
  wp_step; [exact IH|]. intros [rest any] Hr. apply wp_ret. intros Hz. apply Forall_app. auto.
Qed.

Lemma nsAddrs_wp zone :
  wp (nsAddrs conn k false false zone) (fun rs => valid_name zone -> Forall (fun r => keyed_name (hName r)) rs).
Proof using Cok.
  unfold nsAddrs. wp_step; [apply ns_local_wp|]. intros [found any] Hf. apply wp_ret. intros Hz.
  assert (forall na, keyed_name na.1 -> keyed_name (hName (ns_record na))) as Hr.
  { intros [n ip] Hn. unfold ns_record. by destruct (To4 ip). }
  apply Forall_map. destruct any; (eapply Forall_impl; [|exact Hr]); [by apply Hf|].
  apply Forall_map, Forall_true. intros ip. simpl.
  apply (keyed_dotted ["ns"; "dns"]%string zone "ns"); try done; [|by left].
  constructor; [decided|]. constructor; [decided|constructor].
Qed.

(** *** The interface of backends *)

(** The keys of SRV and MX records, and of NS records of proper zones. *)
Definition kube_named (t : Z) (zone : string) : Prop := t = TypeSRV \/ t = TypeMX \/ (t = TypeNS /\ valid_name zone).

Lemma service_ok_weaken P s : service_ok True s -> service_ok P s.
Proof. intros [Ht Hk]. split; [done|]. intros _. by apply Hk. Qed.

Lemma services_ok_weaken P r : good_services r -> services_ok P r.
Proof. destruct r as [|sx]; [done|]. intros Hs. eapply Forall_impl; [exact Hs|]. intros s. apply service_ok_weaken. Qed.

Lemma omap_Forall {A B} (P : B -> Prop) (f : A -> option B) l : (forall x y, x ∈ l -> f x = Some y -> P y) -> Forall P (omap f l).
Proof.
  intros Hf. induction l as [|x l IH]; [constructor|]. cbn [omap list_omap].
  assert (Forall P (omap f l)) as Hl by (apply IH; intros y z Hy; apply Hf; by right).
  destruct (f x) eqn:E; [|done]. constructor; [|done]. apply (Hf x); [by left|done].
Qed.

Lemma prefix_path n : keyed_name n -> is_Some (Domain (Path n kube_prefix)).
Proof. intros (Hv & l & Hl & Hs). by apply (Domain_Path_some n kube_prefix l). Qed.

Lemma Services_wp ctx state exact :
  wp (kube_Services conn k ctx state exact) (services_ok (kube_named (QType state) (rZone state))).
Proof using Cok Kok Nok.
  unfold kube_Services. pose proof (Req_Name state) as Hreq.
  assert (rZone (Name state).1 = rZone state) as Hz by (unfold Name; by case_decide).
  destruct (Name state) as [s1 name]. simpl in Hreq, Hz.
  assert (QType s1 = QType state) as -> by (unfold QType; by rewrite Hreq). rewrite Hz.
  destruct (decide (QType state = TypeTXT)) as [Ht|Ht]; [|destruct (decide (QType state = TypeNS)) as [Hns|Hns]].
  - destruct (trimmed_total name (rZone state)) as [b Eb]. apply wp_bind. eapply wp_option; [exact Eb|]. case_decide.
    + apply wp_ret. constructor; [|constructor]. split; [done|]. intros [E|[E|[E _]]]; by rewrite Ht in E.
    + wp_step; [apply Records_wp|]. intros [|[|]] _; apply wp_ret; [done|done|constructor].
  - wp_step; [apply nsAddrs_wp|]. intros nss Hnss. apply wp_ret. apply omap_Forall. intros ns s Hin.
    destruct (rr_address ns) as [[t ip]|]; [|done]. simpl. intros [= <-]. split; [done|].
    intros [E|[E|[_ Hv]]]; [by rewrite Hns in E..|]. specialize (Hnss Hv). rewrite Forall_forall in Hnss.
    by apply prefix_path, Hnss.
  - destruct (isDefaultNS name (rZone state)).
    + wp_step; [apply nsAddrs_wp|]. intros nss _. apply wp_ret. apply omap_Forall. intros ns s Hin.
      unfold rr_address. destruct (rdata ns); try done; cbn [mbind option_bind]; case_decide as E; try done; intros [= <-];
        (split; [done|]); unfold kube_named; rewrite <- E; by intros [?|[?|[? _]]].
    + wp_step; [apply Records_wp|]. intros r Hr. apply wp_ret. apply services_ok_weaken.
      destruct (decide _); [done|]. destruct r as [|sx]; [done|]. simpl in *. rewrite Forall_forall in *.
      intros s [_ Hs]%list_elem_of_filter. by apply Hr.
Qed.

Lemma namespace_hidden_wp n : wp (namespace_hidden conn k n) (fun _ => True).
Proof using Cok.
  unfold namespace_hidden. case_decide; [|by apply wp_ret]. wp_step; [apply namespaceExposed_wp|]. intros b _. by apply wp_ret.
Qed.

Lemma serviceRecordForIP_wp ip : wp (serviceRecordForIP conn k ip) (fun _ => True).
Proof using Cok Kok.
  destruct Kok as [_ [zone Hz]]. unfold serviceRecordForIP. wp_step; [apply SvcIndexReverse_ok|]. intros svcs _.
  apply wp_bind. apply (wp_mono _ (fun _ => True)).
  { induction svcs as [|svc svcs IH]; [by apply wp_ret|]. cbn [reverse_services].
    wp_step; [apply namespace_hidden_wp|]. intros [|] _; [exact IH|]. apply wp_bind. eapply wp_option; [exact Hz|]. by apply wp_ret. }
  intros [s|] _; [by apply wp_ret|]. wp_step; [apply EpIndexReverse_ok|]. intros eps _.
  induction eps as [|ep eps IH]; [by apply wp_ret|]. cbn [reverse_endpoints].
  wp_step; [apply namespace_hidden_wp|]. intros [|] _; [exact IH|].
  assert (exists l, mapM (fun host => zone ← primaryZone k;
     Some (kube_service (strings_Join [host; endIndex ep; Svc; zone] ".") 0 (kTtl k) EmptyString)) (reverse_hostnames k ip ep) = Some l)
    as [l El].
  { rewrite Hz. cbn [mbind option_bind]. induction (reverse_hostnames k ip ep) as [|h hs [l El]]; [by eexists|].
    cbn [mapM]. rewrite El. by eexists. }
  apply wp_bind. eapply wp_option; [exact El|]. wp_step; [exact IH|]. intros rest _. by apply wp_ret.
Qed.

Lemma Reverse_wp state : wp (kube_Reverse conn k state) (fun _ => True).
Proof using Cok Kok Nok.
  unfold kube_Reverse. destruct (Name state) as [s1 name]. case_decide.
  - wp_step; [apply Records_wp|]. intros [|] _; by apply wp_ret.
  - wp_step; [apply serviceRecordForIP_wp|]. intros r _. by apply wp_ret.
Qed.

Context (up : Ctx -> Request -> string -> Z -> st W (string + option Msg)).
Context (Hup : forall ctx state name typ, has_question state -> wp (up ctx state name typ) lookup_ok).

Lemma kube_backend_ok : BackendOk (kube_backend conn k up) kube_named.
Proof using Cok Kok Nok Hup.
  constructor; simpl.
  - intros ctx state exact _. apply Services_wp.
  - intros ctx state exact _. apply Reverse_wp.
  - exact Hup.
  - intros state. wp_step; [apply Modified_ok|]. intros t _. by apply wp_ret.
Qed.
End lookups.

(** ** The handler *)

(** A question whose name is a name. *)
Definition asks (r : Msg) : Prop := exists q qs, mQuestion r = q :: qs /\ fq_name (qName q).

(** A handler that answers such questions with typed records. *)
Definition answers_asked {W} (h : Handler W) : Prop := forall ctx w r s, asks r ->
  exists s' msgs rcode err, h ctx w r s = Some (s', msgs, rcode, err) /\ writes_ok rcode msgs /\ Forall typed_msg msgs.

Section handler.
Context `{Nok : DnsNamesOk} `{Mok : DnsMsgsOk} {W : Type} (conn : dnsController W) (k : Kubernetes) (pods : bool).
Context (Cok : ControllerOk conn (endpointNameMode k) pods) (Kok : config_ok pods k) (Hz : Forall valid_name (kZones k)).
Context (up : Ctx -> Request -> string -> Z -> st W (string + option Msg)) (f16 : spec_float -> Z).
Context (Hup : forall ctx state name typ, has_question state -> wp (up ctx state name typ) lookup_ok).
Context (next : option (Handler W)) (Hnext : match next with Some h => answers h | None => True end).

Lemma kube_switch_wp ctx qname zone state :
  has_question state -> (QType state = TypeNS -> (Name state).2 = zone -> valid_name (rZone state)) ->
  wp (kube_switch conn k up f16 ctx qname zone state) switch_ok.
Proof using Cok Kok Nok Hup.
  intros Hq Hns. pose proof (kube_backend_ok conn k pods Cok Kok up Hup) as Hb. unfold kube_switch.
  do 3 (case_decide; [by eapply looked_addrs_wp|]).
  case_decide; [apply looked_list_wp; [done|]; by eapply CNAME_wp|].
  case_decide; [apply looked_list_wp; [done|]; by eapply PTR_wp|].
  case_decide as Hm; [apply looked_both_wp; [done|]; apply (MX_wp _ kube_named); [done|by right; left]|].
  case_decide as Hs; [apply looked_both_wp; [done|]; apply (SRV_wp _ kube_named); [done|by left]|].
  case_decide; [case_decide; [by eapply looked_soa_wp|]; apply wp_ret; split; [exact Hq|]; split; constructor|].
  case_decide as Hn; [destruct Hn as [Ht Hn]; apply (looked_ns_wp _ kube_named); [done|]; right; right; auto|].
  destruct (NewWithQuestion_ok state (QName state) TypeA Hq) as (fake & Ef & Hf). apply wp_bind. eapply wp_option; [exact Ef|].
  apply (looked_error_wp _ kube_named); [done|]. destruct Hf as (m & q & qs & ? & ?). by exists m, q, qs.
Qed.

Lemma kube_next_wp ctx w r : mQuestion r <> [] -> wp (kube_next next ctx w r) written_ok.
Proof using Hnext.
  intros Hr s. unfold kube_next, NextOrFailure. destruct next as [h|].
  - destruct (Hnext ctx w r s Hr) as (s' & msgs & rcode & err & E & Hw). rewrite E. simpl. by eexists _, _.
  - simpl. eexists _, _. split; [done|]. split; [done|constructor].
Qed.

Lemma kube_serve_wp ctx w qname zone state :
  has_question state -> (QType state = TypeNS -> (Name state).2 = zone -> valid_name (rZone state)) ->
  wp (kube_serve conn k up f16 next ctx w qname zone state) written_ok.
Proof using Cok Kok Nok Mok Hup Hnext.
  intros Hq Hns. pose proof (kube_backend_ok conn k pods Cok Kok up Hup) as Hb.
  unfold kube_serve. case_decide; [apply wp_ret; split; [done|constructor]|].
  wp_step; [by apply kube_switch_wp|]. intros [s' res] [Hq' Hres]. simpl in Hq', Hres. pose proof Hq' as (m & q & qs & Hm & Hqs).
  apply wp_bind. eapply wp_option; [exact Hm|]. destruct res as [err|[[records extra] truncated]].
  - destruct (kube_IsNameError err); [|apply wp_ret; split; [done|constructor]].
    destruct (Through _ _); [apply kube_next_wp; by rewrite Hqs|].
    wp_step; [apply HasSynced_ok|]. intros synced _. by eapply BackendError_wp.
  - destruct Hres as [Hrs Hex]. destruct records as [|r records]; [by eapply BackendError_wp|]. apply wp_ret.
    split; [done|]. constructor; [|constructor]. unfold typed_msg. rewrite SetReply_ok. simpl. done.
Qed.

(** A zone that matches is no longer than the name, and not the root. *)
Lemma matched_zone q :
  fq_name q -> Zones_Matches (kZones k) q <> EmptyString ->
  let z := Zones_Matches (kZones k) q in (1 < slen z <= slen q)%nat.
Proof using Hz Nok.
  intros Hq Hne z. unfold z, Zones_Matches in *. destruct (Matches_loop_spec (kZones k) q EmptyString) as ([E|[Hin Hs]] & _); [done|].
  set (z0 := Matches_loop _ _ _) in *. rewrite Forall_forall in Hz. pose proof (Hz _ Hin) as Hv.
  apply IsSubDomain_ok in Hs; [|by right|done].
  destruct (valid_name_inv _ Hv) as (ls & Hne' & Hls & E & El). rewrite El in Hs.
  assert (slen z0 = slen (dotted ls)) as Ez by (by rewrite E).
  assert (1 < slen (dotted ls))%nat as H1.
  { destruct ls as [|l ls]; [done|]. apply Forall_cons in Hls as [[Hl _] _]. destruct l; [done|]. slen_norm. lia. }
  split; [lia|]. destruct Hs as [pre Hpre].
  assert (slen (dotted ls) <= slen (dotted (labels q)))%nat as H2.
  { rewrite <- (slen_dotted_lower ls), <- (slen_dotted_lower (labels q)), Hpre, dotted_app, slen_app. lia. }
  destruct Hq as [->|(_ & _ & Eq)]; [|rewrite Eq; lia]. simpl in H2. lia.
Qed.

Lemma Kubernetes_answers : answers_asked (Kubernetes_ServeDNS conn k up f16 next).
Proof using Cok Kok Hz Nok Mok Hup Hnext.
  intros ctx w r s (q & qs & Hq & Hfq). unfold Kubernetes_ServeDNS. cbv zeta.
  assert (QName (newRequest w (Some r)) = Name_String (qName q)) as -> by (unfold QName; simpl; by rewrite Hq).
  pose proof (Name_String_fq _ Hfq) as Hfq'. set (n := Name_String (qName q)) in *.
  destruct (decide (Zones_Matches (kZones k) n = EmptyString)) as [He|Hne].
  - assert (mQuestion r <> []) as Hr by (by rewrite Hq). pose proof (kube_next_wp ctx w r Hr s) as (s' & [[msgs rc] err] & E & Hw).
    unfold kube_next in E. destruct (NextOrFailure _ _ _ _ _ _) as [[[[? ?] ?] ?]|]; [|done]. simpl in E. injection E as <- <- <- <-.
    by eexists _, _, _, _.
  - destruct (matched_zone n Hfq' Hne) as [H1 H2]. rewrite decide_True by done. unfold slice_from. rewrite decide_True by lia.
    cbn [mbind option_bind]. set (zone := sdrop _ n). assert (slen zone = slen (Zones_Matches (kZones k) n)) as Hl
      by (unfold zone; rewrite slen_sdrop; lia).
    destruct (kube_serve_wp ctx w n zone (set_rZone zone (newRequest w (Some r)))) with (w := s) as (s' & [[msgs rc] err] & E & Hw).
    + by exists r, q, qs.
    + intros _ Hn. simpl. assert (zone = ToLower n) as -> by (rewrite <- Hn; unfold Name; simpl; by rewrite Hq).
      pose proof (fq_name_lower _ Hfq') as [Hd|?]; [|done]. rewrite Hd in Hl. simpl in Hl. lia.
    + rewrite E. simpl. by eexists _, _, _, _.
Qed.
End handler.

