(* ===== verification/KubeCacheTheorems.v ===== *)
(** * Theorems on the watch cache

    The stores mirror what the API server reports; they keep the contract the
    kubernetes plugin relies on; and the modification time, which is the
    serial of the zone, covers the changes that change answers. *)

From Stdlib Require Import SpecFloat.
From S2P Require Import Prelude.
From S2P Require Import GoStd.
From S2P Require Import GoNet.
From S2P Require Import DnsNames.
From S2P Require Import DnsMsg.
From S2P Require Import Request.
From S2P Require Import Plugin.
From S2P Require Import Service.
From S2P Require Import Backend.
From S2P Require Import BackendTheorems.
From S2P Require Import KubeObject.
From S2P Require Import KubeController.
From S2P Require Import Kubernetes.
From S2P Require Import KubernetesTheorems.

(** ** The stores mirror the API server *)

Section mirror.
Context `{IndexersOk} {Api Obj S : Type}.
Context (convert : Api -> option (Obj * option string)) (key : Obj -> string).
Context (store : S -> option (Indexer Obj)) (put_store : Indexer Obj -> S -> S).
Context (OnAdd : Z -> S -> S) (OnUpdate : Z -> Obj -> Obj -> S -> option S) (OnDelete : Z -> S -> S).

(** What a change does to the objects by key. *)
Definition mirror_delta (d : Delta Api) (m : gmap string Obj) : gmap string Obj :=
  match dType d, dObj d with
  | (Sync | Added | Updated), dObject o =>
      match convert o with Some (obj, None) => <[key obj := obj]> m | _ => m end
  | Deleted, DeletedFinalStateUnknown k => delete k m
  | Deleted, dObject o => match convert o with Some (obj, _) => delete (key obj) m | None => m end
  | _, _ => m
  end.

Definition mirror (ds : list (Delta Api)) (m : gmap string Obj) : gmap string Obj := fold_left (fun m d => mirror_delta d m) ds m.

(** Changes that come with an object that can be converted. *)
Definition delta_ok (d : Delta Api) : Prop :=
  match dType d, dObj d with
  | (Sync | Added | Updated), dObject o => exists obj, convert o = Some (obj, None)
  | (Sync | Added | Updated), DeletedFinalStateUnknown _ => False
  | Deleted, dObject o => exists obj err, convert o = Some (obj, err) /\ (err = None \/ err = Some errPodTerminating)
  | _, _ => True
  end.

(** The handlers look at the objects but leave the stores alone. *)
Context (Hput : forall ix s, store (put_store ix s) = Some ix).
Context (Hadd : forall now s, store (OnAdd now s) = store s) (Hdel : forall now s, store (OnDelete now s) = store s).
Context (Hupd : forall now o n s, exists s', OnUpdate now o n s = Some s' /\ store s' = store s).

Lemma process_delta_mirror d s ix :
  store s = Some ix -> delta_ok d ->
  exists s' ix', process_delta convert key store put_store OnAdd OnUpdate OnDelete d s = Some (s', None) /\
    store s' = Some ix' /\ contents ix' = mirror_delta d (contents ix).
Proof using Hput Hadd Hdel Hupd.
  intros Hs Hd. unfold process_delta, mirror_delta, delta_ok in *. rewrite Hs. cbn [mbind option_bind].
  assert (forall o obj, convert o = Some (obj, None) -> exists s' ix',
    (match ix_Get ix (key obj) with
     | Some old => s ← OnUpdate (dNow d) old obj (put_store (ix_Update (key obj) obj ix) s); Some (s, None)
     | None => Some (OnAdd (dNow d) (put_store (ix_Add (key obj) obj ix) s), @None string)
     end) = Some (s', None) /\ store s' = Some ix' /\ contents ix' = <[key obj := obj]> (contents ix)) as Hput_obj.
  { intros o obj _. destruct (ix_Get ix (key obj)) as [old|].
    - destruct (Hupd (dNow d) old obj (put_store (ix_Update (key obj) obj ix) s)) as (s' & E & Es). rewrite E. simpl.
      exists s', (ix_Update (key obj) obj ix). rewrite Es, Hput. split; [done|]. split; [done|]. apply Update_ok.
    - eexists _, _. split; [done|]. rewrite Hadd, Hput. split; [done|]. apply Add_ok. }
  assert (forall k, exists s' ix', Some (OnDelete (dNow d) (put_store (ix_Delete k ix) s), @None string) = Some (s', None) /\
    store s' = Some ix' /\ contents ix' = delete k (contents ix)) as Hdel_obj.
  { intros k. eexists _, _. split; [done|]. rewrite Hdel, Hput. split; [done|]. apply Delete_ok. }
  destruct (dObj d) as [o|k], (dType d); try done.
  1, 2, 5: destruct Hd as [obj Ec]; rewrite Ec; cbn [mbind option_bind]; by apply (Hput_obj o).
  - destruct Hd as (obj & err & Ec & [-> | ->]); rewrite Ec; cbn [mbind option_bind]; [apply Hdel_obj|].
    rewrite decide_False by (by intros ?). apply Hdel_obj.
  - by exists s, ix.
  - by exists s, ix.
Qed.

Lemma process_mirror ds s ix :
  store s = Some ix -> Forall delta_ok ds ->
  exists s' ix', process convert key store put_store OnAdd OnUpdate OnDelete ds s = Some (s', None) /\
    store s' = Some ix' /\ contents ix' = mirror ds (contents ix).
Proof using Hput Hadd Hdel Hupd.
  intros Hs Hds. revert s ix Hs. induction Hds as [|d ds Hd _ IH]; intros s ix Hs; [by exists s, ix|].
  destruct (process_delta_mirror d s ix Hs Hd) as (s1 & ix1 & E1 & Hs1 & Hc1).
  destruct (IH s1 ix1 Hs1) as (s2 & ix2 & E2 & Hs2 & Hc2). exists s2, ix2. cbn [process]. unfold mbind at 1, st_bind at 1.
  rewrite E1. cbn [mbind option_bind]. rewrite E2. split; [done|]. split; [done|]. rewrite Hc2, Hc1. done.
Qed.

(** What neither the store nor the handlers touch stays. *)
Lemma process_keeps {B} (keep : S -> B) ds s s' e :
  (forall ix s, keep (put_store ix s) = keep s) -> (forall now s, keep (OnAdd now s) = keep s) ->
  (forall now s, keep (OnDelete now s) = keep s) -> (forall now o n s s', OnUpdate now o n s = Some s' -> keep s' = keep s) ->
  process convert key store put_store OnAdd OnUpdate OnDelete ds s = Some (s', e) -> keep s' = keep s.
Proof using.
  intros Kp Ka Kd Ku. revert s. induction ds as [|d ds IH]; intros s; [by intros [= <- _]|].
  assert (forall s1 e1, process_delta convert key store put_store OnAdd OnUpdate OnDelete d s = Some (s1, e1) -> keep s1 = keep s) as Hd.
  { intros s1 e1 E. unfold process_delta in E. destruct (store s) as [ix|]; [|done]. cbn [mbind option_bind] in E.
    destruct (dObj d) as [o|k]; [destruct (convert o) as [[obj err]|]|]; destruct (dType d); simplify_option_eq; try done;
      repeat (case_match; simplify_option_eq; try done); rewrite ?Ka, ?Kd, ?Kp; try done;
      match goal with H : OnUpdate _ _ _ _ = Some _ |- _ => by rewrite (Ku _ _ _ _ _ H), Kp end. }
  cbn [process]. unfold mbind, st_bind. destruct (process_delta _ _ _ _ _ _ _ d s) as [[s1 e1]|] eqn:E1; [|done].
  cbn [mbind option_bind]. destruct e1; [by intros [= <- _]; eapply Hd|]. intros E. rewrite (IH _ E). by eapply Hd.
Qed.
End mirror.

Section events.
Context `{Iok : IndexersOk}.

Lemma detectChanges_listers now o n c c' :
  detectChanges now o n c = Some c' ->
  svcLister c' = svcLister c /\ podLister c' = podLister c /\ epLister c' = epLister c /\ nsLister c' = nsLister c.
Proof.
  unfold detectChanges. destruct (match n with Some _ => _ | None => false end); [by intros [= <-]|].
  destruct (match n with Some _ => n | None => o end) as [[s|p|e|ns]|]; try (by intros [= <-]).
  - destruct (as_service o) as [os|]; [|done]. destruct (as_service n) as [n'|]; [|done]. simpl.
    destruct (serviceModified os n') as [[i e]|]; [|done]. simpl. intros [= <-]. by destruct i, e.
  - destruct (as_endpoints o) as [os|]; [|done]. destruct (as_endpoints n) as [n'|]; [|done]. simpl.
    intros [= <-]. by destruct (endpointsEquivalent _ _).
Qed.

(** An update of one kind of object never panics. *)
Lemma update_service now o n c : exists c', control_Update now (oService o) (oService n) c = Some c'.
Proof.
  unfold control_Update, detectChanges. simpl. case_bool_decide; [by eexists|]. simpl.
  destruct (_ && _)%bool; [by eexists|]. case_decide; [by eexists|]. destruct (negb (same_elements service_port_equal _ _)); by eexists.
Qed.

Lemma update_endpoints now o n c : exists c', control_Update now (oEndpoints o) (oEndpoints n) c = Some c'.
Proof. unfold control_Update, detectChanges. simpl. case_bool_decide; by eexists. Qed.

Lemma update_pod now o n c : exists c', control_Update now (oPod o) (oPod n) c = Some c'.
Proof. unfold control_Update, detectChanges. simpl. case_bool_decide; by eexists. Qed.

(** Objects are complete unless they were deleted. *)
Definition reported (ds : list (Delta apiService)) : Prop :=
  Forall (fun d => match dType d, dObj d with
                   | (Sync | Added | Updated), DeletedFinalStateUnknown _ => False
                   | _, _ => True
                   end) ds.

(** The services that reports leave. *)
Definition mirror_services : list (Delta apiService) -> gmap string KService -> gmap string KService :=
  mirror (fun s => Some (ToService s, None)) (fun s => meta_key (svcNamespace s) (svcName s)).

Lemma services_mirror ds c :
  reported ds ->
  exists c', process_services ds c = Some (c', None) /\ nsLister c' = nsLister c /\
    contents (svcLister c') = mirror_services ds (contents (svcLister c)).
Proof using.
  intros Hds.
  destruct (process_mirror (fun s => Some (ToService s, None)) (fun s => meta_key (svcNamespace s) (svcName s))
    (fun c => Some (svcLister c)) set_svcLister control_Add (fun now o n => control_Update now (oService o) (oService n)) control_Delete)
    with (ds := ds) (s := c) (ix := svcLister c) as (c' & ix & E & Hs & Hc); try done.
  - intros now o n s. destruct (update_service now o n s) as [s' E]. exists s'. split; [done|]. f_equal.
    unfold control_Update in E. by apply detectChanges_listers in E as (-> & _).
  - eapply Forall_impl; [exact Hds|]. intros d. unfold delta_ok. destruct (dType d), (dObj d); try done; intros _; eauto.
  - exists c'. split; [exact E|]. split; [|by injection Hs as <-]. eapply process_keeps in E; try done.
    intros now o n s s' Eu. unfold control_Update in Eu. by apply detectChanges_listers in Eu as (_ & _ & _ & ->).
Qed.
End events.

(** C29 Whatever changes the API server reports, in whatever order, the cache of
    services holds afterwards exactly what they leave: the last state of each
    object that was added or updated and not deleted since; processing them
    never fails. *)
Theorem watch_cache_mirrors `{IndexersOk} (ds : list (Delta apiService)) (c : dnsControl) :
  reported ds ->
  exists c', process_services ds c = Some (c', None) /\
    contents (svcLister c') = mirror_services ds (contents (svcLister c)).
Proof. intros Hds. destruct (services_mirror ds c Hds) as (c' & E & _ & Hc). by exists c'. Qed.

(** ** The cache keeps the contract *)

Section contract.
Context `{Iok : IndexersOk} {W : Type} (get : W -> dnsControl) (mode pods : bool).

(** Good objects, endpoints that are watched, and pods when asked for. *)
Definition control_good (c : dnsControl) : Prop :=
  map_Forall (fun _ s => service_good s) (contents (svcLister c)) /\
  (exists ix, epLister c = Some ix /\ map_Forall (fun _ e => endpoints_good mode e) (contents ix)) /\
  (pods = true -> is_Some (podLister c)).

Context (Hgood : forall w, control_good (get w)).

Lemma reads_wp {A} (f : dnsControl -> A) (Q : A -> Prop) : (forall w, Q (f (get w))) -> wp (reads get f) Q.
Proof. intros Hf w. eexists _, _. split; [done|]. apply Hf. Qed.

Lemma reads_opt_wp {A} (f : dnsControl -> option A) (Q : A -> Prop) :
  (forall w, exists a, f (get w) = Some a /\ Q a) -> wp (reads_opt get f) Q.
Proof. intros Hf w. destruct (Hf w) as (a & E & Ha). unfold reads_opt. rewrite E. simpl. by eexists _, _. Qed.

Lemma values_Forall {A} (P : A -> Prop) (m : gmap string A) : map_Forall (fun _ x => P x) m -> Forall P (map_to_list m).*2.
Proof.
  intros Hm. apply Forall_fmap, Forall_forall. intros [k x] Hx. apply elem_of_map_to_list in Hx. by apply (Hm k).
Qed.

Lemma ByIndex_Forall {A} (P : A -> Prop) f (ix : Indexer A) v :
  map_Forall (fun _ x => P x) (contents ix) -> Forall P (ix_ByIndex f ix v).
Proof.
  intros Hm. apply values_Forall in Hm. rewrite Forall_forall in *. intros x Hx. rewrite ByIndex_ok in Hx.
  apply list_elem_of_filter in Hx as [_ Hx]. by apply Hm.
Qed.

#[export] Instance controller_good : ControllerOk (controller get) mode pods.
Proof using Hgood Iok.
  assert (forall f v w, Forall service_good (ix_ByIndex f (svcLister (get w)) v)) as Hs
    by (intros f v w; apply ByIndex_Forall, Hgood).
  assert (forall f v w, exists l, (ix ← epLister (get w); Some (ix_ByIndex f ix v)) = Some l /\ Forall (endpoints_good mode) l) as He.
  { intros f v w. destruct (Hgood w) as (_ & (ix & E & Hix) & _). rewrite E. eexists. split; [done|]. by apply ByIndex_Forall. }
  constructor; simpl.
  - apply reads_wp. intros w. unfold control_ServiceList. destruct (Hgood w) as [Hg _]. apply values_Forall in Hg.
    rewrite Forall_forall in *. intros s Hin. rewrite List_ok in Hin. by apply Hg.
  - intros idx. apply reads_wp. intros w. apply Hs.
  - intros idx. apply reads_wp. intros w. apply Hs.
  - intros idx. apply reads_wp. intros w. apply Hs.
  - intros idx. apply reads_opt_wp. intros w. apply He.
  - intros idx. apply reads_opt_wp. intros w. apply He.
  - intros ip Hp. apply reads_opt_wp. intros w. destruct (Hgood w) as (_ & _ & Hpod). destruct (Hpod Hp) as [ix E].
    unfold control_PodIndex. rewrite E. by eexists.
  - intros n. by apply reads_wp.
  - by apply reads_wp.
  - intros ext. by apply reads_wp.
Qed.
End contract.

(** ** The modification time covers the changes *)

Section serial.
Context (k : Kubernetes).

Lemma same_elements_Forall2 {A} (eqb : A -> A -> bool) (R : A -> A -> Prop) l l' :
  (forall x y, eqb x y = true -> R x y) -> length l = length l' -> same_elements eqb l l' = true -> Forall2 R l l'.
Proof.
  intros Hr. revert l'. induction l as [|x l IH]; intros [|y l'] Hl E; try done. simpl in *.
  apply andb_true_iff in E as [E1 E2]. constructor; [by apply Hr|]. apply IH; [lia|done].
Qed.

Lemma Forall2_same {A} (l l' : list A) : Forall2 eq l l' -> l = l'.
Proof. induction 1; congruence. Qed.

(** Addresses and ports that give the same records. *)
Definition addr_same (a b : EndpointAddress) : Prop := eaIP a = eaIP b /\ Hostname a = Hostname b.

Definition subset_same (a b : EndpointSubset) : Prop := Forall2 addr_same (Addresses a) (Addresses b) /\ Ports a = Ports b.

Lemma port_equal_eq a b : port_equal a b = true -> a = b.
Proof.
  unfold port_equal. rewrite !andb_true_iff, !bool_decide_eq_true. destruct a, b. simpl. by intros [[-> ->] ->].
Qed.

Lemma subsetsEquivalent_same a b : subsetsEquivalent a b = true -> subset_same a b.
Proof.
  unfold subsetsEquivalent. case_decide as H1; [done|]. case_decide as H2; [done|].
  rewrite andb_true_iff. intros [Ha Hp]. split.
  - apply (same_elements_Forall2 addr_equal); [|lia|done]. intros x y. unfold addr_equal. rewrite andb_true_iff, !bool_decide_eq_true. done.
  - apply Forall2_same. apply (same_elements_Forall2 port_equal); [|lia|done]. intros x y. apply port_equal_eq.
Qed.

Lemma endpointsEquivalent_same a b : endpointsEquivalent (Some a) (Some b) = true -> Forall2 subset_same (Subsets a) (Subsets b).
Proof.
  unfold endpointsEquivalent. case_decide; [done|]. apply same_elements_Forall2; [|lia]. apply subsetsEquivalent_same.
Qed.

Lemma hostname_same a b : addr_same a b -> endpointHostname a false = endpointHostname b false.
Proof. intros [Hi Hh]. unfold endpointHostname. by rewrite Hi, Hh. Qed.

Lemma flat_map_same {A B} (R : A -> A -> Prop) (f g : A -> list B) l l' :
  Forall2 R l l' -> (forall x y, R x y -> f x = g y) -> flat_map f l = flat_map g l'.
Proof. intros Hl Hf. induction Hl as [|x y l l' Hx _ IH]; [done|]. simpl. by rewrite (Hf x y Hx), IH. Qed.

(** Everything that is made of an object of endpoints. *)
Definition same_answers (a b : KEndpoints) : Prop :=
  (forall r zonePath svc, endpoint_services k r zonePath svc a = endpoint_services k r zonePath svc b) /\
  (forall ip, reverse_hostnames k ip a = reverse_hostnames k ip b) /\ pods_count [a] = pods_count [b].

Lemma equivalent_answers a b :
  endpointNameMode k = false -> endIndex a = endIndex b -> endpointsEquivalent (Some a) (Some b) = true -> same_answers a b.
Proof.
  intros Hm Hi E%endpointsEquivalent_same. split; [|split].
  - intros r zp svc. unfold endpoint_services. rewrite Hi, Hm. case_decide; [done|]. eapply flat_map_same; [exact E|].
    intros x y [Ha Hp]. eapply flat_map_same; [exact Ha|]. intros ax ay Hxy. rewrite (hostname_same _ _ Hxy), Hp.
    by destruct Hxy as [-> _].
  - intros ip. unfold reverse_hostnames. rewrite Hm. eapply flat_map_same; [exact E|]. intros x y [Ha _].
    eapply flat_map_same; [exact Ha|]. intros ax ay Hxy. rewrite (hostname_same _ _ Hxy). by destruct Hxy as [-> _].
  - simpl. f_equal. induction E as [|x y l l' [Ha _] _ IH]; [done|]. simpl. by rewrite (Forall2_length _ _ _ Ha), IH.
Qed.

(** Everything that is made of a service, apart from its endpoints. *)
Definition same_service_answers (a b : KService) : Prop :=
  ExternalName a = ExternalName b /\ forall r zonePath, cluster_services k r zonePath a = cluster_services k r zonePath b.

Lemma unmodified_answers a b ext :
  svcName a = svcName b -> svcNamespace a = svcNamespace b -> ClusterIPs a = ClusterIPs b ->
  serviceModified (Some a) (Some b) = Some (false, ext) -> same_service_answers a b.
Proof.
  intros Hn Hns Hc E. unfold serviceModified in E. cbv zeta in E.
  destruct (bool_decide (ExternalName a <> ExternalName b)) eqn:En.
  { repeat (case_match || case_decide); simplify_eq. }
  apply bool_decide_eq_false in En. simpl in E. destruct (decide (length (svcPorts a) <> length (svcPorts b))) as [|Hl]; [done|].
  destruct (same_elements service_port_equal (svcPorts a) (svcPorts b)) eqn:Ep; [|done].
  assert (svcPorts a = svcPorts b) as Hp.
  { apply Forall2_same. apply (same_elements_Forall2 service_port_equal); [|lia|done]. intros x y. unfold service_port_equal.
    rewrite !andb_true_iff, !bool_decide_eq_true. destruct x, y. simpl. by intros [[-> ->] ->]. }
  split; [by apply dec_stable|]. intros r zp. unfold cluster_services. by rewrite Hn, Hns, Hc, Hp.
Qed.
End serial.


(** A service whose name, namespace and addresses stay is covered as well:
    when the time of an update does not become the serial, the records of the
    service are what they were. *)
Theorem serial_covers_services `{IndexersOk} (k : Kubernetes) (o : apiService) (now : Z) (c c' : dnsControl) (old : KService) :
  let new := ToService o in
  contents (svcLister c) !! meta_key (svcNamespace new) (svcName new) = Some old ->
  svcName old = svcName new -> svcNamespace old = svcNamespace new -> ClusterIPs old = ClusterIPs new ->
  (svcVersion old = svcVersion new -> old = new) ->
  process_services [mkDelta Updated (dObject o) now] c = Some (c', None) -> modified c' <> now ->
  same_service_answers k old new.
Proof.
  intros new Hold Hn Hns Hc Hv E Hmod. unfold process_services in E. cbn [process] in E. unfold mbind, st_bind in E.
  unfold process_delta in E. cbn [dType dObj dNow mbind option_bind] in E. fold new in E. rewrite Get_ok, Hold in E.
  unfold control_Update, detectChanges in E. cbn [GetResourceVersion] in E. case_bool_decide as Hver; [by rewrite (Hv Hver)|].
  cbn [as_service mbind option_bind] in E. destruct (serviceModified (Some old) (Some new)) as [[i e]|] eqn:Em; [|done].
  cbn [mbind option_bind] in E. destruct i; [|by eapply unmodified_answers].
  exfalso. apply Hmod. by destruct e; injection E as <-.
Qed.
