(* ===== verification/KubeServing.v ===== *)
(** * Services of a cluster are served

    From the report of a service by the API server to the answer of a query
    for its addresses, and to the reverse lookup of its address. *)

From Stdlib Require Import SpecFloat.
From S2P Require Import Prelude.
From S2P Require Import GoStd.
From S2P Require Import GoNet.
From S2P Require Import DnsNames.
From S2P Require Import DnsMsg.
From S2P Require Import DnsUtil.
From S2P Require Import Request.
From S2P Require Import Plugin.
From S2P Require Import ZoneSpec.
From S2P Require Import Hosts.
From S2P Require Import HostsTheorems.
From S2P Require Import Service.
From S2P Require Import Backend.
From S2P Require Import BackendTheorems.
From S2P Require Import KubeObject.
From S2P Require Import KubeController.
From S2P Require Import Kubernetes.
From S2P Require Import KubernetesTheorems.
From S2P Require Import KubeCacheTheorems.

(** ** Names of services *)

Section names.
Context `{Nok : DnsNamesOk}.

(** Only the number of labels of the zone matters. *)
Lemma TrimZone_lower q z b : fq_name z -> TrimZone q (ToLower z) = Some (inl b) -> TrimZone q z = Some (inl b).
Proof using Nok.
  intros Hz. unfold TrimZone. rewrite !CountLabel_ok by (done || by apply fq_name_lower). rewrite labels_lower, length_map.
  destruct (PrevLabel q (length (labels z))) as [i ok]. by destruct (_ || _)%bool.
Qed.

Lemma trimmed_ok ls zone :
  ls <> [] -> Forall label_ok ls -> valid_name zone ->
  trimmed (dotted ls +:+ ToLower zone) zone = Some (strings_Join ls dot).
Proof using Nok.
  intros Hne Hls Hz. unfold trimmed. pose proof (fq_name_lower zone (or_intror Hz)) as Hzl.
  destruct Hz as (Hzn & Hzo & Ez).
  assert (ToLower zone = dotted (labels (ToLower zone))) as El by (rewrite labels_lower, dotted_lower; by rewrite <- Ez).
  assert (Forall label_ok (labels (ToLower zone))) as Hlo.
  { rewrite labels_lower. apply Forall_map. eapply Forall_impl; [exact Hzo|]. apply label_ok_lower. }
  assert (Forall label_ok (ls ++ labels (ToLower zone))) as Ha by (by apply Forall_app).
  assert (ls ++ labels (ToLower zone) <> []) as Hn by (by destruct ls).
  assert (TrimZone (dotted ls +:+ ToLower zone) (ToLower zone) = Some (inl (strings_Join ls dot))) as E.
  { apply TrimZone_ok; [| |rewrite El at 1; by rewrite <- dotted_app, labels_dotted|done].
    - rewrite El, <- dotted_app. by apply valid_name_dotted.
    - done. }
  apply TrimZone_lower in E; [by rewrite E|]. by right.
Qed.

Lemma split_relative ls : ls <> [] -> Forall label_ok ls -> SplitDomainName (strings_Join ls dot) = ls.
Proof using Nok.
  intros Hne Hls. rewrite SplitDomainName_relative; rewrite strings_Join_dotted by done; [by apply labels_dotted|by apply valid_name_dotted].
Qed.

(** Labels in front of the zone parse as they should, whatever the case of
    the zone. *)
Lemma parseRequest_labels ls zone :
  ls <> [] -> Forall label_ok ls -> valid_name zone -> (2 <= length ls)%nat ->
  parseRequest (dotted ls +:+ ToLower zone) zone = Some (parse_segs ls).
Proof using Nok.
  intros Hne Hls Hz Hlen. unfold parseRequest. rewrite trimmed_ok by done. cbn [mbind option_bind].
  rewrite split_relative by done. rewrite decide_False; [done|].
  destruct ls as [|a [|b ls]]; simpl in Hlen; [lia..|].
  apply Forall_cons in Hls as [[Ha Hac] Hls]. change (strings_Join (a :: b :: ls) dot) with (a +:+ dot +:+ strings_Join (b :: ls) dot).
  assert (forall s, label_chars s = true -> a +:+ dot +:+ strings_Join (b :: ls) dot <> s) as Hno.
  { intros s Hs E. apply (f_equal (split_go EmptyString)) in E. rewrite split_go_label in E by done.
    destruct (decide (s = EmptyString)) as [->|Hs']; [discriminate E|]. rewrite (split_go_last s) in E by done. injection E as E1 E2.
    apply Forall_cons in Hls as [[Hb Hbc] Hls]. clear -E2 Hb Hbc Nok. destruct ls as [|c ls].
    - simpl in E2. rewrite split_go_last in E2 by done. done.
    - change (strings_Join (b :: c :: ls) dot) with (b +:+ dot +:+ strings_Join (c :: ls) dot) in E2.
      by rewrite split_go_label in E2. }
  intros [E|[E|E]]; (eapply Hno; [|exact E]); done.
Qed.
End names.

(** The four shapes of names, from their parts to the request and back. *)
Definition request_labels (r : recordRequest) : list string :=
  (if decide (rrPort r <> EmptyString \/ rrProtocol r <> EmptyString) then ["_" +:+ rrPort r; "_" +:+ rrProtocol r]
   else if decide (rrEndpoint r <> EmptyString) then [rrEndpoint r] else [])
  ++ [rrService r; rrNamespace r; podOrSvc r].

Definition request_ok (r : recordRequest) : Prop :=
  Forall label_ok (request_labels r) /\ (podOrSvc r = Pod \/ podOrSvc r = Svc) /\
  (rrPort r <> EmptyString \/ rrProtocol r <> EmptyString -> rrEndpoint r = EmptyString).

Lemma stripUnderscore_add s : stripUnderscore ("_" +:+ s) = s.
Proof. done. Qed.

Lemma parse_segs_labels r : request_ok r -> parse_segs (request_labels r) = (r, None).
Proof.
  intros (_ & Hk & He). unfold request_labels. destruct r as [port proto ep svc ns kind]; simpl in *.
  assert (forall A (x y : A), (if decide (kind <> Pod /\ kind <> Svc) then x else y) = y) as Hd.
  { intros A x y. rewrite decide_False; [done|]. by destruct Hk as [-> | ->]; intros []. }
  destruct (decide (port <> EmptyString \/ proto <> EmptyString)) as [Hp|Hp].
  - rewrite (He Hp). unfold parse_segs. simpl. rewrite Hd. done.
  - assert (port = EmptyString /\ proto = EmptyString) as [-> ->] by (split; apply dec_stable; tauto).
    destruct (decide (ep <> EmptyString)) as [Hep|Hep]; unfold parse_segs; simpl; rewrite Hd; [done|]. by apply dec_stable in Hep as ->.
Qed.

(** C31 Names and requests correspond: the name made of the parts of a request,
    in lower case in front of a zone in any case, is parsed into these parts:
    a service, an endpoint of it, or a port and protocol, or a pod. *)
Theorem parse_request_roundtrip `{DnsNamesOk} (r : recordRequest) (zone : string) :
  request_ok r -> valid_name zone ->
  parseRequest (dotted (request_labels r) +:+ ToLower zone) zone = Some (r, None).
Proof.
  intros Hr Hz. rewrite parseRequest_labels; [by rewrite parse_segs_labels|..]; try done.
  - unfold request_labels. intros E. by apply app_nil in E as [_ ?].
  - apply Hr.
  - unfold request_labels. rewrite length_app. simpl. lia.
Qed.

(** ** Addresses of services *)

(** Services are kept under their keys, with their indexes; neither their
    names nor their namespaces have dots. *)
Definition store_ok `{IndexersOk} (c : dnsControl) : Prop :=
  map_Forall (fun key s => key = meta_key (svcNamespace s) (svcName s) /\ svcIndex s = ServiceKey (svcName s) (svcNamespace s) /\
    plain_label (svcName s) /\ plain_label (svcNamespace s)) (contents (svcLister c)).

Lemma plain_no_dot l : plain_label l -> IndexByte DnsNames.ch_dot l = None.
Proof.
  intros [_ Hl]. induction l as [|c l IH]; [done|]. cbn [bytes_of String.list_ascii_of_string] in Hl.
  apply Forall_cons in Hl as [[Hc _] Hl]. cbn [IndexByte]. rewrite decide_False by done. unfold bytes_of in IH. by rewrite (IH Hl).
Qed.

Lemma ServiceKey_inj n ns n' ns' :
  plain_label n -> plain_label n' -> ServiceKey n ns = ServiceKey n' ns' -> n = n' /\ ns = ns'.
Proof.
  intros Hn%plain_no_dot Hn'%plain_no_dot E. unfold ServiceKey in E.
  change ("." +:+ ns) with (String DnsNames.ch_dot ns) in E. change ("." +:+ ns') with (String DnsNames.ch_dot ns') in E.
  pose proof (f_equal (IndexByte DnsNames.ch_dot) E) as Ei. rewrite !IndexByte_app in Ei by done. simpl in Ei.
  injection Ei as Ei. rewrite !Nat.add_0_r in Ei.
  pose proof (f_equal (stake (slen n)) E) as E1. rewrite stake_app, Ei, stake_app in E1.
  split; [done|]. subst n'. apply (f_equal (sdrop (slen n))) in E. rewrite !sdrop_app in E. by injection E.
Qed.

(** The one object with a property is all that is found. *)
Lemma filter_unique {A} (P : A -> Prop) `{forall x, Decision (P x)} (m : gmap string A) k0 x0 :
  m !! k0 = Some x0 -> P x0 -> (forall k x, m !! k = Some x -> P x -> k = k0) -> filter P (map_to_list m).*2 ≡ₚ [x0].
Proof.
  intros Hm Hx Hu. rewrite <- (insert_delete_id m k0 x0 Hm).
  rewrite map_to_list_insert by apply lookup_delete_eq. cbn [fmap list_fmap]. rewrite filter_cons_True by done. f_equiv.
  assert (Forall (fun x => ~ P x) (map_to_list (delete k0 m)).*2) as Hn.
  { apply Forall_fmap, Forall_forall. intros [k x] Hin. apply elem_of_map_to_list, lookup_delete_Some in Hin as [Hne Hin].
    simpl. intros HP. by apply Hne; rewrite (Hu k x). }
  induction Hn as [|x l Hnx _ IH]; [done|]. by rewrite filter_cons_False.
Qed.

Lemma SvcIndex_unique `{IndexersOk} c s :
  store_ok c -> contents (svcLister c) !! meta_key (svcNamespace s) (svcName s) = Some s ->
  control_SvcIndex (ServiceKey (svcName s) (svcNamespace s)) c = [s].
Proof.
  intros Hs Hin. pose proof (Hs _ _ Hin) as (_ & Hi & Hn & Hns). simpl in Hi, Hn, Hns.
  apply Permutation_singleton_r. unfold control_SvcIndex. rewrite ByIndex_ok. eapply filter_unique; [exact Hin| |].
  - unfold svcNameNamespaceIndexFunc. rewrite Hi. by left.
  - intros k x Hk Hx. destruct (Hs _ _ Hk) as (-> & Hi' & Hn' & Hns'). unfold svcNameNamespaceIndexFunc in Hx.
    apply list_elem_of_singleton in Hx. rewrite Hi' in Hx.
    by apply ServiceKey_inj in Hx as [-> ->].
Qed.

(** An API server that admits plain names only keeps the store so. *)
Lemma store_ok_mirror `{IndexersOk} (ds : list (Delta apiService)) (c c' : dnsControl) :
  Forall (fun d => match dObj d with
                   | dObject o => plain_label (oName (as_Meta o)) /\ plain_label (oNamespace (as_Meta o))
                   | _ => True
                   end) ds ->
  contents (svcLister c') = mirror_services ds (contents (svcLister c)) -> store_ok c -> store_ok c'.
Proof.
  intros Hds Hc Hs. unfold store_ok in *. rewrite Hc. clear Hc. generalize (contents (svcLister c)), Hs. clear Hs.
  induction Hds as [|d ds Hd _ IH]; intros m Hm; [done|]. simpl. apply IH. unfold mirror_delta.
  destruct (dType d), (dObj d) as [o|key]; try done; try (by apply map_Forall_delete);
    apply map_Forall_insert_2; try done; by destruct Hd.
Qed.

(** The records of all ports are those of one. *)
Lemma distinct_app seen l l' :
  distinct seen (l ++ l') = distinct seen l ++ distinct (list_to_set (map fst l) ∪ seen) l'.
Proof.
  revert seen. induction l as [|[key r] l IH]; intros seen; simpl; [by rewrite union_empty_l_L|].
  case_decide as Hk; rewrite IH; simpl; do 2 f_equal.
  - apply set_eq. intros x. rewrite !elem_of_union, elem_of_singleton. split; [tauto|]. intros [[->|?]|?]; tauto.
  - by rewrite (comm_L _ {[key]} (list_to_set _)), (assoc_L (∪)).
Qed.

Lemma distinct_seen seen l : (forall key, key ∈ map fst l -> key ∈ seen) -> distinct seen l = [].
Proof.
  intros Hl. induction l as [|[key r] l IH]; [done|]. simpl. rewrite decide_True by (apply Hl; by left). apply IH.
  intros key' Hk. apply Hl. by right.
Qed.

Lemma distinct_repeat n l : distinct ∅ (concat (replicate (S n) l)) = distinct ∅ l.
Proof.
  simpl. rewrite distinct_app, (distinct_seen _ (concat _)), app_nil_r; [done|]. intros key Hk.
  apply elem_of_union_l, elem_of_list_to_set. induction n as [|n IH]; simpl in Hk; [by apply elem_of_nil in Hk|].
  rewrite map_app in Hk. apply elem_of_app in Hk as [?|?]; auto.
Qed.

Lemma distinct_nodup seen l : NoDup (map fst l) -> (forall key, key ∈ map fst l -> key ∉ seen) -> distinct seen l = l.
Proof.
  revert seen. induction l as [|[key r] l IH]; intros seen Hn Hs; [done|]. simpl in *. apply NoDup_cons in Hn as [Hk Hn].
  rewrite decide_False by (apply Hs; by left). f_equal. apply IH; [done|]. intros key' Hk'. apply not_elem_of_union. split.
  - intros ->%elem_of_singleton. done.
  - apply Hs. by right.
Qed.

Lemma omap_app' {A B} (f : A -> option B) l l' : omap f (l ++ l') = omap f l ++ omap f l'.
Proof. induction l as [|x l IH]; [done|]. cbn [omap list_omap app]. rewrite IH. by destruct (f x). Qed.

Section serving.
Context `{Nok : DnsNamesOk} `{Mok : DnsMsgsOk} `{Iok : IndexersOk} {W : Type} (get : W -> dnsControl) (k : Kubernetes).
Context (up : Ctx -> Request -> string -> Z -> st W (string + option Msg)) (f16 : spec_float -> Z) (next : option (Handler W)).

Lemma reads_eq {A} (f : dnsControl -> A) w : reads get f w = Some (w, f (get w)).
Proof. done. Qed.

Lemma exposed_eq ns w :
  configuredNamespace k ns = true -> contents (nsLister (get w)) !! ns <> None ->
  namespaceExposed (controller get) k ns w = Some (w, true).
Proof.
  intros Hc Hns. unfold namespaceExposed, filteredNamespaceExists. rewrite Hc. unfold mbind, st_bind.
  cbn [GetNamespaceByName controller]. rewrite reads_eq. cbn [mbind option_bind]. unfold control_GetNamespaceByName. rewrite Get_ok.
  by destruct (contents (nsLister (get w)) !! ns).
Qed.

(** A service with a cluster address. *)
Definition cluster_service (s : KService) : Prop :=
  svcType s <> ServiceTypeExternalName /\ Headless s = Some false /\ svcPorts s <> [].

Definition plain_request (s : KService) : recordRequest :=
  mkRecordRequest EmptyString EmptyString EmptyString (svcName s) (svcNamespace s) Svc.

Lemma findServices_cluster s zone w :
  store_ok (get w) -> contents (svcLister (get w)) !! meta_key (svcNamespace s) (svcName s) = Some s ->
  configuredNamespace k (svcNamespace s) = true -> contents (nsLister (get w)) !! svcNamespace s <> None ->
  cluster_service s -> ignoreEmptyService k = false ->
  findServices (controller get) k (plain_request s) zone w =
  Some (w, inr (cluster_services k (plain_request s) (Path zone kube_prefix) s).1).
Proof.
  intros Hs Hin Hc Hns (Ht & Hh & Hp) Hig. unfold findServices. cbn [rrNamespace rrService plain_request].
  unfold mbind, st_bind. rewrite (exposed_eq _ _ Hc Hns). cbn [mbind option_bind negb].
  destruct (Hs _ _ Hin) as (_ & _ & [Hne _] & _). rewrite decide_False by done.
  cbn [SvcIndex controller]. rewrite reads_eq. cbn [mbind option_bind]. rewrite SvcIndex_unique by done.
  cbn [services_loop]. cbn [rrNamespace rrService plain_request]. unfold match_, EqualFold.
  rewrite !bool_decide_eq_true_2 by done. cbn [negb andb]. unfold empty_service. rewrite Hig.
  rewrite (decide_False (P := false = true /\ _)) by (by intros [? _]).
  unfold mbind, st_bind, mret, st_ret. cbn [mbind option_bind].
  rewrite (decide_False (P := svcType s = _)) by done. rewrite Hh. cbn [of_option mbind option_bind]. cbn [rrEndpoint]. rewrite bool_decide_eq_false_2 by (intros Hx; by apply Hx). cbn [orb].
  assert ((cluster_services k (mkRecordRequest EmptyString EmptyString EmptyString (svcName s) (svcNamespace s) Svc)
             (Path zone kube_prefix) s).2 = true) as E.
  { unfold cluster_services. cbn [snd rrPort rrProtocol]. apply bool_decide_eq_true. destruct (svcPorts s) as [|p ps]; [done|].
    rewrite filter_cons_True; [done|]. unfold matchPortAndProtocol. by rewrite !orb_true_r. }
  destruct (cluster_services _ _ _ _) as [new m]. simpl in E. subst m. done.
Qed.

(** The request as the handler has it. *)
Definition serves (state : Request) (name zone qname : string) (qtype : Z) : Prop :=
  (Name state).2 = name /\ rZone state = zone /\ QName state = qname /\ QType state = qtype.

Lemma serves_Name state name zone qname qtype :
  serves state name zone qname qtype -> name <> EmptyString -> serves (Name state).1 name zone qname qtype.
Proof.
  intros (Hn & Hz & Hq & Ht) Hne. destruct (Name state) as [state1 n] eqn:E. simpl in Hn. subst n. simpl.
  pose proof (Name_cached _ _ _ E Hne) as Hc. pose proof (Req_Name state) as Hr. rewrite E in Hr. simpl in Hr.
  split; [by rewrite Hc|]. split; [|unfold QName, QType in *; by rewrite Hr].
  unfold Name in E. case_decide; simplify_eq; by simpl.
Qed.

Definition found_in (s : KService) (w : W) : Prop :=
  store_ok (get w) /\ contents (svcLister (get w)) !! meta_key (svcNamespace s) (svcName s) = Some s /\
  configuredNamespace k (svcNamespace s) = true /\ contents (nsLister (get w)) !! svcNamespace s <> None /\
  cluster_service s /\ ignoreEmptyService k = false.

Lemma cluster_name_longer s zone :
  let name := dotted [svcName s; svcNamespace s; Svc] +:+ ToLower zone in name <> EmptyString /\ name <> zone.
Proof. split; intros E; apply (f_equal String.length) in E; revert E; slen_norm; rewrite ?slen_ToLower; simpl; lia. Qed.

Lemma Records_cluster s zone state qname qtype w :
  found_in s w -> valid_name zone ->
  let name := dotted [svcName s; svcNamespace s; Svc] +:+ ToLower zone in
  serves state name zone qname qtype -> IsReverse name = 0%Z ->
  kube_Records (controller get) k state w = Some (w, inr (cluster_services k (plain_request s) (Path zone kube_prefix) s).1).
Proof using Nok Iok.
  intros (Hs & Hin & Hc & Hns & Hcl & Hig) Hz name Hsv Hrev. unfold kube_Records.
  destruct (cluster_name_longer s zone) as [Hne _]. fold name in Hne.
  pose proof (serves_Name _ _ _ _ _ Hsv Hne) as (_ & Hrz & _). destruct Hsv as (Hn & _).
  destruct (Name state) as [state1 n]. simpl in Hn, Hrz. subst n. rewrite Hrz.
  assert (label_ok (svcName s) /\ label_ok (svcNamespace s)) as [Hl1 Hl2].
  { destruct (Hs _ _ Hin) as (_ & _ & Hp1 & Hp2). by split; apply plain_label_ok. }
  assert (parseRequest name zone = Some (plain_request s, None)) as Ep.
  { unfold name. rewrite parseRequest_labels; [by unfold parse_segs|done| |done|simpl; lia].
    by repeat (constructor; [done || apply svc_label|]). }
  rewrite Ep. unfold mbind, st_bind. cbn [of_option mbind option_bind podOrSvc plain_request].
  rewrite (decide_False (P := Svc = EmptyString)) by done. rewrite Hrev, (decide_False (P := (0 < 0)%Z)) by done.
  cbn [rrNamespace plain_request]. rewrite (exposed_eq _ _ Hc Hns). cbn [mbind option_bind negb].
  rewrite (decide_False (P := Svc = Pod)) by done. by apply findServices_cluster.
Qed.

Lemma Services_cluster ctx s zone state qname qtype w :
  found_in s w -> valid_name zone ->
  let name := dotted [svcName s; svcNamespace s; Svc] +:+ ToLower zone in
  serves state name zone qname qtype -> IsReverse name = 0%Z -> isDefaultNS name zone = false ->
  qtype = TypeA \/ qtype = TypeAAAA ->
  kube_Services (controller get) k ctx state false w =
  Some (w, inr (cluster_services k (plain_request s) (Path zone kube_prefix) s).1).
Proof using Nok Iok.
  intros Hf Hz name Hsv Hrev Hdef Ht. unfold kube_Services.
  destruct (cluster_name_longer s zone) as [Hne _]. fold name in Hne.
  pose proof (serves_Name _ _ _ _ _ Hsv Hne) as Hsv1. destruct (Name state) as [state1 n] eqn:En. simpl in Hsv1.
  destruct Hsv as (Hn & _). rewrite En in Hn. simpl in Hn. subst n. pose proof Hsv1 as (_ & Hrz & _ & Hqt).
  rewrite Hqt, Hrz, Hdef.
  assert (qtype <> TypeTXT /\ qtype <> TypeNS /\ qtype <> TypeSRV) as (Hq1 & Hq2 & Hq3) by (by destruct Ht as [-> | ->]).
  rewrite decide_False, decide_False by done. unfold mbind, st_bind.
  rewrite (Records_cluster s zone state1 qname qtype w) by done. cbn [mbind option_bind]. by rewrite decide_True.
Qed.

(** The record of one kind that an address gives. *)
Definition cluster_record (kind : Kind) (qname ip : string) : option RR :=
  p ← ParseIP ip;
  match kind, To4 p with
  | kA, Some ip4 => Some (mkRR qname TypeA ClassINET (kTtl k) (A ip4))
  | kAAAA, None => Some (mkRR qname TypeAAAA ClassINET (kTtl k) (AAAA (default [] (To16 p))))
  | _, _ => None
  end.

Lemma own_cluster kind qname port key ip :
  own_record kind (kube_service ip port (kTtl k) key) qname = r ← cluster_record kind qname ip; Some (ip, r).
Proof.
  unfold own_record, cluster_record, HostType. cbn [Host kube_service Text].
  destruct (ParseIP ip) as [p|]; cbn [mbind option_bind]; [|by destruct kind].
  by destruct (To4 p), kind.
Qed.

Lemma cluster_own_records kind s r zp qname :
  rrPort r = EmptyString -> rrProtocol r = EmptyString -> svcPorts s <> [] -> NoDup (ClusterIPs s) ->
  map snd (distinct ∅ (omap (fun x => own_record kind x qname) (cluster_services k r zp s).1)) =
  omap (cluster_record kind qname) (ClusterIPs s).
Proof.
  intros Hp1 Hp2 Hne Hnd. unfold cluster_services. cbn [fst].
  set (own := omap (fun ip => r ← cluster_record kind qname ip; Some (ip, r)) (ClusterIPs s)).
  assert (forall p key, omap (fun x => own_record kind x qname) (map (fun ip => kube_service ip p (kTtl k) key) (ClusterIPs s)) = own) as Eo.
  { intros p key. unfold own. induction (ClusterIPs s) as [|ip ips IH]; [done|]. cbn [map omap list_omap]. rewrite own_cluster.
    apply NoDup_cons in Hnd as [_ Hnd]. by rewrite (IH Hnd). }
  set (ports := filter _ _).
  assert (ports = svcPorts s) as ->.
  { unfold ports. clear -Hp1 Hp2. induction (svcPorts s) as [|p ps IH]; [done|]. rewrite filter_cons_True; [by rewrite IH|].
    unfold matchPortAndProtocol. by rewrite Hp1, Hp2, !(bool_decide_eq_true_2 (EmptyString = EmptyString)), !orb_true_r. }
  assert (forall ps key, omap (fun x => own_record kind x qname)
    (flat_map (fun p => map (fun ip => kube_service ip (spPort p) (kTtl k) key) (ClusterIPs s)) ps) = concat (replicate (length ps) own)) as Ef.
  { intros ps key. induction ps as [|p ps IH]; [done|]. simpl. rewrite omap_app', Eo, IH. done. }
  rewrite Ef. destruct (svcPorts s) as [|p ps]; [done|]. cbn [length]. rewrite distinct_repeat.
  rewrite distinct_nodup; [|..].
  - unfold own. clear. induction (ClusterIPs s) as [|ip ips IH]; [done|]. cbn [omap list_omap].
    destruct (cluster_record kind qname ip); simpl; by rewrite IH.
  - unfold own. clear -Hnd. induction (ClusterIPs s) as [|ip ips IH]; [constructor|]. apply NoDup_cons in Hnd as [Hn Hnd].
    cbn [omap list_omap]. destruct (cluster_record kind qname ip); simpl; [|by apply IH]. constructor; [|by apply IH].
    intros Hin. apply Hn. clear -Hin. induction ips as [|x xs IH]; [done|]. cbn [omap list_omap] in Hin.
    destruct (cluster_record kind qname x); simpl in Hin; [|right; auto]. apply elem_of_cons in Hin as [->|Hin]; [by left|right; auto].
  - intros key _. apply not_elem_of_empty.
Qed.
(** The lookup of the addresses. *)
Lemma backend_cluster kind ctx s zone state qname qtype w :
  found_in s w -> valid_name zone -> NoDup (ClusterIPs s) -> Forall (fun ip => ParseIP ip <> None) (ClusterIPs s) ->
  let name := dotted [svcName s; svcNamespace s; Svc] +:+ ToLower zone in
  serves state name zone qname qtype -> IsReverse name = 0%Z -> isDefaultNS name zone = false ->
  kind <> kTXT -> qtype = TypeA \/ qtype = TypeAAAA ->
  backend_rr (kube_backend (controller get) k up) ctx zone lookup_depth kind state [] w =
  Some (w, inr (omap (cluster_record kind qname) (ClusterIPs s), false)).
Proof using Nok Iok.
  intros Hf Hz Hnd Hips name Hsv Hrev Hdef Hk Hq.
  destruct (cluster_name_longer s zone) as [Hne Hnz]. fold name in Hne, Hnz.
  assert (checkForApex (kube_backend (controller get) k up) ctx zone state w =
    Some (w, (state, inr (cluster_services k (plain_request s) (Path zone kube_prefix) s).1))) as E.
  { unfold checkForApex. pose proof (serves_Name _ _ _ _ _ Hsv Hne) as Hsv1.
    destruct (Name state) as [state1 n] eqn:En. simpl in Hsv1. destruct Hsv as (Hn & _). rewrite En in Hn. simpl in Hn. subst n.
    rewrite decide_True by done. cbn [Services kube_backend].
    unfold mbind, st_bind. rewrite (Services_cluster _ s zone state1 qname qtype w) by done. done. }
  change lookup_depth with (S 8). cbn [backend_rr].
  assert (forall B (f : _ -> st W B), (x ← match kind with
                    | kTXT => r ← Services (kube_backend (controller get) k up) ctx state false; mret (state, r)
                    | _ => checkForApex (kube_backend (controller get) k up) ctx zone state
                    end; f x) w = f (state, inr (cluster_services k (plain_request s) (Path zone kube_prefix) s).1) w) as ->.
  { intros B f. unfold mbind at 1, st_bind at 1. destruct kind; [..|done]; by rewrite E. }
  unfold mbind, st_bind. rewrite rr_loop_direct.
  - destruct Hsv as (_ & _ & -> & _). rewrite cluster_own_records; try done. apply Hf.
  - apply Forall_forall. intros x Hx. unfold cluster_services in Hx. simpl in Hx. apply list_elem_of_In, in_flat_map in Hx as (p & _ & Hx).
    apply in_map_iff in Hx as (ip & <- & Hip). rewrite Forall_forall in Hips. apply list_elem_of_In, Hips in Hip. unfold HostType. simpl.
    destruct (ParseIP ip) as [pp|]; [|done]. by destruct (To4 pp).
Qed.

(** The handler's answer, for either kind of address. *)
Lemma Kubernetes_cluster kind s ctx cw r q qs pre zone w :
  found_in s w -> NoDup (ClusterIPs s) -> Forall (fun ip => ParseIP ip <> None) (ClusterIPs s) ->
  mQuestion r = q :: qs -> host_name (qName q) -> (kind, qType q) ∈ [(kA, TypeA); (kAAAA, TypeAAAA)] ->
  qName q = pre +:+ zone -> ToLower pre = dotted [svcName s; svcNamespace s; Svc] -> valid_name zone ->
  slen (Zones_Matches (kZones k) (qName q)) = slen zone -> IsReverse (ToLower (qName q)) = 0%Z ->
  isDefaultNS (ToLower (qName q)) zone = false -> omap (cluster_record kind (qName q)) (ClusterIPs s) <> [] ->
  exists m, Kubernetes_ServeDNS (controller get) k up f16 next ctx cw r w = Some (w, [m], RcodeSuccess, None) /\
    mId m = mId r /\ mQuestion m = [q] /\ mAuthoritative m = true /\ mRcode m = RcodeSuccess /\
    mAnswer m = omap (cluster_record kind (qName q)) (ClusterIPs s).
Proof using Nok Mok Iok.
  intros Hf Hnd Hips Hq Hh Hkt Eq Epre Hz Hzl Hrev Hdef Hne. unfold Kubernetes_ServeDNS. cbv zeta.
  assert (QName (newRequest cw (Some r)) = qName q) as -> by (unfold QName; simpl; by rewrite Hq, Name_String_host).
  assert (zone <> EmptyString) as Hzn by (intros ->; by destruct Hz as [? _]).
  rewrite decide_False by (intros E; rewrite E in Hzl; by destruct zone). rewrite decide_True by (rewrite Hzl, Eq, slen_app; lia).
  rewrite Hzl. replace (slen (qName q) - slen zone)%nat with (slen pre) by (rewrite Eq, slen_app; lia).
  assert (slice_from (qName q) (slen pre) = Some zone) as -> by (by rewrite Eq, slice_from_app). cbn [mbind option_bind]. unfold kube_serve.
  set (state := set_rZone zone (newRequest cw (Some r))).
  assert (serves state (dotted [svcName s; svcNamespace s; Svc] +:+ ToLower zone) zone (qName q) (qType q)) as Hsv.
  { rewrite <- Epre, <- ToLower_app, <- Eq. unfold serves, QName, QType. simpl. rewrite Hq. rewrite Name_String_host by done.
    done. }
  rewrite Eq in Hrev, Hdef at 1. rewrite ToLower_app, Epre in Hrev, Hdef.
  assert (kind <> kTXT /\ (qType q = TypeA \/ qType q = TypeAAAA)) as [Hk Ht].
  { repeat (apply elem_of_cons in Hkt as [[= -> ->]|Hkt]; [by auto|]). by apply elem_of_nil in Hkt. }
  pose proof (backend_cluster kind ctx s zone state _ _ w Hf Hz Hnd Hips Hsv Hrev Hdef Hk Ht) as Hb.
  pose proof Hsv as (_ & _ & _ & HT). rewrite decide_False by (rewrite HT; by destruct Ht as [-> | ->]; intros []).
  assert (kube_switch (controller get) k up f16 ctx (qName q) zone state w =
    Some (w, (state, inr (omap (cluster_record kind (qName q)) (ClusterIPs s), [], false)))) as Es.
  { unfold kube_switch. rewrite HT. repeat (apply elem_of_cons in Hkt as [[= -> ->]|Hkt]; [|]); [..|by apply elem_of_nil in Hkt].
    - rewrite decide_True by done. unfold mbind, st_bind, backend_A. by rewrite Hb.
    - rewrite decide_False, decide_True by done. unfold mbind, st_bind, backend_AAAA. by rewrite Hb. }
  unfold mbind, st_bind. rewrite Es. cbn [mbind option_bind]. unfold state at 1. cbn [set_rZone newRequest Req of_option mbind option_bind].
  destruct (omap _ _) as [|a l]; [done|]. eexists. split; [reflexivity|]. rewrite SetReply_ok, Hq. done.
Qed.
End serving.

(** The names of a report are labels without dots and slashes. *)
Definition plain_reports (ds : list (Delta apiService)) : Prop :=
  Forall (fun d => match dObj d with
                   | dObject o => plain_label (oName (as_Meta o)) /\ plain_label (oNamespace (as_Meta o))
                   | _ => True
                   end) ds.

(** C6 A service that the API server has reported is served. After any reports
    of changes, in any order, that leave a service with cluster addresses, a
    query for the name of the service under a zone of the plugin, in any case,
    is answered with the addresses of the asked kind, each once whatever the
    number of ports, in the order of the service and with the configured TTL. *)
Theorem reported_service_served `{DnsNamesOk} `{DnsMsgsOk} `{IndexersOk} (k : Kubernetes) (ds : list (Delta apiService))
    (c : dnsControl) (s : KService)
    (up : Ctx -> Request -> string -> Z -> st dnsControl (string + option Msg)) (f16 : spec_float -> Z)
    (next : option (Handler dnsControl)) (ctx : Ctx) (cw : Writer) (r : Msg) (q : Question) (qs : list Question)
    (kind : Kind) (pre zone : string) :
  store_ok c -> reported ds -> plain_reports ds ->
  mirror_services ds (contents (svcLister c)) !! meta_key (svcNamespace s) (svcName s) = Some s ->
  configuredNamespace k (svcNamespace s) = true -> contents (nsLister c) !! svcNamespace s <> None ->
  cluster_service s -> ignoreEmptyService k = false ->
  NoDup (ClusterIPs s) -> Forall (fun ip => ParseIP ip <> None) (ClusterIPs s) ->
  mQuestion r = q :: qs -> host_name (qName q) -> (kind, qType q) ∈ [(kA, TypeA); (kAAAA, TypeAAAA)] ->
  qName q = pre +:+ zone -> ToLower pre = dotted [svcName s; svcNamespace s; Svc] -> valid_name zone ->
  slen (Zones_Matches (kZones k) (qName q)) = slen zone -> IsReverse (ToLower (qName q)) = 0%Z ->
  isDefaultNS (ToLower (qName q)) zone = false -> omap (cluster_record k kind (qName q)) (ClusterIPs s) <> [] ->
  exists c' m, process_services ds c = Some (c', None) /\
    Kubernetes_ServeDNS (controller id) k up f16 next ctx cw r c' = Some (c', [m], RcodeSuccess, None) /\
    mId m = mId r /\ mQuestion m = [q] /\ mAuthoritative m = true /\ mRcode m = RcodeSuccess /\
    mAnswer m = omap (cluster_record k kind (qName q)) (ClusterIPs s).
Proof.
  intros Hst Hds Hpl Hs Hc Hns Hcl Hig Hnd Hips Hq Hh Hkt Eq Epre Hz Hzl Hrev Hdef Hne.
  destruct (services_mirror ds c Hds) as (c' & E & Hn' & Hc').
  assert (found_in id k s c') as Hf.
  { split; [by eapply store_ok_mirror|]. unfold id. rewrite Hc', Hn'. done. }
  destruct (Kubernetes_cluster id k up f16 next kind s ctx cw r q qs pre zone c') as (m & Em & Hm); try done.
  by exists c', m.
Qed.
