(* ===== verification/KubeExamples.v ===== *)
(** * A cluster

    Closed instances of the theorems about the kubernetes plugin, and what
    the plugin does on some inputs that its documentation says otherwise of. *)

From Stdlib Require Import SpecFloat.
From S2P Require Import Prelude.
From S2P Require Import GoStd.
From S2P Require Import GoNet.
From S2P Require Import DnsNames.
From S2P Require Import DnsMsg.
From S2P Require Import DnsUtil.
From S2P Require Import Request.
From S2P Require Import Plugin.
From S2P Require Import Service.
From S2P Require Import Backend.
From S2P Require Import BackendTheorems.
From S2P Require Import KubeObject.
From S2P Require Import KubeController.
From S2P Require Import Kubernetes.
From S2P Require Import KubernetesTheorems.
From S2P Require Import KubeCacheTheorems.
From S2P Require Import KubeServing.

#[local] Existing Instance dns_reference.
#[local] Existing Instance dns_reference_ok.
#[local] Existing Instance msgs_reference.
#[local] Existing Instance msgs_reference_ok.
#[local] Existing Instance indexers_reference.
#[local] Existing Instance indexers_reference_ok.

Definition meta (version name namespace : string) : ObjectMeta := mkMeta version name namespace ∅ None.

(** A service with two addresses and two ports, and one that is headless. *)
Definition web_api : apiService :=
  mkApiService (meta "1" "web" "default") ServiceTypeClusterIP "10.96.0.10" ["10.96.0.10"; "fd00::a"]%string EmptyString
    [mkServicePort "http" "TCP" 80; mkServicePort "https" "TCP" 443] [] [].
Definition db_api : apiService :=
  mkApiService (meta "2" "db" "default") ServiceTypeClusterIP ClusterIPNone [] EmptyString [] [] [].

Definition web : KService := ToService web_api.

(** The service is deleted, and reported again when the watch starts over. *)
Definition web_reports : list (Delta apiService) :=
  [mkDelta Added (dObject web_api) 100; mkDelta Deleted (DeletedFinalStateUnknown "default/web") 101;
   mkDelta Sync (dObject db_api) 102; mkDelta Sync (dObject web_api) 102].

Definition default_namespace : list (Delta ObjectMeta) := [mkDelta Added (dObject (meta "0" "default" EmptyString)) 99].

Definition started (pods endpoints : bool) : dnsControl :=
  match process_namespaces default_namespace (newdnsController pods endpoints) with
  | Some (c, _) => c
  | None => newdnsController pods endpoints
  end.

Definition cluster : Kubernetes :=
  mkKubernetes ["cluster.local."%string] ∅ podModeDisabled false [] 5 false false 0 [v4prefix ++ [10; 0; 0; 2]%Z] [].

Definition no_lookup {W} : Ctx -> Request -> string -> Z -> st W (string + option Msg) := fun _ _ _ _ s => Some (s, inl "no"%string).
Definition kube_query (name : string) (typ : Z) : Msg := set_mQuestion [mkQuestion name typ ClassINET] zeroMsg.
Definition ask_cluster (name : string) (typ : Z) (c : dnsControl) : option (dnsControl * list Msg * Z * option string) :=
  Kubernetes_ServeDNS (controller id) cluster no_lookup f16_zero None (mkCtx 0 None) example_client (kube_query name typ) c.

Lemma reported_service_served_witness :
  exists c' m, process_services web_reports (started false true) = Some (c', None) /\
    ask_cluster "Web.default.svc.Cluster.Local." TypeAAAA c' = Some (c', [m], RcodeSuccess, None) /\
    mAnswer m = omap (cluster_record cluster kAAAA "Web.default.svc.Cluster.Local.") ["10.96.0.10"; "fd00::a"]%string.
Proof.
  destruct (reported_service_served cluster web_reports (started false true) web no_lookup f16_zero None (mkCtx 0 None) example_client
    (kube_query "Web.default.svc.Cluster.Local." TypeAAAA) (mkQuestion "Web.default.svc.Cluster.Local." TypeAAAA ClassINET) []
    kAAAA "Web.default.svc." "Cluster.Local.") as (c' & m & E & Es & _ & _ & _ & _ & Ha); try done; try decided.
  - repeat constructor.
  - repeat (constructor; [try done; decided|]); constructor.
  - right; left.
  - exists c', m. split; [exact E|]. split; [exact Es|exact Ha].
Defined.

Lemma watch_cache_mirrors_witness :
  exists c', process_services web_reports (started false true) = Some (c', None) /\
    contents (svcLister c') = {["default/db"%string := ToService db_api; "default/web"%string := web]}.
Proof.
  destruct (watch_cache_mirrors web_reports (started false true)) as (c' & E & Hc); [repeat constructor|].
  exists c'. split; [exact E|]. rewrite Hc. vm_compute. reflexivity.
Defined.

Lemma parse_request_roundtrip_witness :
  parseRequest "_http._tcp.web.default.svc.cluster.local." "Cluster.Local." =
  Some (mkRecordRequest "http" "tcp" EmptyString "web" "default" Svc, None).
Proof.
  apply (parse_request_roundtrip (mkRecordRequest "http" "tcp" EmptyString "web" "default" Svc) "Cluster.Local."); [|decided].
  split; [decided|]. split; [by right|done].
Defined.

(** Any state of the cache that is good is a controller that keeps its
    contract. *)
Definition GoodControl : Type := { c : dnsControl | control_good false false c }.
Definition good_started : GoodControl.
Proof.
  exists (started false true). split; [|split; [|done]].
  - apply map_Forall_empty.
  - eexists. split; [reflexivity|apply map_Forall_empty].
Defined.


(** ** The serial *)

Definition db_slice (version ip pod : string) : EndpointSlice :=
  mkSlice (mkMeta version "db-x1" "default" {[ LabelServiceName := "db"%string ]} None)
    [mkSlicePort (Some 5432%Z) (Some "sql"%string) (Some "TCP"%string)]
    [mkSliceEndpoint [ip] None None (Some pod) None].

Definition endpoints_after (ds : list (Delta EndpointSlice)) : option dnsControl :=
  '(c, _) ← process_endpoints EndpointSliceToEndpoints ds (started false true); Some c.

Definition db_endpoints (version ip pod : string) : KEndpoints :=
  default (mkKEndpoints EmptyString EmptyString EmptyString EmptyString [] []) (EndpointSliceToEndpoints (db_slice version ip pod)).
Definition with_db : dnsControl :=
  default (started false true) (endpoints_after [mkDelta Added (dObject (db_slice "1" "10.0.0.7" "db-0")) 200]).
Definition db_updated (s : EndpointSlice) : dnsControl :=
  match process_endpoints EndpointSliceToEndpoints [mkDelta Updated (dObject s) 300] with_db with Some (c, _) => c | None => with_db end.


(** When endpoints are named after their pods, a pod that takes over the
    address of another changes the answers but not the serial. *)
Definition named_cluster : Kubernetes :=
  mkKubernetes ["cluster.local."%string] ∅ podModeDisabled true [] 5 false false 0 [] [].

Example renamed_pod_keeps_serial :
  modified (db_updated (db_slice "2" "10.0.0.7" "db-1")) = modified with_db /\
  ~ same_answers named_cluster (db_endpoints "1" "10.0.0.7" "db-0") (db_endpoints "2" "10.0.0.7" "db-1").
Proof.
  split; [vm_compute; reflexivity|]. intros (_ & Hr & _). specialize (Hr "10.0.0.7"%string). vm_compute in Hr. discriminate.
Qed.

(** The serial of the external zones does not change when a service with an
    external address is added or deleted. *)
Definition exposed_api : apiService :=
  mkApiService (meta "3" "shop" "default") ServiceTypeLoadBalancer "10.96.0.11" ["10.96.0.11"]%string EmptyString
    [mkServicePort "http" "TCP" 80] [] [mkIngress "192.0.2.1" EmptyString].

Example external_serial_misses_additions :
  exists c, process_services [mkDelta Added (dObject exposed_api) 400] (started false true) = Some (c, None) /\
    control_SvcExtIndexReverse "192.0.2.1" c = [ToService exposed_api] /\ control_Modified true c = control_Modified true (started false true) /\
    control_Modified false c = 400%Z.
Proof. eexists. repeat split; vm_compute; reflexivity. Qed.

(** ** Names *)

Definition served : dnsControl :=
  match process_services web_reports (started false true) with Some (c, _) => c | None => started false true end.

Definition rcodes_answers (r : option (dnsControl * list Msg * Z * option string)) : option (list (Z * nat)) :=
  '(_, msgs, _, _) ← r; Some (map (fun m => (mRcode m, length (mAnswer m))) msgs).

Definition set_synced (c : dnsControl) : dnsControl :=
  mkControl (modified c) (extModified c) (svcLister c) (podLister c) (epLister c) (nsLister c) (epSource c)
    true true true true (shutdown c).

(** The name of the server itself is known in lower case only. *)
Example server_name_case :
  rcodes_answers (ask_cluster "ns.dns.cluster.local." TypeA served) = Some [(RcodeSuccess, 1%nat)] /\
  rcodes_answers (ask_cluster "ns.dns.Cluster.local." TypeA (set_synced served)) = Some [(RcodeNameError, 0%nat)].
Proof. split; vm_compute; reflexivity. Qed.

(** Without a watch for endpoints a query for a headless service panics. *)
Definition served_without_endpoints : dnsControl :=
  match process_services web_reports (started false false) with Some (c, _) => c | None => started false false end.

Example noendpoints_panics :
  rcodes_answers (ask_cluster "db.default.svc.cluster.local." TypeA served_without_endpoints) = None /\
  rcodes_answers (ask_cluster "web.default.svc.cluster.local." TypeA served_without_endpoints) = Some [(RcodeSuccess, 1%nat)].
Proof. split; vm_compute; reflexivity. Qed.
