(* ===== verification/LoadBalance.v ===== *)
(** * The loadbalance plugin

    plugin/loadbalance: reordering the records of a reply, at random
    (round_robin) or with a weighted choice of the first address (weighted).
    The sources of random numbers are parameters that act on the state. *)

From S2P Require Import Prelude.
From S2P Require Import GoStd.
From S2P Require Import GoNet.
From S2P Require Import DnsNames.
From S2P Require Import DnsMsg.
From S2P Require Import Request.
From S2P Require Import Plugin.
From S2P Require Import Hosts.

(** [records[i], records[j] = records[j], records[i]]. *)
Definition swap {A} (i j : nat) (l : list A) : option (list A) :=
  x ← l !! i; y ← l !! j; Some (<[j := x]> (<[i := y]> l)).

(** ** The round_robin policy *)

Record Groups := mkGroups { gCname : list RR; gAddress : list RR; gMx : list RR; gRest : list RR }.

(** The loop that both policies sort the records with. *)
Fixpoint group_records (l : list RR) (g : Groups) : Groups :=
  match l with
  | [] => g
  | r :: l' =>
      group_records l'
        (if decide (hRrtype r = TypeCNAME) then mkGroups (gCname g ++ [r]) (gAddress g) (gMx g) (gRest g)
         else if decide (hRrtype r = TypeA \/ hRrtype r = TypeAAAA) then mkGroups (gCname g) (gAddress g ++ [r]) (gMx g) (gRest g)
         else if decide (hRrtype r = TypeMX) then mkGroups (gCname g) (gAddress g) (gMx g ++ [r]) (gRest g)
         else mkGroups (gCname g) (gAddress g) (gMx g) (gRest g ++ [r]))
  end.

Definition no_groups : Groups := mkGroups [] [] [] [].

Section round_robin.
(** [dns.Id]. *)
Context {W : Type} (Id : st W Z).

(** The loop from [j], [n] turns before the end of the [l] records. *)
Fixpoint shuffle_loop (n j l : nat) (records : list RR) : st W (list RR) :=
  match n with
  | O => mret records
  | S n' =>
      id ← Id;
      let p := (j + Z.to_nat (id `rem` Z.of_nat (l - j)))%nat in
      if decide (j = p) then shuffle_loop n' (S j) l records
      else records ← of_option (swap j p records); shuffle_loop n' (S j) l records
  end.

Definition roundRobinShuffle (records : list RR) : st W (list RR) :=
  match length records with
  | 0 | 1 => mret records
  | 2 => id ← Id; if decide (id `rem` 2 = 0)%Z then of_option (swap 0 1 records) else mret records
  | l => shuffle_loop l 0 l records
  end.

Definition roundRobin (l : list RR) : st W (list RR) :=
  let g := group_records l no_groups in
  address ← roundRobinShuffle (gAddress g);
  mx ← roundRobinShuffle (gMx g);
  mret (gCname g ++ gRest g ++ address ++ mx).

Definition randomShuffle (res : Msg) : st W Msg :=
  answer ← roundRobin (mAnswer res);
  ns ← roundRobin (mNs res);
  extra ← roundRobin (mExtra res);
  mret (set_sections answer ns extra res).
End round_robin.

(** ** The weighted policy *)

(** [IP.Equal]: an IPv4 address equals its 16-byte form. *)
Definition IP_Equal (a b : IP) : bool :=
  if decide (length a = length b) then bool_decide (a = b)
  else if decide (length a = 4%nat /\ length b = 16%nat) then bool_decide (b = v4prefix ++ a)
  else if decide (length a = 16%nat /\ length b = 4%nat) then bool_decide (a = v4prefix ++ b)
  else false.

Record weightItem := mkWeight { wAddress : IP; wValue : Z }.
Definition weights : Type := list weightItem.

Record weightedRR := mkWeighted {
  wFileName : string;
  wReload : Z;
  md5sum : string;
  wDomains : gmap string weights
}.

(** The address of a record, nil for other types; the assertions panic when
    the data does not fit the header. *)
Definition record_ip (ar : RR) : option IP :=
  if decide (hRrtype ar = TypeA) then match rdata ar with A ip => Some ip | _ => None end
  else if decide (hRrtype ar = TypeAAAA) then match rdata ar with AAAA ip => Some ip | _ => None end
  else Some [].

Fixpoint find_weight (ws : weights) (ip : IP) : Z :=
  match ws with
  | [] => 1
  | w :: ws' => if IP_Equal (wAddress w) ip then wValue w else find_weight ws' ip
  end.

Definition record_weight (domains : gmap string weights) (ar : RR) : option Z :=
  ip ← record_ip ar; Some (find_weight (default [] (domains !! hName ar)) ip).

(** The selection loop: the first position at which the sum exceeds [v]. *)
Fixpoint pick (l : list (nat * Z)) (v psum : Z) : Z :=
  match l with
  | [] => -1
  | (index, weight) :: l' =>
      let psum := u64 (psum + weight) in
      if decide (v < psum)%Z then Z.of_nat index else pick l' v psum
  end.

Definition heavier (x y : nat * Z) : bool := bool_decide (y.2 < x.2)%Z.

Section weighted.
Context `{GoSort}.
(** [rand.Intn] of the generator, for a positive limit. *)
Context {W : Type} (Intn : Z -> st W Z).

Definition randUint (limit : Z) : st W Z := if decide (limit <= 0)%Z then panic else Intn limit.

Definition topAddressIndex (domains : gmap string weights) (address : list RR) : st W Z :=
  ws ← of_option (mapM (record_weight domains) address);
  let wsum := fold_left (fun s w => u64 (s + w)) ws 0%Z in
  let weightedAddr := go_sort heavier (zip (seq 0 (length ws)) ws) in
  v ← randUint wsum;
  mret (pick weightedAddr v 0).

Definition setTopRecord (domains : gmap string weights) (address : list RR) : st W (list RR) :=
  itop ← topAddressIndex domains address;
  if decide (itop < 0)%Z then mret address
  else if decide (itop = 0)%Z then mret address
  else of_option (swap 0 (Z.to_nat itop) address).

Definition weightedRoundRobin (domains : gmap string weights) (l : list RR) : st W (list RR) :=
  let g := group_records l no_groups in
  match gAddress g with
  | [] => mret l
  | address =>
      address ← setTopRecord domains address;
      mret (gCname g ++ gRest g ++ address ++ gMx g)
  end.

Definition weightedShuffle (domains : gmap string weights) (res : Msg) : st W Msg :=
  match mQuestion res with
  | [] => panic
  | q :: _ =>
      if decide (qType q = TypeA \/ qType q = TypeAAAA \/ qType q = TypeSRV) then
        answer ← weightedRoundRobin domains (mAnswer res);
        extra ← weightedRoundRobin domains (mExtra res);
        mret (set_sections answer (mNs res) extra res)
      else mret res
  end.
End weighted.

(** ** The weight file *)

(** [strings.TrimSpace] on ASCII text. *)
Fixpoint trim_left (s : string) : string :=
  match s with
  | String c s' => if is_space c then trim_left s' else s
  | EmptyString => EmptyString
  end.
Fixpoint trim_right (s : string) : string :=
  match s with
  | EmptyString => EmptyString
  | String c s' =>
      match trim_right s' with
      | EmptyString => if is_space c then EmptyString else String c EmptyString
      | t => String c t
      end
  end.
Definition TrimSpace (s : string) : string := trim_right (trim_left s).

Definition quoted (s : string) : string := String "034" (s +:+ String "034" EmptyString).

(** [scanner.Err] after the last line: a line did not fit the buffer. *)
Definition scan_error (lines : list string) : option string :=
  if existsb (fun l => Nat.leb MaxScanTokenSize (slen l)) lines then Some "bufio.Scanner: token too long"%string else None.

Section weight_file.
Context (fileName : string).

(** The lines of the file from one on, with the variables of the loop: the
    map, the name and the weights of the last domain line. *)
Fixpoint weight_lines (lines : list string) (domains : gmap string weights) (dname : string) (ws : weights)
  : gmap string weights * option string :=
  match lines with
  | [] => (domains, None)
  | line :: lines' =>
      let nextLine := TrimSpace line in
      if decide (nextLine = EmptyString \/ stake 1 nextLine = "#"%string) then weight_lines lines' domains dname ws
      else
        match Fields nextLine with
        | [f] =>
            match ParseIP f with
            | Some _ => (domains, Some ("Wrong domain name:" +:+ quoted f +:+ " in weight file " +:+ fileName +:+
                                        ". (Maybe a missing weight value?)"))
            | None =>
                let dname := if HasSuffix f dot then f else f +:+ dot in
                match domains !! dname with
                | Some ws => weight_lines lines' domains dname ws
                | None => weight_lines lines' (<[dname := []]> domains) dname []
                end
            end
        | [f; g] =>
            match ParseIP f with
            | None => (domains, Some ("Wrong IP address:" +:+ quoted f +:+ " in weight file " +:+ fileName))
            | Some ip =>
                match ParseUint 8 g with
                | (_, Some _) => (domains, Some ("Wrong weight value:" +:+ quoted g +:+ " in weight file " +:+ fileName))
                | (weight, None) =>
                    if decide (dname = EmptyString) then (domains, Some ("Missing domain name in weight file " +:+ fileName))
                    else
                      let ws := ws ++ [mkWeight ip weight] in
                      weight_lines lines' (<[dname := ws]> domains) dname ws
                end
            end
        | _ => (domains, Some ("Could not parse weight line:" +:+ quoted nextLine +:+ " in weight file " +:+ fileName))
        end
  end.

Definition parseWeights (content : string) : gmap string weights * option string :=
  let lines := strings_Split ch_nl content in
  let '(domains, err) := weight_lines (scan_lines lines) ∅ EmptyString [] in
  match err with
  | Some e => (domains, Some e)
  | None =>
      match scan_error lines with
      | Some e => (domains, Some ("Weight file " +:+ fileName +:+ " parsing error:" +:+ e))
      | None => (domains, None)
      end
  end.
End weight_file.

Definition errOpen : string := "Weight file open error".

Section update.
(** [md5.Sum]. *)
Context (md5 : string -> string).

(** [file] is what opening and reading the file gives: it cannot be opened,
    reading fails, or its contents. *)
Definition updateWeights (file : option (string + string)) (w : weightedRR) : weightedRR * option string :=
  match file with
  | None => (w, Some errOpen)
  | Some (inl err) => (w, Some err)
  | Some (inr content) =>
      if decide (md5 content = md5sum w) then (w, None)
      else
        let '(domains, err) := parseWeights (wFileName w) content in
        (mkWeighted (wFileName w) (wReload w) (md5 content) domains, err)
  end.

(** The error of a file that cannot be opened is kept for a warning when the
    file will be read again. *)
Definition weightedOnStartUp (file : option (string + string)) (w : weightedRR) : weightedRR * option string :=
  let '(w, err) := updateWeights file w in
  match err with
  | None => (w, None)
  | Some e => if decide (file = None /\ wReload w <> 0%Z) then (w, None) else (w, Some (plugin_Error "loadbalance" e))
  end.

(** One tick of the reload loop; the error is logged. *)
Definition periodicWeightUpdate (file : option (string + string)) (w : weightedRR) : weightedRR :=
  (updateWeights file w).1.
End update.

(** ** The handler *)

Section handler.
Context {W : Type} (shuffle : Msg -> st W Msg) (next : option (Handler W)).

Definition lb_WriteMsg (res : Msg) : st W Msg :=
  if decide (mRcode res <> RcodeSuccess) then mret res
  else
    match mQuestion res with
    | [] => panic
    | q :: _ => if decide (qType q = TypeAXFR \/ qType q = TypeIXFR) then mret res else shuffle res
    end.

Fixpoint lb_write_all (msgs : list Msg) : st W (list Msg) :=
  match msgs with
  | [] => mret []
  | m :: msgs' => m ← lb_WriteMsg m; ms ← lb_write_all msgs'; mret (m :: ms)
  end.

Definition LoadBalance_Name : string := "loadbalance".

(** The messages the next plugin writes go through the writer; the random
    numbers are drawn after the plugin has returned. *)
Definition LoadBalance_ServeDNS : Handler W := fun ctx w r s =>
  '(s, msgs, rcode, err) ← NextOrFailure LoadBalance_Name next ctx w r s;
  '(s, msgs) ← lb_write_all msgs s;
  Some (s, msgs, rcode, err).
End handler.
