(* ===== verification/LoadBalanceTheorems.v ===== *)
(** * Properties of the loadbalance plugin *)

From stdpp Require Import sorting.
From S2P Require Import Prelude.
From S2P Require Import GoStd.
From S2P Require Import GoNet.
From S2P Require Import DnsNames.
From S2P Require Import DnsMsg.
From S2P Require Import Request.
From S2P Require Import Plugin.
From S2P Require Import Hosts.
From S2P Require Import LoadBalance.

(** One possible sort, for closed examples. *)
Definition sort_merge : GoSort.
Proof.
  refine {| go_sort := fun A less => @merge_sort A (fun x y => less y x = false) (fun x y => decide (less y x = false)) |}.
  - intros A less l. apply merge_sort_Permutation.
  - intros A less l Ha Ht. apply StronglySorted_merge_sort; [exact Ht|].
    intros x y. destruct (less y x) eqn:E; [|by left]. right. by apply Ha.
Defined.

(** ** Reordering *)

Definition cname_rr (r : RR) : Prop := hRrtype r = TypeCNAME.
Definition address_rr (r : RR) : Prop := hRrtype r = TypeA \/ hRrtype r = TypeAAAA.
Definition mx_rr (r : RR) : Prop := hRrtype r = TypeMX.
Definition rest_rr (r : RR) : Prop := ~ cname_rr r /\ ~ address_rr r /\ ~ mx_rr r.

#[export] Instance cname_rr_dec r : Decision (cname_rr r).
Proof. unfold cname_rr. apply _. Defined.
#[export] Instance address_rr_dec r : Decision (address_rr r).
Proof. unfold address_rr. apply _. Defined.
#[export] Instance mx_rr_dec r : Decision (mx_rr r).
Proof. unfold mx_rr. apply _. Defined.
#[export] Instance rest_rr_dec r : Decision (rest_rr r).
Proof. unfold rest_rr. apply _. Defined.

(** [l'] has the records of [l] with the aliases first, then all others but
    addresses and mail exchanges, both in order, then the addresses and the
    mail exchanges in some order. *)
Definition reordered (l l' : list RR) : Prop :=
  exists address mx, address ≡ₚ filter address_rr l /\ mx ≡ₚ filter mx_rr l /\
    l' = filter cname_rr l ++ filter rest_rr l ++ address ++ mx.

(** A reply that is not shuffled: an error or a zone transfer. *)
Definition not_shuffled (m : Msg) : Prop :=
  mRcode m <> RcodeSuccess \/ exists q qs, mQuestion m = q :: qs /\ (qType q = TypeAXFR \/ qType q = TypeIXFR).

Definition balanced (m m' : Msg) : Prop :=
  (not_shuffled m /\ m' = m) \/
  (reordered (mAnswer m) (mAnswer m') /\ reordered (mNs m) (mNs m') /\ reordered (mExtra m) (mExtra m') /\
   m' = set_sections (mAnswer m') (mNs m') (mExtra m') m).

(** Refutes two different types of one record. *)
Ltac other_type :=
  exfalso; unfold rest_rr, cname_rr, address_rr, mx_rr, TypeCNAME, TypeA, TypeAAAA, TypeMX in *; intuition congruence.

Lemma group_records_spec l g :
  group_records l g = mkGroups (gCname g ++ filter cname_rr l) (gAddress g ++ filter address_rr l)
                        (gMx g ++ filter mx_rr l) (gRest g ++ filter rest_rr l).
Proof.
  revert g. induction l as [|r l IH]; intros g; simpl.
  { rewrite !app_nil_r. by destruct g. }
  rewrite IH, !filter_cons. clear IH.
  repeat case_decide; simpl; rewrite <- ?app_assoc; solve [done | other_type].
Qed.

Lemma groups_perm (l : list RR) :
  filter cname_rr l ++ filter rest_rr l ++ filter address_rr l ++ filter mx_rr l ≡ₚ l.
Proof.
  induction l as [|r l IH]; [done|]. rewrite !filter_cons.
  repeat case_decide; try other_type; simpl; rewrite <- ?Permutation_middle; by rewrite IH.
Qed.

Lemma reordered_perm l l' : reordered l l' -> l' ≡ₚ l.
Proof. intros (a & m & Ha & Hm & ->). rewrite Ha, Hm. apply groups_perm. Qed.

Lemma swap_perm {A} i j (l : list A) :
  (i < length l)%nat -> (j < length l)%nat -> exists l', swap i j l = Some l' /\ l' ≡ₚ l.
Proof.
  intros [x Ex]%lookup_lt_is_Some [y Ey]%lookup_lt_is_Some. unfold swap. rewrite Ex, Ey. simpl. eexists. split; [done|].
  by apply Permutation_insert_swap.
Qed.

(** [dns.Id] returns, a 16-bit number. *)
Definition id_ok {W} (Id : st W Z) : Prop := wp Id (fun id => 0 <= id < 2 ^ 16)%Z.

Section shuffle.
Context {W : Type} (Id : st W Z) (HId : id_ok Id).

Lemma shuffle_loop_perm n j l records :
  length records = l -> (n + j = l)%nat -> wp (shuffle_loop Id n j l records) (fun r => r ≡ₚ records).
Proof.
  revert j records. induction n as [|n IH]; intros j records Hl Hn; simpl; [by apply wp_ret|].
  apply wp_bind. eapply wp_mono; [exact HId|]. intros id [Hid _].
  set (p := (j + Z.to_nat (id `rem` Z.of_nat (l - j)))%nat).
  assert (p < l)%nat as Hp.
  { unfold p. pose proof (Z.rem_bound_pos id (Z.of_nat (l - j)) Hid). lia. }
  destruct (decide (j = p)); [by apply IH; [|lia]|].
  destruct (swap_perm j p records) as (records' & E & HP); [lia..|].
  apply wp_bind. apply (wp_option _ _ records' E). eapply wp_mono; [apply IH|].
  - by rewrite HP.
  - lia.
  - intros r ->. exact HP.
Qed.

Lemma roundRobinShuffle_perm records : wp (roundRobinShuffle Id records) (fun r => r ≡ₚ records).
Proof.
  unfold roundRobinShuffle. destruct records as [|a [|b [|c l]]]; [by apply wp_ret..| |].
  - simpl. apply wp_bind. eapply wp_mono; [exact HId|]. intros id _. cbv beta.
    destruct (decide (id `rem` 2 = 0)%Z); [|by apply wp_ret].
    eapply wp_option; [reflexivity|]. simpl. apply perm_swap.
  - by apply shuffle_loop_perm.
Qed.

Lemma roundRobin_reordered l : wp (roundRobin Id l) (reordered l).
Proof.
  unfold roundRobin. rewrite group_records_spec. simpl.
  apply wp_bind. eapply wp_mono; [apply roundRobinShuffle_perm|]. intros address Ha.
  apply wp_bind. eapply wp_mono; [apply roundRobinShuffle_perm|]. intros mx Hm.
  apply wp_ret. by exists address, mx.
Qed.

Lemma lb_WriteMsg_balanced m :
  mRcode m <> RcodeSuccess \/ mQuestion m <> [] -> wp (lb_WriteMsg (randomShuffle Id) m) (balanced m).
Proof.
  intros Hq. unfold lb_WriteMsg. destruct (decide (mRcode m <> RcodeSuccess)) as [Hr|Hr].
  { apply wp_ret. by left; split; [left|]. }
  destruct (mQuestion m) as [|q qs] eqn:Eq; [by destruct Hq|].
  destruct (decide (qType q = TypeAXFR \/ qType q = TypeIXFR)) as [Hx|Hx].
  { apply wp_ret. left. split; [right; eauto|done]. }
  unfold randomShuffle. apply wp_bind. eapply wp_mono; [apply roundRobin_reordered|]. intros a Ha.
  apply wp_bind. eapply wp_mono; [apply roundRobin_reordered|]. intros n Hn.
  apply wp_bind. eapply wp_mono; [apply roundRobin_reordered|]. intros e He.
  apply wp_ret. by right.
Qed.

Lemma lb_write_all_balanced msgs :
  Forall (fun m => mRcode m <> RcodeSuccess \/ mQuestion m <> []) msgs ->
  wp (lb_write_all (randomShuffle Id) msgs) (Forall2 balanced msgs).
Proof.
  induction 1 as [|m msgs Hm _ IH]; simpl; [by apply wp_ret|].
  apply wp_bind. eapply wp_mono; [by apply lb_WriteMsg_balanced|]. intros m' Hb.
  apply wp_bind. eapply wp_mono; [exact IH|]. intros ms Hms. apply wp_ret. by constructor.
Qed.
End shuffle.

(** ** Weights *)

(** How many elements of a list satisfy [P]. *)
Definition count {A} (P : A -> Prop) `{forall x, Decision (P x)} (l : list A) : nat := length (filter P l).

Lemma count_app {A} (P : A -> Prop) `{forall x, Decision (P x)} l k : count P (l ++ k) = (count P l + count P k)%nat.
Proof. unfold count. by rewrite filter_app, length_app. Qed.

Lemma count_all {A} (P : A -> Prop) `{forall x, Decision (P x)} l : Forall P l -> count P l = length l.
Proof. induction 1 as [|x l Hx _ IH]; [done|]. unfold count in *. rewrite filter_cons_True by done. simpl. lia. Qed.

Lemma count_none {A} (P : A -> Prop) `{forall x, Decision (P x)} l : Forall (fun x => ~ P x) l -> count P l = 0%nat.
Proof. induction 1 as [|x l Hx _ IH]; [done|]. unfold count in *. by rewrite filter_cons_False. Qed.

Lemma count_iff {A} (P Q : A -> Prop) `{forall x, Decision (P x), forall x, Decision (Q x)} l :
  Forall (fun x => P x <-> Q x) l -> count P l = count Q l.
Proof.
  induction 1 as [|x l Hx _ IH]; [done|]. unfold count in *. rewrite !filter_cons.
  repeat case_decide; simpl; intuition lia.
Qed.

(** The sum of the weights of a list. *)
Definition weight_sum (l : list (nat * Z)) : Z := foldr (fun x s => (x.2 + s)%Z) 0%Z l.

Lemma weight_sum_nonneg l : Forall (fun x => 0 <= x.2)%Z l -> (0 <= weight_sum l)%Z.
Proof. induction 1; simpl; lia. Qed.

Lemma weight_sum_perm l k : l ≡ₚ k -> weight_sum l = weight_sum k.
Proof. induction 1; simpl; lia. Qed.

Lemma elem_of_seqZ_range m n v : v ∈ seqZ m n -> (m <= v < m + n)%Z.
Proof. rewrite elem_of_seqZ. lia. Qed.

(** Of the numbers below the sum, as many select an index as its weight. *)
Lemma pick_count (l : list (nat * Z)) (p : Z) (i : nat) :
  Forall (fun x => 0 <= x.2)%Z l -> NoDup l.*1 -> (0 <= p)%Z -> (p + weight_sum l < 2 ^ 64)%Z ->
  (forall x, (i, x) ∈ l -> count (fun v => pick l v p = Z.of_nat i) (seqZ p (weight_sum l)) = Z.to_nat x) /\
  (i ∉ l.*1 -> count (fun v => pick l v p = Z.of_nat i) (seqZ p (weight_sum l)) = 0%nat).
Proof.
  intros Hw. revert p. induction Hw as [|[k w] l Hkw Hl IH]; intros p Hnd Hp Hs; simpl in *.
  { split; [intros x Hx; by apply elem_of_nil in Hx|done]. }
  apply NoDup_cons in Hnd as [Hk Hnd]. pose proof (weight_sum_nonneg l Hl).
  assert (u64 (p + w) = p + w)%Z as Eu by (unfold u64; rewrite Z.mod_small; lia).
  rewrite seqZ_app by lia. rewrite count_app, Eu.
  rewrite (count_iff _ (fun v => pick l v (p + w) = Z.of_nat i) (seqZ (p + w) _)); cycle 1.
  { apply Forall_forall. intros v Hv%elem_of_seqZ_range. by rewrite decide_False by lia. }
  destruct (IH (p + w)%Z Hnd) as [IH1 IH2]; [lia..|].
  destruct (decide (k = i)) as [->|Hki].
  - rewrite (IH2 Hk). rewrite (count_all _ (seqZ p w)); cycle 1.
    { apply Forall_forall. intros v Hv%elem_of_seqZ_range. by rewrite decide_True by lia. }
    rewrite length_seqZ. split; [|by intros []%not_elem_of_cons].
    intros x [[= ->]|Hx]%elem_of_cons; [lia|]. destruct Hk. apply list_elem_of_fmap. by exists (i, x).
  - rewrite (count_none _ (seqZ p w)); cycle 1.
    { apply Forall_forall. intros v Hv%elem_of_seqZ_range. rewrite decide_True by lia. intros ?%Nat2Z.inj. done. }
    split; [|intros [_ Hi]%not_elem_of_cons; by rewrite (IH2 Hi)].
    intros x [[= <- _]|Hx]%elem_of_cons; [done|]. by rewrite (IH1 x Hx).
Qed.

(** Below the sum, the loop finds an index. *)
Lemma pick_found (l : list (nat * Z)) (p v : Z) :
  Forall (fun x => 0 <= x.2)%Z l -> (0 <= p <= v)%Z -> (v < p + weight_sum l < 2 ^ 64)%Z ->
  exists i, i ∈ l.*1 /\ pick l v p = Z.of_nat i.
Proof.
  intros Hw. revert p. induction Hw as [|[k w] l Hkw Hl IH]; intros p Hp Hs; simpl in *; [lia|].
  pose proof (weight_sum_nonneg l Hl).
  assert (u64 (p + w) = p + w)%Z as -> by (unfold u64; rewrite Z.mod_small; lia).
  destruct (decide (v < p + w)%Z); [exists k; split; [left|done]|].
  destruct (IH (p + w)%Z) as (i & Hi & E); [lia..|]. exists i. split; [by right|done].
Qed.

(** Weights are bytes. *)
Definition weights_ok (ws : weights) : Prop := Forall (fun w => 0 <= wValue w < 256)%Z ws.
Definition domains_ok (domains : gmap string weights) : Prop := map_Forall (fun _ => weights_ok) domains.

Lemma weight_lines_ok f lines domains dname ws :
  domains_ok domains -> weights_ok ws -> domains_ok (weight_lines f lines domains dname ws).1.
Proof.
  revert domains dname ws. induction lines as [|line lines IH]; intros domains dname ws Hd Hw; simpl; [done|].
  destruct (decide (_ \/ _)) as [|_]; [by apply IH|].
  destruct (Fields (TrimSpace line)) as [|a [|b [|]]]; try done.
  - destruct (ParseIP a); [done|]. destruct (domains !! _) as [ws'|] eqn:E.
    + apply IH; [done|]. by apply (Hd _ _ E).
    + apply IH; [|by constructor]. apply map_Forall_insert_2; [by constructor|done].
  - destruct (ParseIP a) as [ip|]; [|done]. destruct (ParseUint 8 b) as [n [e|]] eqn:E; [done|].
    destruct (decide (dname = EmptyString)); [done|].
    assert (weights_ok (ws ++ [mkWeight ip n])) as Hw'.
    { apply Forall_app. split; [done|]. constructor; [|constructor]. pose proof (ParseUint_range 8 b) as Hr. rewrite E in Hr. simpl in *. lia. }
    apply IH; [|done]. by apply map_Forall_insert_2.
Qed.

Lemma parseWeights_ok f content : domains_ok (parseWeights f content).1.
Proof.
  unfold parseWeights. pose proof (weight_lines_ok f (scan_lines (strings_Split ch_nl content)) ∅ EmptyString []) as Hok.
  destruct (weight_lines _ _ _ _ _) as [domains [e|]]; simpl in *.
  - apply Hok; [apply map_Forall_empty|constructor].
  - destruct (scan_error _); apply Hok; try apply map_Forall_empty; constructor.
Qed.

Lemma record_weight_range domains ar w : domains_ok domains -> record_weight domains ar = Some w -> (0 <= w < 256)%Z.
Proof.
  intros Hd. unfold record_weight. destruct (record_ip ar) as [ip|]; [|done]. simpl. intros [= <-].
  assert (weights_ok (default [] (domains !! hName ar))) as Hw.
  { destruct (domains !! hName ar) eqn:E; [by apply (Hd _ _ E)|constructor]. }
  induction Hw as [|x ws Hx _ IH]; simpl; [lia|]. by destruct (IP_Equal _ _).
Qed.

(** The sum of the weights of an answer's addresses. *)
Definition sum_weights (ws : list Z) : Z := foldr Z.add 0%Z ws.

Lemma sum_weights_range ws : Forall (fun w => 0 <= w < 256)%Z ws -> (0 <= sum_weights ws <= 256 * Z.of_nat (length ws))%Z.
Proof. induction 1; simpl; lia. Qed.

Lemma weight_sum_zip ws k : weight_sum (zip (seq k (length ws)) ws) = sum_weights ws.
Proof. revert k. induction ws as [|w ws IH]; intros k; simpl; [done|]. by rewrite IH. Qed.

Lemma fold_sum ws acc :
  Forall (fun w => 0 <= w < 256)%Z ws -> (0 <= acc)%Z -> (acc + sum_weights ws < 2 ^ 64)%Z ->
  fold_left (fun s w => u64 (s + w)) ws acc = (acc + sum_weights ws)%Z.
Proof.
  intros Hw. revert acc. induction Hw as [|w ws Hw Hws IH]; intros acc Ha Hs; simpl in *; [lia|].
  pose proof (sum_weights_range ws Hws).
  assert (u64 (acc + w) = acc + w)%Z as -> by (unfold u64; rewrite Z.mod_small; lia). rewrite IH; lia.
Qed.

Section top.
Context `{GoSort} (domains : gmap string weights) (address : list RR) (ws : list Z).
Hypothesis Hdom : domains_ok domains.
Hypothesis Hws : mapM (record_weight domains) address = Some ws.
Hypothesis Hlen : (Z.of_nat (length address) < 2 ^ 32)%Z.

Lemma ws_range : Forall (fun w => 0 <= w < 256)%Z ws.
Proof.
  pose proof (mapM_Some_1 _ _ _ Hws) as HF. clear Hws Hlen. induction HF as [|a w l k Ha _ IH]; constructor; [|done].
  by apply (record_weight_range domains a).
Qed.

Lemma ws_length : length ws = length address.
Proof. symmetry. apply (Forall2_length _ _ _ (mapM_Some_1 _ _ _ Hws)). Qed.

Lemma ws_sum_bound : (0 <= sum_weights ws < 2 ^ 64)%Z.
Proof. pose proof (sum_weights_range ws ws_range). rewrite ws_length in *. lia. Qed.

Definition sorted_addr : list (nat * Z) := go_sort heavier (zip (seq 0 (length ws)) ws).

Lemma sorted_addr_ok :
  Forall (fun x => 0 <= x.2)%Z sorted_addr /\ NoDup sorted_addr.*1 /\ weight_sum sorted_addr = sum_weights ws /\
  forall i x, (i, x) ∈ sorted_addr <-> ws !! i = Some x.
Proof.
  unfold sorted_addr. split; [|split; [|split]].
  - rewrite go_sort_perm. apply Forall_forall. intros [i x] Hx. apply elem_of_zip_r in Hx.
    pose proof (proj1 (Forall_forall _ _) ws_range x Hx) as Hr. cbv beta in Hr. simpl. lia.
  - rewrite go_sort_perm, fst_zip by (rewrite length_seq; done). apply NoDup_ListNoDup, seq_NoDup.
  - rewrite (weight_sum_perm _ _ (go_sort_perm _ _)). apply weight_sum_zip.
  - intros i x. rewrite go_sort_perm, list_elem_of_lookup. split.
    + intros (k & Hk). apply lookup_zip_Some in Hk as [Hi Hx]. apply lookup_seq in Hi as [-> _]. done.
    + intros Hx. exists i. apply lookup_zip_Some. split; [|done]. apply lookup_seq. simpl. split; [done|].
      by apply lookup_lt_Some in Hx.
Qed.

Lemma topAddressIndex_eq {W} (Intn : Z -> st W Z) (s s' : W) v :
  (0 < sum_weights ws)%Z -> Intn (sum_weights ws) s = Some (s', v) ->
  topAddressIndex Intn domains address s = Some (s', pick sorted_addr v 0).
Proof.
  intros Hpos Hv. unfold topAddressIndex, of_option, mbind, st_bind. rewrite Hws. simpl.
  rewrite fold_sum, Z.add_0_l by (apply ws_range || apply ws_sum_bound || lia).
  unfold randUint. rewrite decide_False by lia. rewrite Hv. done.
Qed.
End top.

(** ** Theorems *)

(** C36 With the round_robin policy every reply of the next plugin is passed on
    with the records of its sections permuted: aliases first and the other
    records after them, in their order, then the addresses and the mail
    exchanges in random order.  Errors and zone transfers are not touched. *)
Theorem loadbalance_reorders {W} (Id : st W Z) (next : option (Handler W)) (ctx : Ctx) (w : Writer) (r : Msg) (s s1 : W)
    (msgs : list Msg) (rcode : Z) (err : option string) :
  id_ok Id -> NextOrFailure LoadBalance_Name next ctx w r s = Some (s1, msgs, rcode, err) ->
  Forall (fun m => mRcode m <> RcodeSuccess \/ mQuestion m <> []) msgs ->
  exists s2 msgs', LoadBalance_ServeDNS (randomShuffle Id) next ctx w r s = Some (s2, msgs', rcode, err) /\
    Forall2 (fun m m' => balanced m m' /\ mAnswer m' ≡ₚ mAnswer m /\ mNs m' ≡ₚ mNs m /\ mExtra m' ≡ₚ mExtra m) msgs msgs'.
Proof.
  intros HId Hn Hq. destruct (lb_write_all_balanced Id HId msgs Hq s1) as (s2 & msgs' & E & Hb).
  exists s2, msgs'. unfold LoadBalance_ServeDNS. rewrite Hn. simpl. rewrite E. split; [done|].
  eapply Forall2_impl; [exact Hb|]. intros m m' Hm. split; [done|].
  destruct Hm as [[_ ->]|(Ha & Hns & He & _)]; [done|]. by split_and!; apply reordered_perm.
Qed.

Definition lb_rr (name : string) (t : Z) (d : RData) : RR := mkRR name t ClassINET 300 d.
Definition lb_address (n : Z) : RR := lb_rr "www.example.com." TypeA (A [100; 64; 1; n]%Z).

(** A reply with an alias, three addresses and a mail exchange. *)
Definition lb_reply : Msg :=
  set_sections [lb_address 1; lb_address 2; lb_rr "a.example.com." TypeCNAME (CNAME "www.example.com."); lb_address 3;
                lb_rr "example.com." TypeMX (MX 10 "mx.example.com.")] [] []
    (set_mQuestion [mkQuestion "a.example.com." TypeA ClassINET] zeroMsg).

Definition lb_next : Handler (list Z) := fun _ _ _ s => Some (s, [lb_reply], RcodeSuccess, None).

(** Numbers from a list, and zero at its end. *)
Definition lb_id : st (list Z) Z := fun s => match s with [] => Some ([], 0%Z) | n :: s' => Some (s', n mod 2 ^ 16)%Z end.

Lemma lb_id_ok : id_ok lb_id.
Proof.
  intros [|n s]; simpl; eexists _, _; (split; [done|]); [lia|]. apply Z.mod_pos_bound. lia.
Qed.

Lemma loadbalance_reorders_witness :
  exists s2 msgs', LoadBalance_ServeDNS (randomShuffle lb_id) (Some lb_next) (mkCtx 0 None) example_client zeroMsg [2; 7; 1]%Z =
      Some (s2, msgs', RcodeSuccess, None) /\
    Forall2 (fun m m' => balanced m m' /\ mAnswer m' ≡ₚ mAnswer m /\ mNs m' ≡ₚ mNs m /\ mExtra m' ≡ₚ mExtra m) [lb_reply] msgs'.
Proof.
  apply (loadbalance_reorders lb_id (Some lb_next) (mkCtx 0 None) example_client zeroMsg [2; 7; 1]%Z [2; 7; 1]%Z).
  - apply lb_id_ok.
  - reflexivity.
  - constructor; [right; discriminate|constructor].
Defined.


(** The example of the plugin's README. *)
Definition weight_file : string := "www.example.com
100.64.1.1 3
100.64.1.2 1
100.64.1.3 2
".


(** A weight of zero is accepted, and when no address of an answer has
    another weight, choosing one panics, whatever the source of random
    numbers. *)
Theorem zero_weights_panic `{GoSort} {W} (Intn : Z -> st W Z) (s : W) :
  let file : string := "www.example.com
100.64.1.1 0
" in
  let '(domains, err) := parseWeights "weights" file in
  err = None /\ topAddressIndex Intn domains [lb_address 1] s = None.
Proof. vm_compute. done. Qed.

(** A broken weight file is reported once: the checksum is stored before
    the file is parsed, so the next reload takes the same contents for
    unchanged and succeeds, with the weights read before the error. *)
Theorem broken_weights_reported_once (md5 : string -> string) (w : weightedRR) (content e : string)
    (domains : gmap string weights) :
  md5 content <> md5sum w -> parseWeights (wFileName w) content = (domains, Some e) ->
  let w1 := mkWeighted (wFileName w) (wReload w) (md5 content) domains in
  updateWeights md5 (Some (inr content)) w = (w1, Some e) /\ updateWeights md5 (Some (inr content)) w1 = (w1, None).
Proof. intros Hm Hp. unfold updateWeights. simpl. by rewrite decide_False, Hp, decide_True by done. Qed.

Definition broken_weight_file : string := "www.example.com
100.64.1.1 3
100.64.1.2 many
".

Lemma broken_weights_reported_once_witness :
  let w1 := mkWeighted "weights" 30 broken_weight_file
              {[ "www.example.com."%string := [mkWeight (v4prefix ++ [100; 64; 1; 1])%Z 3] ]} in
  updateWeights (fun s => s) (Some (inr broken_weight_file)) (mkWeighted "weights" 30 EmptyString ∅) =
    (w1, Some ("Wrong weight value:" +:+ quoted "many" +:+ " in weight file weights")) /\
  updateWeights (fun s => s) (Some (inr broken_weight_file)) w1 = (w1, None).
Proof.
  apply (broken_weights_reported_once (fun s => s) (mkWeighted "weights" 30 EmptyString ∅)); [discriminate|].
  vm_compute. reflexivity.
Defined.
