(* ===== verification/Dns64.v ===== *)
(** * The dns64 plugin

    plugin/dns64/dns64.go: IPv6 addresses made from the IPv4 addresses of a
    name, for clients that reach IPv4 through a translator (RFC 6147), in the
    format of RFC 6052. *)

From S2P Require Import Prelude.
From S2P Require Import GoStd.
From S2P Require Import GoNet.
From S2P Require Import DnsNames.
From S2P Require Import DnsMsg.
From S2P Require Import Request.
From S2P Require Import Plugin.
From S2P Require Import Response.
From S2P Require Import Server.

(** ** The address format *)

(** [l[i] = x]. *)
Definition put {A} (i : nat) (x : A) (l : list A) : option (list A) :=
  if decide (i < length l)%nat then Some (<[i := x]> l) else None.

(** [n] turns of [v6[i] = from[j]; i, j = i+1, j+1]. *)
Fixpoint copy_bytes (n i j : nat) (from v6 : list Z) : option (list Z) :=
  match n with
  | O => Some v6
  | S n' => b ← from !! j; v6 ← put i b v6; copy_bytes n' (S i) (S j) from v6
  end.

(** The three loops: the prefix up to byte [k], the address up to byte 8, and
    the rest of the address behind byte 8. *)
Definition to6 (prefix : IPNet) (addr : IP) : option (string + IP) :=
  match To4 addr with
  | None => Some (inl "not a valid IPv4 address"%string)
  | Some addr =>
      let k := Z.to_nat ((Mask_Size (net_Mask prefix)).1 `quot` 8) in
      v6 ← copy_bytes k 0 0 (net_IP prefix) (replicate 16 0%Z);
      let j := (8 - k)%nat in
      v6 ← copy_bytes j k 0 addr v6;
      let i := Nat.max k 8 in
      let i := if decide (i = 8)%nat then S i else i in
      v6 ← copy_bytes (4 - j) i j addr v6;
      Some (inr v6)
  end.

(** ** The plugin *)

Section dns64.
Context `{DnsMsgs} {W : Type}.
(** The upstream and the clock. *)
Context (up : Ctx -> Request -> string -> Z -> st W (string + option Msg)) (now : W -> Z).
Context (Prefix : IPNet) (TranslateAll AllowIPv4 : bool) (next : option (Handler W)).

Definition DNS64_Name : string := "dns64".

Definition requestShouldIntercept (req : Request) : bool :=
  let '(req, family) := Family req in
  if decide (AllowIPv4 = false /\ family = 1%Z) then false
  else bool_decide (QType req = TypeAAAA /\ QClass req = ClassINET).

Definition responseShouldDNS64 (origResponse : Msg) (t : Z) : option bool :=
  '(ty, _) ← Typify (Some origResponse) t;
  if decide (ty = NXDomain) then Some false
  else if TranslateAll then Some true
  else Some (negb (existsb (fun rr => bool_decide (hRrtype rr = TypeAAAA)) (mAnswer origResponse))).

(** The TTL of the last SOA record. *)
Definition soa_ttl (ns : list RR) : Z :=
  fold_left (fun t rr => if decide (hRrtype rr = TypeSOA) then hTtl rr else t) ns 600%Z.

(** One turn of the loop over the answer; the address is nil when it cannot be
    translated. *)
Definition synthesize_rr (SOATtl : Z) (rr : RR) : option RR :=
  if decide (hRrtype rr <> TypeA) then Some rr
  else
    match rdata rr with
    | A addr =>
        v6 ← to6 Prefix addr;
        let ttl := if decide (hTtl rr < SOATtl)%Z then hTtl rr else SOATtl in
        Some (mkRR (hName rr) TypeAAAA (hClass rr) ttl (AAAA (match v6 with inr v6 => v6 | inl _ => [] end)))
    | _ => None
    end.

(** A nil [resp] panics. *)
Definition Synthesize (origReq origResponse : Msg) (resp : option Msg) : option Msg :=
  resp ← resp;
  let ret := set_mTruncated (mTruncated resp) (SetReply zeroMsg origReq) in
  answer ← mapM (synthesize_rr (soa_ttl (mNs origResponse))) (mAnswer resp);
  Some (set_sections answer (mNs resp) (mExtra resp) ret).

Definition DoDNS64 (ctx : Ctx) (w : Writer) (r origResponse : Msg) : st W (string + Msg) :=
  let '(req, name) := Name (newRequest w (Some r)) in
  resp ← up ctx req name TypeA;
  match resp with
  | inl err => mret (inl err)
  | inr resp => out ← of_option (Synthesize r origResponse resp); mret (inr out)
  end.

(** The next plugin is called without looking whether there is one. *)
Definition DNS64_ServeDNS : Handler W := fun ctx w r s =>
  if requestShouldIntercept (newRequest w (Some r)) then
    h ← next;
    '(s, msgs, origRc, origErr) ← h ctx w r s;
    match nonwriter_Msg msgs with
    | None => Some (s, [], origRc, origErr)
    | Some m =>
        should ← responseShouldDNS64 m (now s);
        if (should : bool) then
          '(s, res) ← DoDNS64 ctx w r m s;
          match res with
          | inl err => Some (s, [], RcodeServerFailure, Some err)
          | inr msg => Some (s, [msg], mRcode msg, None)
          end
        else Some (s, [m], origRc, origErr)
    end
  else h ← next; h ctx w r s.
End dns64.

(** ** RFC 6052, section 2.2

    The address follows the prefix, except that bits 64 to 71 are zero; what
    is left is zero. *)
Definition rfc6052 (n : nat) (prefix addr : list Z) : list Z :=
  let k := (n / 8)%nat in
  if decide (n = 96)%nat then take 12 prefix ++ addr
  else take k prefix ++ take (8 - k) addr ++ [0%Z] ++ drop (8 - k) addr ++ replicate (11 - k) 0%Z.

(** A prefix of one of the lengths RFC 6052 allows. *)
Definition rfc6052_prefix (n : nat) (p : IPNet) : Prop :=
  n ∈ [32; 40; 48; 56; 64; 96]%nat /\ length (net_IP p) = 16%nat /\ Mask_Size (net_Mask p) = (Z.of_nat n, 128%Z).

#[export] Instance rfc6052_prefix_dec n p : Decision (rfc6052_prefix n p).
Proof. unfold rfc6052_prefix. apply _. Defined.

Lemma length_S {A} (l : list A) n : length l = S n -> exists x l', l = x :: l' /\ length l' = n.
Proof. destruct l as [|x l]; [done|]. intros [= E]. by exists x, l. Qed.

Lemma to6_rfc6052 n p addr addr4 :
  rfc6052_prefix n p -> To4 addr = Some addr4 -> length addr4 = 4%nat ->
  to6 p addr = Some (inr (rfc6052 n (net_IP p) addr4)).
Proof.
  intros (Hn & Hl & Hm) E H4. unfold to6. rewrite E, Hm. cbn [fst]. clear E Hm.
  destruct p as [ip mask]; cbn [net_IP] in *.
  repeat (apply length_S in Hl as (? & ? & -> & Hl)). apply nil_length_inv in Hl as ->.
  repeat (apply length_S in H4 as (? & ? & -> & H4)). apply nil_length_inv in H4 as ->.
  repeat (apply elem_of_cons in Hn as [->|Hn]; [reflexivity|]). by apply elem_of_nil in Hn.
Qed.

(** What the address of a record is translated to, with the TTL of RFC 6147,
    section 5.1.7. *)
Definition translated (n : nat) (p : IPNet) (SOATtl : Z) (rr : RR) : RR :=
  match rdata rr with
  | A addr =>
      mkRR (hName rr) TypeAAAA (hClass rr) (Z.min (hTtl rr) SOATtl) (AAAA (rfc6052 n (net_IP p) (default [] (To4 addr))))
  | _ => rr
  end.

(** A record whose data fits its header, with four bytes for an IPv4 address. *)
Definition ip4_rr (rr : RR) : Prop :=
  rr_typed rr /\ match rdata rr with A addr => length addr = 4%nat | _ => True end.

#[export] Instance ip4_rr_dec rr : Decision (ip4_rr rr).
Proof. unfold ip4_rr. destruct (rdata rr); apply _. Defined.

Lemma synthesize_rr_translated n p ttl rr :
  rfc6052_prefix n p -> ip4_rr rr -> synthesize_rr p ttl rr = Some (translated n p ttl rr).
Proof.
  intros Hp [Ht Hl]. unfold synthesize_rr, translated, rr_typed in *.
  destruct (rdata rr) eqn:E; simpl in Ht.
  { rewrite decide_False by (intros Hn; by apply Hn).
    assert (To4 addr = Some addr) as E4 by (unfold To4; by rewrite decide_True).
    rewrite (to6_rfc6052 n p addr addr Hp E4 Hl), E4. simpl. f_equal. f_equal. destruct (decide _); lia. }
  all: rewrite decide_True; [done|].
  all: first [rewrite Ht; discriminate | intros Et; apply Ht; rewrite Et; decided].
Qed.

Lemma should_intercept `{DnsMsgs} allow4 w r q qs :
  mQuestion r = q :: qs -> qType q = TypeAAAA -> qClass q = ClassINET ->
  allow4 = true \/ (Family (newRequest w (Some r))).2 <> 1%Z ->
  requestShouldIntercept allow4 (newRequest w (Some r)) = true.
Proof.
  intros Hq Ht Hc Hfam. unfold requestShouldIntercept. destruct (Family_same (newRequest w (Some r))) as [_ Er].
  destruct (Family (newRequest w (Some r))) as [req f]. simpl in *. rewrite decide_False by (intros []; intuition congruence).
  unfold QType, QClass. rewrite Er, Hq. by rewrite bool_decide_true.
Qed.

Lemma should_dns64 `{DnsMsgs} all m t ty o :
  Typify (Some m) t = Some (ty, o) -> ty <> NXDomain ->
  all = true \/ Forall (fun rr => hRrtype rr <> TypeAAAA) (mAnswer m) -> responseShouldDNS64 all m t = Some true.
Proof.
  intros Hty Hnx Hall. unfold responseShouldDNS64. rewrite Hty. simpl. rewrite decide_False by done.
  destruct all; [done|]. destruct Hall as [|Hall]; [done|]. f_equal. apply negb_true_iff.
  induction Hall as [|rr l Hr _ IH]; simpl; [done|]. by rewrite bool_decide_false, IH.
Qed.

(** C13 A query for IPv6 addresses whose answer has none, or any such query
    when all are translated, from a client the plugin serves, is answered from the IPv4 addresses of the name: one reply
    to the question in which each of them is embedded in the prefix as
    RFC 6052 says, with the lower of its own TTL and that of the SOA record,
    and everything else of the upstream's answer is kept. *)
Theorem dns64_translates `{DnsMsgsOk} {W} (up : Ctx -> Request -> string -> Z -> st W (string + option Msg))
    (now : W -> Z) (n : nat) (prefix : IPNet) (all allow4 : bool) (h : Handler W) (ctx : Ctx) (w : Writer) (r m resp : Msg)
    (q : Question) (qs : list Question) (s s1 s2 : W) (rc : Z) (err : option string) (ty : RespType) (o : option RR) :
  rfc6052_prefix n prefix ->
  mQuestion r = q :: qs -> qType q = TypeAAAA -> qClass q = ClassINET ->
  allow4 = true \/ (Family (newRequest w (Some r))).2 <> 1%Z ->
  h ctx w r s = Some (s1, [m], rc, err) -> Typify (Some m) (now s1) = Some (ty, o) -> ty <> NXDomain ->
  all = true \/ Forall (fun rr => hRrtype rr <> TypeAAAA) (mAnswer m) ->
  up ctx (Name (newRequest w (Some r))).1 (Name (newRequest w (Some r))).2 TypeA s1 = Some (s2, inr (Some resp)) ->
  Forall ip4_rr (mAnswer resp) ->
  exists reply, DNS64_ServeDNS up now prefix all allow4 (Some h) ctx w r s = Some (s2, [reply], RcodeSuccess, None) /\
    mId reply = mId r /\ mQuestion reply = [q] /\ mResponse reply = true /\ mTruncated reply = mTruncated resp /\
    mAnswer reply = map (translated n prefix (soa_ttl (mNs m))) (mAnswer resp) /\
    mNs reply = mNs resp /\ mExtra reply = mExtra resp.
Proof.
  intros Hp Hq Ht Hc Hfam Hh Hty Hnx Hno Hup Hrr. unfold DNS64_ServeDNS.
  rewrite (should_intercept allow4 w r q qs) by done. simpl. rewrite Hh. simpl.
  rewrite (should_dns64 all m (now s1) ty o) by done. simpl.
  unfold DoDNS64. destruct (Name (newRequest w (Some r))) as [req name]. simpl in Hup.
  unfold mbind at 2, st_bind. rewrite Hup. simpl. unfold Synthesize. simpl.
  assert (mapM (synthesize_rr prefix (soa_ttl (mNs m))) (mAnswer resp) =
          Some (map (translated n prefix (soa_ttl (mNs m))) (mAnswer resp))) as ->.
  { apply mapM_Some_2. clear Hup. induction Hrr as [|rr l Hr _ IH]; constructor; [|done]. by apply synthesize_rr_translated. }
  simpl. rewrite SetReply_ok. simpl. rewrite Hq. eexists. split_and!; reflexivity.
Qed.

(** The client asks over IPv6 for a name with one IPv4 address. *)
Definition dns64_client : Writer :=
  mkWriter (UDPAddr [32; 1; 13; 184; 0; 0; 0; 0; 0; 0; 0; 0; 0; 0; 0; 9]%Z "[2001:db8::9]:4000")
    (UDPAddr [32; 1; 13; 184; 0; 0; 0; 0; 0; 0; 0; 0; 0; 0; 0; 1]%Z "[2001:db8::1]:53").
Definition dns64_query : Msg := set_mQuestion [mkQuestion "v4.example.org." TypeAAAA ClassINET] zeroMsg.
Definition dns64_a : RR := mkRR "v4.example.org." TypeA ClassINET 3600 (A [192; 0; 2; 33]%Z).
Definition dns64_nodata : Msg :=
  set_sections [] [mkRR "example.org." TypeSOA ClassINET 300 (SOA "ns.example.org." "admin.example.org." 1 7200 3600 86400 60)] []
    dns64_query.
Definition dns64_next : Handler unit := fun _ _ _ s => Some (s, [dns64_nodata], RcodeSuccess, None).
Definition dns64_up : Ctx -> Request -> string -> Z -> st unit (string + option Msg) :=
  fun _ _ _ _ s => Some (s, inr (Some (set_sections [dns64_a] [] [] dns64_query))).
Definition dns64_prefix : IPNet :=
  mkIPNet [0; 100; 255; 155; 0; 0; 0; 0; 0; 0; 0; 0; 0; 0; 0; 0]%Z (replicate 12 255%Z ++ replicate 4 0%Z).

Lemma dns64_translates_witness :
  exists reply, @DNS64_ServeDNS msgs_reference unit dns64_up (fun _ => 0%Z) dns64_prefix false false
      (Some dns64_next) (mkCtx 0 None) dns64_client dns64_query tt = Some (tt, [reply], RcodeSuccess, None) /\
    mAnswer reply = [mkRR "v4.example.org." TypeAAAA ClassINET 300 (AAAA [0; 100; 255; 155; 0; 0; 0; 0; 0; 0; 0; 0; 192; 0; 2; 33]%Z)].
Proof.
  destruct (@dns64_translates msgs_reference msgs_reference_ok unit dns64_up (fun _ => 0%Z) 96 dns64_prefix
    false false dns64_next (mkCtx 0 None) dns64_client dns64_query dns64_nodata (set_sections [dns64_a] [] [] dns64_query)
    (mkQuestion "v4.example.org." TypeAAAA ClassINET) [] tt tt tt RcodeSuccess None NoDataT None) as (reply & E & _ & _ & _ & _ & Ea & _).
  1: decided.
  1-3: reflexivity.
  1: by right.
  1: reflexivity.
  1: vm_compute; reflexivity.
  1: done.
  1: by right.
  1: reflexivity.
  1: decided.
  exists reply. split; [exact E|]. rewrite Ea. vm_compute. reflexivity.
Defined.
