(* ===== verification/Acl.v ===== *)
(** * The acl plugin

    plugin/acl/acl.go: rules that refuse, filter, drop or allow queries by
    zone, type and source address.  The networks of a policy are a third-party
    tree. *)

From S2P Require Import Prelude.
From S2P Require Import GoStd.
From S2P Require Import GoNet.
From S2P Require Import DnsNames.
From S2P Require Import DnsMsg.
From S2P Require Import Request.
From S2P Require Import Plugin.
From S2P Require Import Hosts.

Definition TypeNone : Z := 0.
Definition ExtendedErrorCodeBlocked : Z := 15.
Definition ExtendedErrorCodeFiltered : Z := 17.
Definition EDNS0EDE : Z := 15.

(** The constants of [action]. *)
Inductive action := actionNone | actionAllow | actionBlock | actionFilter | actionDrop.

#[export] Instance action_eq_dec : EqDecision action.
Proof. solve_decision. Defined.

(** An extended error without text (RFC 8914): the code in two bytes. *)
Definition EDE (infoCode : Z) : EDNS0 :=
  EDNS0_other EDNS0EDE (String (ascii_of_N (Z.to_N (infoCode / 256))) (String (ascii_of_N (Z.to_N (infoCode mod 256))) EmptyString)).

Section acl.
Context `{DnsNames} `{DnsMsgs} {W : Type}.
(** [iptree.Tree] and whether [GetByIP] finds an address in it. *)
Context {Tree : Type} (GetByIP : Tree -> IP -> bool).

Record policy := mkPolicy { pAction : action; pQtypes : gset Z; pFilter : Tree }.
Record rule := mkRule { rZones : list string; rPolicies : list policy }.

Definition policy_matches (qtype : Z) (ip : IP) (p : policy) : bool :=
  (bool_decide (TypeNone ∈ pQtypes p) || bool_decide (qtype ∈ pQtypes p)) && GetByIP (pFilter p) ip.

Fixpoint match_loop (policies : list policy) (qtype : Z) (ip : IP) : action :=
  match policies with
  | [] => actionNone
  | p :: policies' => if policy_matches qtype ip p then pAction p else match_loop policies' qtype ip
  end.

(** The address of the client, without its IPv6 zone. *)
Definition source_ip (w : Writer) (r : Msg) : option IP :=
  ParseIP (until ch_percent (Request_IP (newRequest w (Some r))).2).

Definition matchWithPolicies (policies : list policy) (w : Writer) (r : Msg) : action :=
  match source_ip w r with
  | None => actionBlock
  | Some ip => match_loop policies (QType (newRequest w (Some r))) ip
  end.

(** [m.IsEdns0().Option = append(m.IsEdns0().Option, &ede)]; a nil pointer
    panics. *)
Definition add_option (o : EDNS0) (m : Msg) : option Msg :=
  i ← IsEdns0 m;
  opt ← mExtra m !! i;
  match rdata opt with
  | OPT os => Some (upd_extra i (set_rdata (OPT (os ++ [o])) opt) m)
  | _ => None
  end.

Definition acl_reply (r : Msg) (rcode infoCode : Z) : option Msg :=
  add_option (EDE infoCode) (SetEdns0 4096 true (SetRcode zeroMsg r rcode)).

Definition ACL_Name : string := "acl".

Section serve.
Context (next : option (Handler W)) (ctx : Ctx) (w : Writer) (r : Msg) (s : W).

(** The query's name is handed to [NextOrFailure] where the plugin's is
    expected. *)
Definition acl_allow : option (W * list Msg * Z * option string) :=
  NextOrFailure (Name (newRequest w (Some r))).2 next ctx w r s.

Fixpoint acl_rules (rules : list rule) : option (W * list Msg * Z * option string) :=
  match rules with
  | [] => acl_allow
  | rl :: rules' =>
      if decide (Zones_Matches (rZones rl) (Name (newRequest w (Some r))).2 = EmptyString) then acl_rules rules'
      else
        match matchWithPolicies (rPolicies rl) w r with
        | actionDrop => Some (s, [], RcodeSuccess, None)
        | actionBlock => m ← acl_reply r RcodeRefused ExtendedErrorCodeBlocked; Some (s, [m], RcodeSuccess, None)
        | actionAllow => acl_allow
        | actionFilter => m ← acl_reply r RcodeSuccess ExtendedErrorCodeFiltered; Some (s, [m], RcodeSuccess, None)
        | actionNone => acl_rules rules'
        end
  end.
End serve.

Definition ACL_ServeDNS (rules : list rule) (next : option (Handler W)) : Handler W :=
  fun ctx w r s => acl_rules next ctx w r s rules.
End acl.

#[global] Arguments policy : clear implicits.
#[global] Arguments rule : clear implicits.

(** ** What the rules decide *)

(** The reply to a query that is refused or filtered: the extended error is in
    an OPT record of its own. *)
Definition acl_error (r : Msg) (rcode infoCode : Z) `{DnsMsgs} : Msg :=
  set_sections [] [] [mkRR dot TypeOPT 4096 (2 ^ 15) (OPT [EDE infoCode])] (SetRcode zeroMsg r rcode).

(** All policies for a name, in the order of the rules. *)
Definition policies_for `{DnsNames} {Tree} (rules : list (rule Tree)) (name : string) : list (policy Tree) :=
  concat (map rPolicies (filter (fun rl => Zones_Matches (rZones rl) name <> EmptyString) rules)).

(** The action of the first policy that matches the type and the source. *)
Definition first_action {Tree} (GetByIP : Tree -> IP -> bool) (ps : list (policy Tree)) (qtype : Z) (ip : IP) : action :=
  match list_find (fun p => policy_matches GetByIP qtype ip p = true) ps with
  | Some (_, p) => pAction p
  | None => actionAllow
  end.

Lemma acl_reply_eq `{DnsMsgsOk} r rcode code : acl_reply r rcode code = Some (acl_error r rcode code).
Proof.
  unfold acl_reply, add_option, acl_error. rewrite SetEdns0_ok, SetRcode_ok, SetReply_ok. simpl.
  match goal with |- context [IsEdns0 ?m] => destruct (IsEdns0 m) as [i|] eqn:E end.
  - apply IsEdns0_Some in E as (o & Ho & _). simpl in *. destruct i as [|i]; [|done]. injection Ho as <-. done.
  - apply IsEdns0_None in E. simpl in E. apply Forall_inv in E. done.
Qed.

Lemma first_action_cons {Tree} (G : Tree -> IP -> bool) p ps qtype ip :
  first_action G (p :: ps) qtype ip = if policy_matches G qtype ip p then pAction p else first_action G ps qtype ip.
Proof.
  unfold first_action. simpl. destruct (policy_matches G qtype ip p); simpl; [done|].
  by destruct (list_find _ ps) as [[]|].
Qed.

Lemma first_action_app {Tree} (G : Tree -> IP -> bool) ps qs qtype ip :
  Forall (fun p => pAction p <> actionNone) ps ->
  first_action G (ps ++ qs) qtype ip =
  match match_loop G ps qtype ip with actionNone => first_action G qs qtype ip | a => a end.
Proof.
  induction 1 as [|p ps Hp _ IH]; simpl; [done|]. rewrite first_action_cons, IH.
  destruct (policy_matches G qtype ip p); [|done]. by destruct (pAction p).
Qed.

(** C15 The rules are read as one list: what happens to a query is decided by
    the first policy, of all rules whose zones contain the name, that matches
    its type and its source.  A query without such a policy, or with one that
    allows it, goes to the next plugin; the others get no reply, REFUSED, or an
    empty success, with the extended error of RFC 8914. *)
Theorem acl_first_match `{DnsNames} `{DnsMsgsOk} {W Tree} (GetByIP : Tree -> IP -> bool) (rules : list (rule Tree))
    (next : option (Handler W)) (ctx : Ctx) (w : Writer) (r : Msg) (s : W) (ip : IP) :
  Forall (fun rl => Forall (fun p => pAction p <> actionNone) (rPolicies rl)) rules -> source_ip w r = Some ip ->
  let name := (Name (newRequest w (Some r))).2 in
  ACL_ServeDNS GetByIP rules next ctx w r s =
  match first_action GetByIP (policies_for rules name) (QType (newRequest w (Some r))) ip with
  | actionDrop => Some (s, [], RcodeSuccess, None)
  | actionBlock => Some (s, [acl_error r RcodeRefused ExtendedErrorCodeBlocked], RcodeSuccess, None)
  | actionFilter => Some (s, [acl_error r RcodeSuccess ExtendedErrorCodeFiltered], RcodeSuccess, None)
  | _ => NextOrFailure name next ctx w r s
  end.
Proof.
  intros Hp Hip name. unfold ACL_ServeDNS, policies_for. subst name.
  set (name := (Name (newRequest w (Some r))).2). induction Hp as [|rl rules Hrl _ IH]; cbn [acl_rules]; [done|].
  fold name.
  rewrite filter_cons. destruct (decide (Zones_Matches (rZones rl) name = EmptyString)) as [Ez|Ez].
  { by rewrite decide_False by (intros Hn; by apply Hn). }
  rewrite decide_True by done. cbn [map concat]. rewrite first_action_app by done. unfold matchWithPolicies. rewrite Hip.
  rewrite !acl_reply_eq. by destruct (match_loop GetByIP (rPolicies rl) _ ip).
Qed.

(** A client outside of 10.0.0.0/24 is refused. *)
Definition acl_rules_example : list (rule (list Z)) :=
  [mkRule ["example.org."%string] [mkPolicy actionAllow {[ TypeNone ]} [10; 0; 1]%Z; mkPolicy actionBlock {[ TypeA ]} []]].
Definition acl_net (t : list Z) (ip : IP) : bool := bool_decide (take (length t) (default [] (To4 ip)) = t).

Lemma acl_first_match_witness :
  let r := set_mQuestion [mkQuestion "www.example.org." TypeA ClassINET] zeroMsg in
  @ACL_ServeDNS dns_reference msgs_reference unit _ acl_net acl_rules_example None (mkCtx 0 None) example_client r tt =
  Some (tt, [@acl_error r RcodeRefused ExtendedErrorCodeBlocked msgs_reference], RcodeSuccess, None).
Proof.
  intros r.
  rewrite (@acl_first_match dns_reference msgs_reference msgs_reference_ok unit _ acl_net acl_rules_example None
    (mkCtx 0 None) example_client r tt (v4prefix ++ [10; 0; 0; 99]%Z)); [vm_compute; reflexivity|decided|vm_compute; reflexivity].
Defined.
