(* ===== verification/SmallPlugins.v ===== *)
(** * Small plugins

    Handlers of one screen each: plugin/any, minimal, header, bufsize, nsid,
    local, whoami, chaos, loop, erratic and autopath.  Where a plugin changes
    the query it was given, the plugins behind it see the change. *)

From S2P Require Import Prelude.
From S2P Require Import GoStd.
From S2P Require Import GoNet.
From S2P Require Import GoText.
From S2P Require Import DnsNames.
From S2P Require Import DnsMsg.
From S2P Require Import DnsUtil.
From S2P Require Import Request.
From S2P Require Import Plugin.
From S2P Require Import Response.
From S2P Require Import Server.

Section answering.
Context `{DnsNames} `{DnsMsgs} {W : Type} (next : option (Handler W)).

(** ** any *)

Definition Any_Name : string := "any".

Definition Any_ServeDNS : Handler W := fun ctx w r s =>
  match mQuestion r with
  | [] => None
  | q :: _ =>
      if decide (qType q <> TypeANY) then NextOrFailure Any_Name next ctx w r s
      else
        let m := SetReply zeroMsg r in
        let rr := mkRR (qName q) TypeHINFO ClassINET 8482 (HINFO "ANY obsoleted" "See RFC 8482") in
        Some (s, [set_sections [rr] (mNs m) (mExtra m) m], 0%Z, None)
  end.

(** ** local *)

Definition local_ttl : Z := 604800.

Definition local_zones : list string :=
  ["localhost."; "0.in-addr.arpa."; "127.in-addr.arpa."; "255.in-addr.arpa."]%string.

Definition soaFromOrigin (origin : string) : list RR :=
  [mkRR origin TypeSOA ClassINET local_ttl (SOA "localhost." "root.localhost." 1 0 0 0 local_ttl)].

Definition nsFromOrigin (origin : string) : list RR := [mkRR origin TypeNS ClassINET local_ttl (NS "localhost.")].

Definition localhost4 : IP := [127; 0; 0; 1]%Z.
Definition localhost6 : IP := [0; 0; 0; 0; 0; 0; 0; 0; 0; 0; 0; 0; 0; 0; 0; 1]%Z.

Definition doLocalhost (state : Request) : option Msg :=
  r ← Req state;
  let m := SetReply zeroMsg r in
  Some (if decide (QType state = TypeA) then
          set_sections [mkRR (QName state) TypeA ClassINET local_ttl (A localhost4)] (mNs m) (mExtra m) m
        else if decide (QType state = TypeAAAA) then
          set_sections [mkRR (QName state) TypeAAAA ClassINET local_ttl (AAAA localhost6)] (mNs m) (mExtra m) m
        else set_sections (mAnswer m) (soaFromOrigin (QName state)) (mExtra m) m).

(** The switch on the name: the answer and the authority section. *)
Definition local_sections (q qname zone : string) (qtype : Z) : list RR * list RR :=
  if decide (q ∈ local_zones) then
    if decide (qtype = TypeA) then
      if decide (q <> "localhost."%string) then ([], soaFromOrigin qname)
      else ([mkRR qname TypeA ClassINET local_ttl (A localhost4)], [])
    else if decide (qtype = TypeAAAA) then
      if decide (q <> "localhost."%string) then ([], soaFromOrigin qname)
      else ([mkRR qname TypeAAAA ClassINET local_ttl (AAAA localhost6)], [])
    else if decide (qtype = TypeSOA) then (soaFromOrigin qname, [])
    else if decide (qtype = TypeNS) then (nsFromOrigin qname, [])
    else ([], soaFromOrigin qname)
  else if decide (q = "1.0.0.127.in-addr.arpa."%string) then
    if decide (qtype = TypePTR) then ([mkRR qname TypePTR ClassINET local_ttl (PTR "localhost.")], [])
    else ([], soaFromOrigin zone)
  else ([], []).

Definition Local_Name : string := "local".

Definition Local_ServeDNS : Handler W := fun ctx w r s =>
  let state := newRequest w (Some r) in
  let qname := QName state in
  let '(state, name) := Name state in
  if decide (slen "localhost." < slen name /\ HasPrefix name "localhost." = true)%nat then
    reply ← doLocalhost state;
    Some (s, [reply], 0%Z, None)
  else
    let zone := Zones_Matches local_zones qname in
    if decide (zone = EmptyString) then NextOrFailure Local_Name next ctx w r s
    else if decide (slen qname < slen zone)%nat then None
    else
      zone ← slice_from qname (slen qname - slen zone);
      let m := SetReply zeroMsg r in
      let m := match local_sections name qname zone (QType state) with
               | ([], []) => set_mRcode RcodeNameError (set_sections [] (soaFromOrigin zone) (mExtra m) m)
               | (answer, ns) => set_sections answer ns (mExtra m) m
               end in
      Some (s, [m], 0%Z, None).

(** ** whoami *)

Definition Whoami_Name : string := "whoami".

Definition Whoami_ServeDNS : Handler W := fun ctx w r s =>
  let state := newRequest w (Some r) in
  let a := set_mAuthoritative true (SetReply zeroMsg r) in
  let '(state, ip) := Request_IP state in
  let '(state, family) := Family state in
  let qname := QName state in
  let rr :=
    if decide (family = 1%Z) then mkRR qname TypeA (QClass state) 0 (A (default [] (ParseIP ip ≫= To4)))
    else mkRR qname TypeAAAA (QClass state) 0 (AAAA (default [] (ParseIP ip))) in
  let owner := if decide (qname = dot) then "_" +:+ Proto state +:+ qname else "_" +:+ Proto state +:+ "." +:+ qname in
  let '(state, p) := Request_Port state in
  let port := (ParseUint 16 p).1 in
  Some (s, [set_sections (mAnswer a) (mNs a) [rr; mkRR owner TypeSRV (QClass state) 0 (SRV 0 0 port dot)] a], 0%Z, None).

(** ** chaos *)

(** [rand.Perm] and [os.Hostname]. *)
Context (Perm : nat -> st W (list nat)) (Hostname : option string).
Context (chaos_version : string) (authors : list string).

Definition chaos_trim (s : string) : string := if decide (slen s < 256)%nat then s else stake 255 s.

Definition Chaos_Name : string := "chaos".

Definition Chaos_ServeDNS : Handler W := fun ctx w r s =>
  let state := newRequest w (Some r) in
  if decide (QClass state <> ClassCHAOS \/ QType state <> TypeTXT) then NextOrFailure Chaos_Name next ctx w r s
  else
    let m := SetReply zeroMsg r in
    let txt t := mkRR (QName state) TypeTXT ClassCHAOS 0 (TXT [t]) in
    let reply answer := set_sections answer (mNs m) (mExtra m) m in
    let '(state, name) := Name state in
    if decide (name = "authors.bind."%string) then
      '(s, p) ← Perm (length authors) s;
      as_ ← mapM (fun i => authors !! i) p;
      Some (s, [reply (map txt as_)], 0%Z, None)
    else if decide (name ∈ ["version.bind."; "version.server."]%string) then
      Some (s, [reply [txt chaos_version]], 0%Z, None)
    else if decide (name ∈ ["hostname.bind."; "id.server."]%string) then
      Some (s, [reply [txt (chaos_trim (default "localhost"%string Hostname))]], 0%Z, None)
    else NextOrFailure Chaos_Name next ctx w r s.
End answering.

(** ** header *)

Record Rule := mkHeaderRule { Flag : string; State : bool }.

Definition authoritative : string := "aa".
Definition recursionAvailable : string := "ra".
Definition recursionDesired : string := "rd".

Fixpoint rules_of_args (state : bool) (args : list string) : string + list Rule :=
  match args with
  | [] => inr []
  | arg :: args' =>
      let flag := ToLower arg in
      if decide (flag ∈ [authoritative; recursionAvailable; recursionDesired]) then
        match rules_of_args state args' with
        | inl e => inl e
        | inr rules => inr (mkHeaderRule flag state :: rules)
        end
      else inl ("unknown/unsupported flag=" +:+ flag)
  end.

Definition newRules (key : string) (args : list string) : string + list Rule :=
  if decide (key = EmptyString) then inl "no flag action provided"%string
  else if decide (args = []) then inl "invalid length for flags, at least one should be provided"%string
  else
    let action := ToLower key in
    if decide (action = "set"%string) then rules_of_args true args
    else if decide (action = "clear"%string) then rules_of_args false args
    else inl ("unknown flag action=" +:+ action +:+ ", should be set or clear").

Definition set_mRecursionDesired (b : bool) (m : Msg) : Msg :=
  mkMsg (mId m) (mResponse m) (mOpcode m) (mAuthoritative m) (mTruncated m) b (mRecursionAvailable m)
    (mAuthenticatedData m) (mCheckingDisabled m) (mRcode m) (mCompress m) (mQuestion m) (mAnswer m) (mNs m) (mExtra m).

Definition apply_rule (m : Msg) (rl : Rule) : Msg :=
  if decide (Flag rl = authoritative) then set_mAuthoritative (State rl) m
  else if decide (Flag rl = recursionAvailable) then set_mRecursionAvailable (State rl) m
  else if decide (Flag rl = recursionDesired) then set_mRecursionDesired (State rl) m
  else m.

Definition applyRules (res : Msg) (rules : list Rule) : Msg := fold_left apply_rule rules res.

Section passing.
Context `{DnsNames} `{DnsMsgs} {W : Type} (next : option (Handler W)).

Definition Header_Name : string := "header".

(** The next plugin's messages go through ResponseHeaderWriter. *)
Definition Header_ServeDNS (QueryRules ResponseRules : list Rule) : Handler W := fun ctx w r s =>
  '(s, msgs, rcode, err) ← NextOrFailure Header_Name next ctx w (applyRules r QueryRules) s;
  Some (s, map (fun m => applyRules m ResponseRules) msgs, rcode, err).

(** ** bufsize *)

Definition Bufsize_Name : string := "bufsize".

Definition Bufsize_ServeDNS (Size : Z) : Handler W := fun ctx w r s =>
  r ← match IsEdns0 r with
      | None => Some r
      | Some i =>
          o ← mExtra r !! i;
          Some (if decide (Size < OPT_UDPSize o)%Z then upd_extra i (OPT_SetUDPSize (u16 Size) o) r else r)
      end;
  NextOrFailure Bufsize_Name next ctx w r s.

(** ** nsid *)

(** The Go struct keeps the data in hexadecimal. *)
Definition nsid_option (Data : string) : EDNS0 := EDNS0_NSID (EncodeToString Data).
Definition is_nsid (o : EDNS0) : bool := match o with EDNS0_NSID _ => true | _ => false end.

Definition opt_options (o : RR) : list EDNS0 := match rdata o with OPT os => os | _ => [] end.

(** [WriteMsg] of nsid's writer. *)
Definition nsid_WriteMsg (Data : string) (request res : Msg) : option Msg :=
  res ← match IsEdns0 request, IsEdns0 res with
        | Some i, None => o ← mExtra request !! i; Some (SetEdns0 (OPT_UDPSize o) true res)
        | _, _ => Some res
        end;
  match IsEdns0 res with
  | None => Some res
  | Some i =>
      o ← mExtra res !! i;
      let os := map (fun e => if is_nsid e then nsid_option Data else e) (opt_options o) in
      let os := if existsb is_nsid (opt_options o) then os else os ++ [nsid_option Data] in
      Some (upd_extra i (set_rdata (OPT os) o) res)
  end.

Definition Nsid_Name : string := "nsid".

Definition Nsid_ServeDNS (Data : string) : Handler W := fun ctx w r s =>
  asked ← match IsEdns0 r with
          | None => Some false
          | Some i => o ← mExtra r !! i; Some (existsb is_nsid (opt_options o))
          end;
  '(s, msgs, rcode, err) ← NextOrFailure Nsid_Name next ctx w r s;
  if (asked : bool) then msgs ← mapM (nsid_WriteMsg Data r) msgs; Some (s, msgs, rcode, err)
  else Some (s, msgs, rcode, err).

(** ** minimal *)

Definition Minimal_Name : string := "minimal".

(** Writing a nil message panics, in whatever writer. *)
Definition Minimal_ServeDNS (now : W -> Z) : Handler W := fun ctx w r s =>
  '(s, msgs, rcode, err) ← NextOrFailure Minimal_Name next ctx w r s;
  match err with
  | Some e => Some (s, [], rcode, Some e)
  | None =>
      let msg := nonwriter_Msg msgs in
      '(ty, _) ← Typify msg (now s);
      let cl := Classify ty in
      msg ← msg;
      if decide (cl = Denial \/ cl = ErrorC \/ ty = DelegationT) then Some (s, [msg], 0%Z, None)
      else if decide (ty <> NoError) then
        q ← head (mQuestion msg);
        Some (s, [msg], 0%Z, Some (plugin_Error "minimal" ("unhandled response type " +:+ go_quote (RespType_String ty) +:+
                                     " for " +:+ go_quote (qName q))))
      else Some (s, [set_sections (mAnswer msg) [] [] msg], 0%Z, None)
  end.
End passing.

(** ** loop *)

Record Loop := mkLoop { lZone : string; lQname : string; lAddr : string; lSeen : Z; lOff : bool }.

Definition Loop_inc (l : Loop) : Loop := mkLoop (lZone l) (lQname l) (lAddr l) (lSeen l + 1)%Z (lOff l).
Definition Loop_reset (l : Loop) : Loop := mkLoop (lZone l) (lQname l) (lAddr l) 0 (lOff l).
Definition Loop_setDisabled (l : Loop) : Loop := mkLoop (lZone l) (lQname l) (lAddr l) (lSeen l) true.
Definition Loop_setAddress (a : string) (l : Loop) : Loop := mkLoop (lZone l) (lQname l) a (lSeen l) (lOff l).

Section loop.
Context `{DnsNames} `{DnsMsgs} {W : Type} (next : option (Handler W)).
Context (get : W -> Loop) (put : Loop -> W -> W).

Definition Loop_Name : string := "loop".

(** [log.Fatalf] ends the process: [None]. *)
Definition Loop_ServeDNS : Handler W := fun ctx w r s =>
  match mQuestion r with
  | [] => None
  | q :: _ =>
      if decide (qType q <> TypeHINFO) then NextOrFailure Loop_Name next ctx w r s
      else if lOff (get s) then NextOrFailure Loop_Name next ctx w r s
      else
        let name := (Name (newRequest w (Some r))).2 in
        if decide (Zones_Matches [lZone (get s)] name = EmptyString) then NextOrFailure Loop_Name next ctx w r s
        else
          let s := if decide (name = lQname (get s)) then put (Loop_inc (get s)) s else s in
          if decide (2 < lSeen (get s))%Z then None else NextOrFailure Loop_Name next ctx w r s
  end.
End loop.

(** ** erratic *)

Record Erratic := mkErratic { eQ : Z; eDrop : Z; eDelay : Z; eTruncate : Z; eLarge : bool }.

Definition Erratic_count (e : Erratic) : Erratic := mkErratic (u64 (eQ e + 1)) (eDrop e) (eDelay e) (eTruncate e) (eLarge e).

Definition rrA : RR := mkRR dot TypeA ClassINET 0 (A [192; 0; 2; 53]%Z).
Definition rrAAAA : RR := mkRR dot TypeAAAA ClassINET 0 (AAAA [32; 1; 13; 184; 0; 0; 0; 0; 0; 0; 0; 0; 0; 0; 0; 83]%Z).

Section erratic.
Context `{DnsMsgs} {W : Type} (get : W -> Erratic) (put : Erratic -> W -> W).
(** What sending the zone transfer writes. *)
Context (xfr : Writer -> Msg -> bool -> list Msg).

Definition erratic_drop (e : Erratic) : bool := bool_decide (0 < eDrop e /\ eQ e mod eDrop e = 0)%Z.
(** The counter is masked, not divided. *)
Definition erratic_trunc (e : Erratic) : bool := bool_decide (0 < eTruncate e /\ Z.land (eQ e) (eTruncate e) = 0)%Z.

(** The delays are left out. *)
Definition Erratic_ServeDNS : Handler W := fun ctx w r s =>
  let state := newRequest w (Some r) in
  let e := get s in
  let s := put (Erratic_count e) s in
  let m := set_mAuthoritative true (SetReply zeroMsg r) in
  let m := if erratic_trunc e then set_mTruncated true m else m in
  let reply answer := if erratic_drop e then Some (s, [], 0%Z, None)
                      else Some (s, [set_sections answer (mNs m) (mExtra m) m], 0%Z, None) in
  if decide (QType state = TypeA) then
    let rr := set_hName (QName state) rrA in reply (if eLarge e then replicate 30 rr else [rr])
  else if decide (QType state = TypeAAAA) then reply [set_hName (QName state) rrAAAA]
  else if erratic_drop e then Some (s, [], 0%Z, None)
  else if decide (QType state = TypeAXFR) then Some (s, xfr w r (erratic_trunc e), 0%Z, None)
  else Some (s, [], RcodeServerFailure, None).
End erratic.

(** ** autopath *)

(** The name an alias is needed for: that of the first record of another
    owner. *)
Definition cnamer_alias (original : string) (answer : list RR) : option RR :=
  snd <$> list_find (fun a => EqualFold original (hName a) = false) answer.

Definition cnamer (m : Msg) (original : string) : option Msg :=
  let answer := match cnamer_alias original (mAnswer m) with
                | Some a => mkRR original TypeCNAME ClassINET (hTtl a) (CNAME (hName a)) :: mAnswer m
                | None => mAnswer m
                end in
  match mQuestion m with
  | [] => None
  | q :: qs => Some (set_mQuestion (mkQuestion original (qType q) (qClass q) :: qs) (set_sections answer (mNs m) (mExtra m) m))
  end.

Section autopath.
Context `{DnsNames} `{DnsMsgs} {W : Type} (next : option (Handler W)).
Context (Zones search : list string) (searchFunc : option (Request -> list string)).

Definition Autopath_Name : string := "autopath".

Definition firstInSearchPath (name first : string) : bool := bool_decide (name = first) || IsSubDomain first name.

(** The loop over the search path; [first] is what the first turn got. *)
Fixpoint autopath_loop (ctx : Ctx) (w : Writer) (ar : Msg) (origQName base : string) (path : list string)
    (first : option (option Msg * Z * option string)) (s : W) : option (W * list Msg * Z * option string) :=
  match path with
  | [] =>
      let '(firstReply, firstRcode, firstErr) := default (Some zeroMsg, 0%Z, None) first in
      if ClientWrite firstRcode then m ← firstReply; Some (s, [m], firstRcode, firstErr)
      else Some (s, [], firstRcode, firstErr)
  | p :: path' =>
      ar ← match mQuestion ar with
           | [] => None
           | q :: qs => Some (set_mQuestion (mkQuestion (base +:+ "." +:+ p) (qType q) (qClass q) :: qs) ar)
           end;
      '(s, msgs, rcode, err) ← NextOrFailure Autopath_Name next ctx w ar s;
      match err with
      | Some e => Some (s, [], rcode, Some e)
      | None =>
          let reply := nonwriter_Msg msgs in
          let first := match first with Some f => f | None => (reply, rcode, None) end in
          if ClientWrite rcode then
            msg ← reply;
            if decide (mRcode msg = RcodeNameError) then autopath_loop ctx w ar origQName base path' (Some first) s
            else msg ← cnamer msg origQName; Some (s, [msg], rcode, None)
          else autopath_loop ctx w ar origQName base path' (Some first) s
      end
  end.

Definition AutoPath_ServeDNS : Handler W := fun ctx w r s =>
  let '(state, name) := Name (newRequest w (Some r)) in
  if decide (Zones_Matches Zones name = EmptyString) then NextOrFailure Autopath_Name next ctx w r s
  else
    match match searchFunc with Some f => f state | None => search end with
    | [] => NextOrFailure Autopath_Name next ctx w r s
    | (first :: _) as searchpath =>
        if firstInSearchPath name first then
          base ← TrimZone (QName state) first;
          match base with
          | inr err => Some (s, [], RcodeServerFailure, Some err)
          | inl base => autopath_loop ctx w r (QName state) base searchpath None s
          end
        else NextOrFailure Autopath_Name next ctx w r s
    end.
End autopath.
