(* ===== verification/Metadata.v ===== *)
(** * The metadata plugin

    plugin/metadata: values that plugins attach to a query, kept in the
    context.  The functions of the code that give the values are the values
    here. *)

From S2P Require Import Prelude.
From S2P Require Import GoStd.
From S2P Require Import DnsNames.
From S2P Require Import DnsMsg.
From S2P Require Import Request.
From S2P Require Import Plugin.

(** Whether a name has the form of a label: two words with a slash between. *)
Definition IsLabel (label : string) : bool :=
  match strings_Index label "/" with
  | None => false
  | Some p => negb (bool_decide (p <= 0)%nat || bool_decide (slen label - 1 <= p)%nat)
  end.

Definition ContextWithMetadata (ctx : Ctx) : Ctx := with_md ∅ ctx.

Definition ValueFuncs (ctx : Ctx) : option (gmap string string) := ctx_md ctx.
Definition ValueFunc (ctx : Ctx) (label : string) : option string := m ← ctx_md ctx; m !! label.

(** All labels, in the order of the map. *)
Definition Labels_ `{GoRange} (ctx : Ctx) : list string :=
  match ctx_md ctx with Some m => map fst (go_range m) | None => [] end.

(** The map is shared with everyone who has the context. *)
Definition SetValueFunc (ctx : Ctx) (label f : string) : Ctx * bool :=
  match ctx_md ctx with
  | Some m => (with_md (<[label := f]> m) ctx, true)
  | None => (ctx, false)
  end.

Section metadata.
Context `{DnsNames} `{DnsMsgs} {W : Type}.

(** A plugin that provides metadata. *)
Definition Provider : Type := Ctx -> Request -> st W Ctx.

Definition Metadata_Name : string := "metadata".

Definition Metadata_ServeDNS (next : option (Handler W)) : Handler W := NextOrFailure Metadata_Name next.

Fixpoint collect_all (Providers : list Provider) (ctx : Ctx) (state : Request) : st W Ctx :=
  match Providers with
  | [] => mret ctx
  | p :: ps => ctx ← p ctx state; collect_all ps ctx state
  end.

Definition Metadata_Collect (Zones : list string) (Providers : list Provider) (ctx : Ctx) (state : Request) : st W Ctx :=
  let ctx := ContextWithMetadata ctx in
  let '(state, name) := Name state in
  if decide (Zones_Matches Zones name <> EmptyString) then collect_all Providers ctx state else mret ctx.
End metadata.

(** A value that was set is what is found, and nothing else changes. *)
Lemma SetValueFunc_get ctx label f label' :
  is_Some (ctx_md ctx) ->
  let '(ctx', ok) := SetValueFunc ctx label f in
  ok = true /\ ValueFunc ctx' label' = if decide (label' = label) then Some f else ValueFunc ctx label'.
Proof.
  intros [m Hm]. unfold SetValueFunc, ValueFunc. rewrite Hm. split; [done|]. cbn [ctx_md with_md mbind option_bind].
  case_decide as E; [subst; apply lookup_insert_eq|by apply lookup_insert_ne].
Qed.

(** Labels that are accepted have both words. *)
Lemma IsLabel_words label : IsLabel label = true -> exists a b, label = a +:+ "/" +:+ b /\ a <> EmptyString /\ b <> EmptyString.
Proof.
  unfold IsLabel. destruct (strings_Index label "/") as [p|] eqn:E; [|done]. intros Hb.
  apply negb_true_iff, orb_false_iff in Hb as [H1%bool_decide_eq_false H2%bool_decide_eq_false].
  assert (exists a b, label = a +:+ "/" +:+ b /\ slen a = p) as (a & b & -> & Hp).
  { clear H1 H2. revert p E. induction label as [|c l IH]; intros p E; [done|]. cbn [strings_Index] in E.
    destruct (HasPrefix (String c l) "/") eqn:Hpre.
    - injection E as <-. unfold HasPrefix in Hpre. apply bool_decide_eq_true in Hpre. simpl in Hpre. injection Hpre as ->.
      by exists EmptyString, l.
    - destruct (strings_Index l "/") as [p'|]; [|done]. injection E as <-. destruct (IH p' eq_refl) as (a & b & -> & <-).
      by exists (String c a), b. }
  exists a, b. split; [done|]. rewrite !slen_app in H2. simpl in H2. split; intros ->; simpl in *; lia.
Qed.
