(* ===== verification/Rewrite.v ===== *)
(** * The rewrite plugin

    plugin/rewrite: rules that change the question, its class or type, or the
    EDNS0 options of a query, the reverting of the names in the reply, and the
    parsing of the rules from their arguments.  The change a rule makes to the
    query is seen by the plugins behind this one. *)

From S2P Require Import Prelude.
From S2P Require Import GoStd.
From S2P Require Import GoNet.
From S2P Require Import GoText.
From S2P Require Import DnsNames.
From S2P Require Import DnsMsg.
From S2P Require Import DnsUtil.
From S2P Require Import Request.
From S2P Require Import Plugin.
From S2P Require Import Metadata.
From S2P Require Import SmallPlugins.

(** ** Strings *)

Definition group_ref (i : Z) : string := "{" +:+ Itoa i +:+ "}".

(** The references [{0}], [{1}], ... replaced one after the other. *)
Fixpoint replace_groups (i : Z) (groups : list string) (s : string) : string :=
  match groups with
  | [] => s
  | g :: groups' => replace_groups (i + 1) groups' (strings_ReplaceAll s (group_ref i) g)
  end.

Section rewrite.
Context `{DnsNames} `{DnsMsgs} `{GoRegexp}.

Inductive stringRewriter :=
  | regexStringRewriter (pattern : Regexp) (replacement : string)
  | remapStringRewriter (orig replacement : string)
  | suffixStringRewriter (suffix replacement : string).

Definition regex_rewriteString (pattern : Regexp) (replacement src : string) : string :=
  match FindStringSubmatch pattern src with [] => src | groups => replace_groups 0 groups replacement end.

Definition remap_rewriteString (orig replacement src : string) : string :=
  if decide (src = orig) then replacement
  else if HasSuffix src ("." +:+ orig) then stake (slen src - slen orig) src +:+ replacement
  else src.

Definition suffix_rewriteString (suffix replacement src : string) : string :=
  if HasSuffix src suffix then TrimSuffix src suffix +:+ replacement else src.

Definition rewriteString (r : stringRewriter) (src : string) : string :=
  match r with
  | regexStringRewriter p replacement => regex_rewriteString p replacement src
  | remapStringRewriter orig replacement => remap_rewriteString orig replacement src
  | suffixStringRewriter suffix replacement => suffix_rewriteString suffix replacement src
  end.

(** ** Replies *)

Inductive ResponseRule :=
  | nameRewriterResponseRule (r : stringRewriter)
  | valueRewriterResponseRule (r : stringRewriter)
  | ttlResponseRule (minTTL maxTTL : Z).

(** The name in the data of a record; data of another type than the header
    says panics. *)
Definition getRecordValueForRewrite (rr : RR) : option string :=
  let t := hRrtype rr in
  if decide (t = TypeSRV) then match rdata rr with SRV _ _ _ v => Some v | _ => None end
  else if decide (t = TypeMX) then match rdata rr with MX _ v => Some v | _ => None end
  else if decide (t = TypeCNAME) then match rdata rr with CNAME v => Some v | _ => None end
  else if decide (t = TypeNS) then match rdata rr with NS v => Some v | _ => None end
  else if decide (t = TypeDNAME) then match rdata rr with DNAME v => Some v | _ => None end
  else if decide (t = TypeNAPTR) then match rdata rr with NAPTR _ v => Some v | _ => None end
  else if decide (t = TypeSOA) then match rdata rr with SOA v _ _ _ _ _ _ => Some v | _ => None end
  else if decide (t = TypePTR) then match rdata rr with PTR v => Some v | _ => None end
  else Some EmptyString.

Definition setRewrittenRecordValue (rr : RR) (value : string) : option RR :=
  let t := hRrtype rr in
  let put d := Some (set_rdata d rr) in
  if decide (t = TypeSRV) then match rdata rr with SRV p w port _ => put (SRV p w port value) | _ => None end
  else if decide (t = TypeMX) then match rdata rr with MX p _ => put (MX p value) | _ => None end
  else if decide (t = TypeCNAME) then match rdata rr with CNAME _ => put (CNAME value) | _ => None end
  else if decide (t = TypeNS) then match rdata rr with NS _ => put (NS value) | _ => None end
  else if decide (t = TypeDNAME) then match rdata rr with DNAME _ => put (DNAME value) | _ => None end
  else if decide (t = TypeNAPTR) then match rdata rr with NAPTR f _ => put (NAPTR f value) | _ => None end
  else if decide (t = TypeSOA) then
    match rdata rr with SOA _ mbox serial refresh retry expire minttl => put (SOA value mbox serial refresh retry expire minttl) | _ => None end
  else if decide (t = TypePTR) then match rdata rr with PTR _ => put (PTR value) | _ => None end
  else Some rr.

Definition valueRewriter_RewriteResponse (r : stringRewriter) (rr : RR) : option RR :=
  value ← getRecordValueForRewrite rr;
  if decide (value <> EmptyString) then
    let new := rewriteString r value in
    if decide (new <> value) then setRewrittenRecordValue rr new else Some rr
  else Some rr.

Definition ttl_RewriteResponse (minTTL maxTTL : Z) (rr : RR) : RR :=
  if decide (hTtl rr < minTTL)%Z then set_hTtl minTTL rr
  else if decide (maxTTL < hTtl rr)%Z then set_hTtl maxTTL rr
  else rr.

Definition RewriteResponse (rule : ResponseRule) (rr : RR) : option RR :=
  match rule with
  | nameRewriterResponseRule r => Some (set_hName (rewriteString r (hName rr)) rr)
  | valueRewriterResponseRule r => valueRewriter_RewriteResponse r rr
  | ttlResponseRule minTTL maxTTL => Some (ttl_RewriteResponse minTTL maxTTL rr)
  end.

Fixpoint rewriteResourceRecord (rules : list ResponseRule) (rr : RR) : option RR :=
  match rules with
  | [] => Some rr
  | rule :: rules' => rr ← RewriteResponse rule rr; rewriteResourceRecord rules' rr
  end.

Record revertPolicy := mkRevertPolicy { noRevert : bool; noRestore : bool }.
Definition DoRevert (p : revertPolicy) : bool := negb (noRevert p).
Definition DoQuestionRestore (p : revertPolicy) : bool := negb (noRestore p).

(** The writer: the message is copied first. *)
Definition reverter_WriteMsg (policy : revertPolicy) (originalQuestion : Question) (rules : list ResponseRule) (res : Msg)
  : option Msg :=
  res ← (if DoQuestionRestore policy then
           match mQuestion res with [] => None | _ :: qs => Some (set_mQuestion (originalQuestion :: qs) res) end
         else Some res);
  match rules with
  | [] => Some res
  | _ =>
      ns ← mapM (rewriteResourceRecord rules) (mNs res);
      answer ← mapM (rewriteResourceRecord rules) (mAnswer res);
      extra ← mapM (rewriteResourceRecord rules) (mExtra res);
      Some (set_sections answer ns extra res)
  end.

(** ** Rules *)

Definition ModeStop : string := "stop".
Definition ModeContinue : string := "continue".

Record nameRuleBase := mkNameRuleBase { nextAction : string; auto_ : bool; replacement : string; static : list ResponseRule }.
Record ttlRuleBase := mkTTLRuleBase { ttlAction : string; response : ResponseRule }.

Inductive ednsAction := Replace | Set_ | Append.

Inductive RewriteRule :=
  | exactNameRule (b : nameRuleBase) (from : string)
  | prefixNameRule (b : nameRuleBase) (prefix : string)
  | suffixNameRule (b : nameRuleBase) (suffix : string)
  | substringNameRule (b : nameRuleBase) (substring : string)
  | regexNameRule (b : nameRuleBase) (pattern : Regexp)
  | classRule (fromClass toClass : Z) (mode : string)
  | typeRule (fromType toType : Z) (mode : string)
  | exactTTLRule (b : ttlRuleBase) (from : string)
  | prefixTTLRule (b : ttlRuleBase) (prefix : string)
  | suffixTTLRule (b : ttlRuleBase) (suffix : string)
  | substringTTLRule (b : ttlRuleBase) (substring : string)
  | regexTTLRule (b : ttlRuleBase) (pattern : Regexp)
  | edns0LocalRule (mode : string) (action : ednsAction) (code : Z) (data : string)
  | edns0VariableRule (mode : string) (action : ednsAction) (code : Z) (variable : string)
  | edns0NsidRule (mode : string) (action : ednsAction)
  | edns0SubnetRule (mode : string) (v4BitMaskLen v6BitMaskLen : Z) (action : ednsAction).

Definition rule_Mode (rule : RewriteRule) : string :=
  match rule with
  | exactNameRule b _ | prefixNameRule b _ | suffixNameRule b _ | substringNameRule b _ | regexNameRule b _ => nextAction b
  | exactTTLRule b _ | prefixTTLRule b _ | suffixTTLRule b _ | substringTTLRule b _ | regexTTLRule b _ => ttlAction b
  | classRule _ _ mode | typeRule _ _ mode => mode
  | edns0LocalRule mode _ _ _ | edns0VariableRule mode _ _ _ | edns0NsidRule mode _ | edns0SubnetRule mode _ _ _ => mode
  end.

(** The new name when a name rule matches. *)
Definition exact_renamed (b : nameRuleBase) (from name : string) : option string :=
  if decide (from = name) then Some (replacement b) else None.

Definition prefix_renamed (b : nameRuleBase) (prefix name : string) : option string :=
  if HasPrefix name prefix then Some (replacement b +:+ TrimPrefix name prefix) else None.

Definition suffix_renamed (b : nameRuleBase) (suffix name : string) : option string :=
  if HasSuffix name suffix then Some (TrimSuffix name suffix +:+ replacement b) else None.

Definition substring_renamed (b : nameRuleBase) (substring name : string) : option string :=
  if strings_Contains name substring then Some (strings_ReplaceAll name substring (replacement b)) else None.

Definition regex_renamed (b : nameRuleBase) (pattern : Regexp) (name : string) : option string :=
  match FindStringSubmatch pattern name with [] => None | groups => Some (replace_groups 0 groups (replacement b)) end.

Definition renamed (rule : RewriteRule) (name : string) : option (nameRuleBase * string) :=
  match rule with
  | exactNameRule b from => pair b <$> exact_renamed b from name
  | prefixNameRule b prefix => pair b <$> prefix_renamed b prefix name
  | suffixNameRule b suffix => pair b <$> suffix_renamed b suffix name
  | substringNameRule b substring => pair b <$> substring_renamed b substring name
  | regexNameRule b pattern => pair b <$> regex_renamed b pattern name
  | _ => None
  end.

(** The response rules of a name rule; [from] is the name before. *)
Definition responseRuleFor (b : nameRuleBase) (from to : string) : list ResponseRule :=
  if auto_ b then
    let rewriter := remapStringRewriter to from in
    [nameRewriterResponseRule rewriter; valueRewriterResponseRule rewriter] ++ static b
  else static b.

Definition ttl_matches (rule : RewriteRule) (name : string) : option (ttlRuleBase * bool) :=
  match rule with
  | exactTTLRule b from => Some (b, bool_decide (from = name))
  | prefixTTLRule b prefix => Some (b, HasPrefix name prefix)
  | suffixTTLRule b suffix => Some (b, HasSuffix name suffix)
  | substringTTLRule b substring => Some (b, strings_Contains name substring)
  | regexTTLRule b pattern => Some (b, bool_decide (FindStringSubmatch pattern name <> []))
  | _ => None
  end.

(** *** EDNS0 *)

(** The message with an OPT record, and where it is. *)
Definition setupEdns0Opt (r : Msg) : option (Msg * nat) :=
  match IsEdns0 r with
  | Some i => Some (r, i)
  | None => let r := SetEdns0 4096 false r in i ← IsEdns0 r; Some (r, i)
  end.

Definition put_options (r : Msg) (i : nat) (os : list EDNS0) : option Msg :=
  o ← mExtra r !! i; Some (upd_extra i (set_rdata (OPT os) o) r).

(** The first option of a kind, changed. *)
Fixpoint change_first (p : EDNS0 -> bool) (new : EDNS0) (os : list EDNS0) : option (list EDNS0) :=
  match os with
  | [] => None
  | o :: os' => if p o then Some (new :: os') else os'' ← change_first p new os'; Some (o :: os'')
  end.

Definition overwrites (a : ednsAction) : bool := match a with Append => false | _ => true end.
Definition adds (a : ednsAction) : bool := match a with Replace => false | _ => true end.

Definition is_local (code : Z) (o : EDNS0) : bool :=
  match o with EDNS0_LOCAL c _ => bool_decide (code = c) | _ => false end.
Definition is_subnet (o : EDNS0) : bool := match o with EDNS0_SUBNET _ _ _ _ => true | _ => false end.

(** The options after a rule, or nothing when it is ignored.  [once] tells
    that an option that is there keeps the rule from adding one. *)
Definition edns0_options (p : EDNS0 -> bool) (new : EDNS0) (once : bool) (a : ednsAction) (os : list EDNS0) : option (list EDNS0) :=
  if existsb p os then
    if overwrites a then change_first p new os else if once then None else Some (os ++ [new])
  else if adds a then Some (os ++ [new]) else None.

Fixpoint string_of_bytes (bs : list Z) : string :=
  match bs with
  | [] => EmptyString
  | b :: bs' => String (ascii_of_N (Z.to_N b)) (string_of_bytes bs')
  end.

(** ** Wire forms; an error or nil is nothing. *)
Definition ipToWire (family : Z) (ipAddr : string) : option string :=
  if decide (family = 1)%Z then string_of_bytes <$> (ParseIP ipAddr ≫= To4)
  else if decide (family = 2)%Z then string_of_bytes <$> (ParseIP ipAddr ≫= To16)
  else None.

Definition uint16ToWire (data : Z) : string := string_of_bytes [u8 (Z.shiftr data 8); u8 data].

Definition portToWire (portStr : string) : option string :=
  match ParseUint 16 portStr with (port, None) => Some (uint16ToWire (u16 port)) | _ => None end.

Definition queryName : string := "{qname}".
Definition queryType : string := "{qtype}".
Definition clientIP : string := "{client_ip}".
Definition clientPort : string := "{client_port}".
Definition protocol : string := "{protocol}".
Definition serverIP : string := "{server_ip}".
Definition serverPort : string := "{server_port}".

(** The outer option is a panic. *)
Definition ruleData (ctx : Ctx) (state : Request) (variable : string) : option (option string) :=
  if decide (variable = queryName) then Some (Some (QName state))
  else if decide (variable = queryType) then Some (Some (uint16ToWire (QType state)))
  else if decide (variable = clientIP) then
    let '(state, family) := Family state in Some (ipToWire family (Request_IP state).2)
  else if decide (variable = serverIP) then
    let '(state, family) := Family state in Some (ipToWire family (Request_LocalIP state).2)
  else if decide (variable = clientPort) then Some (portToWire (Request_Port state).2)
  else if decide (variable = serverPort) then Some (portToWire (Request_LocalPort state).2)
  else if decide (variable = protocol) then Some (Some (Proto state))
  else
    label ← slice variable 1 (slen variable - 1);
    Some (value ← ValueFunc ctx label; if decide (0 < slen value)%nat then Some value else None).

Definition fillEcsData (v4BitMaskLen v6BitMaskLen : Z) (state : Request) : option EDNS0 :=
  let '(state, family) := Family state in
  if decide (family <> 1 /\ family <> 2)%Z then None
  else
    let ip := default [] (ParseIP (Request_IP state).2) in
    Some (if decide (family = 1)%Z
          then EDNS0_SUBNET family v4BitMaskLen 0 (default [] (To4 (IP_Mask ip (CIDRMask v4BitMaskLen 32))))
          else EDNS0_SUBNET family v6BitMaskLen 0 (default [] (To16 (IP_Mask ip (CIDRMask v6BitMaskLen 128))))).

(** *** Applying a rule *)

Inductive RewriteResult := RewriteIgnored | RewriteDone.

(** Setting an option: the OPT record stays when the rule is ignored. *)
Definition apply_edns0 (r : Msg) (edit : list EDNS0 -> option (list EDNS0)) : option (Msg * list ResponseRule * RewriteResult) :=
  '(r, i) ← setupEdns0Opt r;
  o ← mExtra r !! i;
  match edit (opt_options o) with
  | None => Some (r, [], RewriteIgnored)
  | Some os => r ← put_options r i os; Some (r, [], RewriteDone)
  end.

Definition edns0NsidRule_Rewrite (a : ednsAction) (r : Msg) : option (Msg * list ResponseRule * RewriteResult) :=
  apply_edns0 r (edns0_options is_nsid (EDNS0_NSID EmptyString) false a).

Definition edns0LocalRule_Rewrite (a : ednsAction) (code : Z) (data : string) (r : Msg) : option (Msg * list ResponseRule * RewriteResult) :=
  apply_edns0 r (edns0_options (is_local code) (EDNS0_LOCAL code data) false a).

Definition edns0VariableRule_Rewrite (a : ednsAction) (code : Z) (variable : string) (ctx : Ctx) (state : Request) (r : Msg)
  : option (Msg * list ResponseRule * RewriteResult) :=
  data ← ruleData ctx state variable;
  match data with
  | None => Some (r, [], RewriteIgnored)
  | Some data => apply_edns0 r (edns0_options (is_local code) (EDNS0_LOCAL code data) true a)
  end.

Definition edns0SubnetRule_Rewrite (a : ednsAction) (v4 v6 : Z) (state : Request) (r : Msg)
  : option (Msg * list ResponseRule * RewriteResult) :=
  apply_edns0 r (fun os => ecs ← fillEcsData v4 v6 state; edns0_options is_subnet ecs true a os).

(** Class and type: the new question. *)
Definition classRule_Rewrite (from to : Z) (q : Question) : option Question :=
  if decide (0 < from /\ 0 < to /\ qClass q = from)%Z then Some (mkQuestion (qName q) (qType q) to) else None.

Definition typeRule_Rewrite (from to : Z) (q : Question) : option Question :=
  if decide (0 < from /\ 0 < to /\ qType q = from)%Z then Some (mkQuestion (qName q) to (qClass q)) else None.

Definition put_question (r : Msg) (qs : list Question) (q : option Question) : option (Msg * list ResponseRule * RewriteResult) :=
  Some match q with
       | Some q => (set_mQuestion (q :: qs) r, [], RewriteDone)
       | None => (r, [], RewriteIgnored)
       end.

(** Applying a rule: the message afterwards, the rules for the reply and
    whether something was rewritten. *)
Definition rule_Rewrite (rule : RewriteRule) (ctx : Ctx) (w : Writer) (r : Msg) : option (Msg * list ResponseRule * RewriteResult) :=
  let state := newRequest w (Some r) in
  let name := (Name state).2 in
  match mQuestion r with
  | [] => None
  | q :: qs =>
      match rule with
      | classRule from to _ => put_question r qs (classRule_Rewrite from to q)
      | typeRule from to _ => put_question r qs (typeRule_Rewrite from to q)
      | edns0NsidRule _ a => edns0NsidRule_Rewrite a r
      | edns0LocalRule _ a code data => edns0LocalRule_Rewrite a code data r
      | edns0VariableRule _ a code variable => edns0VariableRule_Rewrite a code variable ctx state r
      | edns0SubnetRule _ v4 v6 a => edns0SubnetRule_Rewrite a v4 v6 state r
      | _ =>
          match ttl_matches rule name with
          | Some (b, true) => Some (r, [response b], RewriteDone)
          | Some (_, false) => Some (r, [], RewriteIgnored)
          | None =>
              match renamed rule name with
              | Some (b, to) =>
                  Some (set_mQuestion (mkQuestion to (qType q) (qClass q) :: qs) r, responseRuleFor b name to, RewriteDone)
              | None => Some (r, [], RewriteIgnored)
              end
          end
      end
  end.

(** ** The handler *)

Inductive Outcome :=
  | rw_invalid (err : string)
  | rw_stop (r : Msg) (rules : list ResponseRule)
  | rw_end (r : Msg) (rules : list ResponseRule).

Fixpoint rewrite_loop (rules : list RewriteRule) (ctx : Ctx) (w : Writer) (r : Msg) (resp : list ResponseRule) : option Outcome :=
  match rules with
  | [] => Some (rw_end r resp)
  | rule :: rules' =>
      '(r, new, result) ← rule_Rewrite rule ctx w r;
      match result with
      | RewriteIgnored => rewrite_loop rules' ctx w r resp
      | RewriteDone =>
          q ← head (mQuestion r);
          if IsDomainName (qName q) then
            if decide (rule_Mode rule = ModeStop) then Some (rw_stop r (resp ++ new))
            else rewrite_loop rules' ctx w r (resp ++ new)
          else Some (rw_invalid ("invalid name after rewrite: " +:+ qName q))
      end
  end.

Definition Rewrite_Name : string := "rewrite".

Context {W : Type} (sup : gset Z) (policy : revertPolicy) (next : option (Handler W)).

(** The next plugin with the reverting writer. *)
Definition next_reverted (orig : Question) (resp : list ResponseRule) (ctx : Ctx) (w : Writer) (r : Msg) (s : W)
  : option (W * list Msg * Z * option string) :=
  '(s, msgs, rcode, err) ← NextOrFailure Rewrite_Name next ctx w r s;
  msgs ← mapM (reverter_WriteMsg policy orig resp) msgs;
  Some (s, msgs, rcode, err).

Definition Rewrite_ServeDNS (Rules : list RewriteRule) : Handler W := fun ctx w r s =>
  orig ← head (mQuestion r);
  out ← rewrite_loop Rules ctx w r [];
  match out with
  | rw_invalid err => Some (s, [], RcodeServerFailure, Some err)
  | rw_stop r resp =>
      if negb (DoRevert policy) then NextOrFailure Rewrite_Name next ctx w r s
      else
        '(s, msgs, rcode, err) ← next_reverted orig resp ctx w r s;
        if ClientWrite rcode then Some (s, msgs, rcode, err)
        else
          '(_, res, _) ← SizeAndDo sup (newRequest w (Some r)) (SetRcode zeroMsg r rcode);
          res ← reverter_WriteMsg policy orig resp res;
          Some (s, msgs ++ [res], RcodeSuccess, err)
  | rw_end r resp =>
      if (negb (DoRevert policy) || bool_decide (resp = []))%bool then NextOrFailure Rewrite_Name next ctx w r s
      else next_reverted orig resp ctx w r s
  end.
End rewrite.
