(* ===== verification/RewriteRules.v ===== *)
(** * The rewrite plugin: reading the rules

    plugin/rewrite: [newRule] and the constructors it calls, each from the
    arguments of a line of the configuration to a rule or an error.  A local
    EDNS0 rule also adds its code to the options the server supports. *)

From S2P Require Import Prelude.
From S2P Require Import GoStd.
From S2P Require Import GoNet.
From S2P Require Import GoText.
From S2P Require Import DnsNames.
From S2P Require Import DnsMsg.
From S2P Require Import DnsUtil.
From S2P Require Import Request.
From S2P Require Import Plugin.
From S2P Require Import Metadata.
From S2P Require Import SmallPlugins.
From S2P Require Import Rewrite.

Definition ExactMatch : string := "exact".
Definition PrefixMatch : string := "prefix".
Definition SuffixMatch : string := "suffix".
Definition SubstringMatch : string := "substring".
Definition RegexMatch : string := "regex".
Definition AnswerMatch : string := "answer".
Definition AutoMatch : string := "auto".
Definition NameMatch : string := "name".
Definition ValueMatch : string := "value".

Definition hasClosingDot (s : string) : bool := HasSuffix s ".".

(** The references [{0}] to [{100}] in a string, counted. *)
Definition getSubExprUsage (s : string) : nat :=
  length (filter (fun i : nat => strings_Contains s (group_ref (Z.of_nat i)) = true) (seq 0 101)).

Definition isValidVariable (variable : string) : bool :=
  if decide (variable ∈ [queryName; queryType; clientIP; clientPort; protocol; serverIP; serverPort]) then true
  else
    (HasPrefix variable "{" && HasSuffix variable "}" &&
     match slice variable 1 (slen variable - 1) with Some label => IsLabel label | None => false end)%bool.

Definition ch_dash : ascii := "-"%char.

(** The bounds of a TTL or of a range of them. *)
Definition isValidTTL (v : string) : option (Z * Z) :=
  match strings_Split ch_dash v with
  | [a] => match ParseUint 32 a with (i, None) => Some (u32 i, u32 i) | _ => None end
  | [a; b] =>
      min ← (if decide (a = EmptyString) then Some 0%Z else match ParseUint 32 a with (i, None) => Some i | _ => None end);
      max ← (if decide (b = EmptyString) then if decide (a = EmptyString) then None else Some 2147483647%Z
             else match ParseUint 32 b with (i, None) => Some i | _ => None end);
      if decide (max < min)%Z then None else Some (u32 min, u32 max)
  | _ => None
  end.

(** A rule or an error. *)
Definition parsed (A : Type) : Type := (A + string)%type.
Definition parsed_bind {A B} (m : parsed A) (f : A -> parsed B) : parsed B :=
  match m with inl a => f a | inr err => inr err end.

Section rules.
Context `{DnsNames} `{GoRegexp} (StringToClass StringToType : string -> option Z).

Definition isValidRegexPattern (rewriteFrom rewriteTo : string) : parsed Regexp :=
  match regexp_Compile rewriteFrom with
  | None => inr ("invalid regex matching pattern: " +:+ rewriteFrom)
  | Some p =>
      if decide (NumSubexp p < getSubExprUsage rewriteTo)%nat
      then inr ("the rewrite regex pattern (" +:+ rewriteTo +:+
                ") uses more subexpressions than its corresponding matching regex pattern (" +:+ rewriteFrom +:+ ")")
      else inl p
  end.

(** ** Class and type *)

Definition newClassRule (nextAction a b : string) : parsed RewriteRule :=
  match StringToClass (ToUpper a) with
  | None => inr ("invalid class " +:+ go_quote (ToUpper a))
  | Some from =>
      match StringToClass (ToUpper b) with
      | None => inr ("invalid class " +:+ go_quote (ToUpper b))
      | Some to => inl (classRule from to nextAction)
      end
  end.

Definition newTypeRule (nextAction a b : string) : parsed RewriteRule :=
  match StringToType (ToUpper a) with
  | None => inr ("invalid type " +:+ go_quote (ToUpper a))
  | Some from =>
      match StringToType (ToUpper b) with
      | None => inr ("invalid type " +:+ go_quote (ToUpper b))
      | Some to => inl (typeRule from to nextAction)
      end
  end.

(** ** Names *)

(** The loop over the answer rules; a turn takes one argument at least, so
    the number of arguments bounds the turns. *)
Fixpoint answer_rules (fuel : nat) (name : string) (args : list string) (last : string) (auto : bool) (nameRules : nat)
    (rules : list ResponseRule) : option (parsed (bool * list ResponseRule)) :=
  match fuel with
  | O => None
  | S fuel' =>
      match args with
      | [] =>
          Some (if (auto && bool_decide (0 < nameRules)%nat)%bool
                then inr "auto name answer rule cannot be combined with explicit name anwer rules"%string
                else inl (auto, rules))
      | arg :: more =>
          if decide (last = EmptyString /\ arg <> AnswerMatch)
          then Some (inr ("exceeded the number of arguments for a non-answer rule argument for " +:+ name +:+ " rule"))
          else
            match (if decide (arg = AnswerMatch) then more else args) with
            | [] => Some (inr ("type missing for answer rule for " +:+ name +:+ " rule"))
            | last :: more =>
                if decide (last = AutoMatch) then answer_rules fuel' name more last true nameRules rules
                else if decide (last = NameMatch \/ last = ValueMatch) then
                  match more with
                  | from :: to :: more =>
                      match isValidRegexPattern from to with
                      | inr err => Some (inr (last +:+ " answer rule for " +:+ name +:+ " rule: " +:+ err))
                      | inl p =>
                          let rewriter := regexStringRewriter p (Name_Normalize to) in
                          if decide (last = NameMatch)
                          then answer_rules fuel' name more last auto (S nameRules) (rules ++ [nameRewriterResponseRule rewriter])
                          else answer_rules fuel' name more last auto nameRules (rules ++ [valueRewriterResponseRule rewriter])
                      end
                  | _ => Some (inr (last +:+ " answer rule for " +:+ name +:+ " rule: 2 arguments required"))
                  end
                else Some (inr ("invalid type " +:+ go_quote last +:+ " for answer rule for " +:+ name +:+ " rule"))
            end
      end
  end.

Definition parseAnswerRules (name : string) (args : list string) : option (parsed (bool * list ResponseRule)) :=
  if decide (length args < 2)%nat then Some (inr ("invalid arguments for " +:+ name +:+ " rule"))
  else answer_rules (S (length args)) name args EmptyString false 0 [].

Definition newExactNameRule (nextAction orig replacement : string) (answers : list ResponseRule) : RewriteRule :=
  exactNameRule (mkNameRuleBase nextAction true replacement answers) orig.

Definition newPrefixNameRule (nextAction : string) (auto : bool) (prefix replacement : string) (answers : list ResponseRule) : RewriteRule :=
  prefixNameRule (mkNameRuleBase nextAction auto replacement answers) prefix.

Definition newSuffixNameRule (nextAction : string) (auto : bool) (suffix replacement : string) (answers : list ResponseRule) : RewriteRule :=
  let rewriter := suffixStringRewriter replacement suffix in
  let rules := if auto then [nameRewriterResponseRule rewriter; valueRewriterResponseRule rewriter] else [] in
  suffixNameRule (mkNameRuleBase nextAction false replacement (rules ++ answers)) suffix.

Definition newSubstringNameRule (nextAction : string) (auto : bool) (substring replacement : string) (answers : list ResponseRule) : RewriteRule :=
  substringNameRule (mkNameRuleBase nextAction auto replacement answers) substring.

Definition newRegexNameRule (nextAction : string) (auto : bool) (pattern : Regexp) (replacement : string) (answers : list ResponseRule) : RewriteRule :=
  regexNameRule (mkNameRuleBase nextAction auto replacement answers) pattern.

Definition closed_name (s : string) : string := if hasClosingDot s then s else s +:+ ".".

(** The kind of match and the two names, from two arguments and those behind. *)
Definition name_rule_args (a b : string) (more : list string) : string * string * string :=
  match more with
  | [] => (ExactMatch, Name_Normalize a, Name_Normalize b)
  | c :: _ => if decide (ToLower a = RegexMatch) then (ToLower a, b, c) else (ToLower a, Name_Normalize b, Name_Normalize c)
  end.

Definition name_rule_answers (matchType : string) (more : list string) : option (parsed (bool * list ResponseRule)) :=
  match more with
  | _ :: ((_ :: _) as rest) => parseAnswerRules matchType rest
  | _ => Some (inl (false, []))
  end.

(** [None] would be a loop over the answer rules that does not end. *)
Definition newNameRule (nextAction : string) (args : list string) : option (parsed RewriteRule) :=
  match args with
  | [] | [_] => Some (inr "too few arguments for a name rule"%string)
  | a :: b :: more =>
      let '(matchType, from, to) := name_rule_args a b more in
      let close := bool_decide (matchType = ExactMatch \/ matchType = SuffixMatch) in
      let from := if close then closed_name from else from in
      let to := if close then closed_name to else to in
      answers ← name_rule_answers matchType more;
      Some (parsed_bind answers (fun '(auto, answers) =>
        if decide (matchType = ExactMatch) then
          parsed_bind (isValidRegexPattern to from) (fun _ => inl (newExactNameRule nextAction from to answers))
        else if decide (matchType = PrefixMatch) then inl (newPrefixNameRule nextAction auto from to answers)
        else if decide (matchType = SuffixMatch) then inl (newSuffixNameRule nextAction auto from to answers)
        else if decide (matchType = SubstringMatch) then inl (newSubstringNameRule nextAction auto from to answers)
        else if decide (matchType = RegexMatch) then
          parsed_bind (isValidRegexPattern from to) (fun p => inl (newRegexNameRule nextAction auto p (Name_Normalize to) answers))
        else inr ("name rule supports only exact, prefix, suffix, substring, and regex name matching, received: " +:+ matchType)))
  end.

(** ** TTLs *)

Definition newTTLRule (nextAction : string) (args : list string) : parsed RewriteRule :=
  if decide (length args < 2)%nat
  then inr ("too few (" +:+ Itoa (Z.of_nat (length args)) +:+ ") arguments for a ttl rule")
  else
    let s := match args with [_; s] => s | [_; _; s] => s | _ => EmptyString end in
    match isValidTTL s with
    | None => inr ("invalid TTL '" +:+ s +:+ "' for a ttl rule")
    | Some (minTtl, maxTtl) =>
        let base := mkTTLRuleBase nextAction (ttlResponseRule minTtl maxTtl) in
        match args with
        | [name; _] => inl (exactTTLRule base (Name_Normalize name))
        | [kind; name; _] =>
            let kind := ToLower kind in
            if decide (kind = ExactMatch) then inl (exactTTLRule base (Name_Normalize name))
            else if decide (kind = PrefixMatch) then inl (prefixTTLRule base (Name_Normalize name))
            else if decide (kind = SuffixMatch) then inl (suffixTTLRule base (Name_Normalize name))
            else if decide (kind = SubstringMatch) then inl (substringTTLRule base (Name_Normalize name))
            else if decide (kind = RegexMatch) then
              match regexp_Compile name with
              | None => inr ("invalid regex pattern in a ttl rule: " +:+ name)
              | Some p => inl (regexTTLRule base p)
              end
            else inr "ttl rule supports only exact, prefix, suffix, substring, and regex name matching"%string
        | _ => inr "many few arguments for a ttl rule"%string
        end
    end.

(** ** EDNS0 options

    A rule comes with the code it adds to the supported ones. *)

Definition newEdns0LocalRule (mode : string) (action : ednsAction) (code data : string) : parsed (RewriteRule * list Z) :=
  parsed_bind (ParseUint0 16 code) (fun c =>
    parsed_bind (if HasPrefix data "0x" then DecodeString (sdrop 2 data) else inl data) (fun decoded =>
      inl (edns0LocalRule mode action c decoded, [c]))).

Definition newEdns0VariableRule (mode : string) (action : ednsAction) (code variable : string) : parsed (RewriteRule * list Z) :=
  parsed_bind (ParseUint0 16 code) (fun c =>
    if isValidVariable variable then inl (edns0VariableRule mode action c variable, [c])
    else inr ("unsupported variable name " +:+ go_quote variable)).

Definition newEdns0SubnetRule (mode : string) (action : ednsAction) (v4BitMaskLen v6BitMaskLen : string) : parsed (RewriteRule * list Z) :=
  parsed_bind (ParseUint0 16 v4BitMaskLen) (fun v4Len =>
    if decide (32 < v4Len)%Z then inr ("invalid IPv4 bit mask length " +:+ Itoa v4Len)
    else
      parsed_bind (ParseUint0 16 v6BitMaskLen) (fun v6Len =>
        if decide (128 < v6Len)%Z then inr ("invalid IPv6 bit mask length " +:+ Itoa v6Len)
        else inl (edns0SubnetRule mode (u8 v4Len) (u8 v6Len) action, []))).

Definition edns0_action (s : string) : option ednsAction :=
  if decide (s = "append") then Some Append
  else if decide (s = "replace") then Some Replace
  else if decide (s = "set") then Some Set_
  else None.

Definition newEdns0Rule (mode : string) (args : list string) : parsed (RewriteRule * list Z) :=
  match args with
  | [] | [_] => inr "too few arguments for an EDNS0 rule"%string
  | kind :: act :: more =>
      let ruleType := ToLower kind in
      match edns0_action (ToLower act) with
      | None => inr ("invalid action: " +:+ go_quote (ToLower act))
      | Some action =>
          if decide (ruleType = "local") then
            match more with
            | [code; data] =>
                if (HasPrefix data "{" && HasSuffix data "}")%bool then newEdns0VariableRule mode action code data
                else newEdns0LocalRule mode action code data
            | _ => inr "EDNS0 local rules require exactly three args"%string
            end
          else if decide (ruleType = "nsid") then
            match more with
            | [] => inl (edns0NsidRule mode action, [])
            | _ => inr "EDNS0 NSID rules do not accept args"%string
            end
          else if decide (ruleType = "subnet") then
            match more with
            | [v4; v6] => newEdns0SubnetRule mode action v4 v6
            | _ => inr "EDNS0 subnet rules require exactly three args"%string
            end
          else inr ("invalid rule type " +:+ go_quote ruleType)
      end
  end.

(** ** A rule *)

(** The rule of type [ruleType] with [args] behind the type; [first] is the
    first argument of the line. *)
Definition newRule_of (first mode ruleType : string) (args : list string) : option (parsed (RewriteRule * list Z)) :=
  let plain (m : parsed RewriteRule) : parsed (RewriteRule * list Z) := parsed_bind m (fun rule => inl (rule, [])) in
  if decide (ruleType = "answer") then Some (inr "response rewrites must begin with a name rule"%string)
  else if decide (ruleType = "name") then plain <$> newNameRule mode args
  else if decide (ruleType = "class") then
    Some match args with
         | [a; b] => plain (newClassRule mode a b)
         | _ => inr (ruleType +:+ " rules must have exactly two arguments")
         end
  else if decide (ruleType = "type") then
    Some match args with
         | [a; b] => plain (newTypeRule mode a b)
         | _ => inr (ruleType +:+ " rules must have exactly two arguments")
         end
  else if decide (ruleType = "edns0") then Some (newEdns0Rule mode args)
  else if decide (ruleType = "ttl") then Some (plain (newTTLRule mode args))
  else Some (inr ("invalid rule type " +:+ go_quote first)).

Definition newRule (args : list string) : option (parsed (RewriteRule * list Z)) :=
  match args with
  | [] => Some (inr "no rule type specified for rewrite"%string)
  | first :: more =>
      let arg0 := ToLower first in
      if decide (arg0 = ModeContinue) then
        match more with
        | [] => Some (inr "continue rule must begin with a rule type"%string)
        | t :: args => newRule_of first ModeContinue (ToLower t) args
        end
      else if decide (arg0 = ModeStop) then
        match more with
        | [] => Some (inr "stop rule must begin with a rule type"%string)
        | t :: args => newRule_of first ModeStop (ToLower t) args
        end
      else newRule_of first ModeStop arg0 more
  end.
End rules.
