(* ===== verification/Concurrency.v ===== *)
(** * Concurrent helpers

    plugin/pkg/up (probing a target until it is healthy) and
    plugin/pkg/singleflight (one execution per key at a time).  What happens
    under a lock is one step; the steps of the goroutines interleave freely. *)

From S2P Require Import Prelude.

(** ** up: a probe *)

(** The constants of [inprogress]. *)
Inductive Inprogress := idle | active | stop.

#[export] Instance Inprogress_eq_dec : EqDecision Inprogress.
Proof. solve_decision. Defined.

(** Where the goroutine that [Do] starts is: before the call of [f], asleep
    after a failed call, after a successful one. *)
Inductive Goroutine := Calling | Sleeping | Finishing.

Record Probe := mkProbe { inprogress : Inprogress; interval : Z; goroutines : list Goroutine }.

Definition Probe_New : Probe := mkProbe idle 0 [].

Definition Probe_Do (p : Probe) : Probe :=
  if decide (inprogress p <> idle) then p else mkProbe active (interval p) (goroutines p ++ [Calling]).
Definition Probe_Stop (p : Probe) : Probe := mkProbe stop (interval p) (goroutines p).
Definition Probe_Start (n : Z) (p : Probe) : Probe := mkProbe (inprogress p) n (goroutines p).

(** The next step of goroutine [i]; [ok] is what [f] returns if it is called. *)
Definition probe_turn (i : nat) (ok : bool) (p : Probe) : Probe :=
  let at_ g := mkProbe (inprogress p) (interval p) (<[i := g]> (goroutines p)) in
  let gone s := mkProbe s (interval p) (delete i (goroutines p)) in
  match goroutines p !! i with
  | None => p
  | Some Calling => if ok then at_ Finishing else at_ Sleeping
  | Some Sleeping => if decide (inprogress p = stop) then gone stop else at_ Calling
  | Some Finishing => gone idle
  end.

Inductive ProbeEvent := EvDo | EvStop | EvStart (n : Z) | EvTurn (i : nat) (ok : bool).

Definition probe_step (e : ProbeEvent) (p : Probe) : Probe :=
  match e with
  | EvDo => Probe_Do p
  | EvStop => Probe_Stop p
  | EvStart n => Probe_Start n p
  | EvTurn i ok => probe_turn i ok p
  end.

Definition probe_run (es : list ProbeEvent) (p : Probe) : Probe := fold_left (fun p e => probe_step e p) es p.

(** A goroutine runs only while the probe is not idle, and there is at most
    one. *)
Definition probe_ok (p : Probe) : Prop :=
  (length (goroutines p) <= 1)%nat /\ (inprogress p = idle -> goroutines p = []).

Lemma probe_step_ok e p : probe_ok p -> probe_ok (probe_step e p).
Proof.
  intros [Hl Hi]. destruct e as [| | |i ok]; simpl.
  - unfold Probe_Do. case_decide as Hp; [by split|]. assert (inprogress p = idle) as E by (by destruct (inprogress p)).
    rewrite (Hi E). by split.
  - by split.
  - by split.
  - unfold probe_turn. destruct (goroutines p) as [|g [|]] eqn:Eg; [|destruct i as [|i]|simpl in Hl; lia].
    + rewrite lookup_nil. rewrite <- Eg in *. by split.
    + simpl. assert (inprogress p <> idle) as Hne by (intros E; by apply Hi in E).
      destruct g; [destruct ok|case_decide|]; split; simpl; (lia || done).
    + simpl. unfold probe_ok. rewrite Eg. by split.
Qed.

Lemma probe_new_ok : probe_ok Probe_New.
Proof. split; [simpl; lia|done]. Qed.

Lemma probe_run_ok es p : probe_ok p -> probe_ok (probe_run es p).
Proof. revert p. induction es as [|e es IH]; intros p Hp; simpl; [done|]. by apply IH, probe_step_ok. Qed.

(** The steps a goroutine has left when the target is healthy. *)
Definition turns_left (p : Probe) : nat :=
  match goroutines p with
  | [] => 0
  | Finishing :: _ => 1
  | Calling :: _ => 2
  | Sleeping :: _ => 3
  end.

(** The events of a run in which the target is healthy. *)
Definition healthy (e : ProbeEvent) : Prop := match e with EvTurn i ok => ok = true | EvDo => False | _ => True end.
Definition is_turn (e : ProbeEvent) : Prop := match e with EvTurn 0 _ => True | _ => False end.

#[export] Instance is_turn_dec e : Decision (is_turn e).
Proof. destruct e as [| | |[|i]]; apply _. Defined.

Lemma probe_step_progress e p :
  probe_ok p -> healthy e -> (turns_left (probe_step e p) <= turns_left p - (if decide (is_turn e) then 1 else 0))%nat.
Proof.
  intros [Hl _] He. destruct e as [| | |i ok]; simpl in *; [done|unfold turns_left; simpl; lia..|]. subst ok.
  unfold probe_turn, turns_left. destruct (goroutines p) as [|g [|]] eqn:Eg; [|destruct i as [|i]|simpl in Hl; lia].
  - rewrite lookup_nil, Eg. lia.
  - rewrite (decide_True (P := is_turn (EvTurn 0 true))) by exact I. destruct g; simpl; [lia|case_decide; simpl; lia|lia].
  - simpl. rewrite Eg. lia.
Qed.

Lemma probe_run_progress es p :
  probe_ok p -> Forall healthy es -> (turns_left (probe_run es p) <= turns_left p - length (filter is_turn es))%nat.
Proof.
  intros Hp He. revert p Hp. induction He as [|e es He _ IH]; intros p Hp; simpl; [lia|].
  pose proof (probe_step_progress e p Hp He). pose proof (IH _ (probe_step_ok e p Hp)).
  rewrite filter_cons. destruct (decide (is_turn e)); simpl; lia.
Qed.

(** ** Theorems on probes *)

(** Whatever sequence of calls and goroutine steps, there is never more than
    one probe in flight, and none while the state is idle. *)
Theorem probe_single (es : list ProbeEvent) :
  let p := probe_run es Probe_New in
  (length (goroutines p) <= 1)%nat /\ (inprogress p = idle -> goroutines p = []).
Proof. apply (probe_run_ok es Probe_New), probe_new_ok. Qed.

(** A probe ends once its target is healthy: from every state that can be
    reached, however stops and starts interleave, three turns of the goroutine
    with a healthy target and no new probe leave no probe in flight. *)
Theorem probe_ends (es es' : list ProbeEvent) :
  Forall healthy es' -> (3 <= length (filter is_turn es'))%nat ->
  goroutines (probe_run es' (probe_run es Probe_New)) = [].
Proof.
  intros He Hl. set (p := probe_run es Probe_New).
  assert (probe_ok p) as Hp by apply probe_run_ok, probe_new_ok.
  pose proof (probe_run_progress es' p Hp He) as Hlt. assert (turns_left p <= 3)%nat as H3.
  { unfold turns_left. destruct (goroutines p) as [|[] ?]; lia. }
  unfold turns_left in Hlt at 1. destruct (goroutines (probe_run es' p)) as [|[] ?]; [done|lia..].
Qed.

Lemma probe_ends_witness :
  goroutines (probe_run [EvTurn 0 true; EvStart 5; EvTurn 0 true; EvTurn 0 true]
    (probe_run [EvDo; EvTurn 0 false; EvDo] Probe_New)) = [].
Proof. apply probe_ends; [by repeat constructor|vm_compute; lia]. Defined.

(** ** singleflight *)

(** The value and the error of a finished call. *)
Definition Outcome : Type := string * option string.

(** A goroutine in [Do]: it waits for a call, runs the function for one, has
    yet to remove one from the map, or has returned. *)
Inductive Caller :=
  | Waiting (key : Z) (c : nat)
  | Executing (key : Z) (c : nat)
  | Deleting (key : Z) (c : nat)
  | Returned (o : Outcome).

(** [calls] are the call structs that have been allocated, each with its
    outcome once its wait group is done; [inflight] is the map [m]. *)
Record SFGroup := mkSFGroup { inflight : gmap Z nat; calls : gmap nat (option Outcome); callers : gmap nat Caller }.

Definition SFGroup_zero : SFGroup := mkSFGroup ∅ ∅ ∅.

(** The steps of [Do] in goroutine [t]: up to the unlocking of the mutex, the
    end of the function, the removal from the map, the end of the waiting. *)
Inductive sf_step : SFGroup -> SFGroup -> Prop :=
  | sf_join g t key c :
      callers g !! t = None -> inflight g !! key = Some c ->
      sf_step g (mkSFGroup (inflight g) (calls g) (<[t := Waiting key c]> (callers g)))
  | sf_start g t key c :
      callers g !! t = None -> inflight g !! key = None -> calls g !! c = None ->
      sf_step g (mkSFGroup (<[key := c]> (inflight g)) (<[c := None]> (calls g)) (<[t := Executing key c]> (callers g)))
  | sf_done g t key c o :
      callers g !! t = Some (Executing key c) ->
      sf_step g (mkSFGroup (inflight g) (<[c := Some o]> (calls g)) (<[t := Deleting key c]> (callers g)))
  | sf_delete g t key c o :
      callers g !! t = Some (Deleting key c) -> calls g !! c = Some (Some o) ->
      sf_step g (mkSFGroup (delete key (inflight g)) (calls g) (<[t := Returned o]> (callers g)))
  | sf_wake g t key c o :
      callers g !! t = Some (Waiting key c) -> calls g !! c = Some (Some o) ->
      sf_step g (mkSFGroup (inflight g) (calls g) (<[t := Returned o]> (callers g))).

(** Goroutine [t] is responsible for call [c] of [key]. *)
Definition owner (g : SFGroup) (t : nat) (key : Z) (c : nat) : Prop :=
  callers g !! t = Some (Executing key c) \/ callers g !! t = Some (Deleting key c).

(** Goroutine [t] is in [Do] for call [c] of [key]. *)
Definition involved (g : SFGroup) (t : nat) (key : Z) (c : nat) : Prop :=
  callers g !! t = Some (Waiting key c) \/ owner g t key c.

(** The map holds exactly the calls that have an owner, each has one owner and
    one key, and a call is done exactly when nobody executes it. *)
Record sf_ok (g : SFGroup) : Prop := {
  sf_owned key c : inflight g !! key = Some c -> exists t, owner g t key c;
  sf_entry t key c : owner g t key c -> inflight g !! key = Some c;
  sf_unique t t' key key' c : owner g t key c -> owner g t' key' c -> t = t';
  sf_key t t' key key' c : involved g t key c -> involved g t' key' c -> key = key';
  sf_known t key c : involved g t key c -> is_Some (calls g !! c);
  sf_pending c : calls g !! c = Some None -> exists t key, callers g !! t = Some (Executing key c);
  sf_running t key c : callers g !! t = Some (Executing key c) -> calls g !! c = Some None;
  sf_finished t key c : callers g !! t = Some (Deleting key c) -> exists o, calls g !! c = Some (Some o)
}.

Lemma sf_zero_ok : sf_ok SFGroup_zero.
Proof.
  constructor; unfold involved, owner; simpl; intros *; rewrite ?lookup_empty; try done; intros; exfalso; intuition discriminate.
Qed.

(** What the callers of a group are after one of them has moved on. *)
Lemma owner_moved g ifl cs t0 x t key c :
  owner (mkSFGroup ifl cs (<[t0 := x]> (callers g))) t key c <->
  (t = t0 /\ (x = Executing key c \/ x = Deleting key c)) \/ (t <> t0 /\ owner g t key c).
Proof.
  unfold owner. simpl. destruct (decide (t = t0)) as [->|Hne].
  - rewrite lookup_insert_eq. intuition congruence.
  - rewrite lookup_insert_ne by done. intuition congruence.
Qed.

Lemma involved_moved g ifl cs t0 x t key c :
  involved (mkSFGroup ifl cs (<[t0 := x]> (callers g))) t key c <->
  (t = t0 /\ (x = Waiting key c \/ x = Executing key c \/ x = Deleting key c)) \/ (t <> t0 /\ involved g t key c).
Proof.
  unfold involved. rewrite owner_moved. simpl. destruct (decide (t = t0)) as [->|Hne].
  - rewrite lookup_insert_eq. intuition congruence.
  - rewrite lookup_insert_ne by done. intuition congruence.
Qed.

(** The state of a goroutine after a step: it has moved, or is as before. *)
Ltac moved H :=
  first [apply owner_moved in H | apply involved_moved in H | apply lookup_insert_Some in H];
  destruct H as [[? ?]|[? H]]; subst.

Lemma sf_join_ok g t key c :
  sf_ok g -> callers g !! t = None -> inflight g !! key = Some c ->
  sf_ok (mkSFGroup (inflight g) (calls g) (<[t := Waiting key c]> (callers g))).
Proof.
  intros Hg Ht Hc. destruct (sf_owned g Hg key c Hc) as [t0 Ho].
  assert (t0 <> t) as Hne by (intros ->; destruct Ho; congruence).
  assert (forall t' key' c', involved (mkSFGroup (inflight g) (calls g) (<[t := Waiting key c]> (callers g))) t' key' c' ->
    (key' = key /\ c' = c) \/ involved g t' key' c') as Hinv.
  { intros t' key' c' Hi. moved Hi; [|by right]. left. intuition congruence. }
  constructor; simpl.
  - intros k d Hk. destruct (sf_owned g Hg k d Hk) as [t1 H1]. exists t1. apply owner_moved. right. split; [|done].
    intros ->. destruct H1; congruence.
  - intros t1 k d H1. moved H1; [intuition congruence|]. by apply (sf_entry g Hg t1).
  - intros t1 t2 k k' d H1 H2. moved H1; [intuition congruence|]. moved H2; [intuition congruence|]. by eapply (sf_unique g Hg).
  - intros t1 t2 k k' d [[-> ->]|H1]%Hinv [[-> E]|H2]%Hinv; [done| |subst d|by eapply (sf_key g Hg)].
    + eapply (sf_key g Hg); [by right|exact H2].
    + eapply (sf_key g Hg); [exact H1|by right].
  - intros t1 k d [[-> ->]|H1]%Hinv; [eapply (sf_known g Hg); by right|by eapply (sf_known g Hg)].
  - intros d Hd. destruct (sf_pending g Hg d Hd) as (t1 & k & H1). exists t1, k. apply lookup_insert_Some. right. split; congruence.
  - intros t1 k d H1. moved H1; [done|]. by eapply (sf_running g Hg).
  - intros t1 k d H1. moved H1; [done|]. by eapply (sf_finished g Hg).
Qed.

Lemma sf_start_ok g t key c :
  sf_ok g -> callers g !! t = None -> inflight g !! key = None -> calls g !! c = None ->
  sf_ok (mkSFGroup (<[key := c]> (inflight g)) (<[c := None]> (calls g)) (<[t := Executing key c]> (callers g))).
Proof.
  intros Hg Ht Hk Hc.
  assert (forall t' key', ~ involved g t' key' c) as Hfresh.
  { intros t' key' Hi. destruct (sf_known g Hg _ _ _ Hi). congruence. }
  constructor; simpl.
  - intros k d [[<- <-]|[Hne H1]]%lookup_insert_Some; [exists t; apply owner_moved; by left; split; [|left]|].
    destruct (sf_owned g Hg k d H1) as [t1 H2]. exists t1. apply owner_moved. right. split; [|done].
    intros ->. destruct H2; congruence.
  - intros t1 k d H1. moved H1.
    + assert (k = key /\ d = c) as [-> ->] by intuition congruence. by rewrite lookup_insert_eq.
    + apply (sf_entry g Hg) in H1. rewrite lookup_insert_ne; [done|]. congruence.
  - intros t1 t2 k k' d H1 H2. moved H1; moved H2; [done| | |by eapply (sf_unique g Hg)].
    + assert (d = c) as -> by intuition congruence. destruct (Hfresh t2 k'). by right.
    + assert (d = c) as -> by intuition congruence. destruct (Hfresh t1 k). by right.
  - intros t1 t2 k k' d H1 H2. moved H1; moved H2; [intuition congruence| | |by eapply (sf_key g Hg)].
    + assert (d = c) as -> by intuition congruence. by destruct (Hfresh t2 k').
    + assert (d = c) as -> by intuition congruence. by destruct (Hfresh t1 k).
  - intros t1 k d H1. moved H1.
    + assert (d = c) as -> by intuition congruence. by rewrite lookup_insert_eq.
    + rewrite lookup_insert_ne; [by eapply (sf_known g Hg)|]. intros ->. by apply (Hfresh t1 k).
  - intros d [[<- _]|[Hne H1]]%lookup_insert_Some; [exists t, key; by rewrite lookup_insert_eq|].
    destruct (sf_pending g Hg d H1) as (t1 & k & H2). exists t1, k. rewrite lookup_insert_ne; [done|]. congruence.
  - intros t1 k d H1. moved H1; [simplify_eq; by rewrite lookup_insert_eq|].
    rewrite lookup_insert_ne; [by eapply (sf_running g Hg)|]. intros ->. apply (Hfresh t1 k). right. by left.
  - intros t1 k d H1. moved H1; [done|]. destruct (sf_finished g Hg _ _ _ H1) as [o E]. exists o.
    rewrite lookup_insert_ne; [done|]. congruence.
Qed.

Lemma sf_done_ok g t key c o :
  sf_ok g -> callers g !! t = Some (Executing key c) ->
  sf_ok (mkSFGroup (inflight g) (<[c := Some o]> (calls g)) (<[t := Deleting key c]> (callers g))).
Proof.
  intros Hg Ht. assert (owner g t key c) as Hown by (by left).
  assert (forall t' key', callers g !! t' = Some (Executing key' c) -> t' = t) as Honly.
  { intros t' key' H1. eapply (sf_unique g Hg); [by left|exact Hown]. }
  set (g' := mkSFGroup _ _ _).
  assert (forall t1 k d, owner g' t1 k d <-> owner g t1 k d) as Ho.
  { intros t1 k d. unfold g'. rewrite owner_moved. split.
    - intros [[-> E]|[_ E]]; [|done]. assert (k = key /\ d = c) as [-> ->] by intuition congruence. done.
    - intros E. destruct (decide (t1 = t)) as [->|]; [|by right]. left. split; [done|].
      destruct E as [E|E]; [|congruence]. right. congruence. }
  assert (forall t1 k d, involved g' t1 k d <-> involved g t1 k d) as Hi.
  { intros t1 k d. unfold involved. rewrite Ho. unfold g'. simpl. destruct (decide (t1 = t)) as [->|].
    - rewrite lookup_insert_eq, Ht. intuition congruence.
    - by rewrite lookup_insert_ne. }
  constructor.
  - intros k d H1. destruct (sf_owned g Hg k d H1) as [t1 H2]. exists t1. by apply Ho.
  - intros t1 k d H1%Ho. by apply (sf_entry g Hg) in H1.
  - intros t1 t2 k k' d H1%Ho H2%Ho. by eapply (sf_unique g Hg).
  - intros t1 t2 k k' d H1%Hi H2%Hi. by eapply (sf_key g Hg).
  - intros t1 k d H1%Hi. simpl. destruct (decide (d = c)) as [->|]; [by rewrite lookup_insert_eq|].
    rewrite lookup_insert_ne by done. by eapply (sf_known g Hg).
  - simpl. intros d [[_ E]|[Hne H1]]%lookup_insert_Some; [done|]. destruct (sf_pending g Hg d H1) as (t1 & k & H2).
    exists t1, k. rewrite lookup_insert_ne; [done|]. congruence.
  - simpl. intros t1 k d H1. moved H1; [done|]. rewrite lookup_insert_ne; [by eapply (sf_running g Hg)|].
    intros ->. by apply Honly in H1.
  - simpl. intros t1 k d H1. destruct (decide (d = c)) as [->|]; [exists o; by rewrite lookup_insert_eq|].
    rewrite lookup_insert_ne by done. moved H1; [congruence|]. by eapply (sf_finished g Hg).
Qed.

(** A goroutine that was waiting, or was the owner of [key], returns. *)
Lemma sf_delete_ok g t key c o :
  sf_ok g -> callers g !! t = Some (Deleting key c) ->
  sf_ok (mkSFGroup (delete key (inflight g)) (calls g) (<[t := Returned o]> (callers g))).
Proof.
  intros Hg Ht. assert (owner g t key c) as Hown by (by right).
  pose proof (sf_entry g Hg _ _ _ Hown) as Hkey. constructor; simpl.
  - intros k d [Hne H1]%lookup_delete_Some. destruct (sf_owned g Hg k d H1) as [t1 H2]. exists t1. apply owner_moved.
    right. split; [|done]. intros ->. destruct H2; congruence.
  - intros t1 k d H1. moved H1; [intuition discriminate|]. pose proof (sf_entry g Hg _ _ _ H1) as E.
    rewrite lookup_delete_ne; [done|]. intros <-. assert (d = c) as -> by congruence.
    apply H. eapply (sf_unique g Hg); [exact H1|exact Hown].
  - intros t1 t2 k k' d H1 H2. moved H1; [intuition discriminate|]. moved H2; [intuition discriminate|]. by eapply (sf_unique g Hg).
  - intros t1 t2 k k' d H1 H2. moved H1; [intuition discriminate|]. moved H2; [intuition discriminate|]. by eapply (sf_key g Hg).
  - intros t1 k d H1. moved H1; [intuition discriminate|]. by eapply (sf_known g Hg).
  - intros d H1. destruct (sf_pending g Hg d H1) as (t1 & k & H2). exists t1, k. rewrite lookup_insert_ne; [done|]. congruence.
  - intros t1 k d H1. moved H1; [discriminate|]. by eapply (sf_running g Hg).
  - intros t1 k d H1. moved H1; [discriminate|]. by eapply (sf_finished g Hg).
Qed.

Lemma sf_wake_ok g t key c o :
  sf_ok g -> callers g !! t = Some (Waiting key c) ->
  sf_ok (mkSFGroup (inflight g) (calls g) (<[t := Returned o]> (callers g))).
Proof.
  intros Hg Ht. constructor; simpl.
  - intros k d H1. destruct (sf_owned g Hg k d H1) as [t1 H2]. exists t1. apply owner_moved.
    right. split; [|done]. intros ->. destruct H2; congruence.
  - intros t1 k d H1. moved H1; [intuition discriminate|]. by eapply (sf_entry g Hg).
  - intros t1 t2 k k' d H1 H2. moved H1; [intuition discriminate|]. moved H2; [intuition discriminate|]. by eapply (sf_unique g Hg).
  - intros t1 t2 k k' d H1 H2. moved H1; [intuition discriminate|]. moved H2; [intuition discriminate|]. by eapply (sf_key g Hg).
  - intros t1 k d H1. moved H1; [intuition discriminate|]. by eapply (sf_known g Hg).
  - intros d H1. destruct (sf_pending g Hg d H1) as (t1 & k & H2). exists t1, k. rewrite lookup_insert_ne; [done|]. congruence.
  - intros t1 k d H1. moved H1; [discriminate|]. by eapply (sf_running g Hg).
  - intros t1 k d H1. moved H1; [discriminate|]. by eapply (sf_finished g Hg).
Qed.

Lemma sf_step_ok g g' : sf_ok g -> sf_step g g' -> sf_ok g'.
Proof.
  intros Hg Hs. destruct Hs; [by apply sf_join_ok|by apply sf_start_ok|by apply sf_done_ok|by eapply sf_delete_ok|by eapply sf_wake_ok].
Qed.

Lemma sf_reach_ok g : rtc sf_step SFGroup_zero g -> sf_ok g.
Proof.
  intros Hr. pose proof sf_zero_ok as H0. induction Hr as [|x y z Hxy _ IH]; [done|]. apply IH. by eapply sf_step_ok.
Qed.


(** Two goroutines for one key: the second waits for the first. *)
Definition sf_example : SFGroup :=
  mkSFGroup (<[7%Z := 0%nat]> ∅) (<[0%nat := None]> ∅) (<[1%nat := Waiting 7 0]> (<[0%nat := Executing 7 0]> ∅)).

