(* ===== verification/PkgTls.v ===== *)
(** * TLS configurations

    plugin/pkg/tls: a configuration from the names of the files with the
    certificate, the key and the certificates of the authorities. *)

From S2P Require Import Prelude.
From S2P Require Import GoStd.
From S2P Require Import GoText.

(** A configuration by the files its parts come from, and the name of the
    server it is for. *)
Record TlsConfig := mkTlsConfig { tlsCert : option (string * string); tlsRoots : option string; tlsServer : string }.

Section tls.
(** [tls.LoadX509KeyPair] and [os.ReadFile], and whether there is a
    certificate in a file. *)
Context (LoadX509KeyPair : string -> string -> option string) (ReadFile : string -> string + string) (has_certs : string -> bool).

(** When the file has no certificate the error that is printed is nil. *)
Definition loadRoots (caPath : string) : (option string) + string :=
  if decide (caPath = EmptyString) then inl None
  else
    match ReadFile (Clean caPath) with
    | inr err => inr ("error reading " +:+ caPath +:+ ": " +:+ err)
    | inl pem => if has_certs pem then inl (Some caPath) else inr "could not read root certs: %!s(<nil>)"%string
    end.

Definition NewTLSConfig (certPath keyPath caPath : string) : TlsConfig + string :=
  match LoadX509KeyPair certPath keyPath with
  | Some err => inr ("could not load TLS cert: " +:+ err)
  | None => match loadRoots caPath with inr err => inr err | inl roots => inl (mkTlsConfig (Some (certPath, keyPath)) roots EmptyString) end
  end.

Definition NewTLSClientConfig (caPath : string) : TlsConfig + string :=
  match loadRoots caPath with inr err => inr err | inl roots => inl (mkTlsConfig None roots EmptyString) end.

Definition NewTLSConfigFromArgs (args : list string) : TlsConfig + string :=
  match args with
  | [] => NewTLSClientConfig EmptyString
  | [ca] => NewTLSClientConfig ca
  | [cert; key] => NewTLSConfig cert key EmptyString
  | [cert; key; ca] => NewTLSConfig cert key ca
  | _ => inr ("maximum of three arguments allowed for TLS config, found " +:+ Itoa (Z.of_nat (length args)))
  end.
End tls.
