(* ===== verification/Forward.v ===== *)
(** * The forward plugin

    plugin/forward: the policies that order the upstreams (policy.go), the
    cache of connections of an upstream (persistent.go, type.go), the exchange
    with it (connect.go), its health (proxy.go, health.go) and the handler
    (forward.go).  The network, the clock and the random numbers are
    parameters; tracing, metrics, dnstap and the label of the metadata are left
    out. *)

From S2P Require Import Prelude.
From S2P Require Import GoLoop.
From S2P Require Import GoStd.
From S2P Require Import GoText.
From S2P Require Import GoTime.
From S2P Require Import Register.
From S2P Require Import DnsNames.
From S2P Require Import DnsMsg.
From S2P Require Import Request.
From S2P Require Import Plugin.
From S2P Require Import Concurrency.
From S2P Require Import PkgTls.

Definition Millisecond : Z := 1000000.
Definition defaultExpire : Z := 10 * Second.
Definition minDialTimeout : Z := 1 * Second.
Definition maxDialTimeout : Z := 30 * Second.
Definition maxTimeout : Z := 2 * Second.
Definition readTimeout : Z := 2 * Second.
Definition defaultTimeout : Z := 5 * Second.
Definition fw_hcInterval : Z := 500 * Millisecond.
Definition cumulativeAvgWeight : Z := 4.

(** ** Policies *)

(** The proxies are shared: the policies order their places in the list of the
    plugin. *)
Inductive FwPolicy := fw_random | fw_roundRobin (robin : Z) | fw_sequential.

Section policy.
(** The random numbers: [Int] and [Perm]. *)
Context {W : Type} (rn_Int : st W Z) (rn_Perm : nat -> st W (list nat)).

Definition random_List (p : list nat) : st W (list nat) :=
  match p with
  | [_] => mret p
  | [a; b] => i ← rn_Int; mret (if decide (i `rem` 2 = 0)%Z then [b; a] else p)
  | _ => perms ← rn_Perm (length p); of_option (mapM (fun i => p !! i) perms)
  end.

(** An empty pool divides by zero. *)
Definition roundRobin_List (robin : Z) (p : list nat) : option (Z * list nat) :=
  let robin := u32 (robin + 1) in
  if decide (u32 (Z.of_nat (length p)) = 0)%Z then None
  else
    let i := Z.to_nat (robin mod u32 (Z.of_nat (length p))) in
    first ← p !! i;
    Some (robin, first :: take i p ++ drop (S i) p).

Definition Policy_List (pol : FwPolicy) (p : list nat) : st W (FwPolicy * list nat) :=
  match pol with
  | fw_random => l ← random_List p; mret (pol, l)
  | fw_roundRobin robin => '(robin, l) ← of_option (roundRobin_List robin p); mret (fw_roundRobin robin, l)
  | fw_sequential => mret (pol, p)
  end.
End policy.

(** ** The cache of connections *)

Inductive transportType := typeUDP | typeTCP | typeTLS.

#[export] Instance transportType_eq_dec : EqDecision transportType.
Proof. solve_decision. Defined.

Definition stringToTransportType (s : string) : transportType :=
  if decide (s = "udp") then typeUDP
  else if decide (s = "tcp") then typeTCP
  else if decide (s = "tcp-tls") then typeTLS
  else typeUDP.

(** [sort.Search]: the smallest index in [i, j) at which [f] holds. *)
Fixpoint sort_Search_go (fuel : nat) (i j : nat) (f : nat -> bool) : nat :=
  match fuel with
  | O => i
  | S fuel' =>
      if decide (i < j)%nat then
        let h := ((i + j) / 2)%nat in
        if f h then sort_Search_go fuel' i h f else sort_Search_go fuel' (S h) j f
      else i
  end.
Definition sort_Search (n : nat) (f : nat -> bool) : nat := sort_Search_go (S n) 0 n f.

Section forward.
(** A connection, and whether it is a [*net.UDPConn]. *)
Context {Conn : Type} (is_UDPConn : Conn -> bool).

Record persistConn := mkPersist { pcConn : Conn; pcUsed : Z }.

Record FwTransport := mkTransport {
  avgDialTime : Z;
  connsUDP : list persistConn;
  connsTCP : list persistConn;
  connsTLS : list persistConn;
  t_expire : Z;
  t_addr : string;
  t_tlsConfig : option TlsConfig
}.

Definition newTransport (addr : string) : FwTransport := mkTransport (maxDialTimeout `quot` 2) [] [] [] defaultExpire addr None.

Definition conns (ty : transportType) (t : FwTransport) : list persistConn :=
  match ty with typeUDP => connsUDP t | typeTCP => connsTCP t | typeTLS => connsTLS t end.
Definition set_conns (ty : transportType) (l : list persistConn) (t : FwTransport) : FwTransport :=
  match ty with
  | typeUDP => mkTransport (avgDialTime t) l (connsTCP t) (connsTLS t) (t_expire t) (t_addr t) (t_tlsConfig t)
  | typeTCP => mkTransport (avgDialTime t) (connsUDP t) l (connsTLS t) (t_expire t) (t_addr t) (t_tlsConfig t)
  | typeTLS => mkTransport (avgDialTime t) (connsUDP t) (connsTCP t) l (t_expire t) (t_addr t) (t_tlsConfig t)
  end.
Definition set_avgDialTime (d : Z) (t : FwTransport) : FwTransport :=
  mkTransport d (connsUDP t) (connsTCP t) (connsTLS t) (t_expire t) (t_addr t) (t_tlsConfig t).
Definition SetExpire (expire : Z) (t : FwTransport) : FwTransport :=
  mkTransport (avgDialTime t) (connsUDP t) (connsTCP t) (connsTLS t) expire (t_addr t) (t_tlsConfig t).
Definition t_SetTLSConfig (cfg : TlsConfig) (t : FwTransport) : FwTransport :=
  mkTransport (avgDialTime t) (connsUDP t) (connsTCP t) (connsTLS t) (t_expire t) (t_addr t) (Some cfg).

Definition transportTypeFromConn (t : FwTransport) (pc : persistConn) : transportType :=
  if is_UDPConn (pcConn pc) then typeUDP
  else match t_tlsConfig t with None => typeTCP | Some _ => typeTLS end.

(** connManager, one turn for each message on its channels: the transport, the
    connection for the one who dials, and the connections it closes. *)
Definition cm_dial (now : Z) (proto : string) (t : FwTransport) : FwTransport * option persistConn * list persistConn :=
  let ty := stringToTransportType proto in
  let stack := conns ty t in
  match last stack with
  | None => (t, None, [])
  | Some pc =>
      if decide (now - pcUsed pc < t_expire t)%Z then (set_conns ty (take (length stack - 1) stack) t, Some pc, [])
      else (set_conns ty [] t, None, stack)
  end.

Definition cm_yield (pc : persistConn) (t : FwTransport) : FwTransport :=
  let ty := transportTypeFromConn t pc in set_conns ty (conns ty t ++ [pc]) t.

(** One kind of connections. *)
Definition cleanup_stack (staleTime : Z) (all : bool) (stack : list persistConn) : list persistConn * list persistConn :=
  match stack with
  | [] => ([], [])
  | first :: _ =>
      if all then ([], stack)
      else if decide (staleTime < pcUsed first)%Z then (stack, [])
      else
        let good := sort_Search (length stack)
          (fun i => match stack !! i with Some pc => bool_decide (staleTime < pcUsed pc)%Z | None => false end) in
        (drop good stack, take good stack)
  end.

Definition cleanup (now : Z) (all : bool) (t : FwTransport) : FwTransport * list persistConn :=
  let staleTime := (now - t_expire t)%Z in
  let '(u, cu) := cleanup_stack staleTime all (connsUDP t) in
  let '(c, cc) := cleanup_stack staleTime all (connsTCP t) in
  let '(s, cs) := cleanup_stack staleTime all (connsTLS t) in
  (mkTransport (avgDialTime t) u c s (t_expire t) (t_addr t) (t_tlsConfig t), cu ++ cc ++ cs).

(** *** The time to wait for a connection *)

Definition limitTimeout (currentAvg minValue maxValue : Z) : Z :=
  if decide (currentAvg < minValue)%Z then minValue
  else if decide (currentAvg < maxValue `quot` 2)%Z then (2 * currentAvg)%Z
  else maxValue.

Definition averageTimeout (currentAvg observedDuration weight : Z) : Z :=
  i64 (currentAvg + (observedDuration - currentAvg) `quot` weight).

Definition dialTimeout (t : FwTransport) : Z := limitTimeout (avgDialTime t) minDialTimeout maxDialTimeout.
Definition updateDialTimeout (newDialTime : Z) (t : FwTransport) : FwTransport :=
  set_avgDialTime (averageTimeout (avgDialTime t) newDialTime cumulativeAvgWeight) t.

(** ** Upstreams and their health *)

Record dnsHc := mkHc { hcNet : string; hcTls : option TlsConfig; hcRecursionDesired : bool; hcDomain : string }.

Record FwProxy := mkProxy { fails : Z; p_addr : string; transport : FwTransport; probe : Probe; health : option dnsHc }.

Definition NewHealthChecker (trans : string) (recursionDesired : bool) (domain : string) : option dnsHc :=
  if decide (trans = tDNS \/ trans = tTLS) then Some (mkHc "udp" None recursionDesired domain) else None.

Definition NewProxy (addr trans : string) : FwProxy :=
  mkProxy 0 addr (newTransport addr) Probe_New (NewHealthChecker trans true dot).

Definition set_transport (t : FwTransport) (p : FwProxy) : FwProxy := mkProxy (fails p) (p_addr p) t (probe p) (health p).
Definition set_probe (pr : Probe) (p : FwProxy) : FwProxy := mkProxy (fails p) (p_addr p) (transport p) pr (health p).

Definition Proxy_Healthcheck (p : FwProxy) : FwProxy :=
  match health p with None => p | Some _ => set_probe (Probe_Do (probe p)) p end.

Definition Down (maxfails : Z) (p : FwProxy) : bool :=
  if decide (maxfails = 0)%Z then false else bool_decide (maxfails < fails p)%Z.

(** The exchange of the health check failed or not: the count of fails. *)
Definition dnsHc_Check (ok : bool) (fails : Z) : Z := if ok then 0%Z else u32 (fails + 1).

(** What came back decides: an error with a message that looks sane is none. *)
Definition hc_send (m : option Msg) (err : option string) : option string :=
  match err, m with
  | Some e, Some m => if (mResponse m || bool_decide (mOpcode m = OpcodeQuery))%bool then None else Some e
  | _, _ => err
  end.

(** The next step of the goroutine of the probe, which checks the upstream when
    it calls the function. *)
Definition Proxy_turn (i : nat) (ok : bool) (p : FwProxy) : FwProxy :=
  mkProxy (match goroutines (probe p) !! i with Some Calling => dnsHc_Check ok (fails p) | _ => fails p end)
    (p_addr p) (transport p) (probe_turn i ok (probe p)) (health p).

Definition Proxy_start (duration : Z) (p : FwProxy) : FwProxy := set_probe (Probe_Start duration (probe p)) p.
Definition Proxy_stop (p : FwProxy) : FwProxy := set_probe (Probe_Stop (probe p)) p.

(** ** The plugin *)

Record options := mkOptions { forceTCP : bool; preferUDP : bool; opt_hcRecursionDesired : bool; opt_hcDomain : string }.

Record Forward := mkForward {
  concurrent : Z;
  proxies : list FwProxy;
  fw_policy : FwPolicy;
  hcInterval : Z;
  from : string;
  ignored : list string;
  fw_tlsConfig : TlsConfig;
  tlsServerName : string;
  maxfails : Z;
  fw_expire : Z;
  maxConcurrent : Z;
  opts : options;
  ErrLimitExceeded : option string
}.

Definition set_concurrent n f := mkForward n (proxies f) (fw_policy f) (hcInterval f) (from f) (ignored f) (fw_tlsConfig f)
  (tlsServerName f) (maxfails f) (fw_expire f) (maxConcurrent f) (opts f) (ErrLimitExceeded f).
Definition set_proxies l f := mkForward (concurrent f) l (fw_policy f) (hcInterval f) (from f) (ignored f) (fw_tlsConfig f)
  (tlsServerName f) (maxfails f) (fw_expire f) (maxConcurrent f) (opts f) (ErrLimitExceeded f).
Definition set_policy pol f := mkForward (concurrent f) (proxies f) pol (hcInterval f) (from f) (ignored f) (fw_tlsConfig f)
  (tlsServerName f) (maxfails f) (fw_expire f) (maxConcurrent f) (opts f) (ErrLimitExceeded f).
Definition set_forceTCP (b : bool) (o : options) : options := mkOptions b (preferUDP o) (opt_hcRecursionDesired o) (opt_hcDomain o).

Definition set_mId (id : Z) (m : Msg) : Msg :=
  mkMsg id (mResponse m) (mOpcode m) (mAuthoritative m) (mTruncated m) (mRecursionDesired m) (mRecursionAvailable m)
    (mAuthenticatedData m) (mCheckingDisabled m) (mRcode m) (mCompress m) (mQuestion m) (mAnswer m) (mNs m) (mExtra m).

Definition ErrNoHealthy : string := "no healthy proxies".

(** The errors of an exchange; the end of the stream is told apart. *)
Inductive IoErr := io_EOF | io_err (err : string).
#[export] Instance IoErr_eq_dec : EqDecision IoErr.
Proof. solve_decision. Defined.
Inductive FwErr := ErrCachedClosed | OtherErr (err : string).

Definition io_string (e : IoErr) : string := match e with io_EOF => "EOF" | io_err err => err end.
Definition fw_string (e : FwErr) : string :=
  match e with ErrCachedClosed => "cached connection was closed by peer" | OtherErr err => err end.

(** The network: the clock; dialling an address with a timeout, with TLS or
    without; writing and reading a message before a deadline, reading with a
    size for UDP; closing a connection.  [yield_taken] says whether the manager
    of the connections takes one back in time.  [dns_Id] gives a new identifier
    for a message. *)
Record Network (W : Type) := mkNetwork {
  clock : W -> Z;
  DialTimeout : string -> string -> option TlsConfig -> Z -> st W (Conn + string);
  WriteMsg : Conn -> Z -> Msg -> st W (option IoErr);
  ReadMsg : Conn -> Z -> Z -> st W (option Msg * option IoErr);
  Close : Conn -> st W unit;
  yield_taken : st W bool;
  dns_Id : st W Z;
  rn_Int : st W Z;
  rn_Perm : nat -> st W (list nat)
}.
End forward.
Arguments persistConn : clear implicits.
Arguments FwTransport : clear implicits.
Arguments FwProxy : clear implicits.
Arguments Forward : clear implicits.
Arguments clock {Conn W}. Arguments DialTimeout {Conn W}. Arguments WriteMsg {Conn W}. Arguments ReadMsg {Conn W}.
Arguments Close {Conn W}. Arguments yield_taken {Conn W}. Arguments dns_Id {Conn W}. Arguments rn_Int {Conn W}.
Arguments rn_Perm {Conn W}.

Section serve.
Context `{DnsNames} `{DnsMsgs} {Conn : Type} (is_UDPConn : Conn -> bool).
(** The state of the plugin in that of the world. *)
Context {W : Type} (net : Network (Conn := Conn) W) (fw : W -> Forward Conn) (put_fw : Forward Conn -> W -> W).

Definition get_now : st W Z := fun w => Some (w, clock net w).
Definition get_fw : st W (Forward Conn) := fun w => Some (w, fw w).
Definition mod_fw (f : Forward Conn -> Forward Conn) : st W unit := fun w => Some (put_fw (f (fw w)) w, tt).
Definition get_proxy (k : nat) : st W (FwProxy Conn) := f ← get_fw; of_option (proxies f !! k).
Definition mod_proxy (k : nat) (g : FwProxy Conn -> FwProxy Conn) : st W unit := mod_fw (fun f => set_proxies (alter g k (proxies f)) f).
Definition mod_transport (k : nat) (g : FwTransport Conn -> FwTransport Conn) : st W unit :=
  mod_proxy k (fun p => set_transport (g (transport p)) p).

Fixpoint closeConns (conns : list (persistConn Conn)) : st W unit :=
  match conns with
  | [] => mret tt
  | pc :: conns' => _ ← Close net (pcConn pc); closeConns conns'
  end.

(** A connection that is cached, or a new one. *)
Definition Dial (k : nat) (proto : string) : st W ((Conn * bool) + string) :=
  p ← get_proxy k;
  let proto := match t_tlsConfig (transport p) with Some _ => "tcp-tls"%string | None => proto end in
  now ← get_now;
  let '(t, pc, closed) := cm_dial now proto (transport p) in
  _ ← mod_transport k (fun _ => t);
  _ ← closeConns closed;
  match pc with
  | Some pc => mret (inl (pcConn pc, true))
  | None =>
      reqTime ← get_now;
      p ← get_proxy k;
      let timeout := dialTimeout (transport p) in
      conn ← (if decide (proto = "tcp-tls") then DialTimeout net "tcp" (t_addr (transport p)) (t_tlsConfig (transport p)) timeout
              else DialTimeout net proto (t_addr (transport p)) None timeout);
      done ← get_now;
      _ ← mod_transport k (updateDialTimeout (done - reqTime));
      mret match conn with inl conn => inl (conn, false) | inr err => inr err end
  end.

Definition Yield (k : nat) (conn : Conn) : st W unit :=
  now ← get_now;
  taken ← yield_taken net;
  if taken : bool then mod_transport k (cm_yield is_UDPConn (mkPersist conn now)) else mret tt.

(** Reading until the reply to the message with the identifier comes, or an
    error. *)
Definition read_turn (conn : Conn) (size deadline id : Z) (_ : unit) : st W (unit + (Msg + (option Msg * IoErr))) :=
  '(ret, err) ← ReadMsg net conn size deadline;
  match err with
  | Some e => mret (inr (inr (ret, e)))
  | None =>
      ret ← of_option ret;
      mret (if decide (mId ret = id) then inr (inl ret) else inl tt)
  end.

(** Connect gives the message with the identifier the client has chosen. *)
Definition Connect (k : nat) (state : Request) (o : options) : st W (option Msg * option FwErr) :=
  let proto := if forceTCP o then "tcp"%string else if preferUDP o then "udp"%string else Proto state in
  dialled ← Dial k proto;
  match dialled with
  | inr err => mret (None, Some (OtherErr err))
  | inl (conn, cached) =>
      '(_, size) ← of_option (Size state);
      let size := if decide (u16 size < 512)%Z then 512%Z else u16 size in
      now ← get_now;
      req ← of_option (Req state);
      id ← dns_Id net;
      werr ← WriteMsg net conn (now + maxTimeout) (set_mId id req);
      match werr with
      | Some e =>
          _ ← Close net conn;
          mret (None, Some (if decide (e = io_EOF /\ cached = true) then ErrCachedClosed else OtherErr (io_string e)))
      | None =>
          now ← get_now;
          res ← until (read_turn conn size (now + readTimeout) id) (Z.to_pos (readTimeout + 1)) tt;
          match res with
          | inr (ret, e) =>
              _ ← Close net conn;
              mret (if decide (e = io_EOF /\ cached = true) then (None, Some ErrCachedClosed)
                    else (set_mId (mId req) <$> ret, Some (OtherErr (io_string e))))
          | inl ret => _ ← Yield k conn; mret (Some (set_mId (mId req) ret), None)
          end
      end
  end.

(** A connection that the upstream has closed is replaced; a truncated reply is
    asked for again over TCP when the configuration prefers UDP. *)
Definition connect_turn (k : nat) (state : Request) (o : options) : st W (options + (option Msg * option FwErr)) :=
  '(ret, err) ← Connect k state o;
  match err with
  | Some ErrCachedClosed => mret (inl o)
  | _ =>
      match ret with
      | Some m => if (mTruncated m && negb (forceTCP o) && preferUDP o)%bool then mret (inl (set_forceTCP true o)) else mret (inr (ret, err))
      | None => mret (inr (ret, err))
      end
  end.

Definition cached_conns (t : FwTransport Conn) : nat := length (connsUDP t) + length (connsTCP t) + length (connsTLS t).

(** Every turn but one takes a connection from the cache. *)
Definition connect_loop (k : nat) (state : Request) (o : options) : st W (option Msg * option FwErr) :=
  p ← get_proxy k;
  until (connect_turn k state) (Pos.of_succ_nat (cached_conns (transport p) + 2)) o.

Record Serving := mkServing { sv_i : nat; sv_fails : nat; sv_err : option FwErr }.

(** One turn of the loop over the upstreams: the next turn, or what the client
    gets and what the handler returns. *)
Definition serve_turn (state : Request) (l : list nat) (deadline : Z) (s : Serving) : st W (Serving + (list Msg * Z * option string)) :=
  now ← get_now;
  let failed := mret (inr ([], RcodeServerFailure, Some match sv_err s with Some e => fw_string e | None => ErrNoHealthy end)) in
  if decide (deadline <= now)%Z then failed
  else
    let '(i, fails) := if decide (length l <= sv_i s)%nat then (0, 0)%nat else (sv_i s, sv_fails s) in
    k ← of_option (l !! i);
    f ← get_fw;
    p ← get_proxy k;
    let down := Down (maxfails f) p in
    let fails := if down then S fails else fails in
    if (down && bool_decide (fails < length (proxies f))%nat)%bool then mret (inl (mkServing (S i) fails (sv_err s)))
    else
      k ← (if down then perm ← random_List (rn_Int net) (rn_Perm net) (seq 0 (length (proxies f))); of_option (head perm) else mret k);
      '(ret, err) ← connect_loop k state (opts f);
      match err with
      | Some e =>
          _ ← (if decide (maxfails f <> 0)%Z then mod_proxy k Proxy_Healthcheck else mret tt);
          if decide (fails < length (proxies f))%nat then mret (inl (mkServing (S i) fails (Some e)))
          else mret (inr ([], RcodeServerFailure, Some (fw_string e)))
      | None =>
          ret ← of_option ret;
          req ← of_option (Req state);
          mret (inr ([if Match state ret then ret else SetRcode zeroMsg req RcodeFormatError], RcodeSuccess, None))
      end.

Definition isAllowedDomain (f : Forward Conn) (name : string) : bool :=
  if decide (name = from f) then true else negb (existsb (fun ignore => Name_Matches ignore name) (ignored f)).

Definition fw_match (f : Forward Conn) (state : Request) : bool :=
  (Name_Matches (from f) (Name state).2 && isAllowedDomain f (Name state).2)%bool.

Definition Forward_List : st W (list nat) :=
  f ← get_fw;
  '(pol, l) ← Policy_List (rn_Int net) (rn_Perm net) (fw_policy f) (seq 0 (length (proxies f)));
  _ ← mod_fw (set_policy pol);
  mret l.

(** The loop ends when the deadline is over: a turn that does not take time
    passes over an upstream that is down, which happens at most twice the
    number of upstreams times in a row. *)
Definition serve_bound (n : nat) : positive := Z.to_pos (defaultTimeout * (2 * Z.of_nat n + 1) + Z.of_nat n + 1).

Definition forward_query (state : Request) : st W (list Msg * Z * option string) :=
  l ← Forward_List;
  now ← get_now;
  until (serve_turn state l (now + defaultTimeout)) (serve_bound (length l)) (mkServing 0 0 None).

(** The query counts while it is served; above the limit it is refused. *)
Definition forward_limited (state : Request) : st W (list Msg * Z * option string) :=
  f ← get_fw;
  if decide (0 < maxConcurrent f)%Z then
    _ ← mod_fw (fun f => set_concurrent (i64 (concurrent f + 1)) f);
    f ← get_fw;
    res ← (if decide (maxConcurrent f < concurrent f)%Z then mret ([], RcodeRefused, ErrLimitExceeded f) else forward_query state);
    _ ← mod_fw (fun f => set_concurrent (i64 (concurrent f - 1)) f);
    mret res
  else forward_query state.

Definition Forward_ServeDNS (next : option (Handler W)) : Handler W := fun ctx w r s =>
  let state := newRequest w (Some r) in
  if fw_match (fw s) state then
    '(s, (msgs, rcode, err)) ← forward_limited state s;
    Some (s, msgs, rcode, err)
  else NextOrFailure "forward" next ctx w r s.
End serve.
