(* ===== verification/ForwardTheorems.v ===== *)
(** * Upstreams of the forward plugin

    The policies order all upstreams; the cache of connections loses none,
    mixes none up and hands out none that is too old; an upstream that is down
    is being probed. *)

From S2P Require Import Prelude.
From S2P Require Import GoLoop.
From S2P Require Import GoStd.
From S2P Require Import GoText.
From S2P Require Import GoTime.
From S2P Require Import DnsNames.
From S2P Require Import DnsMsg.
From S2P Require Import Request.
From S2P Require Import TreeSpec.
From S2P Require Import Plugin.
From S2P Require Import Concurrency.
From S2P Require Import PkgTls.
From S2P Require Import Forward.

(** ** Policies *)

(** Looking a list up at a permutation of its indices permutes it. *)
Lemma mapM_default {A} (d : A) (f : nat -> option A) l k : mapM f l = Some k -> k = map (fun i => default d (f i)) l.
Proof.
  intros Hk%mapM_Some_1. induction Hk as [|i x l k Hx _ IH]; [done|]. simpl. rewrite Hx, IH. done.
Qed.

Lemma mapM_lookup_seq {A} (p : list A) : mapM (fun i => p !! i) (seq 0 (length p)) = Some p.
Proof.
  apply mapM_Some_2, Forall2_same_length_lookup. split; [apply length_seq|].
  intros i x y Hx Hy. apply lookup_seq in Hx as [-> _]. exact Hy.
Qed.

Lemma mapM_lookup_perm (p perms : list nat) :
  perms ≡ₚ seq 0 (length p) -> exists l, mapM (fun i => p !! i) perms = Some l /\ l ≡ₚ p.
Proof.
  intros Hp. assert (is_Some (mapM (fun i => p !! i) perms)) as [l El].
  { apply mapM_is_Some. rewrite Hp. apply Forall_forall. intros i Hi. apply elem_of_seq in Hi. apply lookup_lt_is_Some_2. lia. }
  exists l. split; [done|]. apply (mapM_default 0%nat) in El. pose proof (mapM_default 0%nat _ _ _ (mapM_lookup_seq p)) as Ep.
  rewrite El, Ep at 1. apply (Permutation_map (fun i => default 0%nat (p !! i))). by rewrite Hp.
Qed.

Section policies.
Context {W : Type} (rn_Int : st W Z) (rn_Perm : nat -> st W (list nat)).
Context (HPerm : forall n, wp (rn_Perm n) (fun l => l ≡ₚ seq 0 n)) (HInt : wp rn_Int (fun _ => True)).

Lemma random_List_perm p : wp (random_List rn_Int rn_Perm p) (fun l => l ≡ₚ p).
Proof using HPerm HInt.
  destruct p as [|a [|b [|c p]]]; cbn [random_List].
  - apply wp_bind. eapply wp_mono; [apply HPerm|]. intros perms Hp. destruct (mapM_lookup_perm [] perms Hp) as (l & El & Hl).
    by eapply wp_option.
  - by apply wp_ret.
  - apply wp_bind. eapply wp_mono; [apply HInt|]. intros i _. apply wp_ret. case_decide; [apply Permutation_swap|done].
  - apply wp_bind. eapply wp_mono; [apply HPerm|]. intros perms Hp. destruct (mapM_lookup_perm _ perms Hp) as (l & El & Hl).
    by eapply wp_option.
Qed.

Lemma roundRobin_List_ok robin p :
  p <> [] -> (Z.of_nat (length p) < 2 ^ 32)%Z ->
  exists x l, roundRobin_List robin p = Some (u32 (robin + 1), x :: l) /\ x :: l ≡ₚ p /\
    p !! Z.to_nat (u32 (robin + 1) mod Z.of_nat (length p)) = Some x.
Proof using Type.
  intros Hp Hl. unfold roundRobin_List. assert (0 < length p)%nat as Hpos by (destruct p; [done|simpl; lia]).
  assert (u32 (Z.of_nat (length p)) = Z.of_nat (length p)) as E by (apply Z.mod_small; lia). rewrite E.
  rewrite decide_False by lia. set (i := Z.to_nat _). assert (i < length p)%nat as Hi.
  { subst i. pose proof (Z.mod_pos_bound (u32 (robin + 1)) (Z.of_nat (length p)) ltac:(lia)). lia. }
  destruct (lookup_lt_is_Some_2 p i Hi) as [x Hx]. rewrite Hx. cbn [mbind option_bind].
  exists x, (take i p ++ drop (S i) p). split; [done|]. split; [|done].
  rewrite <- (take_drop_middle p i x Hx) at 3. by rewrite Permutation_middle.
Qed.

(** Every policy gives every upstream once. *)
Lemma Policy_List_perm pol p :
  p <> [] -> (Z.of_nat (length p) < 2 ^ 32)%Z -> wp (Policy_List rn_Int rn_Perm pol p) (fun '(_, l) => l ≡ₚ p).
Proof using HPerm HInt.
  intros Hp Hl. destruct pol as [|robin|]; cbn [Policy_List].
  - apply wp_bind. eapply wp_mono; [apply random_List_perm|]. intros l Hl'. by apply wp_ret.
  - apply wp_bind. destruct (roundRobin_List_ok robin p Hp Hl) as (x & l & E & Hperm & _).
    eapply wp_option; [exact E|]. by apply wp_ret.
  - by apply wp_ret.
Qed.
End policies.

(** *** Fairness of round robin *)

(** The upstreams that are first for so many queries in a row. *)
Fixpoint first_choices (n : nat) (robin : Z) (p : list nat) : option (list nat) :=
  match n with
  | O => Some []
  | S n' => '(robin, l) ← roundRobin_List robin p; x ← head l; xs ← first_choices n' robin p; Some (x :: xs)
  end.

Definition turn_index (len : nat) (robin : Z) : nat := Z.to_nat (robin mod Z.of_nat len).

Lemma first_choices_indices n robin p :
  p <> [] -> (0 <= robin)%Z -> (robin + Z.of_nat n < 2 ^ 32)%Z -> (Z.of_nat (length p) < 2 ^ 32)%Z ->
  first_choices n robin p = mapM (fun i => p !! i) (map (fun j => turn_index (length p) (robin + 1 + Z.of_nat j)) (seq 0 n)).
Proof.
  intros Hp. revert robin. induction n as [|n IH]; intros robin Hr Hn Hl; [done|]. cbn [first_choices].
  destruct (roundRobin_List_ok robin p Hp Hl) as (x & l & -> & _ & Hx). cbn [mbind option_bind head].
  assert (u32 (robin + 1) = robin + 1)%Z as E by (apply Z.mod_small; lia). rewrite E in Hx |- *.
  rewrite IH by lia. simpl. rewrite Z.add_0_r. fold (turn_index (length p) (robin + 1)) in Hx. rewrite Hx. cbn [mbind option_bind].
  rewrite <- (fmap_S_seq 0 n). rewrite map_map.
  assert (map (fun j => turn_index (length p) (robin + 1 + 1 + Z.of_nat j)) (seq 0 n) =
          map (fun j => turn_index (length p) (robin + 1 + Z.of_nat (S j))) (seq 0 n)) as ->; [|done].
  apply map_ext. intros j. f_equal. lia.
Qed.

(** A window of numbers as long as the list, taken modulo its length. *)
Lemma window_perm (len : nat) (a : Z) :
  (0 <= a)%Z -> map (fun j => turn_index len (a + Z.of_nat j)) (seq 0 len) ≡ₚ seq 0 len.
Proof.
  intros Ha. apply Permutation.NoDup_Permutation_bis.
  - apply Finite.Injective_map_NoDup_in; [|apply seq_NoDup]. intros i j Hi%in_seq Hj%in_seq E. unfold turn_index in E.
    pose proof (Z.mod_pos_bound (a + Z.of_nat i) (Z.of_nat len) ltac:(lia)).
    pose proof (Z.mod_pos_bound (a + Z.of_nat j) (Z.of_nat len) ltac:(lia)).
    pose proof (Z.div_mod (a + Z.of_nat i) (Z.of_nat len) ltac:(lia)).
    pose proof (Z.div_mod (a + Z.of_nat j) (Z.of_nat len) ltac:(lia)).
    set (x := ((a + Z.of_nat i) / Z.of_nat len)%Z) in *. set (y := ((a + Z.of_nat j) / Z.of_nat len)%Z) in *.
    assert (x = y) by nia. subst y. nia.
  - by rewrite length_map, length_seq.
  - intros k (j & <- & Hj%in_seq)%in_map_iff. apply in_seq. unfold turn_index.
    pose proof (Z.mod_pos_bound (a + Z.of_nat j) (Z.of_nat len) ltac:(lia)). lia.
Qed.

(** In as many queries as there are upstreams each is first once. *)
Lemma roundRobin_fair robin p :
  p <> [] -> (0 <= robin)%Z -> (robin + Z.of_nat (length p) < 2 ^ 32)%Z ->
  exists l, first_choices (length p) robin p = Some l /\ l ≡ₚ p.
Proof.
  intros Hp Hr Hl. rewrite first_choices_indices by (done || lia). apply mapM_lookup_perm, window_perm. lia.
Qed.

(** ** The cache of connections *)

(** [sort.Search] finds the first index at which a predicate holds that, once
    it holds, holds for all larger ones. *)
Lemma sort_Search_go_ok fuel i j (f : nat -> bool) :
  (i <= j)%nat -> (j - i < fuel)%nat -> (forall h h', (h <= h' < j)%nat -> f h = true -> f h' = true) ->
  let k := sort_Search_go fuel i j f in
  (i <= k <= j)%nat /\ (forall h, (i <= h < k)%nat -> f h = false) /\ (forall h, (k <= h < j)%nat -> f h = true).
Proof.
  revert i j. induction fuel as [|fuel IH]; intros i j Hij Hf Hm; [lia|]. cbn [sort_Search_go].
  case_decide; [|split; [lia|split; intros; lia]]. pose proof (Nat.div_mod (i + j) 2 ltac:(lia)).
  pose proof (Nat.mod_upper_bound (i + j) 2 ltac:(lia)). set (h := ((i + j) / 2)%nat) in *.
  destruct (f h) eqn:E.
  - destruct (IH i h) as (Hk1 & Hk2 & Hk3); [lia|lia|intros; eapply Hm; [|eassumption]; lia|]. split; [lia|]. split; [done|].
    intros h' Hh'. destruct (decide (h' < h)%nat); [apply Hk3; lia|]. apply (Hm h); [lia|done].
  - destruct (IH (S h) j) as (Hk1 & Hk2 & Hk3); [lia|lia|done|]. split; [lia|]. split; [|done].
    intros h' Hh'. destruct (decide (S h <= h')%nat); [apply Hk2; lia|]. destruct (f h') eqn:E'; [|done].
    rewrite (Hm h' h) in E; [done|lia|done].
Qed.

Lemma sort_Search_ok n (f : nat -> bool) :
  (forall h h', (h <= h' < n)%nat -> f h = true -> f h' = true) ->
  let k := sort_Search n f in
  (k <= n)%nat /\ (forall h, (h < k)%nat -> f h = false) /\ (forall h, (k <= h < n)%nat -> f h = true).
Proof.
  intros Hm. destruct (sort_Search_go_ok (S n) 0 n f) as (Hk1 & Hk2 & Hk3); [lia|lia|done|].
  split; [apply Hk1|]. split; [intros; apply Hk2; unfold sort_Search in *; lia|done].
Qed.

Section conn_cache.
Context {Conn : Type} (is_UDPConn : Conn -> bool).
Implicit Types (t : FwTransport Conn) (pc : persistConn Conn) (l : list (persistConn Conn)).

Definition all_conns t : list (persistConn Conn) := connsUDP t ++ connsTCP t ++ connsTLS t.

(** Used one after the other. *)
Definition in_order l : Prop := forall i j a b, (i <= j)%nat -> l !! i = Some a -> l !! j = Some b -> (pcUsed a <= pcUsed b)%Z.

(** The connections that have been used after a time; in order they are at the
    end. *)
Lemma cleanup_stack_exact stale l :
  in_order l -> cleanup_stack stale false l = (filter (fun pc => stale < pcUsed pc)%Z l, filter (fun pc => pcUsed pc <= stale)%Z l).
Proof.
  intros Ho. destruct l as [|first l']; [done|]. cbn [cleanup_stack]. set (l := first :: l') in *.
  assert (forall k, (k <= length l)%nat ->
    (forall h pc, (h < k)%nat -> l !! h = Some pc -> (pcUsed pc <= stale)%Z) ->
    (forall h pc, (k <= h)%nat -> l !! h = Some pc -> (stale < pcUsed pc)%Z) ->
    (drop k l, take k l) = (filter (fun pc => stale < pcUsed pc)%Z l, filter (fun pc => pcUsed pc <= stale)%Z l)) as Hsplit.
  { intros k Hk Hlo Hhi. rewrite <- (take_drop k l) at 3 4. rewrite !filter_app.
    assert (Forall (fun pc => pcUsed pc <= stale)%Z (take k l)) as Hl.
    { apply Forall_lookup. intros h pc Hh. apply lookup_take_Some in Hh as [Hh ?]. by eapply Hlo. }
    assert (Forall (fun pc => stale < pcUsed pc)%Z (drop k l)) as Hd.
    { apply Forall_lookup. intros h pc Hh. rewrite lookup_drop in Hh. eapply Hhi; [|exact Hh]. lia. }
    rewrite (filter_all _ (drop k l)), (filter_none _ (take k l)); [|eapply Forall_impl; [exact Hl|]; simpl; lia|done].
    rewrite (filter_all _ (take k l)), (filter_none _ (drop k l)); [by rewrite app_nil_r| |done].
    eapply Forall_impl; [exact Hd|]. simpl. lia. }
  case_decide as Hf.
  - apply (Hsplit 0%nat); [simpl; lia|intros; lia|]. intros h pc _ Hh.
    pose proof (Ho 0%nat h first pc ltac:(lia) eq_refl Hh). lia.
  - match goal with |- context [sort_Search _ ?g] => destruct (sort_Search_ok (length l) g) as (Hk1 & Hk2 & Hk3) end.
    + intros h h' Hh. destruct (lookup_lt_is_Some_2 l h') as [b Hb]; [lia|]. destruct (lookup_lt_is_Some_2 l h) as [a Ha]; [lia|].
      rewrite Ha, Hb. intros Hs%bool_decide_eq_true. apply bool_decide_eq_true. pose proof (Ho h h' a b ltac:(lia) Ha Hb). lia.
    + apply Hsplit; [done| |].
      * intros h pc Hh Hpc. specialize (Hk2 h Hh). rewrite Hpc in Hk2. apply bool_decide_eq_false in Hk2. lia.
      * intros h pc Hh Hpc. specialize (Hk3 h). rewrite Hpc in Hk3. apply lookup_lt_Some in Hpc. eapply bool_decide_eq_true_1, Hk3. done.
Qed.

(** *** Runs of the manager *)

(** The messages the manager of the connections gets, with the time. *)
Inductive CmEvent := ev_dial (now : Z) (proto : string) | ev_yield (pc : persistConn Conn) | ev_tick (now : Z) | ev_stop (now : Z).

(** The transport, the connections handed out with the time and the protocol
    they were asked for with, and the closed ones. *)
Record CmState := mkCm { cm_t : FwTransport Conn; cm_out : list (Z * string * persistConn Conn); cm_closed : list (persistConn Conn) }.

Definition cm_step (e : CmEvent) (s : CmState) : CmState :=
  match e with
  | ev_dial now proto =>
      let '(t, pc, closed) := cm_dial now proto (cm_t s) in
      mkCm t (cm_out s ++ match pc with Some pc => [(now, proto, pc)] | None => [] end) (cm_closed s ++ closed)
  | ev_yield pc => mkCm (cm_yield is_UDPConn pc (cm_t s)) (cm_out s) (cm_closed s)
  | ev_tick now => let '(t, closed) := cleanup now false (cm_t s) in mkCm t (cm_out s) (cm_closed s ++ closed)
  | ev_stop now => let '(t, closed) := cleanup now true (cm_t s) in mkCm t (cm_out s) (cm_closed s ++ closed)
  end.
Definition cm_run (es : list CmEvent) (s : CmState) : CmState := fold_left (fun s e => cm_step e s) es s.

Definition yielded (es : list CmEvent) : list (persistConn Conn) := omap (fun e => match e with ev_yield pc => Some pc | _ => None end) es.

(** Every connection is somewhere, once. *)
Definition everywhere (s : CmState) : list (persistConn Conn) := all_conns (cm_t s) ++ map snd (cm_out s) ++ cm_closed s.

Lemma conns_set ty ty' l t : conns ty' (set_conns ty l t) = if decide (ty' = ty) then l else conns ty' t.
Proof using Type. by destruct ty, ty'. Qed.

Lemma all_conns_set ty l t rest : conns ty t ++ rest ≡ₚ l -> all_conns t ++ rest ≡ₚ all_conns (set_conns ty l t).
Proof using Type.
  intros Hl. unfold all_conns. destruct ty; simpl in *; rewrite <- Hl; [| |by rewrite <- !app_assoc];
    rewrite <- !app_assoc; [apply Permutation_app_head|do 2 apply Permutation_app_head]; try (by rewrite (Permutation_app_comm rest), !app_assoc).
  apply Permutation_app_comm.
Qed.

Lemma cleanup_stack_split stale all l kept gone : cleanup_stack stale all l = (kept, gone) -> l ≡ₚ kept ++ gone.
Proof using Type.
  destruct l as [|x l']; simpl; [by intros [= <- <-]|]. destruct all; [by intros [= <- <-]|].
  case_decide; intros [= <- <-]; [by rewrite app_nil_r|]. set (k := sort_Search _ _).
  by rewrite <- (take_drop k (x :: l')) at 1; rewrite Permutation_app_comm.
Qed.

Lemma cleanup_split now all t t' closed : cleanup now all t = (t', closed) -> all_conns t ≡ₚ all_conns t' ++ closed.
Proof using Type.
  unfold cleanup. destruct (cleanup_stack _ all (connsUDP t)) as [u cu] eqn:Eu. destruct (cleanup_stack _ all (connsTCP t)) as [c cc] eqn:Ec.
  destruct (cleanup_stack _ all (connsTLS t)) as [s cs] eqn:Es. intros [= <- <-]. unfold all_conns. simpl.
  apply cleanup_stack_split in Eu, Ec, Es. rewrite Eu, Ec, Es. solve_Permutation.
Qed.

Lemma cm_dial_split now proto t t' out closed :
  cm_dial now proto t = (t', out, closed) -> all_conns t ≡ₚ all_conns t' ++ option_list out ++ closed.
Proof using Type.
  unfold cm_dial. set (ty := stringToTransportType proto). destruct (last (conns ty t)) as [x|] eqn:El.
  - apply last_Some in El as [l El]. case_decide; intros [= <- <- <-]; rewrite El; rewrite ?length_app; simpl.
    + rewrite Nat.add_sub, take_app_length. unfold all_conns. destruct ty; simpl in *; rewrite El; solve_Permutation.
    + unfold all_conns. destruct ty; simpl in *; rewrite El; solve_Permutation.
  - intros [= <- <- <-]. by rewrite !app_nil_r.
Qed.

Lemma cm_step_everywhere e s : everywhere (cm_step e s) ≡ₚ everywhere s ++ yielded [e].
Proof using Type.
  unfold everywhere. destruct e as [now proto|pc|now|now]; simpl.
  - destruct (cm_dial now proto (cm_t s)) as [[t' pc] closed] eqn:E. apply cm_dial_split in E. simpl. rewrite E, map_app.
    destruct pc; simpl; solve_Permutation.
  - unfold cm_yield. rewrite <- (all_conns_set _ _ _ [pc] (reflexivity _)). solve_Permutation.
  - destruct (cleanup now false (cm_t s)) as [t' closed] eqn:E. apply cleanup_split in E. simpl. rewrite E. solve_Permutation.
  - destruct (cleanup now true (cm_t s)) as [t' closed] eqn:E. apply cleanup_split in E. simpl. rewrite E. solve_Permutation.
Qed.

(** What the transport keeps: its settings, and in each stack connections of
    its kind, in the order they were used in. *)
Definition kept_in (t0 : FwTransport Conn) (ys : list (persistConn Conn)) (s : CmState) : Prop :=
  t_tlsConfig (cm_t s) = t_tlsConfig t0 /\ t_expire (cm_t s) = t_expire t0 /\
  (forall ty, Forall (fun pc => transportTypeFromConn is_UDPConn t0 pc = ty) (conns ty (cm_t s)) /\ conns ty (cm_t s) `sublist_of` ys) /\
  Forall (fun '(now, proto, pc) => (now - pcUsed pc < t_expire t0)%Z /\
            transportTypeFromConn is_UDPConn t0 pc = stringToTransportType proto) (cm_out s).

Lemma typeFromConn_tls t t' pc : t_tlsConfig t = t_tlsConfig t' -> transportTypeFromConn is_UDPConn t pc = transportTypeFromConn is_UDPConn t' pc.
Proof using Type. unfold transportTypeFromConn. by intros ->. Qed.

Lemma cleanup_stack_sublist stale all l : (cleanup_stack stale all l).1 `sublist_of` l.
Proof using Type.
  destruct l as [|x l]; simpl; [done|]. destruct all; [apply sublist_nil_l|]. case_decide; [done|]. apply sublist_drop.
Qed.

Lemma sublist_Forall {A} (P : A -> Prop) (l k : list A) : l `sublist_of` k -> Forall P k -> Forall P l.
Proof using Type. intros Hs. induction Hs as [|x l k _ IH|x l k _ IH]; [done| |]; intros Hf; inversion Hf; subst; [constructor|]; auto. Qed.

Lemma cleanup_kept t0 ys now all s t' closed :
  kept_in t0 ys s -> cleanup now all (cm_t s) = (t', closed) -> kept_in t0 ys (mkCm t' (cm_out s) (cm_closed s ++ closed)).
Proof using Type.
  intros (Htls & Hexp & Hc & Ho). unfold cleanup.
  pose proof (cleanup_stack_sublist (now - t_expire (cm_t s)) all (connsUDP (cm_t s))) as Su.
  pose proof (cleanup_stack_sublist (now - t_expire (cm_t s)) all (connsTCP (cm_t s))) as Sc.
  pose proof (cleanup_stack_sublist (now - t_expire (cm_t s)) all (connsTLS (cm_t s))) as Ss.
  destruct (cleanup_stack _ all (connsUDP _)), (cleanup_stack _ all (connsTCP _)), (cleanup_stack _ all (connsTLS _)).
  intros [= <- <-]. split; [done|]. split; [done|]. split; [|done]. intros ty. destruct (Hc ty) as [Hf Hs].
  assert (conns ty (mkTransport (avgDialTime (cm_t s)) l l1 l3 (t_expire (cm_t s)) (t_addr (cm_t s)) (t_tlsConfig (cm_t s)))
    `sublist_of` conns ty (cm_t s)) as Hsub by by destruct ty.
  split; [by eapply sublist_Forall|by etrans].
Qed.

Lemma cm_step_kept t0 ys e s : kept_in t0 ys s -> kept_in t0 (ys ++ yielded [e]) (cm_step e s).
Proof using Type.
  intros Hk. pose proof Hk as (Htls & Hexp & Hc & Ho). destruct e as [now proto|pc|now|now]; cbn [cm_step]; simpl; rewrite ?app_nil_r.
  - unfold cm_dial. set (ty := stringToTransportType proto). destruct (Hc ty) as [Hf Hs].
    destruct (last (conns ty (cm_t s))) as [x|] eqn:El; cycle 1.
    { split; [done|]. split; [done|]. split; [done|]. simpl. by rewrite app_nil_r. }
    apply last_Some in El as [l El]. rewrite El in Hf, Hs |- *. apply Forall_app in Hf as [Hf Hx]. apply Forall_inv in Hx.
    case_decide as Ht.
    + rewrite length_app. simpl. rewrite Nat.add_sub, take_app_length. split; [by destruct ty|]. split; [by destruct ty|]. split.
      * intros ty'. simpl. rewrite conns_set. case_decide as Hty; [|apply Hc]. subst ty'. split; [done|].
        etrans; [|exact Hs]. by apply sublist_inserts_r.
      * simpl. apply Forall_app. split; [done|]. apply Forall_singleton. split; [by rewrite <- Hexp|done].
    + split; [by destruct ty|]. split; [by destruct ty|]. simpl. rewrite app_nil_r. split; [|done].
      intros ty'. rewrite conns_set. case_decide as Hty; [|apply Hc]. split; [done|apply sublist_nil_l].
  - unfold cm_yield. set (ty := transportTypeFromConn is_UDPConn (cm_t s) pc). split; [by destruct ty|]. split; [by destruct ty|].
    split; [|done]. intros ty'. simpl. rewrite conns_set. case_decide as Hty.
    + subst ty'. destruct (Hc ty) as [Hf Hs]. split; [|by apply sublist_app].
      apply Forall_app. split; [done|]. apply Forall_singleton. by apply typeFromConn_tls.
    + destruct (Hc ty') as [Hf Hs]. split; [done|]. etrans; [exact Hs|]. by apply sublist_inserts_r.
  - destruct (cleanup now false (cm_t s)) as [t' closed] eqn:E. by apply (cleanup_kept t0 ys now false).
  - destruct (cleanup now true (cm_t s)) as [t' closed] eqn:E. by apply (cleanup_kept t0 ys now true).
Qed.

Lemma cm_run_ok t0 es :
  all_conns t0 = [] -> everywhere (cm_run es (mkCm t0 [] [])) ≡ₚ yielded es /\ kept_in t0 (yielded es) (cm_run es (mkCm t0 [] [])).
Proof using Type.
  intros H0. induction es as [|e es IH] using rev_ind.
  - unfold everywhere. simpl. rewrite H0. split; [done|]. split; [done|]. split; [done|]. split; [|constructor].
    apply app_eq_nil in H0 as [Hu [Hc Hs]%app_eq_nil]. intros ty. destruct ty; simpl; rewrite ?Hu, ?Hc, ?Hs; split; constructor.
  - destruct IH as [He Hk]. unfold cm_run, yielded in *. rewrite fold_left_app, omap_app. simpl. split.
    + by rewrite cm_step_everywhere, He.
    + by apply cm_step_kept.
Qed.

Lemma sublist_in_order l k : l `sublist_of` k -> in_order k -> in_order l.
Proof using Type.
  intros Hs. induction Hs as [|x l k Hs IH|x l k Hs IH]; [done| |]; intros Ho.
  - assert (in_order k) as Hk by (intros i j a b Hij Ha Hb; by apply (Ho (S i) (S j)); [lia|..]).
    intros [|i] [|j] a b Hij Ha Hb; simpl in Ha, Hb; [by simplify_eq| |lia|by apply (IH Hk i j); [lia|..]].
    simplify_eq. assert (Forall (fun y => y ∈ k) l) as Hb' by (eapply sublist_Forall; [exact Hs|by apply Forall_forall]).
    rewrite Forall_forall in Hb'. specialize (Hb' b (list_elem_of_lookup_2 _ _ _ Hb)).
    apply list_elem_of_lookup in Hb' as [j' Hj']. by apply (Ho 0%nat (S j')); [lia|..].
  - apply IH. intros i j a b Hij Ha Hb. by apply (Ho (S i) (S j)); [lia|..].
Qed.
End conn_cache.

(** ** The health of an upstream *)

Section proxy_health.
Context {Conn : Type}.
Implicit Types p : FwProxy Conn.

Inductive ProxyEvent := px_Healthcheck | px_turn (i : nat) (ok : bool) | px_start (d : Z) | px_stop.

Definition proxy_step (e : ProxyEvent) p : FwProxy Conn :=
  match e with
  | px_Healthcheck => Proxy_Healthcheck p
  | px_turn i ok => Proxy_turn i ok p
  | px_start d => Proxy_start d p
  | px_stop => Proxy_stop p
  end.
Definition proxy_run (es : list ProxyEvent) p : FwProxy Conn := fold_left (fun p e => proxy_step e p) es p.

(** There are fails only while the goroutine of the probe looks at the upstream
    again, unless the probe was stopped. *)
Definition probed p : Prop :=
  probe_ok (probe p) /\
  match goroutines (probe p) with
  | [] => fails p = 0%Z \/ inprogress (probe p) = stop
  | Finishing :: _ => fails p = 0%Z
  | _ => True
  end.

Lemma probe_ok_step e p : probe_ok (probe p) -> probe_ok (probe (proxy_step e p)).
Proof using Type.
  intros Hp. destruct e as [|i ok|d|]; simpl.
  - unfold Proxy_Healthcheck. destruct (health p); [by apply (probe_step_ok EvDo)|done].
  - by apply (probe_step_ok (EvTurn i ok)).
  - by apply (probe_step_ok (EvStart d)).
  - by apply (probe_step_ok EvStop).
Qed.

(** The one goroutine takes a turn, or nothing happens. *)
Lemma turn_cases i ok p :
  probe_ok (probe p) ->
  (Proxy_turn i ok p = p /\ (i = 0%nat -> goroutines (probe p) = [])) \/ exists g, goroutines (probe p) = [g] /\ i = 0%nat /\
    fails (Proxy_turn i ok p) = match g with Calling => dnsHc_Check ok (fails p) | _ => fails p end /\
    probe (Proxy_turn i ok p) = probe_turn 0 ok (probe p).
Proof using Type.
  intros [Hl _]. unfold Proxy_turn, probe_turn. destruct p as [n a t pr h]. simpl in *.
  destruct (goroutines pr) as [|g [|]] eqn:Eg; [|destruct i as [|i]|simpl in Hl; lia].
  - left. by rewrite lookup_nil.
  - right. exists g. by destruct g.
  - left. done.
Qed.

Lemma proxy_step_probed e p : probed p -> probed (proxy_step e p).
Proof using Type.
  intros [Hok Hp]. split; [by apply probe_ok_step|]. destruct e as [|i ok|d|]; cbn [proxy_step].
  - unfold Proxy_Healthcheck. destruct (health p); [|done]. simpl. unfold Probe_Do. case_decide as Hi; [done|]. simpl.
    destruct Hok as [_ Hok]. rewrite Hok; [done|]. by destruct (inprogress (probe p)).
  - destruct (turn_cases i ok p Hok) as [[-> _]|(g & Eg & -> & Ef & Epr)]; [done|]. rewrite Ef, Epr. rewrite Eg in Hp.
    unfold probe_turn. rewrite Eg. simpl. destruct g; [by destruct ok|case_decide; simpl; [by right|done]|simpl; by left].
  - done.
  - simpl. destruct (goroutines (probe p)) as [|[] ?]; [by right|done..].
Qed.

Lemma NewProxy_probed addr trans : probed (NewProxy (Conn := Conn) addr trans).
Proof using Type. split; [apply probe_new_ok|by left]. Qed.

Lemma proxy_run_probed es p : probed p -> probed (proxy_run es p).
Proof using Type. revert p. induction es as [|e es IH]; intros p Hp; [done|]. by apply IH, proxy_step_probed. Qed.

(** The upstream answers every check, and nobody stops the probe. *)
Definition px_healthy (e : ProxyEvent) : Prop := match e with px_turn _ ok => ok = true | px_stop => False | _ => True end.
Definition px_is_turn (e : ProxyEvent) : Prop := match e with px_turn 0 _ => True | _ => False end.

#[export] Instance px_is_turn_dec e : Decision (px_is_turn e).
Proof. destruct e as [|[|i]| |]; apply _. Defined.

(** Turns until the count is reset. *)
Definition turns_to_up p : nat :=
  if decide (fails p = 0%Z) then 0 else match goroutines (probe p) with Sleeping :: _ => 2 | Calling :: _ => 1 | _ => 0 end.

Definition recovering p : Prop := probed p /\ (fails p <> 0%Z -> inprogress (probe p) <> stop).

Lemma proxy_step_recovering e p :
  recovering p -> px_healthy e ->
  recovering (proxy_step e p) /\ (turns_to_up (proxy_step e p) <= turns_to_up p - (if decide (px_is_turn e) then 1 else 0))%nat.
Proof using Type.
  intros [Hp Hs] He. pose proof (proxy_step_probed e p Hp) as Hp'. unfold recovering, turns_to_up.
  destruct e as [|i ok|d|]; cbn [proxy_step px_healthy] in *; [| | |done].
  - rewrite (decide_False (P := px_is_turn px_Healthcheck)) by tauto. unfold Proxy_Healthcheck in *.
    destruct (health p); [|split; [by split|lia]]. simpl. unfold Probe_Do in *. case_decide as Hi; [split; [by split|lia]|].
    destruct Hp as [[_ Hok] Hp]. assert (inprogress (probe p) = idle) as Ei by by destruct (inprogress (probe p)).
    rewrite (Hok Ei) in *. destruct Hp as [Hf|Hf]; [|congruence]. rewrite !decide_True by done. split; [by split|lia].
  - subst ok. destruct Hp as [Hok Hp]. destruct (turn_cases i true p Hok) as [[E E0]|(g & Eg & -> & Ef & Epr)].
    { rewrite E in *. split; [by split|]. destruct (decide (px_is_turn (px_turn i true))) as [Hi|_]; [|lia].
      destruct i; [|done]. rewrite (E0 eq_refl). case_decide; lia. }
    rewrite (decide_True (P := px_is_turn (px_turn 0 true))) by exact I. unfold probed in Hp' |- *.
    rewrite Ef, Epr in Hp' |- *. rewrite Eg in Hp |- *. unfold probe_turn in Hp' |- *. rewrite Eg in Hp' |- *. simpl in *.
    destruct g; simpl in *.
    + split; [by split|]. lia.
    + destruct (decide (inprogress (probe p) = stop)) as [Hst|Hst]; simpl in *.
      * destruct (decide (fails p = 0)%Z); [|by destruct Hs]. split; [by split|lia].
      * split; [by split|]. case_decide; lia.
    + split; [by split|]. case_decide; lia.
  - rewrite (decide_False (P := px_is_turn (px_start d))) by tauto. split; [by split|]. simpl. lia.
Qed.

Lemma proxy_run_recovering es p :
  recovering p -> Forall px_healthy es ->
  recovering (proxy_run es p) /\ (turns_to_up (proxy_run es p) <= turns_to_up p - length (filter px_is_turn es))%nat.
Proof using Type.
  intros Hp He. revert p Hp. induction He as [|e es He _ IH]; intros p Hp; [split; [done|simpl; lia]|].
  destruct (proxy_step_recovering e p Hp He) as [Hp' Ht]. destruct (IH _ Hp') as [Hp'' Ht'].
  split; [done|]. cbn [proxy_run fold_left]. fold (proxy_run es (proxy_step e p)). rewrite filter_cons.
  destruct (decide (px_is_turn e)); simpl; lia.
Qed.

(** Without fails an upstream is not down. *)
Lemma up_not_down maxfails p : (0 <= maxfails)%Z -> recovering p -> turns_to_up p = 0%nat -> Down maxfails p = false.
Proof using Type.
  intros Hm [[_ Hp] Hs] Ht. unfold Down, turns_to_up in *. destruct (decide (maxfails = 0)%Z); [done|]. apply bool_decide_eq_false.
  destruct (decide (fails p = 0)%Z) as [E|Hf]; [rewrite E; lia|]. exfalso.
  destruct (goroutines (probe p)) as [|[] ?]; [|done|done|done]. destruct Hp as [Hp|Hp]; [done|by apply Hs].
Qed.

Lemma proxy_run_not_stopped es p : px_stop ∉ es -> inprogress (probe p) <> stop -> inprogress (probe (proxy_run es p)) <> stop.
Proof using Type.
  revert p. induction es as [|e es IH]; intros p Hn Hp; [done|]. apply not_elem_of_cons in Hn as [He Hn]. apply IH; [done|].
  destruct e as [|i ok|d|]; simpl; [| |done|by destruct He].
  - unfold Proxy_Healthcheck. destruct (health p); [|done]. simpl. unfold Probe_Do. by case_decide.
  - unfold probe_turn. destruct (goroutines (probe p) !! i) as [[]|]; [by destruct ok| |done|done]. by rewrite decide_False.
Qed.
End proxy_health.

(** ** Theorems *)

(** C35 The cache of the connections to an upstream.  Whatever messages its
    manager gets: every connection that was given back is in the cache, has
    been handed out, or has been closed, and only one of these, as often as it
    was given back; a connection that is handed out is of the kind that was
    asked for and was last used less than the expiry time before.  When the
    connections are given back in the order of their use, a cleaning keeps
    exactly those of each kind that were used within the expiry time. *)
Theorem conn_cache_exact {Conn : Type} (is_UDPConn : Conn -> bool) (t : FwTransport Conn)
    (es : list (CmEvent (Conn := Conn))) :
  all_conns t = [] ->
  let s := cm_run is_UDPConn es (mkCm t [] []) in
  all_conns (cm_t s) ++ map snd (cm_out s) ++ cm_closed s ≡ₚ yielded es /\
  Forall (fun '(now, proto, pc) => (now - pcUsed pc < t_expire t)%Z /\
            transportTypeFromConn is_UDPConn t pc = stringToTransportType proto) (cm_out s) /\
  (in_order (yielded es) -> forall now ty,
    conns ty (cleanup now false (cm_t s)).1 = filter (fun pc => now - t_expire t < pcUsed pc)%Z (conns ty (cm_t s))).
Proof.
  intros Ht s. destruct (cm_run_ok is_UDPConn t es Ht) as [He (Htls & Hexp & Hc & Ho)]. split; [exact He|]. split; [exact Ho|].
  intros Hio now ty. subst s. unfold cleanup. rewrite Hexp.
  assert (forall ty, cleanup_stack (now - t_expire t) false (conns ty (cm_t (cm_run is_UDPConn es (mkCm t [] [])))) =
    (filter (fun pc => now - t_expire t < pcUsed pc)%Z (conns ty (cm_t (cm_run is_UDPConn es (mkCm t [] [])))),
     filter (fun pc => pcUsed pc <= now - t_expire t)%Z (conns ty (cm_t (cm_run is_UDPConn es (mkCm t [] [])))))) as Hcl.
  { intros ty'. apply cleanup_stack_exact. eapply sublist_in_order; [apply Hc|done]. }
  pose proof (Hcl typeUDP) as Hu. pose proof (Hcl typeTCP) as Hcp. pose proof (Hcl typeTLS) as Hs. simpl in Hu, Hcp, Hs.
  rewrite Hu, Hcp, Hs. by destruct ty.
Qed.

Definition example_conn (is_udp : bool) (used : Z) : persistConn bool := mkPersist is_udp used.

Lemma conn_cache_exact_witness :
  let es := [ev_yield (example_conn true 1); ev_yield (example_conn false 2); ev_dial 3 "udp"; ev_yield (example_conn true 4);
             ev_dial 5 "tcp"; ev_dial (11 * Second) "udp"] in
  let s := cm_run id es (mkCm (newTransport "10.0.0.1:53") [] []) in
  all_conns (cm_t s) ++ map snd (cm_out s) ++ cm_closed s ≡ₚ yielded es /\
  cm_out s = [(3, "udp"%string, example_conn true 1); (5, "tcp"%string, example_conn false 2)]%Z /\
  cm_closed s = [example_conn true 4].
Proof.
  intros es s. destruct (@conn_cache_exact bool id (newTransport "10.0.0.1:53") es eq_refl) as [He _].
  split; [exact He|]. split; vm_compute; reflexivity.
Defined.

(** C34 An upstream that is down comes back: after any history of checks,
    queries and starts in which the probe was not stopped, as soon as the
    upstream answers its checks two turns of the goroutine of the probe leave
    the upstream not down, and it is not down as long as it answers. *)
Theorem down_upstream_recovers {Conn : Type} (addr trans : string) (maxfails : Z) (es es' : list ProxyEvent) :
  (0 <= maxfails)%Z -> px_stop ∉ es -> Forall px_healthy es' -> (2 <= length (filter px_is_turn es'))%nat ->
  Down maxfails (proxy_run es' (proxy_run es (NewProxy (Conn := Conn) addr trans))) = false.
Proof.
  intros Hm Hes He Hl. set (p := proxy_run es (NewProxy addr trans)).
  assert (recovering p) as Hp.
  { split; [apply proxy_run_probed, NewProxy_probed|]. intros _. by apply proxy_run_not_stopped. }
  destruct (proxy_run_recovering es' p Hp He) as [Hp' Ht]. apply up_not_down; [done|done|].
  assert (turns_to_up p <= 2)%nat by (unfold turns_to_up; case_decide; [lia|]; destruct (goroutines (probe p)) as [|[] ?]; lia).
  lia.
Qed.

Lemma down_upstream_recovers_witness :
  let down := proxy_run [px_Healthcheck; px_turn 0 false; px_turn 0 false; px_turn 0 false; px_turn 0 false; px_turn 0 false]
    (NewProxy (Conn := bool) "10.0.0.1:53" "dns") in
  Down 2 down = true /\ Down 2 (proxy_run [px_turn 0 true; px_Healthcheck; px_turn 0 true] down) = false.
Proof.
  split; [vm_compute; reflexivity|].
  apply (@down_upstream_recovers bool "10.0.0.1:53" "dns" 2
    [px_Healthcheck; px_turn 0 false; px_turn 0 false; px_turn 0 false; px_turn 0 false; px_turn 0 false]); [lia| |by repeat constructor|].
  - intros Hin. apply list_elem_of_In in Hin. simpl in Hin. intuition discriminate.
  - vm_compute. lia.
Defined.
