(* ===== verification/ForwardServing.v ===== *)
(** * Queries through the forward plugin

    Over any network that keeps its deadlines every query ends, within the
    bound of the loops, with one reply that carries the identifier of the
    client or with a server failure, and it fails only when the time is over or
    every upstream is down. *)

From S2P Require Import Prelude.
From S2P Require Import GoLoop.
From S2P Require Import GoStd.
From S2P Require Import GoText.
From S2P Require Import GoTime.
From S2P Require Import DnsNames.
From S2P Require Import DnsMsg.
From S2P Require Import Request.
From S2P Require Import TreeSpec.
From S2P Require Import Plugin.
From S2P Require Import Concurrency.
From S2P Require Import Register.
From S2P Require Import PkgTls.
From S2P Require Import Forward.
From S2P Require Import ForwardTheorems.

(** ** The network *)

(** What is known of the network.  Nothing but the plugin changes its state;
    the operations on connections take time; reading succeeds, with a message,
    only before the deadline ("after the deadline, future I/O will fail");
    Perm gives a permutation. *)
Class NetworkOk {Conn W : Type} (net : Network (Conn := Conn) W) (fw : W -> Forward Conn) (put_fw : Forward Conn -> W -> W) : Prop := {
  fw_put f w : fw (put_fw f w) = f;
  clock_put f w : clock net (put_fw f w) = clock net w;
  DialTimeout_ok proto addr cfg d w : runs (DialTimeout net proto addr cfg d) w (fun _ w' => fw w' = fw w /\ (clock net w < clock net w')%Z);
  WriteMsg_ok conn d m w : runs (WriteMsg net conn d m) w (fun _ w' => fw w' = fw w /\ (clock net w < clock net w')%Z);
  ReadMsg_ok conn size d w : runs (ReadMsg net conn size d) w (fun '(ret, err) w' =>
    fw w' = fw w /\ (clock net w < clock net w')%Z /\ (err = None -> is_Some ret /\ (clock net w' <= d)%Z));
  Close_ok conn w : runs (Close net conn) w (fun _ w' => fw w' = fw w /\ (clock net w <= clock net w')%Z);
  yield_taken_ok w : runs (yield_taken net) w (fun _ w' => fw w' = fw w /\ (clock net w <= clock net w')%Z);
  dns_Id_ok w : runs (dns_Id net) w (fun _ w' => fw w' = fw w /\ (clock net w <= clock net w')%Z);
  rn_Int_ok w : runs (rn_Int net) w (fun _ w' => fw w' = fw w /\ (clock net w <= clock net w')%Z);
  rn_Perm_ok n w : runs (rn_Perm net n) w (fun l w' => l ≡ₚ seq 0 n /\ fw w' = fw w /\ (clock net w <= clock net w')%Z)
}.

Lemma filter_length_all {A} (P : A -> Prop) `{forall x, Decision (P x)} (l : list A) :
  (length l <= length (filter P l))%nat -> Forall P l.
Proof.
  induction l as [|x l IH]; [by constructor|]. rewrite filter_cons. pose proof (length_filter P l) as Hle.
  case_decide; simpl; intros Hl; [constructor; [done|apply IH; lia]|lia].
Qed.

Lemma i64_back n : (- 2 ^ 63 <= n < 2 ^ 63)%Z -> i64 (i64 (n + 1) - 1) = n.
Proof.
  intros Hn. unfold i64. destruct (decide (n = 2 ^ 63 - 1)%Z) as [->|Hne]; [done|].
  rewrite (Z.mod_small (n + 1 + 2 ^ 63)) by lia. rewrite Z.mod_small by lia. lia.
Qed.

Section serving.
Context `{Dn : DnsNames} `{MOk : DnsMsgsOk} {Conn : Type} (is_UDPConn : Conn -> bool).
Context {W : Type} (net : Network (Conn := Conn) W) (fw : W -> Forward Conn) (put_fw : Forward Conn -> W -> W).
Context (NOk : NetworkOk net fw put_fw).

(** What a query leaves as it is: everything but the connections and the
    probes of the upstreams, and the policy. *)
Definition same_health (p p' : FwProxy Conn) : Prop := fails p' = fails p /\ p_addr p' = p_addr p /\ health p' = health p.
Definition stable (f f' : Forward Conn) : Prop :=
  Forall2 same_health (proxies f) (proxies f') /\ maxfails f' = maxfails f /\ opts f' = opts f /\ concurrent f' = concurrent f /\
  maxConcurrent f' = maxConcurrent f /\ from f' = from f /\ ignored f' = ignored f.
Definition evolves (w w' : W) : Prop := stable (fw w) (fw w') /\ (clock net w <= clock net w')%Z.

#[local] Instance same_health_preorder : PreOrder same_health.
Proof. split; [by intros p|]. intros p q r (? & ? & ?) (? & ? & ?). repeat split; congruence. Qed.

#[local] Instance evolves_preorder : PreOrder evolves.
Proof.
  split.
  - intros w. split; [|lia]. by repeat split.
  - intros w1 w2 w3 [(Hp & ? & ? & ? & ? & ? & ?) Hc] [(Hp' & ? & ? & ? & ? & ? & ?) Hc']. split; [|lia].
    split; [by etrans|]. repeat split; congruence.
Qed.

Lemma evolves_same w w' : fw w' = fw w -> (clock net w <= clock net w')%Z -> evolves w w'.
Proof using Type. intros E Hc. split; [|done]. rewrite E. by repeat split. Qed.

Lemma evolves_length w w' : evolves w w' -> length (proxies (fw w')) = length (proxies (fw w)).
Proof using Type. intros [[Hp _] _]. symmetry. by apply Forall2_length in Hp. Qed.

Lemma evolves_lookup w w' k p : evolves w w' -> proxies (fw w) !! k = Some p -> exists p', proxies (fw w') !! k = Some p' /\ same_health p p'.
Proof using Type. intros [[Hp _] _] Hk. destruct (Forall2_lookup_l _ _ _ _ _ Hp Hk) as (p' & E & Hs). by exists p'. Qed.

(** The connections of an upstream that are cached. *)
Definition cached (k : nat) (w : W) : nat :=
  match proxies (fw w) !! k with Some p => cached_conns (transport p) | None => 0 end.

Lemma cached_same k w w' : fw w' = fw w -> cached k w' = cached k w.
Proof using Type. unfold cached. by intros ->. Qed.

Lemma runs_get_now w Q : Q (clock net w) w -> runs (get_now net) w Q.
Proof using Type. intros HQ. by exists w, (clock net w). Qed.

Lemma runs_get_fw w Q : Q (fw w) w -> runs (get_fw fw) w Q.
Proof using Type. intros HQ. by exists w, (fw w). Qed.

Lemma runs_get_proxy k w p Q : proxies (fw w) !! k = Some p -> Q p w -> runs (get_proxy fw k) w Q.
Proof using Type. intros Hk HQ. unfold get_proxy. apply runs_bind, runs_get_fw. by eapply runs_option. Qed.

Lemma runs_mod_proxy k w p g (Q : unit -> W -> Prop) :
  proxies (fw w) !! k = Some p -> same_health p (g p) ->
  (forall w', evolves w w' -> clock net w' = clock net w -> proxies (fw w') !! k = Some (g p) -> Q tt w') ->
  runs (mod_proxy fw put_fw k g) w Q.
Proof using NOk.
  intros Hk Hg HQ. unfold mod_proxy, mod_fw. eexists _, _. split; [reflexivity|].
  apply HQ.
  - split; [|rewrite clock_put; lia]. rewrite fw_put. split; [|by repeat split]. simpl. apply Forall2_same_length_lookup_2.
    { by rewrite length_alter. }
    intros i q q' Hq Hq'. destruct (decide (i = k)) as [->|Hne].
    + rewrite list_lookup_alter_eq, Hk in Hq'. simplify_eq/=. done.
    + rewrite list_lookup_alter_ne in Hq' by done. simplify_eq. done.
  - apply clock_put.
  - rewrite fw_put. simpl. by rewrite list_lookup_alter_eq, Hk.
Qed.

Lemma runs_mod_transport k w p g (Q : unit -> W -> Prop) :
  proxies (fw w) !! k = Some p ->
  (forall w', evolves w w' -> clock net w' = clock net w -> proxies (fw w') !! k = Some (set_transport (g (transport p)) p) -> Q tt w') ->
  runs (mod_transport fw put_fw k g) w Q.
Proof using NOk. intros Hk HQ. unfold mod_transport. eapply runs_mod_proxy; [exact Hk|done|exact HQ]. Qed.

(** ** One exchange *)

Lemma runs_closeConns l w (Q : unit -> W -> Prop) :
  (forall w', fw w' = fw w -> (clock net w <= clock net w')%Z -> Q tt w') -> runs (closeConns net l) w Q.
Proof using NOk.
  revert w. induction l as [|pc l IH]; intros w HQ; cbn [closeConns]; [by apply runs_ret, HQ|].
  apply runs_bind. eapply runs_mono; [apply Close_ok|]. intros _ w1 [E1 C1]. apply IH. intros w2 E2 C2.
  apply HQ; [congruence|lia].
Qed.

Lemma cm_dial_count now proto (t t' : FwTransport Conn) out closed :
  cm_dial now proto t = (t', out, closed) -> (cached_conns t' + length (option_list out) <= cached_conns t)%nat.
Proof using Type.
  intros E. apply cm_dial_split, Permutation_length in E. unfold all_conns, cached_conns in *. rewrite !length_app in E. lia.
Qed.

Lemma cm_yield_count pc (t : FwTransport Conn) : cached_conns (cm_yield is_UDPConn pc t) = S (cached_conns t).
Proof using Type.
  unfold cm_yield, cached_conns. destruct (transportTypeFromConn is_UDPConn t pc); simpl; rewrite length_app; simpl; lia.
Qed.

(** A connection from the cache, or a new one after some time. *)
Definition dialled (k : nat) (w : W) (r : (Conn * bool) + string) (w' : W) : Prop :=
  evolves w w' /\
  match r with
  | inl (_, true) => (cached k w' < cached k w)%nat
  | _ => (clock net w < clock net w')%Z /\ (cached k w' <= cached k w)%nat
  end.

Lemma runs_Dial k proto w p : proxies (fw w) !! k = Some p -> runs (Dial net fw put_fw k proto) w (dialled k w).
Proof using NOk.
  intros Hk. unfold Dial. apply runs_bind. eapply runs_get_proxy; [exact Hk|]. apply runs_bind, runs_get_now.
  set (proto' := match t_tlsConfig _ with Some _ => _ | None => _ end).
  destruct (cm_dial (clock net w) proto' (transport p)) as [[t out] closed] eqn:Ed. apply cm_dial_count in Ed.
  apply runs_bind. eapply runs_mod_transport; [exact Hk|]. intros w1 Ev1 C1 Hk1.
  apply runs_bind, runs_closeConns. intros w2 E2 C2.
  assert (evolves w w2) as Ev2 by (etrans; [exact Ev1|by apply evolves_same]).
  assert (proxies (fw w2) !! k = Some (set_transport t p)) as Hk2 by by rewrite E2.
  assert (cached k w = cached_conns (transport p)) as Ek by (unfold cached; by rewrite Hk).
  assert (cached k w2 = cached_conns t) as Ek2 by (unfold cached; by rewrite Hk2).
  destruct out as [pc|]; simpl in Ed.
  { apply runs_ret. split; [done|]. rewrite Ek, Ek2. lia. }
  apply runs_bind, runs_get_now. apply runs_bind. eapply runs_get_proxy; [exact Hk2|].
  apply runs_bind.
  apply (runs_mono _ _ (fun _ w3 => fw w3 = fw w2 /\ (clock net w2 < clock net w3)%Z)); [case_decide; apply DialTimeout_ok|].
  intros conn w3 [E3 C3]. apply runs_bind, runs_get_now. apply runs_bind. rewrite <- E3 in Hk2.
  eapply runs_mod_transport; [exact Hk2|]. intros w4 Ev4 C4 Hk4. apply runs_ret.
  assert (evolves w w4) as Ev by (etrans; [exact Ev2|]; etrans; [apply (evolves_same w2 w3); [done|lia]|done]).
  assert (cached k w4 = cached_conns t) as Ek4 by (unfold cached; by rewrite Hk4).
  destruct Ev2 as [_ Cv2]. destruct conn as [conn|err]; (split; [done|]); (split; [lia|]); rewrite Ek, Ek4; lia.
Qed.

Lemma runs_Yield k conn w p (Q : unit -> W -> Prop) :
  proxies (fw w) !! k = Some p ->
  (forall w', evolves w w' -> (cached k w' <= S (cached k w))%nat -> Q tt w') -> runs (Yield is_UDPConn net fw put_fw k conn) w Q.
Proof using NOk.
  intros Hk HQ. unfold Yield. apply runs_bind, runs_get_now. apply runs_bind. eapply runs_mono; [apply yield_taken_ok|].
  intros taken w1 [E1 C1]. assert (evolves w w1) as Ev1 by by apply evolves_same. destruct taken; cycle 1.
  { apply runs_ret, HQ; [done|]. rewrite (cached_same k w w1 E1). lia. }
  rewrite <- E1 in Hk. eapply runs_mod_transport; [exact Hk|]. intros w2 Ev2 _ Hk2. apply HQ; [by etrans|].
  rewrite <- (cached_same k w w1 E1). unfold cached. rewrite Hk, Hk2. simpl. by rewrite cm_yield_count.
Qed.

(** Reading ends before the deadline or with the error of the deadline. *)
Lemma runs_read conn size id w :
  runs (until (read_turn net conn size (clock net w + readTimeout) id) (Z.to_pos (readTimeout + 1)) tt) w
    (fun r w' => fw w' = fw w /\ (clock net w <= clock net w')%Z /\ match r with inl m => mId m = id | inr _ => True end).
Proof using NOk.
  set (d := (clock net w + readTimeout)%Z).
  apply (until_runs _ (fun _ w' => fw w' = fw w /\ clock net w <= clock net w' <= d)%Z (fun _ w' => d - clock net w')%Z).
  - intros u w1 (E1 & C1). unfold read_turn. apply runs_bind. eapply runs_mono; [apply ReadMsg_ok|].
    intros [ret err] w2 (E2 & C2 & Hr). destruct err as [e|].
    { apply runs_ret. split; [congruence|]. split; [lia|done]. }
    destruct (Hr eq_refl) as [[m ->] Hd]. apply runs_bind. eapply runs_option; [reflexivity|]. apply runs_ret.
    case_decide; simpl.
    + split; [congruence|]. split; [lia|done].
    + split; [|lia]. split; [congruence|lia].
  - split; [done|]. unfold d, readTimeout, Second. lia.
  - unfold d, readTimeout, Second. lia.
Qed.

(** What an exchange leaves: time has passed; a message carries the identifier
    of the client; a connection that the upstream had closed came from the
    cache. *)
Definition connected (k : nat) (req : Msg) (w : W) (r : option Msg * option FwErr) (w' : W) : Prop :=
  evolves w w' /\ (clock net w < clock net w')%Z /\
  (forall m, r.1 = Some m -> mId m = mId req) /\
  match r.2 with
  | None => is_Some r.1 /\ (cached k w' <= S (cached k w))%nat
  | Some ErrCachedClosed => (cached k w' < cached k w)%nat
  | Some (OtherErr _) => (cached k w' <= cached k w)%nat
  end.

Lemma Size_is_Some state req : Req state = Some req -> is_Some (Size state).
Proof using Type. intros E. unfold Size. case_decide; [by eexists|]. rewrite E. simpl. by case_match. Qed.

(** The exchange over a connection. *)
Lemma runs_exchange k state o w p req : proxies (fw w) !! k = Some p -> Req state = Some req ->
  runs (Connect is_UDPConn net fw put_fw k state o) w (connected k req w).
Proof using NOk.
  intros Hk Hreq. unfold Connect. apply runs_bind. eapply runs_mono; [by eapply runs_Dial|].
  intros [[conn from_cache]|err] w1 [Ev1 Hd]; cycle 1.
  { apply runs_ret. split; [done|]. split; [lia|]. split; [done|]. simpl. lia. }
  destruct (Size_is_Some state req Hreq) as [[state' size] Hs]. apply runs_bind. eapply runs_option; [exact Hs|].
  apply runs_bind, runs_get_now. apply runs_bind. eapply runs_option; [exact Hreq|].
  apply runs_bind. eapply runs_mono; [apply dns_Id_ok|]. intros id w2 [E2 C2].
  apply runs_bind. eapply runs_mono; [apply WriteMsg_ok|]. intros werr w3 [E3 C3].
  assert (fw w3 = fw w1) as E13 by congruence.
  assert (evolves w w3) as Ev3 by (etrans; [exact Ev1|apply evolves_same; [done|lia]]).
  assert (cached k w3 = cached k w1) as Ek3 by by apply cached_same.
  assert (cached k w1 <= cached k w)%nat as Hle by (destruct from_cache; lia).
  assert (from_cache = true -> cached k w1 < cached k w)%nat as Hlt by by intros ->.
  destruct Ev1 as [_ Cv1]. clear Hd. destruct werr as [e|].
  { apply runs_bind. eapply runs_mono; [apply Close_ok|]. intros _ w4 [E4 C4]. apply runs_ret.
    assert (cached k w4 = cached k w1) as Ek4 by (apply cached_same; congruence).
    split; [etrans; [exact Ev3|by apply evolves_same]|]. split; [lia|]. split; [done|]. simpl.
    case_decide as Hc; [destruct Hc as [_ Hc]; specialize (Hlt Hc)|]; lia. }
  apply runs_bind, runs_get_now. apply runs_bind. eapply runs_mono; [apply runs_read|]. intros res w4 (E4 & C4 & Hid).
  assert (evolves w w4) as Ev4 by (etrans; [exact Ev3|by apply evolves_same]).
  assert (cached k w4 = cached k w1) as Ek4 by (apply cached_same; congruence).
  destruct res as [m|[ret e]].
  - destruct (evolves_lookup w w4 k p Ev4 Hk) as (p4 & Hk4 & _). apply runs_bind. eapply runs_Yield; [exact Hk4|].
    intros w5 Ev5 Hy. apply runs_ret. destruct Ev5 as [Es5 C5]. split; [etrans; [exact Ev4|by split]|]. split; [lia|].
    split; [by intros ? [= <-]|]. simpl. split; [by eexists|lia].
  - apply runs_bind. eapply runs_mono; [apply Close_ok|]. intros _ w5 [E5 C5]. apply runs_ret.
    assert (cached k w5 = cached k w1) as Ek5 by (apply cached_same; congruence).
    split; [etrans; [exact Ev4|by apply evolves_same]|]. split; [lia|].
    case_decide as Hc; simpl; [destruct Hc as [_ Hc]; specialize (Hlt Hc); split; [done|lia]|].
    split; [|lia]. intros m Hm. by destruct ret; simplify_eq/=.
Qed.

(** ** The retries with one upstream *)

Definition asked (req : Msg) (w : W) (r : option Msg * option FwErr) (w' : W) : Prop :=
  evolves w w' /\ (clock net w < clock net w')%Z /\ match r.2 with None => exists m, r.1 = Some m /\ mId m = mId req | Some _ => True end.

Lemma runs_connect_loop k state o w p req : proxies (fw w) !! k = Some p -> Req state = Some req ->
  runs (connect_loop is_UDPConn net fw put_fw k state o) w (asked req w).
Proof using NOk.
  intros Hk Hreq. unfold connect_loop. apply runs_bind. eapply runs_get_proxy; [exact Hk|].
  assert (cached k w = cached_conns (transport p)) as Ek by (unfold cached; by rewrite Hk). rewrite <- Ek.
  apply (until_runs _ (fun _ w' => evolves w w') (fun o w' => Z.of_nat (cached k w') + if forceTCP o then 0 else 2)%Z).
  - intros o1 w1 Ev1. destruct (evolves_lookup w w1 k p Ev1 Hk) as (p1 & Hk1 & _). unfold connect_turn. apply runs_bind.
    eapply runs_mono; [by eapply runs_exchange|]. intros [ret err] w2 (Ev2 & C2 & Hm & Hc). simpl in Hm, Hc.
    assert (evolves w w2) as Ev by by etrans. destruct Ev1 as [_ C1].
    assert (runs (mret (inr (ret, err)) : st W (options + _)) w2
      (turned (fun _ w' => evolves w w') (fun o w' => Z.of_nat (cached k w') + if forceTCP o then 0 else 2)%Z (asked req w)
        (Z.of_nat (cached k w1) + (if forceTCP o1 then 0 else 2) - 1)%Z)) as Hend.
    { apply runs_ret. split; [done|]. split; [lia|]. simpl. destruct err; [done|]. destruct Hc as [[m ->] _]. exists m. auto. }
    assert (forall m, ret = Some m -> err <> Some ErrCachedClosed ->
      runs (if (mTruncated m && negb (forceTCP o1) && preferUDP o1)%bool then mret (inl (set_forceTCP true o1)) else mret (inr (ret, err))) w2
      (turned (fun _ w' => evolves w w') (fun o w' => Z.of_nat (cached k w') + if forceTCP o then 0 else 2)%Z (asked req w)
        (Z.of_nat (cached k w1) + (if forceTCP o1 then 0 else 2) - 1)%Z)) as Hretry.
    { intros m _ He. destruct (_ && _)%bool eqn:Eb; [|done]. apply runs_ret. split; [done|]. simpl.
      apply andb_true_iff in Eb as [[_ Ef%negb_true_iff]%andb_true_iff _]. rewrite Ef.
      destruct err as [[]|]; [done|lia|]. destruct Hc as [_ Hc]. lia. }
    destruct err as [[|e]|].
    + apply runs_ret. split; [done|]. destruct (forceTCP o1); lia.
    + destruct ret as [m|]; [by apply Hretry|done].
    + destruct ret as [m|]; [by apply Hretry|done].
  - reflexivity.
  - destruct (forceTCP o); lia.
Qed.

(** ** The loop over the upstreams *)

Definition quiet (w w' : W) : Prop := fw w' = fw w /\ (clock net w <= clock net w')%Z.

Lemma runs_random_List l w : runs (random_List (rn_Int net) (rn_Perm net) l) w (fun r w' => r ≡ₚ l /\ quiet w w').
Proof using NOk.
  assert (runs (perms ← rn_Perm net (length l); of_option (mapM (fun i => l !! i) perms)) w (fun r w' => r ≡ₚ l /\ quiet w w')) as Hp.
  { apply runs_bind. eapply runs_mono; [apply rn_Perm_ok|]. intros perms w' [Hp Hq].
    destruct (mapM_lookup_perm l perms Hp) as (r & Er & Hr). by eapply runs_option. }
  destruct l as [|a [|b [|c l]]]; cbn [random_List]; try exact Hp.
  - apply runs_ret. split; [done|]. split; [done|lia].
  - apply runs_bind. eapply runs_mono; [apply rn_Int_ok|]. intros i w' Hq. apply runs_ret. split; [|done].
    case_decide; [apply Permutation_swap|done].
Qed.

Section loop.
Context (state : Request) (req : Msg) (Hreq : Req state = Some req) (w0 : W) (l : list nat) (deadline : Z).
Let f0 := fw w0.
Let n := length (proxies f0).
Context (Hl : l ≡ₚ seq 0 n).

Definition is_down (k : nat) : bool := match proxies f0 !! k with Some p => Down (maxfails f0) p | None => false end.
(** The upstreams that are down among the first ones of the list. *)
Definition downs (i : nat) : nat := length (filter (fun k => is_down k = true) (take i l)).

Definition all_down : Prop := forall k p, proxies f0 !! k = Some p -> Down (maxfails f0) p = true.

(** What the client gets in the end. *)
Definition served (r : list Msg * Z * option string) (w : W) : Prop :=
  evolves w0 w /\
  ((exists m, r = ([m], RcodeSuccess, None) /\ mId m = mId req /\ (Match state m = true \/ m = SetRcode zeroMsg req RcodeFormatError)) \/
   (exists e, r = ([], RcodeServerFailure, Some e) /\ ((deadline <= clock net w)%Z \/ all_down))).

Definition serving_inv (s : Serving) (w : W) : Prop :=
  evolves w0 w /\ (sv_i s <= n)%nat /\ sv_fails s = downs (sv_i s) /\ (sv_fails s < n)%nat.

(** Passing over upstreams takes no time. *)
Definition skips_left (s : Serving) : Z :=
  if decide (sv_fails s = sv_i s) then Z.of_nat n - Z.of_nat (sv_fails s) else 2 * Z.of_nat n - Z.of_nat (sv_i s).
Definition serving_mu (s : Serving) (w : W) : Z := Z.max 0 (deadline - clock net w) * (2 * Z.of_nat n + 1) + skips_left s.

Lemma length_l : length l = n.
Proof using Hl. apply Permutation_length in Hl. by rewrite length_seq in Hl. Qed.

Lemma downs_le i : (downs i <= i)%nat.
Proof using Type. unfold downs. rewrite length_filter, length_take. lia. Qed.

Lemma downs_S i k : l !! i = Some k -> downs (S i) = if is_down k then S (downs i) else downs i.
Proof using Type.
  intros Hk. unfold downs. rewrite (take_S_r _ _ _ Hk), filter_app, length_app. rewrite filter_cons.
  destruct (is_down k); simpl; rewrite ?filter_nil; simpl; lia.
Qed.

Lemma in_l i k : l !! i = Some k -> exists p, proxies f0 !! k = Some p.
Proof using Hl.
  intros Hk. apply list_elem_of_lookup_2 in Hk. rewrite Hl in Hk. apply elem_of_seq in Hk. apply lookup_lt_is_Some_2. unfold n in *. lia.
Qed.

Lemma downs_all i : (i <= n)%nat -> (n <= downs i)%nat -> all_down.
Proof using Hl.
  intros Hi Hd. pose proof (downs_le i). assert (i = n) as -> by lia. intros k p Hk.
  assert (Forall (fun k => is_down k = true) l) as Hf.
  { unfold downs in Hd. rewrite take_ge in Hd by (rewrite length_l; lia).
    apply (filter_length_all _ l). rewrite length_l. lia. }
  rewrite Forall_forall in Hf. specialize (Hf k). unfold is_down in Hf. rewrite Hk in Hf. apply Hf. rewrite Hl. apply elem_of_seq.
  apply lookup_lt_Some in Hk. unfold n. lia.
Qed.

Context (Hn : (0 < n)%nat).

Lemma Down_stable w k p p' : evolves w0 w -> proxies f0 !! k = Some p -> proxies (fw w) !! k = Some p' ->
  Down (maxfails (fw w)) p' = is_down k.
Proof using Type.
  intros Ev Hp Hp'. destruct (evolves_lookup w0 w k p Ev Hp) as (q & Hq & Hf & _). rewrite Hp' in Hq. injection Hq as <-.
  unfold is_down, f0 in *. rewrite Hp. destruct Ev as [(_ & -> & _) _]. unfold Down. by rewrite Hf.
Qed.

(** The upstream that is asked: the one in turn, or any when all are down. *)
Lemma runs_choose k w : (k < n)%nat -> evolves w0 w ->
  runs (if is_down k then perm ← random_List (rn_Int net) (rn_Perm net) (seq 0 (length (proxies (fw w)))); of_option (head perm) else mret k) w
    (fun k' w' => quiet w w' /\ (k' < n)%nat).
Proof using NOk Hn.
  intros Hk Ev. destruct (is_down k); [|apply runs_ret; split; [split; [done|lia]|done]].
  apply runs_bind. eapply runs_mono; [apply runs_random_List|]. intros perm w' [Hp Hq].
  rewrite (evolves_length w0 w Ev) in Hp. fold f0 in Hp. fold n in Hp. destruct perm as [|k' perm].
  { apply Permutation_length in Hp. rewrite length_seq in Hp. simpl in Hp. lia. }
  eapply runs_option; [reflexivity|]. split; [done|].
  assert (k' ∈ seq 0 n) as Hin by (rewrite <- Hp; by left). apply elem_of_seq in Hin. lia.
Qed.

(** One turn, at a place of the list. *)
Lemma serve_turn_at i k fails err w :
  evolves w0 w -> (i < n)%nat -> l !! i = Some k -> fails = downs i -> (clock net w < deadline)%Z ->
  runs (let fails' := if is_down k then S fails else fails in
        if (is_down k && bool_decide (fails' < n)%nat)%bool then mret (inl (mkServing (S i) fails' err))
        else
          k ← (if is_down k then perm ← random_List (rn_Int net) (rn_Perm net) (seq 0 n); of_option (head perm) else mret k);
          '(ret, err) ← connect_loop is_UDPConn net fw put_fw k state (opts f0);
          match err with
          | Some e =>
              _ ← (if decide (maxfails f0 <> 0)%Z then mod_proxy fw put_fw k Proxy_Healthcheck else mret tt);
              if decide (fails' < n)%nat then mret (inl (mkServing (S i) fails' (Some e)))
              else mret (inr ([], RcodeServerFailure, Some (fw_string e)))
          | None =>
              ret ← of_option ret;
              req ← of_option (Req state);
              mret (inr ([if Match state ret then ret else SetRcode zeroMsg req RcodeFormatError], RcodeSuccess, None))
          end) w
    (fun r w' => match r with
      | inl s' => serving_inv s' w' /\ sv_i s' = S i /\
          ((clock net w < clock net w')%Z \/ (w' = w /\ is_down k = true /\ sv_fails s' = S fails))
      | inr r => served r w'
      end).
Proof using NOk MOk Hn Hl Hreq.
  intros Ev Hi Hk -> Hc. cbv zeta. pose proof (downs_S i k Hk) as HS. rewrite <- HS.
  destruct (in_l i k Hk) as [p Hp]. assert (k < n)%nat as Hkn by (apply lookup_lt_Some in Hp; exact Hp).
  destruct (is_down k && _)%bool eqn:Eskip.
  { apply andb_true_iff in Eskip as [Ed Ef%bool_decide_eq_true]. rewrite Ed in HS. apply runs_ret.
    split; [split; [done|]; split; [simpl; lia|done]|]. split; [done|]. right. split; [done|]. split; [done|]. simpl. lia. }
  apply runs_bind.
  assert (n = length (proxies (fw w))) as En by (symmetry; apply (evolves_length w0 w Ev)). rewrite En at 1.
  eapply runs_mono; [by apply runs_choose|]. intros k' w1 [[E1 C1] Hk'].
  assert (evolves w0 w1) as Ev1 by (etrans; [exact Ev|by apply evolves_same]).
  destruct (lookup_lt_is_Some_2 (proxies f0) k' Hk') as [q Hq].
  destruct (evolves_lookup w0 w1 k' q Ev1 Hq) as (q1 & Hq1 & _).
  apply runs_bind. eapply runs_mono; [by eapply runs_connect_loop|]. intros [ret err2] w2 (Ev2 & C2 & Hret). simpl in Hret.
  assert (evolves w0 w2) as Ev02 by by etrans. destruct err2 as [e|]; cycle 1.
  { destruct Hret as (m & -> & Hm). apply runs_bind. eapply runs_option; [reflexivity|]. apply runs_bind.
    eapply runs_option; [exact Hreq|]. apply runs_ret. split; [done|]. left. destruct (Match state m) eqn:Em.
    - exists m. split; [done|]. split; [done|by left].
    - eexists. split; [done|]. split; [by rewrite SetRcode_ok, SetReply_ok|by right]. }
  destruct (evolves_lookup w1 w2 k' q1 Ev2 Hq1) as (q2 & Hq2 & _). apply runs_bind.
  apply (runs_mono _ _ (fun _ w3 => evolves w2 w3)).
  { destruct (decide (maxfails f0 <> 0)%Z); [|apply runs_ret; reflexivity]. eapply runs_mod_proxy; [exact Hq2| |done].
    unfold Proxy_Healthcheck. by destruct (health q2). }
  intros _ w3 Ev3. assert (evolves w0 w3) as Ev03 by by etrans. destruct Ev3 as [_ C3]. destruct (decide (downs (S i) < n)%nat) as [Hf|Hf]; apply runs_ret.
  - split; [split; [done|]; split; [simpl; lia|done]|]. split; [done|]. left. lia.
  - split; [done|]. right. eexists. split; [done|]. right. apply (downs_all (S i)); lia.
Qed.

Lemma serve_turn_ok s w : serving_inv s w ->
  runs (serve_turn is_UDPConn net fw put_fw state l deadline s) w (turned serving_inv serving_mu served (serving_mu s w - 1)).
Proof using NOk MOk Hn Hl Hreq.
  intros (Ev & Hi & Hf & Hfn). unfold serve_turn. apply runs_bind, runs_get_now. cbv zeta. case_decide as Hd.
  { apply runs_ret. split; [done|]. right. eexists. split; [done|]. by left. }
  rewrite length_l.
  assert (exists i fails, (if decide (n <= sv_i s)%nat then (0, 0)%nat else (sv_i s, sv_fails s)) = (i, fails) /\ (i < n)%nat /\ fails = downs i /\
    (i = sv_i s /\ fails = sv_fails s \/ i = 0%nat /\ sv_i s = n)) as (i & fails & -> & Hin & -> & Hcase).
  { case_decide; eexists _, _; (split; [reflexivity|]).
    - split; [done|]. split; [done|]. right. split; [done|lia].
    - split; [lia|]. split; [done|]. by left. }
  destruct (lookup_lt_is_Some_2 l i) as [k Hk]; [by rewrite length_l|]. apply runs_bind. eapply runs_option; [exact Hk|].
  apply runs_bind, runs_get_fw. destruct (in_l i k Hk) as [p Hp]. destruct (evolves_lookup w0 w k p Ev Hp) as (p' & Hp' & _).
  apply runs_bind. eapply runs_get_proxy; [exact Hp'|]. rewrite (Down_stable w k p p' Ev Hp Hp'), (evolves_length w0 w Ev).
  assert (opts (fw w) = opts f0 /\ maxfails (fw w) = maxfails f0) as [-> ->] by (destruct Ev as [(_ & Hmf & Ho & _) _]; done).
  fold f0. fold n. eapply runs_mono; [apply (serve_turn_at i k (downs i) (sv_err s) w); (done || lia)|].
  intros [s'|r] w' Hr; [|exact Hr]. destruct Hr as (Hinv & Hi' & Hprog). split; [done|]. destruct Hinv as (_ & Hin' & Hf' & Hfn').
  pose proof (downs_le (sv_i s')). pose proof (downs_le (sv_i s)). rewrite Hi' in *. unfold serving_mu, skips_left. rewrite Hi'.
  destruct Hprog as [Ht|(-> & Edown & Hfs)].
  - assert (Z.max 0 (deadline - clock net w') <= Z.max 0 (deadline - clock net w) - 1)%Z as Hm by lia.
    repeat case_decide; nia.
  - destruct Hcase as [[-> Hff]|[-> Hsn]]; repeat case_decide; nia.
Qed.

Lemma runs_serve w : evolves w0 w -> deadline = (clock net w + defaultTimeout)%Z ->
  runs (until (serve_turn is_UDPConn net fw put_fw state l deadline) (serve_bound (length l)) (mkServing 0 0 None)) w served.
Proof using NOk MOk Hn Hl Hreq.
  intros Ev Hd. apply (until_runs _ serving_inv serving_mu served serve_turn_ok).
  - split; [done|]. split; [simpl; lia|]. split; [by unfold downs|done].
  - rewrite length_l. unfold serving_mu, skips_left, serve_bound. simpl. rewrite Hd.
    replace (clock net w + defaultTimeout - clock net w)%Z with defaultTimeout by lia. unfold defaultTimeout, Second. rewrite Z2Pos.id; lia.
Qed.
End loop.

(** ** A query *)

Lemma runs_Forward_List w :
  proxies (fw w) <> [] -> (Z.of_nat (length (proxies (fw w))) < 2 ^ 32)%Z ->
  runs (Forward_List net fw put_fw) w (fun l w' => l ≡ₚ seq 0 (length (proxies (fw w))) /\ evolves w w').
Proof using NOk.
  intros Hp Hlen. unfold Forward_List. apply runs_bind, runs_get_fw.
  assert (seq 0 (length (proxies (fw w))) <> []) as Hs by (destruct (proxies (fw w)); [done|discriminate]).
  apply runs_bind. apply (runs_mono _ _ (fun '(_, l) w' => l ≡ₚ seq 0 (length (proxies (fw w))) /\ quiet w w')).
  - destruct (fw_policy (fw w)) as [|robin|]; cbn [Policy_List].
    + apply runs_bind. eapply runs_mono; [apply runs_random_List|]. intros l w' Hl. by apply runs_ret.
    + apply runs_bind. destruct (roundRobin_List_ok robin (seq 0 (length (proxies (fw w)))) Hs) as (x & l & E & Hperm & _);
        [by rewrite length_seq|]. eapply runs_option; [exact E|]. apply runs_ret. split; [done|]. split; [done|lia].
    + apply runs_ret. split; [done|]. split; [done|lia].
  - intros [pol l] w' [Hl [E C]]. apply runs_bind. eexists _, tt. split; [reflexivity|]. apply runs_ret. split; [done|].
    split; [|rewrite clock_put; lia]. rewrite fw_put, E. by repeat split.
Qed.

(** What the client gets from a query that came in at a time. *)
Definition query_result (state : Request) (req : Msg) (w : W) (r : list Msg * Z * option string) (w' : W) : Prop :=
  evolves w w' /\
  ((exists m, r = ([m], RcodeSuccess, None) /\ mId m = mId req /\ (Match state m = true \/ m = SetRcode zeroMsg req RcodeFormatError)) \/
   (exists e, r = ([], RcodeServerFailure, Some e) /\
      ((clock net w + defaultTimeout <= clock net w')%Z \/
       forall k p, proxies (fw w) !! k = Some p -> Down (maxfails (fw w)) p = true))).

Lemma runs_forward_query state req w :
  Req state = Some req -> proxies (fw w) <> [] -> (Z.of_nat (length (proxies (fw w))) < 2 ^ 32)%Z ->
  runs (forward_query is_UDPConn net fw put_fw state) w (query_result state req w).
Proof using NOk MOk.
  intros Hreq Hp Hlen. unfold forward_query. apply runs_bind. eapply runs_mono; [by apply runs_Forward_List|].
  intros l w1 [Hl Ev1]. apply runs_bind, runs_get_now.
  assert (0 < length (proxies (fw w)))%nat as Hn by (destruct (proxies (fw w)); [done|simpl; lia]).
  eapply runs_mono; [by apply (runs_serve state req Hreq w l (clock net w1 + defaultTimeout) Hl Hn w1)|].
  intros r w' [Ev Hr]. split; [done|]. destruct Hr as [Hr|(e & Hr & Hd)]; [by left|]. right. exists e. split; [done|].
  destruct Hd as [Hd|Hd]; [|by right]. left. destruct Ev1 as [_ C1]. lia.
Qed.

Lemma runs_mod_fw g w (Q : unit -> W -> Prop) :
  (forall w', fw w' = g (fw w) -> clock net w' = clock net w -> Q tt w') -> runs (mod_fw fw put_fw g) w Q.
Proof using NOk. intros HQ. eexists _, tt. split; [reflexivity|]. apply HQ; [apply fw_put|apply clock_put]. Qed.

(** The result without the state of the upstreams afterwards. *)
Definition query_outcome (state : Request) (req : Msg) (w : W) (r : list Msg * Z * option string) (w' : W) : Prop :=
  (exists m, r = ([m], RcodeSuccess, None) /\ mId m = mId req /\ (Match state m = true \/ m = SetRcode zeroMsg req RcodeFormatError)) \/
  (exists e, r = ([], RcodeServerFailure, Some e) /\
     ((clock net w + defaultTimeout <= clock net w')%Z \/
      forall k p, proxies (fw w) !! k = Some p -> Down (maxfails (fw w)) p = true)).

Lemma runs_forward_limited state req w :
  Req state = Some req -> proxies (fw w) <> [] -> (Z.of_nat (length (proxies (fw w))) < 2 ^ 32)%Z ->
  (- 2 ^ 63 <= concurrent (fw w) < 2 ^ 63)%Z ->
  runs (forward_limited is_UDPConn net fw put_fw state) w (fun r w' =>
    concurrent (fw w') = concurrent (fw w) /\
    if decide (0 < maxConcurrent (fw w) < i64 (concurrent (fw w) + 1))%Z
    then r = ([], RcodeRefused, ErrLimitExceeded (fw w)) else query_outcome state req w r w').
Proof using NOk MOk.
  intros Hreq Hp Hlen Hc. unfold forward_limited. apply runs_bind, runs_get_fw. destruct (decide (0 < maxConcurrent (fw w))%Z) as [Hmax|Hmax].
  - apply runs_bind, runs_mod_fw. intros w1 E1 C1. apply runs_bind, runs_get_fw. apply runs_bind.
    assert (concurrent (fw w1) = i64 (concurrent (fw w) + 1) /\ maxConcurrent (fw w1) = maxConcurrent (fw w) /\
      proxies (fw w1) = proxies (fw w) /\ maxfails (fw w1) = maxfails (fw w)) as (Ec & Em & Ep & Ef) by by rewrite E1.
    rewrite Ec, Em. destruct (decide (maxConcurrent (fw w) < i64 (concurrent (fw w) + 1))%Z) as [Hlim|Hlim].
    + apply runs_ret. apply runs_bind, runs_mod_fw. intros w2 E2 C2. apply runs_ret.
      split; [rewrite E2; simpl; rewrite Ec; by apply i64_back|]. rewrite decide_True by lia. by rewrite E1.
    + eapply runs_mono; [apply (runs_forward_query state req w1); [done|by rewrite Ep|by rewrite Ep]|].
      intros r w2 [Ev Hr]. apply runs_bind, runs_mod_fw. intros w3 E3 C3. apply runs_ret.
      assert (concurrent (fw w2) = concurrent (fw w1)) as Ec2 by (destruct Ev as [(_ & _ & _ & ? & _) _]; done).
      split; [rewrite E3; simpl; rewrite Ec2, Ec; by apply i64_back|]. rewrite decide_False by lia. unfold query_outcome.
      rewrite C3, <- C1, <- Ep, <- Ef. exact Hr.
  - eapply runs_mono; [by apply runs_forward_query|]. intros r w' [Ev Hr]. rewrite decide_False by lia.
    split; [by destruct Ev as [(_ & _ & _ & ? & _) _]|exact Hr].
Qed.
End serving.

(** ** Theorems *)


(** ** A network for closed examples *)

(** The clock, the plugin, the addresses that refuse connections, and what the
    upstreams send one after the other. *)
Record ExNet := mkExNet { ex_clock : Z; ex_fw : Forward bool; ex_refused : list string; ex_reads : list (Msg + IoErr); ex_id : Z }.

Definition ex_tick (w : ExNet) : ExNet := mkExNet (ex_clock w + Millisecond) (ex_fw w) (ex_refused w) (ex_reads w) (ex_id w).
Definition ex_put (f : Forward bool) (w : ExNet) : ExNet := mkExNet (ex_clock w) f (ex_refused w) (ex_reads w) (ex_id w).

Definition example_net : Network (Conn := bool) ExNet := {|
  clock := ex_clock;
  DialTimeout := fun proto addr _ _ w =>
    Some (ex_tick w, if decide (addr ∈ ex_refused w) then inr ("dial " +:+ addr +:+ ": connection refused") else inl (bool_decide (proto = "udp"%string)));
  WriteMsg := fun _ _ _ w => Some (ex_tick w, None);
  ReadMsg := fun _ _ deadline w =>
    let w' := ex_tick w in
    if decide (ex_clock w' <= deadline)%Z then
      match ex_reads w' with
      | inl m :: reads => Some (mkExNet (ex_clock w') (ex_fw w') (ex_refused w') reads (ex_id w'), (Some m, None))
      | inr e :: reads => Some (mkExNet (ex_clock w') (ex_fw w') (ex_refused w') reads (ex_id w'), (None, Some e))
      | [] => Some (w', (None, Some (io_err "i/o timeout")))
      end
    else Some (w', (None, Some (io_err "i/o timeout")));
  Close := fun _ w => Some (w, tt);
  yield_taken := fun w => Some (w, true);
  dns_Id := fun w => Some (w, ex_id w);
  rn_Int := fun w => Some (w, 1%Z);
  rn_Perm := fun n w => Some (w, seq 0 n)
|}.

Definition example_net_ok : NetworkOk example_net ex_fw ex_put.
Proof.
  constructor.
  - done.
  - done.
  - intros. eexists _, _. split; [reflexivity|]. split; [done|simpl; unfold Millisecond; lia].
  - intros. eexists _, _. split; [reflexivity|]. split; [done|simpl; unfold Millisecond; lia].
  - intros conn size d w. unfold runs. cbn [ReadMsg example_net]. cbv zeta. destruct (decide (ex_clock (ex_tick w) <= d)%Z) as [Hd|Hd].
    + destruct (ex_reads (ex_tick w)) as [|[m|e] reads]; eexists _, _; (split; [reflexivity|]);
        (split; [done|]); (split; [simpl; unfold Millisecond; lia|]); [done| |done]. intros _. split; [by eexists|exact Hd].
    + eexists _, _. split; [reflexivity|]. split; [done|]. split; [simpl; unfold Millisecond; lia|done].
  - intros. eexists _, _. split; [reflexivity|]. split; [done|simpl; lia].
  - intros. eexists _, _. split; [reflexivity|]. split; [done|simpl; lia].
  - intros. eexists _, _. split; [reflexivity|]. split; [done|simpl; lia].
  - intros. eexists _, _. split; [reflexivity|]. split; [done|simpl; lia].
  - intros. eexists _, _. split; [reflexivity|]. split; [done|]. split; [done|simpl; lia].
Defined.

Definition example_upstreams (pol : FwPolicy) (o : options) (addrs : list string) : Forward bool :=
  mkForward 0 (map (fun a => NewProxy a tDNS) addrs) pol fw_hcInterval dot ["internal.org."%string] (mkTlsConfig None None EmptyString) EmptyString 2
    defaultExpire 10 o (Some "concurrent queries exceeded maximum 10"%string).
Definition example_opts : options := mkOptions false false true dot.

Definition ex_question : Msg := set_mId 7 (set_mQuestion [mkQuestion "www.example.org." TypeA ClassINET] zeroMsg).
Definition ex_answer (id : Z) (truncated : bool) : Msg :=
  mkMsg id true 0 false truncated true true false false RcodeSuccess false [mkQuestion "www.example.org." TypeA ClassINET]
    [mkRR "www.example.org." TypeA ClassINET 300 (A [192; 0; 2; 1]%Z)] [] [].

(** The first upstream refuses connections; the second sends a reply to another
    query before the one to this. *)
Definition ex_world (pol : FwPolicy) (o : options) (refused : list string) (reads : list (Msg + IoErr)) : ExNet :=
  mkExNet 0 (example_upstreams pol o ["10.0.0.1:53"; "10.0.0.2:53"]%string) refused reads 4711.

#[local] Existing Instance dns_reference.
#[local] Existing Instance msgs_reference.

Definition ex_serve (w : ExNet) : option (ExNet * list Msg * Z * option string) :=
  Forward_ServeDNS id example_net ex_fw ex_put None (mkCtx 0 None) example_client ex_question w.


Definition outcome_of (r : option (ExNet * list Msg * Z * option string)) : option (list Msg * Z * option string * Z) :=
  match r with Some (s, msgs, rcode, err) => Some (msgs, rcode, err, ex_clock s) | None => None end.

(** A truncated reply over UDP is asked for again over TCP; a reply to another
    question is answered with a format error; upstreams that refuse every
    connection are tried until the five seconds are over. *)
Example forward_runs :
  outcome_of (ex_serve (ex_world fw_sequential (mkOptions false true true dot) [] [inl (ex_answer 4711 true); inl (ex_answer 4711 false)])) =
    Some ([ex_answer 7 false], RcodeSuccess, None, 6 * Millisecond)%Z /\
  outcome_of (ex_serve (ex_world (fw_roundRobin 0) example_opts []
    [inl (set_mQuestion [mkQuestion "other.org." TypeA ClassINET] (ex_answer 4711 false))])) =
    Some ([SetRcode zeroMsg ex_question RcodeFormatError], RcodeSuccess, None, 3 * Millisecond)%Z /\
  outcome_of (ex_serve (ex_world fw_random example_opts ["10.0.0.1:53"; "10.0.0.2:53"]%string [])) =
    Some ([], RcodeServerFailure, Some "dial 10.0.0.2:53: connection refused"%string, 5 * Second)%Z.
Proof. vm_compute. repeat split. Qed.
