(* ===== verification/SetupPlugins.v ===== *)
(** * The set-up of the plugins that change or answer queries

    The parse functions of the setup.go of cache, hosts, acl, dns64, rewrite,
    loadbalance, bufsize, nsid, chaos, header, loop, erratic, autopath and
    metadata, and plugin/pkg/fall's reading of zones: from the tokens of the
    Corefile to the configuration the handlers work with. *)

From S2P Require Import Prelude.
From S2P Require Import GoStd.
From S2P Require Import GoNet.
From S2P Require Import GoText.
From S2P Require Import GoTime.
From S2P Require Import DnsNames.
From S2P Require Import DnsMsg.
From S2P Require Import Request.
From S2P Require Import Plugin.
From S2P Require Import Normalize.
From S2P Require Import Transfer.
From S2P Require Import PkgCache.
From S2P Require Import CachePlugin.
From S2P Require Import Hosts.
From S2P Require Import Caddy.
From S2P Require Import LoadBalance.
From S2P Require Import Dns64.
From S2P Require Import Acl.
From S2P Require Import SmallPlugins.
From S2P Require Import Rewrite.
From S2P Require Import RewriteRules.

Definition ErrOnce : string := "this plugin can only be used once per Server Block".

(** ** Shared *)

Section shared.
Context `{Caddy} `{DnsNames} `{Networks}.

Definition c_origins (args : list string) : cfg (list string) :=
  keys ← c_keys; c_lift (OriginsFromArgsOrServerBlock args keys).

Definition c_pluginArgErr {A} (name : string) : cfg A := fun c => Some (inr (plugin_Error name (c_ArgErr c))).

(** plugin/pkg/fall: without arguments everything falls through. *)
Definition SetZonesFromArgs (zones : list string) : option (list string) :=
  @concat string <$> mapM NormalizeExact (if decide (zones = []) then [dot] else zones).

(** A path from the configuration, below the root directory. *)
Definition IsAbs (path : string) : bool := HasPrefix path "/".
Definition filepath_Join (dir file : string) : string :=
  if decide (dir = EmptyString) then if decide (file = EmptyString) then EmptyString else Clean file
  else if decide (file = EmptyString) then Clean dir
  else Clean (dir +:+ "/" +:+ file).
Definition rooted_path (root path : string) : string :=
  if (negb (IsAbs path) && bool_decide (root <> EmptyString))%bool then filepath_Join root path else path.
End shared.

(** ** cache *)

Section cache.
Context `{Caddy} `{DnsNames} `{Networks}.

Definition set_zones z c := mkConf z (ccPcap c) (ccPttl c) (ccMinpttl c) (ccNcap c) (ccNttl c) (ccMinnttl c) (ccFailttl c)
  (ccPrefetch c) (ccDuration c) (ccPercentage c) (ccStaleUpTo c) (ccVerifyStale c) (ccPexcept c) (ccNexcept c) (ccKeepttl c).
Definition set_ttls p n c := mkConf (ccZones c) (ccPcap c) p (ccMinpttl c) (ccNcap c) n (ccMinnttl c) (ccFailttl c)
  (ccPrefetch c) (ccDuration c) (ccPercentage c) (ccStaleUpTo c) (ccVerifyStale c) (ccPexcept c) (ccNexcept c) (ccKeepttl c).
Definition set_success cap ttl min c := mkConf (ccZones c) cap ttl min (ccNcap c) (ccNttl c) (ccMinnttl c) (ccFailttl c)
  (ccPrefetch c) (ccDuration c) (ccPercentage c) (ccStaleUpTo c) (ccVerifyStale c) (ccPexcept c) (ccNexcept c) (ccKeepttl c).
Definition set_denial cap ttl min c := mkConf (ccZones c) (ccPcap c) (ccPttl c) (ccMinpttl c) cap ttl min (ccFailttl c)
  (ccPrefetch c) (ccDuration c) (ccPercentage c) (ccStaleUpTo c) (ccVerifyStale c) (ccPexcept c) (ccNexcept c) (ccKeepttl c).
Definition set_prefetch n d pct c := mkConf (ccZones c) (ccPcap c) (ccPttl c) (ccMinpttl c) (ccNcap c) (ccNttl c) (ccMinnttl c)
  (ccFailttl c) n d pct (ccStaleUpTo c) (ccVerifyStale c) (ccPexcept c) (ccNexcept c) (ccKeepttl c).
Definition set_stale d verify c := mkConf (ccZones c) (ccPcap c) (ccPttl c) (ccMinpttl c) (ccNcap c) (ccNttl c) (ccMinnttl c)
  (ccFailttl c) (ccPrefetch c) (ccDuration c) (ccPercentage c) d verify (ccPexcept c) (ccNexcept c) (ccKeepttl c).
Definition set_failttl d c := mkConf (ccZones c) (ccPcap c) (ccPttl c) (ccMinpttl c) (ccNcap c) (ccNttl c) (ccMinnttl c) d
  (ccPrefetch c) (ccDuration c) (ccPercentage c) (ccStaleUpTo c) (ccVerifyStale c) (ccPexcept c) (ccNexcept c) (ccKeepttl c).
Definition set_except p n c := mkConf (ccZones c) (ccPcap c) (ccPttl c) (ccMinpttl c) (ccNcap c) (ccNttl c) (ccMinnttl c) (ccFailttl c)
  (ccPrefetch c) (ccDuration c) (ccPercentage c) (ccStaleUpTo c) (ccVerifyStale c) p n (ccKeepttl c).
Definition set_keepttl b c := mkConf (ccZones c) (ccPcap c) (ccPttl c) (ccMinpttl c) (ccNcap c) (ccNttl c) (ccMinnttl c) (ccFailttl c)
  (ccPrefetch c) (ccDuration c) (ccPercentage c) (ccStaleUpTo c) (ccVerifyStale c) (ccPexcept c) (ccNexcept c) b.

(** [time.Duration(n) * time.Second]. *)
Definition in_seconds (n : Z) : Z := i64 (n * Second).

(** Capacity, and the TTL and smallest TTL when they are given. *)
Definition cache_caps (ttl min : Z) : cfg (Z * Z * Z) :=
  args ← c_args;
  match args with
  | [] => c_argErr
  | a :: more =>
      cap ← c_try (Atoi a);
      match more with
      | [] => mret (cap, ttl, min)
      | b :: more =>
          t ← c_try (Atoi b);
          if decide (t <= 0)%Z then c_fail ("cache TTL can not be zero or negative: " +:+ Itoa t)
          else
            match more with
            | [] => mret (cap, in_seconds t, min)
            | m :: _ =>
                n ← c_try (Atoi m);
                if decide (n < 0)%Z then c_fail ("cache min TTL can not be negative: " +:+ Itoa n)
                else mret (cap, in_seconds t, in_seconds n)
            end
      end
  end.

(** A percentage; an empty string has no last character. *)
Definition cache_percentage (pct : string) : cfg Z :=
  rest ← c_lift (if decide (pct = EmptyString) then None else Some (sdrop (slen pct - 1) pct));
  if decide (rest <> "%") then c_fail ("last character of percentage should be `%`, but is: '" +:+ rest +:+ "'")
  else
    num ← c_try (Atoi (stake (slen pct - 1) pct));
    if decide (num < 10 \/ 90 < num)%Z then c_fail ("percentage should fall in range [10, 90]: " +:+ Itoa num) else mret num.

Definition cache_prefetch (ca : CacheConf) : cfg CacheConf :=
  args ← c_args;
  match args with
  | a :: more =>
      if decide (2 < length more)%nat then c_argErr
      else
        amount ← c_try (Atoi a);
        if decide (amount < 0)%Z then c_fail ("prefetch amount should be positive: " +:+ Itoa amount)
        else
          dur ← match more with d :: _ => c_try (ParseDuration d) | [] => mret (ccDuration ca) end;
          pct ← match more with _ :: p :: _ => cache_percentage p | _ => mret (ccPercentage ca) end;
          mret (set_prefetch amount dur pct ca)
  | [] => c_argErr
  end.

Definition cache_stale (ca : CacheConf) : cfg CacheConf :=
  args ← c_args;
  if decide (2 < length args)%nat then c_argErr
  else
    d ← match args with
        | a :: _ => d ← c_try (ParseDuration a); if decide (d < 0)%Z then c_fail "invalid negative duration for serve_stale" else mret d
        | [] => mret (1 * Hour)%Z
        end;
    verify ← match args with
             | _ :: m :: _ =>
                 let mode := ToLower m in
                 if decide (mode <> "immediate" /\ mode <> "verify") then c_fail ("invalid value for serve_stale refresh mode: " +:+ mode)
                 else mret (bool_decide (mode = "verify"))
             | _ => mret false
             end;
    mret (set_stale d verify ca).

Definition cache_servfail (ca : CacheConf) : cfg CacheConf :=
  args ← c_args;
  match args with
  | [a] =>
      d ← c_try (ParseDuration a);
      if decide (d < 0)%Z then c_fail "invalid negative ttl for servfail"
      else if decide (5 * Minute < d)%Z then c_fail "caching SERVFAIL responses over 5 minutes is not permitted"
      else mret (set_failttl d ca)
  | _ => c_argErr
  end.

Definition cache_disable (ca : CacheConf) : cfg CacheConf :=
  args ← c_args;
  match args with
  | [] => c_argErr
  | what :: more =>
      zones ← (if decide (more = []) then mret [dot]
               else match find (fun z => bool_decide (Name_Normalize z = EmptyString)) more with
                    | Some z => c_fail ("invalid disabled zone: " +:+ z)
                    | None => mret (map Name_Normalize more)
                    end);
      if decide (what = "denial") then mret (set_except (ccPexcept ca) zones ca)
      else if decide (what = "success") then mret (set_except zones (ccNexcept ca) ca)
      else c_fail ("cache type for disable must be " +:+ go_quote "success" +:+ " or " +:+ go_quote "denial")
  end.

(** One line of the block; [args] are the arguments of the directive. *)
Definition cache_block (args : list string) (ca : CacheConf) : cfg CacheConf :=
  v ← c_val;
  if decide (v = "success") then '(cap, ttl, min) ← cache_caps (ccPttl ca) (ccMinpttl ca); mret (set_success cap ttl min ca)
  else if decide (v = "denial") then '(cap, ttl, min) ← cache_caps (ccNttl ca) (ccMinnttl ca); mret (set_denial cap ttl min ca)
  else if decide (v = "prefetch") then cache_prefetch ca
  else if decide (v = "serve_stale") then cache_stale ca
  else if decide (v = "servfail") then cache_servfail ca
  else if decide (v = "disable") then cache_disable ca
  else if decide (v = "keepttl") then if decide (args <> []) then c_argErr else mret (set_keepttl true ca)
  else c_argErr.

(** The first argument may be the TTL. *)
Definition cache_stanza (ca : CacheConf) : cfg CacheConf :=
  args ← c_args;
  '(ca, args) ← match args with
                | a :: more =>
                    match Atoi a with
                    | inl ttl =>
                        if decide (ttl <= 0)%Z then c_fail ("cache TTL can not be zero or negative: " +:+ Itoa ttl)
                        else mret (set_ttls (in_seconds ttl) (in_seconds ttl) ca, more)
                    | inr _ => mret (ca, args)
                    end
                | [] => mret (ca, args)
                end;
  origins ← c_origins args;
  ca ← c_while c_nextBlock (cache_block args) ca;
  mret (set_zones origins ca).

(** A directive that may be given once. *)
Definition c_once {A} (stanza : A -> cfg A) (a : A) : cfg A :=
  '(_, a) ← c_while c_next (fun '(seen, a) => if seen : bool then c_fail ErrOnce else a ← stanza a; mret (true, a)) (false, a);
  mret a.

Definition cacheParse : cfg CacheConf := c_once cache_stanza cache_defaults.
End cache.

(** ** hosts *)

Section hosts.
Context `{Caddy} `{DnsNames} `{Networks}.
(** The root directory of the configuration, and what stands in the way of
    using a hosts file: the error of stat when it is another than that there
    is none. *)
Context (root : string) (stat_error : string -> option string).

Record HostsConf := mkHostsConf {
  hcPath : string; hcOrigins : list string; hcFall : list string; hcInline : list string;
  hcAutoReverse : bool; hcTtl : Z; hcReload : Z
}.

Definition hosts_defaults : HostsConf := mkHostsConf "/etc/hosts" [] [] [] true 3600 (5 * Second).

Definition hosts_block (h : HostsConf) : cfg HostsConf :=
  v ← c_val;
  if decide (v = "fallthrough") then
    args ← c_args; zones ← c_lift (SetZonesFromArgs args);
    mret (mkHostsConf (hcPath h) (hcOrigins h) zones (hcInline h) (hcAutoReverse h) (hcTtl h) (hcReload h))
  else if decide (v = "no_reverse") then
    mret (mkHostsConf (hcPath h) (hcOrigins h) (hcFall h) (hcInline h) false (hcTtl h) (hcReload h))
  else if decide (v = "ttl") then
    remaining ← c_args;
    match remaining with
    | [] => c_errf "ttl needs a time in second"
    | a :: _ =>
        match Atoi a with
        | inr _ => c_errf "ttl needs a number of second"
        | inl ttl =>
            if decide (ttl <= 0 \/ 65535 < ttl)%Z then c_errf "ttl provided is invalid"
            else mret (mkHostsConf (hcPath h) (hcOrigins h) (hcFall h) (hcInline h) (hcAutoReverse h) (u32 ttl) (hcReload h))
        end
    end
  else if decide (v = "reload") then
    remaining ← c_args;
    match remaining with
    | [a] =>
        match ParseDuration a with
        | inr _ => c_errf ("invalid duration for reload '" +:+ a +:+ "'")
        | inl d =>
            if decide (d < 0)%Z then c_errf ("invalid negative duration for reload '" +:+ a +:+ "'")
            else mret (mkHostsConf (hcPath h) (hcOrigins h) (hcFall h) (hcInline h) (hcAutoReverse h) (hcTtl h) d)
        end
    | _ => c_errf "reload needs a duration (zero seconds to disable)"
    end
  else if decide (hcFall h = []) then
    args ← c_args;
    mret (mkHostsConf (hcPath h) (hcOrigins h) (hcFall h) (hcInline h ++ [strings_Join (v :: args) " "]) (hcAutoReverse h) (hcTtl h) (hcReload h))
  else c_errf ("unknown property '" +:+ v +:+ "'").

Definition hosts_stanza (h : HostsConf) : cfg HostsConf :=
  args ← c_args;
  '(h, args) ← match args with
               | file :: more =>
                   let path := rooted_path root file in
                   match stat_error path with
                   | Some err => c_errf ("unable to access hosts file '" +:+ path +:+ "': " +:+ err)
                   | None => mret (mkHostsConf path (hcOrigins h) (hcFall h) (hcInline h) (hcAutoReverse h) (hcTtl h) (hcReload h), more)
                   end
               | [] => mret (h, args)
               end;
  origins ← c_origins args;
  c_while c_nextBlock hosts_block
    (mkHostsConf (hcPath h) origins (hcFall h) (hcInline h) (hcAutoReverse h) (hcTtl h) (hcReload h)).

(** The hosts file before the file is read. *)
Definition hosts_file (h : HostsConf) : Hostsfile :=
  initInline (hcInline h) (mkHostsfile (hcOrigins h) newMap newMap 0 0 (hcAutoReverse h) (hcTtl h)).

Definition hostsParse : cfg HostsConf := c_once hosts_stanza hosts_defaults.
End hosts.

(** ** acl *)

Section acl_setup.
Context `{Caddy} `{DnsNames} `{Networks}.
(** [iptree.Tree]: an empty tree and inserting a network; the numbers of the
    types. *)
Context {Tree : Type} (NewTree : Tree) (InsertNet : IPNet -> Tree -> Tree) (StringToType : string -> option Z).

Definition isPreservedIdentifier (token : string) : bool :=
  let identifier := ToLower token in (bool_decide (identifier = "type") || bool_decide (identifier = "net"))%bool.

(** A single address is a network of its own. *)
Definition acl_normalize (rawNet : string) : string :=
  if strings_Contains rawNet "/" then rawNet
  else if strings_Contains rawNet ":" then rawNet +:+ "/128"
  else rawNet +:+ "/32".

Definition newDefaultFilter : Tree :=
  let add s t := match ParseCIDR s with Some (_, n) => InsertNet n t | None => t end in
  add "::/0" (add "0.0.0.0/0" NewTree).

(** The tokens of a section; a star ends it. *)
Fixpoint acl_types (tokens : list string) (qtypes : gset Z) : cfg (gset Z) :=
  match tokens with
  | [] => mret qtypes
  | token :: tokens' =>
      if decide (token = "*") then mret ({[ TypeNone ]} ∪ qtypes)
      else
        match StringToType token with
        | None => c_errf ("unexpected token " +:+ go_quote token +:+ "; expect legal QTYPE")
        | Some qtype => acl_types tokens' ({[ qtype ]} ∪ qtypes)
        end
  end.

Fixpoint acl_nets (tokens : list string) (filter : Tree) : cfg Tree :=
  match tokens with
  | [] => mret filter
  | token :: tokens' =>
      if decide (token = "*") then mret newDefaultFilter
      else
        let token := acl_normalize token in
        match ParseCIDR token with
        | None => c_errf ("illegal CIDR notation " +:+ go_quote token)
        | Some (_, source) => acl_nets tokens' (InsertNet source filter)
        end
  end.

(** The tokens up to the next section. *)
Fixpoint section_tokens (tokens : list string) : list string * list string :=
  match tokens with
  | [] => ([], [])
  | t :: ts => if isPreservedIdentifier t then ([], tokens) else let '(sec, rest) := section_tokens ts in (t :: sec, rest)
  end.

(** The sections of a line; each takes a token at least. *)
Fixpoint acl_sections (fuel : nat) (remaining : list string) (qtypes : gset Z) (filter : Tree) (hasType hasNet : bool)
  : cfg (gset Z * Tree * bool * bool) :=
  match fuel with
  | O => c_lift None
  | S fuel' =>
      match remaining with
      | [] => mret (qtypes, filter, hasType, hasNet)
      | t :: ts =>
          if isPreservedIdentifier t then
            let section := ToLower t in
            let '(tokens, rest) := section_tokens ts in
            if decide (tokens = []) then c_errf ("no token specified in " +:+ go_quote section +:+ " section")
            else if decide (section = "type") then
              qtypes ← acl_types tokens qtypes; acl_sections fuel' rest qtypes filter true hasNet
            else filter ← acl_nets tokens filter; acl_sections fuel' rest qtypes filter hasType true
          else c_errf ("unexpected token " +:+ go_quote t +:+ "; expect 'type | net'")
      end
  end.

Definition acl_policy (policies : list (@policy Tree)) : cfg (list (@policy Tree)) :=
  v ← c_val;
  let name := ToLower v in
  act ← (if decide (name = "allow") then mret actionAllow
         else if decide (name = "block") then mret actionBlock
         else if decide (name = "filter") then mret actionFilter
         else if decide (name = "drop") then mret actionDrop
         else c_errf ("unexpected token " +:+ go_quote v +:+ "; expect 'allow', 'block', 'filter' or 'drop'"));
  remaining ← c_args;
  '(qtypes, filter, hasType, hasNet) ← acl_sections (S (length remaining)) remaining ∅ NewTree false false;
  let qtypes := if hasType : bool then qtypes else {[ TypeNone ]} ∪ qtypes in
  let filter := if hasNet : bool then filter else newDefaultFilter in
  mret (policies ++ [mkPolicy act qtypes filter]).

Definition acl_parse : cfg (list (@Acl.rule Tree)) :=
  c_while c_next (fun rules =>
    args ← c_args;
    zones ← c_origins args;
    policies ← c_while c_nextBlock acl_policy [];
    mret (rules ++ [mkRule zones policies])) [].
End acl_setup.

(** ** dns64 *)

Section dns64_setup.
Context `{Caddy}.

Record DNS64Conf := mkDNS64Conf { dPrefix : IPNet; dTranslateAll : bool; dAllowIPv4 : bool }.

(** A prefix of whole bytes that leaves room for an IPv4 address. *)
Definition parsePrefix (addr : string) : cfg IPNet :=
  match ParseCIDR addr with
  | None => c_fail ("invalid CIDR address: " +:+ addr)
  | Some (_, pref) =>
      let '(n, total) := Mask_Size (net_Mask pref) in
      if decide (total <> 128)%Z then c_errf ("invalid netmask " +:+ Itoa total +:+ " IPv6 address: " +:+ go_quote (IPNet_String pref))
      else if decide (n `rem` 8 <> 0 \/ n < 32 \/ 96 < n)%Z then c_errf ("invalid prefix length " +:+ go_quote (IPNet_String pref))
      else mret pref
  end.

Definition dns64_block (d : DNS64Conf) : cfg DNS64Conf :=
  v ← c_val;
  if decide (v = "prefix") then
    ok ← c_nextArg;
    if ok : bool then addr ← c_val; pref ← parsePrefix addr; mret (mkDNS64Conf pref (dTranslateAll d) (dAllowIPv4 d))
    else c_argErr
  else if decide (v = "translate_all") then mret (mkDNS64Conf (dPrefix d) true (dAllowIPv4 d))
  else if decide (v = "allow_ipv4") then mret (mkDNS64Conf (dPrefix d) (dTranslateAll d) true)
  else c_errf ("unknown property '" +:+ v +:+ "'").

(** 64:ff9b::/96. *)
Definition dns64_defaults : DNS64Conf :=
  mkDNS64Conf (mkIPNet ([0; 100; 255; 155] ++ replicate 12 0)%Z (CIDRMask 96 128)) false false.

Definition dns64Parse : cfg DNS64Conf :=
  c_while c_next (fun d =>
    args ← c_args;
    match args with
    | [addr] => pref ← parsePrefix addr; mret (mkDNS64Conf pref (dTranslateAll d) (dAllowIPv4 d))
    | [] => c_while c_nextBlock dns64_block d
    | _ => c_argErr
    end) dns64_defaults.
End dns64_setup.

(** ** rewrite *)

Section rewrite_setup.
Context `{Caddy} `{DnsNames} `{GoRegexp} (StringToClass StringToType : string -> option Z).

(** The rules, and the option codes they add to the supported ones. *)
Definition rewriteParse : cfg (list RewriteRule * list Z) :=
  c_while c_next (fun '(rules, codes) =>
    args ← c_args;
    args ← (if decide (length args < 2)%nat then c_while c_nextBlock (fun args => v ← c_val; mret (args ++ [v])) args else mret args);
    res ← c_lift (newRule StringToClass StringToType args);
    '(rule, new) ← c_try res;
    mret (rules ++ [rule], codes ++ new)) ([], []).
End rewrite_setup.

(** ** loadbalance *)

Section loadbalance_setup.
Context `{Caddy} (root : string).

Inductive lbPolicy := lb_random | lb_weighted (w : weightedRR).

Definition lb_reload (reload : Z) : cfg Z :=
  v ← c_val;
  if decide (v = "reload") then
    t ← c_args;
    match t with
    | [] => c_errf "reload duration value is missing"
    | [d] => match ParseDuration d with inl d => mret d | inr _ => c_errf ("invalid reload duration '" +:+ d +:+ "'") end
    | _ => c_errf "unexpected argument"
    end
  else c_errf ("unknown property '" +:+ v +:+ "'").

(** Only the first directive is read. *)
Definition loadbalance_parse : cfg lbPolicy :=
  ok ← c_next;
  if ok : bool then
    args ← c_args;
    match args with
    | [] => mret lb_random
    | pol :: more =>
        if decide (pol = "round_robin") then
          if decide (more <> []) then c_errf ("unknown property for " +:+ pol) else mret lb_random
        else if decide (pol = "weighted") then
          match more with
          | [] => c_errf "missing weight file argument"
          | [file] =>
              reload ← c_while c_nextBlock lb_reload (30 * Second)%Z;
              mret (lb_weighted (mkWeighted (rooted_path root file) reload EmptyString ∅))
          | _ => c_errf "unexpected argument(s)"
          end
        else c_fail ("unknown policy: " +:+ pol)
    end
  else c_argErr.
End loadbalance_setup.

(** ** Smaller plugins *)

Section small_setup.
Context `{Caddy} `{DnsNames} `{Networks}.

Definition defaultBufSize : Z := 512.

(** Only the first directive is read. *)
Definition bufsize_parse : cfg Z :=
  let wrong := c_pluginArgErr "bufsize" in
  ok ← c_next;
  if ok : bool then
    args ← c_args;
    match args with
    | [] => mret defaultBufSize
    | [a] => match Atoi a with
             | inl n => if decide (n < 512 \/ 4096 < n)%Z then wrong else mret n
             | inr _ => wrong
             end
    | _ => wrong
    end
  else wrong.

Definition nsidParse (Hostname : option string) : cfg string :=
  c_once (fun nsid => args ← c_args; mret (if decide (args = []) then nsid else strings_Join args " ")) (default "localhost" Hostname).

(** The version and the authors, each once and in order; [Owners] and
    [chaosVersion] are the program's own. *)
Definition chaos_parse `{GoRange} `{GoSort} (chaosVersion : string) (Owners : list string) : cfg (string * list string) :=
  ok ← c_next;
  if ok : bool then
    args ← c_args;
    match args with
    | [] => mret (chaos_trim chaosVersion, Owners)
    | [v] => mret (chaos_trim v, Owners)
    | v :: more =>
        let authors : gmap string unit := list_to_map (map (fun a => (a, tt)) more) in
        mret (v, go_sort str_lt (map (fun e => chaos_trim e.1) (go_range authors)))
    end
  else mret (EmptyString, Owners).

Definition header_line (rules : list Rule * list Rule) : cfg (list Rule * list Rule) :=
  v ← c_val;
  let selector := ToLower v in
  '(selector, action) ←
    (if decide (selector = "set" \/ selector = "clear") then mret ("response"%string, selector)
     else if decide (selector = "query" \/ selector = "response") then
       ok ← c_nextArg; action ← (if ok : bool then c_val else mret EmptyString); mret (selector, action)
     else c_fail ("setting up rule: invalid selector=" +:+ selector +:+ " should be query or response"));
  args ← c_args;
  match newRules action args with
  | inl err => c_fail ("setting up rule: " +:+ err)
  | inr new => mret (if decide (selector = "response") then (rules.1, rules.2 ++ new) else (rules.1 ++ new, rules.2))
  end.

(** The first directive that has rules; the others behind it are not read. *)
Definition header_parse : cfg (list Rule * list Rule) :=
  found ← c_until c_next (
    rules ← c_while c_nextBlock header_line ([], []);
    mret (if decide (rules.1 = [] /\ rules.2 = []) then None else Some rules));
  match found with Some rules => mret rules | None => c_argErr end.

(** The zone whose queries are watched; [qname] makes a random name below it. *)
Definition loop_parse (qname : string -> string) : cfg Loop :=
  zones ← c_once (fun zones =>
    more ← c_nextArg;
    if more : bool then c_argErr
    else
      keys ← c_keys;
      match keys with
      | k :: _ => c_lift (NormalizeExact k)
      | [] => mret zones
      end) [dot];
  zone ← c_lift (head zones);
  mret (mkLoop zone (qname zone) EmptyString 0 false).

(** *** erratic *)

Record ErraticConf := mkErraticConf { ecDrop : Z; ecDelay : Z; ecDuration : Z; ecTruncate : Z; ecLarge : bool; ecSeen : bool }.

(** An amount, when one is given. *)
Definition erratic_amount (args : list string) : cfg (option Z) :=
  match args with
  | [] => mret None
  | a :: _ =>
      amount ← c_try (ParseInt 32 a);
      if decide (amount < 0)%Z then c_fail ("illegal amount value given " +:+ go_quote a) else mret (Some (u64 amount))
  end.

Definition erratic_block (e : ErraticConf) : cfg ErraticConf :=
  v ← c_val;
  if decide (v = "drop") then
    args ← c_args;
    if decide (1 < length args)%nat then c_argErr
    else
      amount ← erratic_amount args;
      mret match amount with
           | Some n => mkErraticConf n (ecDelay e) (ecDuration e) (ecTruncate e) (ecLarge e) true
           | None => e
           end
  else if decide (v = "delay") then
    args ← c_args;
    if decide (2 < length args)%nat then c_argErr
    else
      amount ← erratic_amount args;
      d ← match args with _ :: d :: _ => c_try (ParseDuration d) | _ => mret (100 * 1000000)%Z end;
      mret (mkErraticConf (ecDrop e) (default 2%Z amount) d (ecTruncate e) (ecLarge e) (ecSeen e))
  else if decide (v = "truncate") then
    args ← c_args;
    if decide (1 < length args)%nat then c_argErr
    else
      amount ← erratic_amount args;
      mret match amount with
           | Some n => mkErraticConf (ecDrop e) (ecDelay e) (ecDuration e) n (ecLarge e) (ecSeen e)
           | None => e
           end
  else if decide (v = "large") then mret (mkErraticConf (ecDrop e) (ecDelay e) (ecDuration e) (ecTruncate e) true (ecSeen e))
  else c_errf ("unknown property '" +:+ v +:+ "'").

(** The default drops every second query unless something else is asked for. *)
Definition parseErratic : cfg ErraticConf :=
  e ← c_while c_next (fun e => c_while c_nextBlock erratic_block e) (mkErraticConf 2 0 0 0 false false);
  mret (if decide ((0 < ecDelay e \/ 0 < ecTruncate e)%Z /\ ecSeen e = false)
        then mkErraticConf 0 (ecDelay e) (ecDuration e) (ecTruncate e) (ecLarge e) false else e).

(** *** autopath *)

(** The zones, the search path, and the plugin to ask for one.  [resolv] reads
    the search list of a file. *)
Record AutoPathConf := mkAutoPathConf { apZones : list string; apSearch : list string; apPlugin : string }.

Definition autoPathParse (resolv : string -> (list string) + string) : cfg AutoPathConf :=
  c_while c_next (fun ap =>
    args ← c_args;
    match last args with
    | None => c_fail "no resolv-conf specified"
    | Some file =>
        '(search, mw) ← (if HasPrefix file "@" then mret (apSearch ap, sdrop 1 file)
                         else match resolv file with
                              | inr err => c_fail ("failed to parse " +:+ go_quote file +:+ ": " +:+ err)
                              | inl search => mret (Zones_Normalize search ++ [EmptyString], apPlugin ap)
                              end);
        zones ← c_origins (take (length args - 1) args);
        mret (mkAutoPathConf zones search mw)
    end) (mkAutoPathConf [] [] EmptyString).

(** *** metadata *)

(** One directive without a block; the zones. *)
Definition metadataParse : cfg (list string) :=
  _ ← c_next;
  args ← c_args;
  zones ← c_origins args;
  block ← c_nextBlock;
  more ← (if block : bool then mret true else c_next);
  if more : bool then c_pluginArgErr "metadata" else mret zones.
End small_setup.
