(* ===== verification/SetupZones.v ===== *)
(** * The set-up of the plugins that hold zones

    The parse functions of the setup.go of file, secondary, transfer, etcd,
    kubernetes and k8s_external, and plugin/pkg/parse's TransferIn. *)

From S2P Require Import Prelude.
From S2P Require Import GoStd.
From S2P Require Import GoNet.
From S2P Require Import GoText.
From S2P Require Import GoTime.
From S2P Require Import DnsNames.
From S2P Require Import DnsMsg.
From S2P Require Import DnsUtil.
From S2P Require Import Request.
From S2P Require Import Tree.
From S2P Require Import Zone.
From S2P Require Import Plugin.
From S2P Require Import Normalize.
From S2P Require Import Transfer.
From S2P Require Import FilePlugin.
From S2P Require Import Hosts.
From S2P Require Import Caddy.
From S2P Require Import Kubernetes.
From S2P Require Import KubeExternal.
From S2P Require Import PkgTls.
From S2P Require Import SetupPlugins.

Section zones.
Context `{GoRange} `{Caddy} `{DnsNames} `{DnsMsgs} `{Networks}.

(** ** file *)

Definition parse_error (e : ParseError) : string :=
  match e with
  | SerialErr origin zone serial => "no change in SOA serial for origin " +:+ origin +:+ " in file " +:+ zone +:+ ", with " +:+ Itoa serial +:+ " SOA serial"
  | InsertErr err => err
  | NoSOA fileName origin => "file " +:+ go_quote fileName +:+ " has no SOA record for origin " +:+ origin
  end.

(** The root directory, and opening a file: the parser of its content for an
    origin, or an error. *)
Context (root : string) (open_file : string -> (string -> ZoneParser) + string).

Record FileConf := mkFileConf {
  fcZones : FileZones; fcNames : list string; fcOpenErr : option string; fcReload : Z;
  fcInterval : gmap string Z  (* the ReloadInterval of the zones *)
}.

(** The zones of one file; they stay empty when this file or one before it
    could not be opened. *)
Fixpoint load_zones (fileName : string) (content : option (string -> ZoneParser)) (openErr : option string) (origins : list string)
    (z : FileZones) (names : list string) : option ((FileZones * list string) + string) :=
  match origins with
  | [] => Some (inl (z, names))
  | o :: origins' =>
      match openErr, content with
      | None, Some parser =>
          res ← Parse (parser o) o fileName 0;
          match res with
          | inl err => Some (inr (parse_error err))
          | inr zone => load_zones fileName content openErr origins' (<[o := Some zone]> z) (names ++ [o])
          end
      | _, _ => load_zones fileName content openErr origins' (<[o := Some (NewZone o fileName)]> z) (names ++ [o])
      end
  end.

Definition file_block (reload : Z) : cfg Z :=
  v ← c_val;
  if decide (v = "reload") then
    t ← c_args;
    match t with
    | [] => c_fail "reload duration value is expected"
    | a :: _ => match ParseDuration a with inl d => mret d | inr err => c_fail (plugin_Error "file" err) end
    end
  else if decide (v = "upstream") then _ ← c_args; mret reload
  else c_errf ("unknown property '" +:+ v +:+ "'").

Definition file_stanza (f : FileConf) : cfg FileConf :=
  ok ← c_nextArg;
  if ok : bool then
    v ← c_val;
    args ← c_args;
    origins ← c_origins args;
    let fileName := rooted_path root v in
    let opened := open_file (Clean fileName) in
    let openErr := match opened with inr err => Some err | inl _ => fcOpenErr f end in
    let content := match opened with inl parser => Some parser | inr _ => None end in
    res ← c_lift (load_zones fileName content openErr origins (fcZones f) (fcNames f));
    '(z, names) ← c_try res;
    reload ← c_while c_nextBlock file_block (fcReload f);
    mret (mkFileConf z names openErr reload (foldl (fun m o => <[o := reload]> m) (fcInterval f) origins))
  else c_argErr.

Definition fileParse : cfg FileConf :=
  f ← c_while c_next file_stanza (mkFileConf ∅ [] None (1 * Minute)%Z ∅);
  match fcOpenErr f with
  | Some err => if decide (fcReload f = 0)%Z then c_fail (plugin_Error "file" err) else mret f
  | None => mret f
  end.

(** ** secondary *)

Fixpoint normalize_hosts (froms : list string) : (list string) + string :=
  match froms with
  | [] => inl []
  | f :: froms' =>
      if decide (f = "*") then inr "can't use '*' in transfer from"%string
      else
        match HostPort f port_dns with
        | inr err => inr err
        | inl n => match normalize_hosts froms' with inr err => inr err | inl ns => inl (n :: ns) end
        end
  end.

(** transfer from ADDRESS... *)
Definition parse_TransferIn : cfg (list string) :=
  ok ← c_nextArg;
  if ok : bool then
    value ← c_val;
    if decide (value = "from") then
      froms ← c_args;
      if decide (froms = []) then c_argErr else c_try (normalize_hosts froms)
    else c_errf ("unknown property " +:+ value)
  else c_argErr.

Definition add_primaries (origins f : list string) (z : FileZones) : option FileZones :=
  foldl (fun acc o =>
    z ← acc;
    zone ← (z !! o : option (option Zone));
    zone ← zone;
    Some (<[o := Some (set_TransferFrom (TransferFrom zone ++ f) zone)]> z)) (Some z) origins.

Definition secondary_stanza (s : FileZones * list string) : cfg (FileZones * list string) :=
  v ← c_val;
  if decide (v = "secondary") then
    args ← c_args;
    origins ← c_origins args;
    let z := foldl (fun z o => <[o := Some (NewZone o "stdin")]> z) s.1 origins in
    z ← c_while c_nextBlock (fun z =>
      v ← c_val;
      if decide (v = "transfer") then f ← parse_TransferIn; c_lift (add_primaries origins f z)
      else c_errf ("unknown property '" +:+ v +:+ "'")) z;
    mret (z, s.2 ++ origins)
  else mret s.

Definition secondaryParse : cfg (FileZones * list string) := c_while c_next secondary_stanza (∅, []).

(** ** transfer *)

Fixpoint transfer_to (args : list string) (to : list string) : (list string) + string :=
  match args with
  | [] => inl to
  | h :: args' =>
      if decide (h = "*") then transfer_to args' (to ++ [h])
      else match HostPort h port_dns with inr err => inr err | inl n => transfer_to args' (to ++ [n]) end
  end.

(** An error with the place, in the words of the plugin. *)
Definition c_pluginErrf {A} (name err : string) : cfg A := fun c => Some (inr (plugin_Error name (c_Errf c err))).

Definition transfer_block (to : list string) : cfg (list string) :=
  v ← c_val;
  if decide (v = "to") then
    args ← c_args;
    if decide (args = []) then c_argErr else c_try (transfer_to args to)
  else c_pluginErrf "transfer" ("unknown property " +:+ go_quote v).

Definition parseTransfer : cfg (list xfr) :=
  c_while c_next (fun xfrs =>
    args ← c_args;
    zones ← c_origins args;
    to ← c_while c_nextBlock transfer_block [];
    if decide (to = []) then c_pluginErrf "transfer" "'to' is required" else mret (xfrs ++ [mkXfr zones to])) [].

(** [tls.LoadX509KeyPair] and [os.ReadFile], and whether there is a
    certificate in a file. *)
Context (LoadX509KeyPair : string -> string -> option string) (ReadFile : string -> string + string) (has_certs : string -> bool).

(** ** etcd *)

Record EtcdConf := mkEtcdConf {
  etZones : list string; etFall : list string; etPathPrefix : string; etEndpoints : list string;
  etTls : option TlsConfig; etUser : string; etPassword : string
}.

Definition defaultEndpoint : string := "http://localhost:2379".

(** Making a client, from the endpoints, the TLS configuration and the
    credentials; it connects in the background. *)
Context (client_error : list string -> option TlsConfig -> option (string * string) -> option string).

Definition newEtcdClient (e : EtcdConf) : option string :=
  client_error (etEndpoints e) (etTls e)
    (if decide (etUser e <> EmptyString /\ etPassword e <> EmptyString) then Some (etUser e, etPassword e) else None).

Definition etcd_block (e : EtcdConf) : cfg EtcdConf :=
  v ← c_val;
  if decide (v = "stubzones" \/ v = "debug") then mret e
  else if decide (v = "fallthrough") then
    args ← c_args; zones ← c_lift (SetZonesFromArgs args);
    mret (mkEtcdConf (etZones e) zones (etPathPrefix e) (etEndpoints e) (etTls e) (etUser e) (etPassword e))
  else if decide (v = "path") then
    ok ← c_nextArg;
    if ok : bool then p ← c_val; mret (mkEtcdConf (etZones e) (etFall e) p (etEndpoints e) (etTls e) (etUser e) (etPassword e)) else c_argErr
  else if decide (v = "endpoint") then
    args ← c_args;
    if decide (args = []) then c_argErr
    else mret (mkEtcdConf (etZones e) (etFall e) (etPathPrefix e) args (etTls e) (etUser e) (etPassword e))
  else if decide (v = "upstream") then _ ← c_args; mret e
  else if decide (v = "tls") then
    args ← c_args;
    config ← c_try (NewTLSConfigFromArgs LoadX509KeyPair ReadFile has_certs args);
    mret (mkEtcdConf (etZones e) (etFall e) (etPathPrefix e) (etEndpoints e) (Some config) (etUser e) (etPassword e))
  else if decide (v = "credentials") then
    args ← c_args;
    match args with
    | [] => c_argErr
    | [user; password] => mret (mkEtcdConf (etZones e) (etFall e) (etPathPrefix e) (etEndpoints e) (etTls e) user password)
    | _ => c_errf "credentials requires 2 arguments, username and password"
    end
  else if decide (v <> "}") then c_errf ("unknown property '" +:+ v +:+ "'")
  else mret e.

(** Only the first directive is read. *)
Definition etcdParse : cfg (option EtcdConf) :=
  ok ← c_next;
  if ok : bool then
    args ← c_args;
    zones ← c_origins args;
    e ← c_while c_nextBlock etcd_block (mkEtcdConf zones [] "skydns" [defaultEndpoint] None EmptyString EmptyString);
    match newEtcdClient e with Some err => c_fail err | None => mret (Some e) end
  else mret None.

(** ** kubernetes *)

(** What the configuration of the plugin does not hold: the connection to the
    API server and the selectors. *)
Record KubeOpts := mkKubeOpts {
  koInitEndpoints : bool; koLabels : option string; koNamespaceLabels : option string;
  koEndpoints : list string; koTls : list string; koKubeconfig : list string
}.

(** Parsing a label selector, which may fail, and the search list of
    resolv.conf. *)
Context (ParseToLabelSelector : string -> option string) (resolv_conf : option (list string)).

Definition searchFromResolvConf : list string := match resolv_conf with Some search => Zones_Normalize search | None => [] end.

Definition kube_set (zones : list string) (ns : gset string) (mode : string) (names : bool) (fall : list string) (ttl : Z) (ignore : bool)
    (primary : nat) (k : Kubernetes) : Kubernetes :=
  mkKubernetes zones ns mode names fall ttl ignore (initPodCache k) primary (localIPs k) (autoPathSearch k).

Definition kube_labels (what : string) : cfg string :=
  args ← c_args;
  if decide (args = []) then c_argErr
  else
    let s := strings_Join args " " in
    match ParseToLabelSelector s with
    | Some err => c_fail ("unable to parse " +:+ what +:+ " selector value: '" +:+ s +:+ "': " +:+ err)
    | None => mret s
    end.

Definition kube_block (s : Kubernetes * KubeOpts) : cfg (Kubernetes * KubeOpts) :=
  let '(k, o) := s in
  let keep k' := mret (k', o) in
  v ← c_val;
  if decide (v = "endpoint_pod_names") then
    args ← c_args;
    if decide (args <> []) then c_argErr
    else keep (kube_set (kZones k) (Namespaces k) (podMode k) true (kFall k) (kTtl k) (ignoreEmptyService k) (primaryZoneIndex k) k)
  else if decide (v = "pods") then
    args ← c_args;
    match args with
    | [m] =>
        if decide (m = podModeDisabled \/ m = podModeInsecure \/ m = podModeVerified)
        then keep (kube_set (kZones k) (Namespaces k) m (endpointNameMode k) (kFall k) (kTtl k) (ignoreEmptyService k) (primaryZoneIndex k) k)
        else c_fail ("wrong value for pods: " +:+ m +:+ ",  must be one of: disabled, verified, insecure")
    | _ => c_argErr
    end
  else if decide (v = "namespaces") then
    args ← c_args;
    if decide (args = []) then c_argErr
    else keep (kube_set (kZones k) (list_to_set args ∪ Namespaces k) (podMode k) (endpointNameMode k) (kFall k) (kTtl k) (ignoreEmptyService k) (primaryZoneIndex k) k)
  else if decide (v = "endpoint") then
    args ← c_args;
    if decide (args = []) then c_argErr
    else mret (k, mkKubeOpts (koInitEndpoints o) (koLabels o) (koNamespaceLabels o) args (koTls o) (koKubeconfig o))
  else if decide (v = "tls") then
    args ← c_args;
    if decide (length args = 3)%nat then mret (k, mkKubeOpts (koInitEndpoints o) (koLabels o) (koNamespaceLabels o) (koEndpoints o) args (koKubeconfig o))
    else c_argErr
  else if decide (v = "labels") then
    l ← kube_labels "label";
    mret (k, mkKubeOpts (koInitEndpoints o) (Some l) (koNamespaceLabels o) (koEndpoints o) (koTls o) (koKubeconfig o))
  else if decide (v = "namespace_labels") then
    l ← kube_labels "namespace_label";
    mret (k, mkKubeOpts (koInitEndpoints o) (koLabels o) (Some l) (koEndpoints o) (koTls o) (koKubeconfig o))
  else if decide (v = "fallthrough") then
    args ← c_args; zones ← c_lift (SetZonesFromArgs args);
    keep (kube_set (kZones k) (Namespaces k) (podMode k) (endpointNameMode k) zones (kTtl k) (ignoreEmptyService k) (primaryZoneIndex k) k)
  else if decide (v = "ttl") then
    args ← c_args;
    match args with
    | [] => c_argErr
    | a :: _ =>
        t ← c_try (Atoi a);
        if decide (t < 0 \/ 3600 < t)%Z then c_errf ("ttl must be in range [0, 3600]: " +:+ Itoa t)
        else keep (kube_set (kZones k) (Namespaces k) (podMode k) (endpointNameMode k) (kFall k) (u32 t) (ignoreEmptyService k) (primaryZoneIndex k) k)
    end
  else if decide (v = "noendpoints") then
    args ← c_args;
    if decide (args <> []) then c_argErr
    else mret (k, mkKubeOpts false (koLabels o) (koNamespaceLabels o) (koEndpoints o) (koTls o) (koKubeconfig o))
  else if decide (v = "ignore") then
    args ← c_args;
    match args with
    | [] => mret (k, o)
    | a :: _ =>
        if decide (a = "empty_service")
        then keep (kube_set (kZones k) (Namespaces k) (podMode k) (endpointNameMode k) (kFall k) (kTtl k) true (primaryZoneIndex k) k)
        else c_fail ("unable to parse ignore value: '" +:+ a +:+ "'")
    end
  else if decide (v = "kubeconfig") then
    args ← c_args;
    if decide (length args <> 1 /\ length args <> 2)%nat then c_argErr
    else mret (k, mkKubeOpts (koInitEndpoints o) (koLabels o) (koNamespaceLabels o) (koEndpoints o) (koTls o) args)
  else c_errf ("unknown property '" +:+ v +:+ "'").

(** The first zone that is not a reverse zone. *)
Fixpoint primary_index (zones : list string) (i : nat) : option nat :=
  match zones with
  | [] => None
  | z :: zones' => if decide (0 < IsReverse z)%Z then primary_index zones' (S i) else Some i
  end.

Definition ParseStanza : cfg (Kubernetes * KubeOpts) :=
  args ← c_args;
  zones ← c_origins args;
  match primary_index zones 0 with
  | None => c_fail "non-reverse zone name must be used"
  | Some i =>
      let k := mkKubernetes zones ∅ podModeDisabled false [] kube_defaultTTL false false i [] searchFromResolvConf in
      '(k, o) ← c_while c_nextBlock kube_block (k, mkKubeOpts true None None [] [] []);
      if decide (Namespaces k <> ∅ /\ koNamespaceLabels o <> None) then c_errf "namespaces and namespace_labels cannot both be set"
      else mret (k, o)
  end.

Definition kubernetesParse : cfg (option (Kubernetes * KubeOpts)) :=
  c_once (fun _ => k ← ParseStanza; mret (Some k)) None.

(** What InitKubeCache derives from the configuration. *)
Definition init_opts (k : Kubernetes) : Kubernetes :=
  mkKubernetes (kZones k) (Namespaces k) (podMode k) (endpointNameMode k) (kFall k) (kTtl k) (ignoreEmptyService k)
    (bool_decide (podMode k = podModeVerified)) (primaryZoneIndex k) (localIPs k) (autoPathSearch k).

(** ** k8s_external *)

Definition external_block (e : External) : cfg External :=
  v ← c_val;
  if decide (v = "ttl") then
    args ← c_args;
    match args with
    | [] => c_argErr
    | a :: _ =>
        t ← c_try (Atoi a);
        if decide (t < 0 \/ 3600 < t)%Z then c_errf ("ttl must be in range [0, 3600]: " +:+ Itoa t)
        else mret (mkExternal (xtZones e) (xtHostmaster e) (xtApex e) (u32 t) (xtHeadless e))
    end
  else if decide (v = "apex") then
    args ← c_args;
    match args with
    | [] => c_argErr
    | a :: _ => mret (mkExternal (xtZones e) (xtHostmaster e) a (xtTtl e) (xtHeadless e))
    end
  else if decide (v = "headless") then mret (mkExternal (xtZones e) (xtHostmaster e) (xtApex e) (xtTtl e) true)
  else c_errf ("unknown property '" +:+ v +:+ "'").

(** A later directive changes what the ones before it set. *)
Definition external_parse : cfg External :=
  c_while c_next (fun e =>
    args ← c_args;
    zones ← c_origins args;
    c_while c_nextBlock external_block (mkExternal zones (xtHostmaster e) (xtApex e) (xtTtl e) (xtHeadless e))) (newExternal []).
End zones.
