(* ===== verification/SetupForward.v ===== *)
(** * The set-up of the forward plugin

    plugin/forward/setup.go: the upstreams of a directive and the properties of
    its block.  The cache of TLS sessions is left out. *)

From S2P Require Import Prelude.
From S2P Require Import GoStd.
From S2P Require Import GoNet.
From S2P Require Import GoText.
From S2P Require Import GoTime.
From S2P Require Import Register.
From S2P Require Import DnsNames.
From S2P Require Import Plugin.
From S2P Require Import Normalize.
From S2P Require Import Caddy.
From S2P Require Import Concurrency.
From S2P Require Import PkgTls.
From S2P Require Import Forward.
From S2P Require Import SetupPlugins.

(** ** Parts of the plugin *)

Section parts.
Context {Conn : Type}.
Implicit Types f : Forward Conn.

Definition new_Forward : Forward Conn :=
  mkForward 0 [] fw_random fw_hcInterval dot [] (mkTlsConfig None None EmptyString) EmptyString 2 defaultExpire 0
    (mkOptions false false true dot) None.

Definition set_hcInterval d f := mkForward (concurrent f) (proxies f) (fw_policy f) d (from f) (ignored f) (fw_tlsConfig f)
  (tlsServerName f) (maxfails f) (fw_expire f) (maxConcurrent f) (opts f) (ErrLimitExceeded f).
Definition set_from z f := mkForward (concurrent f) (proxies f) (fw_policy f) (hcInterval f) z (ignored f) (fw_tlsConfig f)
  (tlsServerName f) (maxfails f) (fw_expire f) (maxConcurrent f) (opts f) (ErrLimitExceeded f).
Definition set_ignored l f := mkForward (concurrent f) (proxies f) (fw_policy f) (hcInterval f) (from f) l (fw_tlsConfig f)
  (tlsServerName f) (maxfails f) (fw_expire f) (maxConcurrent f) (opts f) (ErrLimitExceeded f).
Definition set_tlsConfig t f := mkForward (concurrent f) (proxies f) (fw_policy f) (hcInterval f) (from f) (ignored f) t
  (tlsServerName f) (maxfails f) (fw_expire f) (maxConcurrent f) (opts f) (ErrLimitExceeded f).
Definition set_tlsServerName n f := mkForward (concurrent f) (proxies f) (fw_policy f) (hcInterval f) (from f) (ignored f) (fw_tlsConfig f)
  n (maxfails f) (fw_expire f) (maxConcurrent f) (opts f) (ErrLimitExceeded f).
Definition set_maxfails n f := mkForward (concurrent f) (proxies f) (fw_policy f) (hcInterval f) (from f) (ignored f) (fw_tlsConfig f)
  (tlsServerName f) n (fw_expire f) (maxConcurrent f) (opts f) (ErrLimitExceeded f).
Definition set_expire d f := mkForward (concurrent f) (proxies f) (fw_policy f) (hcInterval f) (from f) (ignored f) (fw_tlsConfig f)
  (tlsServerName f) (maxfails f) d (maxConcurrent f) (opts f) (ErrLimitExceeded f).
Definition set_limit n err f := mkForward (concurrent f) (proxies f) (fw_policy f) (hcInterval f) (from f) (ignored f) (fw_tlsConfig f)
  (tlsServerName f) (maxfails f) (fw_expire f) n (opts f) (Some err).
Definition set_opts o f := mkForward (concurrent f) (proxies f) (fw_policy f) (hcInterval f) (from f) (ignored f) (fw_tlsConfig f)
  (tlsServerName f) (maxfails f) (fw_expire f) (maxConcurrent f) o (ErrLimitExceeded f).

Definition set_hcRecursion (b : bool) (o : options) : options := mkOptions (forceTCP o) (preferUDP o) b (opt_hcDomain o).
Definition set_hcDomain (d : string) (o : options) : options := mkOptions (forceTCP o) (preferUDP o) (opt_hcRecursionDesired o) d.
Definition set_preferUDP (b : bool) (o : options) : options := mkOptions (forceTCP o) b (opt_hcRecursionDesired o) (opt_hcDomain o).

(** The setters of the health checker. *)
Definition hc_SetTLSConfig (cfg : TlsConfig) (h : dnsHc) : dnsHc := mkHc "tcp-tls" (Some cfg) (hcRecursionDesired h) (hcDomain h).
Definition hc_SetRecursionDesired (b : bool) (h : dnsHc) : dnsHc := mkHc (hcNet h) (hcTls h) b (hcDomain h).
Definition hc_SetDomain (d : string) (h : dnsHc) : dnsHc := mkHc (hcNet h) (hcTls h) (hcRecursionDesired h) d.
Definition hc_SetTCPTransport (h : dnsHc) : dnsHc := mkHc "tcp" (hcTls h) (hcRecursionDesired h) (hcDomain h).

Definition set_health (h : dnsHc) (p : FwProxy Conn) : FwProxy Conn := mkProxy (fails p) (p_addr p) (transport p) (probe p) (Some h).

(** An upstream without a health checker panics. *)
Definition Proxy_SetTLSConfig (cfg : TlsConfig) (p : FwProxy Conn) : option (FwProxy Conn) :=
  h ← health p;
  Some (set_health (hc_SetTLSConfig cfg h) (set_transport (t_SetTLSConfig cfg (transport p)) p)).
Definition Proxy_SetExpire (expire : Z) (p : FwProxy Conn) : FwProxy Conn := set_transport (SetExpire expire (transport p)) p.

Definition SetProxy (p : FwProxy Conn) f : Forward Conn := set_proxies (proxies f ++ [Proxy_start (hcInterval f) p]) f.
Definition OnStartup f : Forward Conn := set_proxies (map (Proxy_start (hcInterval f)) (proxies f)) f.
Definition OnShutdown f : Forward Conn := set_proxies (map Proxy_stop (proxies f)) f.
End parts.

(** ** The directive *)

Section setup.
Context `{Caddy} `{DnsNames} `{Networks} {Conn : Type}.
Context (ClientConfigFromFile : string -> (list string * string) + string).
Context (LoadX509KeyPair : string -> string -> option string) (ReadFile : string -> string + string) (has_certs : string -> bool).

Definition fw_max : nat := 15.

(** The options of health_check behind the interval. *)
Definition health_option (o : options) : cfg options :=
  hcOpts ← c_val;
  if decide (hcOpts = "no_rec") then mret (set_hcRecursion false o)
  else if decide (hcOpts = "domain") then
    ok ← c_nextArg;
    if ok : bool then
      hcDomain ← c_val;
      if IsDomainName hcDomain then mret (set_hcDomain (Name_Normalize hcDomain) o)
      else c_fail ("health_check: invalid domain name " +:+ hcDomain)
    else c_argErr
  else c_fail ("health_check: unknown option " +:+ hcOpts).

Definition policy_of (x : string) : cfg FwPolicy :=
  if decide (x = "random") then mret fw_random
  else if decide (x = "round_robin") then mret (fw_roundRobin 0)
  else if decide (x = "sequential") then mret fw_sequential
  else c_errf ("unknown policy '" +:+ x +:+ "'").

(** The next argument, which must be there. *)
Definition c_need : cfg string := ok ← c_nextArg; if ok : bool then c_val else c_argErr.
(** No argument may be there. *)
Definition c_none : cfg unit := ok ← c_nextArg; if ok : bool then c_argErr else mret tt.

Definition parseBlock (f : Forward Conn) : cfg (Forward Conn) :=
  v ← c_val;
  if decide (v = "except") then
    ignore ← c_args;
    if decide (ignore = []) then c_argErr
    else zones ← c_lift (mapM NormalizeExact ignore); mret (set_ignored (ignored f ++ concat zones) f)
  else if decide (v = "max_fails") then
    a ← c_need;
    match ParseUint 32 a with
    | (_, Some err) => c_fail (int_error "ParseUint" a err)
    | (n, None) => mret (set_maxfails n f)
    end
  else if decide (v = "health_check") then
    a ← c_need;
    dur ← c_try (ParseDuration a);
    if decide (dur < 0)%Z then c_fail ("health_check can't be negative: " +:+ Itoa dur)
    else
      o ← c_while c_nextArg health_option (set_hcDomain dot (opts f));
      mret (set_opts o (set_hcInterval dur f))
  else if decide (v = "force_tcp") then _ ← c_none; mret (set_opts (set_forceTCP true (opts f)) f)
  else if decide (v = "prefer_udp") then _ ← c_none; mret (set_opts (set_preferUDP true (opts f)) f)
  else if decide (v = "tls") then
    args ← c_args;
    if decide (3 < length args)%nat then c_argErr
    else config ← c_try (NewTLSConfigFromArgs LoadX509KeyPair ReadFile has_certs args); mret (set_tlsConfig config f)
  else if decide (v = "tls_servername") then n ← c_need; mret (set_tlsServerName n f)
  else if decide (v = "expire") then
    a ← c_need;
    dur ← c_try (ParseDuration a);
    if decide (dur < 0)%Z then c_fail ("expire can't be negative: " +:+ Duration_String dur) else mret (set_expire dur f)
  else if decide (v = "policy") then x ← c_need; pol ← policy_of x; mret (set_policy pol f)
  else if decide (v = "max_concurrent") then
    a ← c_need;
    n ← c_try (Atoi a);
    if decide (n < 0)%Z then c_fail ("max_concurrent can't be negative: " +:+ Itoa n)
    else mret (set_limit n ("concurrent queries exceeded maximum " +:+ a) f)
  else c_errf ("unknown property '" +:+ v +:+ "'").

(** The upstreams with their transports. *)
Fixpoint new_proxies (toHosts : list string) : (list (FwProxy Conn * string)) + string :=
  match toHosts with
  | [] => inl []
  | host :: toHosts' =>
      let '(trans, h) := Transport host in
      if decide (trans = tDNS \/ trans = tTLS) then
        match new_proxies toHosts' with inr err => inr err | inl ps => inl ((NewProxy h trans, trans) :: ps) end
      else inr ("'" +:+ trans +:+ "' is not supported as a destination protocol in forward: " +:+ host)
  end.

(** What the block says, for one upstream. *)
Definition configure_proxy (f : Forward Conn) (p : FwProxy Conn) (trans : string) : option (FwProxy Conn) :=
  p ← (if decide (trans = tTLS) then Proxy_SetTLSConfig (fw_tlsConfig f) p else Some p);
  let p := Proxy_SetExpire (fw_expire f) p in
  h ← health p;
  let h := hc_SetRecursionDesired (opt_hcRecursionDesired (opts f)) h in
  let h := if decide (forceTCP (opts f) = true /\ trans <> tTLS) then hc_SetTCPTransport h else h in
  Some (set_health (hc_SetDomain (opt_hcDomain (opts f)) h) p).

Definition with_server_name (f : Forward Conn) : Forward Conn :=
  if decide (tlsServerName f = EmptyString) then f
  else set_tlsConfig (mkTlsConfig (tlsCert (fw_tlsConfig f)) (tlsRoots (fw_tlsConfig f)) (tlsServerName f)) f.

Definition parseStanza : cfg (Forward Conn) :=
  origFrom ← c_need;
  zones ← c_lift (NormalizeExact origFrom);
  match zones with
  | [] => c_fail ("unable to normalize '" +:+ origFrom +:+ "'")
  | zone :: _ =>
      let f := set_from zone new_Forward in
      to ← c_args;
      if decide (to = []) then c_argErr
      else
        toHosts ← c_try (HostPortOrFile ClientConfigFromFile to);
        ps ← c_try (new_proxies toHosts);
        f ← c_while c_nextBlock parseBlock (set_proxies (map fst ps) f);
        let f := with_server_name f in
        configured ← c_lift (mapM (fun '(p, trans) => configure_proxy f p trans) (zip (proxies f) (map snd ps)));
        mret (set_proxies configured f)
  end.

Definition parseForward : cfg (list (Forward Conn)) :=
  c_while c_next (fun fs => f ← parseStanza; mret (fs ++ [f])) [].

(** setup: the error of the plugin in front; at most fifteen upstreams. *)
Definition forward_setup : cfg (list (Forward Conn)) := fun c =>
  match parseForward c with
  | None => None
  | Some (inr err) => Some (inr (plugin_Error "forward" err))
  | Some (inl (fs, c)) =>
      match list_find (fun f => fw_max < length (proxies f))%nat fs with
      | Some (_, f) => Some (inr (plugin_Error "forward"
          ("more than " +:+ Itoa (Z.of_nat fw_max) +:+ " TOs configured: " +:+ Itoa (Z.of_nat (length (proxies f))))))
      | None => Some (inl (fs, c))
      end
  end.
End setup.
