(* ===== verification/Chains.v ===== *)
(** * Chains of plugins

    The modelled plugins, put one behind the other in any order, keep the
    protocol between a plugin and the server. *)

From Stdlib Require Import SpecFloat.
From S2P Require Import Prelude.
From S2P Require Import GoLoop.
From S2P Require Import GoStd.
From S2P Require Import GoNet.
From S2P Require Import GoFloat.
From S2P Require Import DnsNames.
From S2P Require Import DnsMsg.
From S2P Require Import DnsUtil.
From S2P Require Import Request.
From S2P Require Import Zone.
From S2P Require Import Plugin.
From S2P Require Import Server.
From S2P Require Import Secondary.
From S2P Require Import Lookup.
From S2P Require Import FilePlugin.
From S2P Require Import FileTheorems.
From S2P Require Import ServerTheorems.
From S2P Require Import Response.
From S2P Require Import CachePlugin.
From S2P Require Import CacheTheorems.
From S2P Require Import Hosts.
From S2P Require Import Service.
From S2P Require Import Backend.
From S2P Require Import Etcd.
From S2P Require Import KubeController.
From S2P Require Import Kubernetes.
From S2P Require Import KubeExternal.
From S2P Require Import LoadBalance.
From S2P Require Import Dns64.
From S2P Require Import Acl.
From S2P Require Import SmallPlugins.
From S2P Require Import GoText.
From S2P Require Import Rewrite.
From S2P Require Import Forward.

(** A handler that keeps the protocol for every message but NOTIFY, which the
    file plugin may drop. *)
Definition keeps {W} (strict : bool) (h : Handler W) : Prop := forall r, mOpcode r <> OpcodeNotify -> replies strict h r.
Definition keeps_next {W} (strict : bool) (next : option (Handler W)) : Prop := forall h, next = Some h -> keeps strict h.

Lemma next_keeps {W} b name (next : option (Handler W)) r :
  keeps_next b next -> mOpcode r <> OpcodeNotify -> replies b (NextOrFailure name next) r.
Proof. intros Hn Hr. apply NextOrFailure_replies. intros h E. by apply Hn. Qed.

(** One reply and no error, or no reply and an rcode that asks for one. *)
Ltac direct := solve [by intros [= <- <- <- <-]; split; [reflexivity|]].

Section keeps.
Context `{DnsNames} `{DnsMsgsOk} {W : Type} (b : bool) (next : option (Handler W)) (Hn : keeps_next b next).

Lemma Any_keeps : keeps b (Any_ServeDNS next).
Proof using Hn.
  intros r Hr ctx w s s' msgs rcode err. unfold Any_ServeDNS. destruct (mQuestion r) as [|q qs]; [done|].
  case_decide; [by apply next_keeps|direct].
Qed.

Lemma Local_keeps : keeps b (Local_ServeDNS next).
Proof using Hn.
  intros r Hr ctx w s s' msgs rcode err. unfold Local_ServeDNS.
  destruct (Name (newRequest w (Some r))) as [state name].
  case_decide. { destruct (doLocalhost state); [|done]. simpl. direct. }
  case_decide; [by apply next_keeps|]. case_decide; [done|]. destruct (slice_from _ _); [|done]. simpl. direct.
Qed.

Lemma Whoami_keeps : keeps b (Whoami_ServeDNS (W:=W)).
Proof.
  intros r Hr ctx w s s' msgs rcode err. unfold Whoami_ServeDNS.
  destruct (Request_IP _) as [st1 ip]. destruct (Family st1) as [st2 f]. destruct (Request_Port st2) as [st3 p]. direct.
Qed.

Lemma Chaos_keeps Perm Hostname version authors : keeps b (Chaos_ServeDNS next Perm Hostname version authors).
Proof using Hn.
  intros r Hr ctx w s s' msgs rcode err. unfold Chaos_ServeDNS. case_decide; [by apply next_keeps|].
  destruct (Name (newRequest w (Some r))) as [state name]. case_decide.
  { destruct (Perm _ s) as [[s1 p]|]; [|done]. simpl. destruct (mapM _ p); [|done]. simpl. direct. }
  do 2 (case_decide; [direct|]). by apply next_keeps.
Qed.

Lemma applyRules_opcode m rules : mOpcode (applyRules m rules) = mOpcode m.
Proof.
  unfold applyRules. revert m. induction rules as [|rl rules IH]; intros m; simpl; [done|]. rewrite IH.
  unfold apply_rule. by repeat case_decide.
Qed.

Lemma Header_keeps QueryRules ResponseRules : keeps b (Header_ServeDNS next QueryRules ResponseRules).
Proof using Hn.
  intros r Hr ctx w s s' msgs rcode err. unfold Header_ServeDNS.
  destruct (NextOrFailure _ _ _ _ _ _) as [[[[s1 msgs1] rc1] err1]|] eqn:E; [|done]. simpl. intros [= <- <- <- <-].
  apply (next_keeps b) in E as [Hw Hs]; [|done|by rewrite applyRules_opcode]. split; [|done].
  unfold writes_ok in *. rewrite length_map. destruct (ClientWrite rc1); [done|]. by subst.
Qed.

Lemma Bufsize_keeps Size : keeps b (Bufsize_ServeDNS next Size).
Proof using Hn.
  intros r Hr ctx w s s' msgs rcode err. unfold Bufsize_ServeDNS.
  destruct (IsEdns0 r) as [i|]; simpl; [|by apply next_keeps]. destruct (mExtra r !! i) as [o|]; [|done]. simpl.
  by case_decide; apply next_keeps.
Qed.

Lemma Nsid_keeps Data : keeps b (Nsid_ServeDNS next Data).
Proof using Hn.
  intros r Hr ctx w s s' msgs rcode err. unfold Nsid_ServeDNS.
  destruct (match IsEdns0 r with Some _ => _ | None => _ end) as [asked|]; [|done]. simpl.
  destruct (NextOrFailure _ _ _ _ _ _) as [[[[s1 msgs1] rc1] err1]|] eqn:E; [|done]. simpl.
  apply (next_keeps b) in E as [Hw Hs]; [|done..]. destruct asked; [|by intros [= <- <- <- <-]].
  destruct (mapM _ msgs1) as [ms|] eqn:Em; [|done]. simpl. intros [= <- <- <- <-]. split; [|done].
  apply mapM_Some_1, Forall2_length in Em. unfold writes_ok in *. destruct (ClientWrite rc1); [lia|]. subst. by destruct ms.
Qed.

Lemma Loop_keeps get put : keeps b (Loop_ServeDNS next get put).
Proof using Hn.
  intros r Hr ctx w s s' msgs rcode err. unfold Loop_ServeDNS. destruct (mQuestion r) as [|q qs]; [done|].
  case_decide; [by apply next_keeps|]. destruct (lOff (get s)); [by apply next_keeps|].
  case_decide; [by apply next_keeps|]. case_decide; [done|]. by apply next_keeps.
Qed.

Lemma lb_write_all_length (shuffle : Msg -> st W Msg) msgs : wlp (lb_write_all shuffle msgs) (fun ms => length ms = length msgs).
Proof.
  induction msgs as [|m msgs IH]; simpl; [by apply wlp_ret|]. apply wlp_any. intros m'.
  eapply wlp_bind; [exact IH|]. intros ms Hl. apply wlp_ret. simpl. by rewrite Hl.
Qed.

Lemma LoadBalance_keeps shuffle : keeps b (LoadBalance_ServeDNS shuffle next).
Proof using Hn.
  intros r Hr ctx w s s' msgs rcode err. unfold LoadBalance_ServeDNS.
  destruct (NextOrFailure _ _ _ _ _ _) as [[[[s1 msgs1] rc1] err1]|] eqn:E; [|done]. simpl.
  apply (next_keeps b) in E as [Hw Hs]; [|done..]. destruct (lb_write_all _ _ _) as [[s2 ms]|] eqn:El; [|done].
  simpl. intros [= <- <- <- <-]. split; [|done]. apply lb_write_all_length in El.
  unfold writes_ok in *. destruct (ClientWrite rc1); [lia|]. subst. by destruct ms.
Qed.

Lemma ACL_keeps {Tree} (GetByIP : Tree -> IP -> bool) rules :
  Forall (fun rl => Forall (fun p => pAction p <> actionDrop) (rPolicies rl)) rules ->
  keeps b (ACL_ServeDNS GetByIP rules next).
Proof using Hn H1.
  intros Hd r Hr ctx w s s' msgs rcode err. unfold ACL_ServeDNS.
  induction Hd as [|rl rules Hrl _ IH]; cbn [acl_rules]; [by apply next_keeps|].
  case_decide; [apply IH|].
  destruct (matchWithPolicies GetByIP (rPolicies rl) w r) eqn:Em; [apply IH|by apply next_keeps| | |].
  - rewrite acl_reply_eq. simpl. direct.
  - rewrite acl_reply_eq. simpl. direct.
  - exfalso. unfold matchWithPolicies in Em. destruct (source_ip w r) as [ip|]; [|done].
    induction Hrl as [|p ps Hp _ IHp]; simpl in Em; [done|]. destruct (policy_matches _ _ _ p); auto.
Qed.

Lemma Hosts_keeps hosts Fall : keeps b (Hosts_ServeDNS hosts Fall next).
Proof using Hn.
  intros r Hr ctx w s s' msgs rcode err.
  assert (forall h q rs, Hosts_answer Fall next h q rs ctx w r s = Some (s', msgs, rcode, err) ->
    writes_ok rcode msgs /\ (b = true -> err <> None -> ClientWrite rcode = false)) as Ha.
  { intros h q rs. unfold Hosts_answer. case_decide; [|direct]. destruct (Through _ _); [by apply next_keeps|direct]. }
  unfold Hosts_ServeDNS. destruct (Name (newRequest w (Some r))) as [state qname].
  case_decide; [by apply next_keeps|]. case_decide.
  { destruct (LookupStaticAddr _ _); [by apply next_keeps|apply Ha]. }
  do 2 (case_decide; [apply Ha|]). apply Ha.
Qed.

Lemma Cache_keeps `{GoRange} now wildcard put_wildcard data put_data c :
  keeps b (Cache_ServeDNS now wildcard put_wildcard data put_data c next).
Proof using Hn. intros r Hr. apply serve_replies. intros h E. by apply Hn. Qed.

Lemma File_keeps `{GoRange} exch xfr up zones put_zones Names :
  keeps b (File_ServeDNS exch xfr up zones put_zones next Names).
Proof using Hn. intros r Hr. apply File_replies; [|done]. intros h E. by apply Hn. Qed.

Lemma DNS64_keeps up now Prefix all allow4 : keeps b (DNS64_ServeDNS up now Prefix all allow4 next).
Proof using Hn H1.
  intros r Hr ctx w s s' msgs rcode err. unfold DNS64_ServeDNS.
  destruct next as [h|] eqn:En; [|by destruct (requestShouldIntercept _ _)]. simpl.
  pose proof (Hn h eq_refl r Hr) as Hh. destruct (requestShouldIntercept _ _); [|apply Hh].
  destruct (h ctx w r s) as [[[[s1 msgs1] rc1] err1]|] eqn:E; [|done]. simpl. apply Hh in E as [Hw Hs].
  unfold nonwriter_Msg. destruct (last msgs1) as [m|] eqn:El; cycle 1.
  { intros [= <- <- <- <-]. split; [|done]. apply last_None in El as ->. unfold writes_ok in *. by destruct (ClientWrite rc1). }
  assert (ClientWrite rc1 = true) as Ec by (unfold writes_ok in Hw; destruct (ClientWrite rc1); [done|by subst]).
  destruct (responseShouldDNS64 _ _ _) as [[]|]; [| |done]; simpl; cycle 1.
  { intros [= <- <- <- <-]. split; [|done]. unfold writes_ok. by rewrite Ec. }
  unfold DoDNS64. destruct (Name _) as [req name]. unfold mbind at 2, st_bind.
  destruct (up ctx req name TypeA s1) as [[s2 [e|resp]]|]; simpl; [direct| |done].
  unfold of_option, Synthesize. destruct resp as [resp|]; simpl; [|done]. destruct (mapM _ _); simpl; [|done].
  rewrite SetReply_ok. direct.
Qed.
End keeps.

(** Two plugins drop the reply of a plugin that also returns an error: they
    need a strict one behind them. *)
Section strict.
Context `{DnsNames} `{DnsMsgsOk} {W : Type} (next : option (Handler W)) (Hn : keeps_next true next).

Lemma Minimal_keeps now : keeps true (Minimal_ServeDNS next now).
Proof using Hn.
  intros r Hr ctx w s s' msgs rcode err. unfold Minimal_ServeDNS.
  destruct (NextOrFailure _ _ _ _ _ _) as [[[[s1 msgs1] rc1] err1]|] eqn:E; [|done]. simpl.
  apply (next_keeps true) in E as [Hw Hs]; [|done..]. destruct err1 as [e|].
  { intros [= <- <- <- <-]. specialize (Hs eq_refl ltac:(done)). split; [|done]. unfold writes_ok. by rewrite Hs. }
  destruct (Typify _ _) as [[ty o]|]; [|done]. simpl. destruct (nonwriter_Msg msgs1) as [m|]; [|done]. simpl.
  case_decide as Hc; [direct|]. case_decide as Ht; [|direct]. exfalso. apply Hc. destruct ty; simpl; tauto.
Qed.

Lemma autopath_loop_keeps ctx w orig base path ar first s s' msgs rcode err :
  mOpcode ar <> OpcodeNotify ->
  match first with
  | Some (m, rc, e) => e = None /\ (ClientWrite rc = true -> m <> None)
  | None => path <> []
  end ->
  autopath_loop next ctx w ar orig base path first s = Some (s', msgs, rcode, err) ->
  writes_ok rcode msgs /\ (true = true -> err <> None -> ClientWrite rcode = false).
Proof using Hn.
  revert ar first s. induction path as [|p path IH]; intros ar first s Ho Hf; cbn [autopath_loop].
  { destruct first as [[[m rc] e]|]; [|done]. simpl. destruct Hf as [-> Hf]. destruct (ClientWrite rc) eqn:Ec.
    - destruct m as [m|]; [|by destruct (Hf eq_refl)]. simpl. intros [= <- <- <- <-]. split; [|done]. unfold writes_ok. by rewrite Ec.
    - intros [= <- <- <- <-]. split; [|done]. unfold writes_ok. by rewrite Ec. }
  destruct (mQuestion ar) as [|q qs]; [done|]. cbn [mbind option_bind].
  set (ar' := set_mQuestion _ ar). assert (mOpcode ar' <> OpcodeNotify) as Ho' by exact Ho.
  destruct (NextOrFailure _ _ _ _ _ _) as [[[[s1 msgs1] rc1] err1]|] eqn:E; [|done]. cbn [mbind option_bind].
  apply (next_keeps true) in E as [Hw Hs]; [|done..]. destruct err1 as [e|].
  { intros [= <- <- <- <-]. specialize (Hs eq_refl ltac:(done)). split; [|done]. unfold writes_ok. by rewrite Hs. }
  set (first' := match first with Some f => f | None => (nonwriter_Msg msgs1, rc1, None) end).
  assert (let '(m, rc, e) := first' in e = None /\ (ClientWrite rc = true -> m <> None)) as Hf'.
  { subst first'. destruct first as [[[m rc] e]|]; [done|]. split; [done|]. intros Ec. unfold writes_ok in Hw.
    rewrite Ec in Hw. by destruct msgs1 as [|m1 [|]]. }
  destruct first' as [[m rc] e]. destruct (ClientWrite rc1) eqn:Ec; [|by apply IH].
  destruct (nonwriter_Msg msgs1) as [m1|]; [|done]. cbn [mbind option_bind]. case_decide; [by apply IH|].
  destruct (cnamer m1 orig) as [m2|]; [|done]. cbn [mbind option_bind]. intros [= <- <- <- <-]. split; [|done].
  unfold writes_ok. by rewrite Ec.
Qed.

Lemma AutoPath_keeps Zones search searchFunc : keeps true (AutoPath_ServeDNS next Zones search searchFunc).
Proof using Hn.
  intros r Hr ctx w s s' msgs rcode err. unfold AutoPath_ServeDNS.
  destruct (Name (newRequest w (Some r))) as [state name]. case_decide; [by apply next_keeps|].
  destruct (match searchFunc with Some f => _ | None => _ end) as [|first path] eqn:Ep; [by apply next_keeps|].
  destruct (firstInSearchPath name first); [|by apply next_keeps].
  destruct (TrimZone (QName state) first) as [[base|e]|]; simpl; [|direct|done].
  by apply (autopath_loop_keeps ctx w (QName state) base (first :: path) r None).
Qed.
End strict.

(** The etcd plugin returns success together with the error of the backend
    after it has written the reply. *)
Section etcd.
Context `{DnsNames} `{DnsMsgsOk} {W : Type} (next : option (Handler W)) (Hn : keeps_next false next).
Context (Get : string -> bool -> st W (string + GetResponse)) (Unmarshal : string -> string + Service)
  (up : Ctx -> Request -> string -> Z -> st W (string + option Msg)) (unix : W -> Z) (f16 : spec_float -> Z).

Definition same_opcode (state state' : Request) : Prop :=
  mOpcode <$> Req state' = mOpcode <$> Req state.

Lemma rename_opcode n state state' : rename n state = Some state' -> same_opcode state state'.
Proof.
  unfold rename, same_opcode. destruct (Req state) as [m|]; [|done]. simpl. destruct (mQuestion m); [done|].
  by intros [= <-].
Qed.

Lemma NS_opcode (e : ServiceBackend W) ctx zone state :
  wlp (backend_NS e ctx zone state) (fun '(state', _) => same_opcode state state').
Proof.
  unfold backend_NS. apply wlp_any. intros name. eapply wlp_bind; [apply wlp_option, rename_opcode|]. intros st1 H2.
  apply wlp_any. intros [err|services]; [by apply wlp_ret|].
  eapply wlp_bind; [apply wlp_option, rename_opcode|]. intros st2 H3. apply wlp_any. intros res. apply wlp_ret.
  unfold same_opcode in *. by rewrite H3.
Qed.

Lemma etcd_switch_opcode prefix ctx zone state :
  wlp (etcd_switch Get Unmarshal up unix f16 prefix ctx zone state) (fun '(state', _) => same_opcode state state').
Proof.
  unfold etcd_switch. do 8 (case_decide; [apply wlp_any; intros ?; by apply wlp_ret|]).
  case_decide; [|apply wlp_any; intros ?; by apply wlp_ret].
  eapply wlp_bind; [apply NS_opcode|]. intros [st1 r] Ho. apply wlp_ret. unfold same_opcode in *.
  destruct (Req st1); [exact Ho|done].
Qed.

Lemma etcd_error_writes prefix zone rcode state err :
  wlp (etcd_error Get Unmarshal up unix prefix zone rcode state err) (fun '(msgs, rc, _) => writes_ok rc msgs).
Proof.
  unfold etcd_error, BackendError. eapply (wlp_bind _ _ (fun '(_, rc, _) => rc = RcodeSuccess)).
  - apply wlp_any. intros m. apply wlp_any. intros soa. by apply wlp_ret.
  - intros [[m rc] e] ->. by apply wlp_ret.
Qed.

Lemma etcd_serve_writes Fall prefix ctx w zone state :
  mOpcode <$> Req state <> Some OpcodeNotify ->
  wlp (etcd_serve Get Unmarshal up unix f16 Fall prefix next ctx w zone state) (fun '(msgs, rc, _) => writes_ok rc msgs).
Proof using Hn.
  intros Ho. unfold etcd_serve. eapply wlp_bind; [apply etcd_switch_opcode|]. intros [st1 res] H2.
  apply (wlp_bind _ _ (fun r => mOpcode r <> OpcodeNotify)).
  { apply wlp_option. intros r E. unfold same_opcode in H2. rewrite E in H2. simpl in H2. congruence. }
  intros r Hr. destruct res as [err|[[[|rr records] extra] truncated]]; [|apply etcd_error_writes|by apply wlp_ret].
  case_bool_decide; [destruct (Through _ _)|]; [|apply etcd_error_writes..].
  intros s s' [[msgs rc] e]. unfold etcd_next.
  destruct (NextOrFailure _ _ _ _ _ _) as [[[[s1 msgs1] rc1] err1]|] eqn:E; [|done]. simpl. intros [= <- <- <- <-].
  by apply (next_keeps false) in E as [Hw _].
Qed.

Lemma Etcd_keeps Zones Fall prefix : keeps false (Etcd_ServeDNS Get Unmarshal up unix f16 Zones Fall prefix next).
Proof using Hn.
  intros r Hr ctx w s s' msgs rcode err. unfold Etcd_ServeDNS. pose proof (Req_Name (newRequest w (Some r))) as En.
  destruct (Name (newRequest w (Some r))) as [state name]. simpl in En. case_decide; [by apply next_keeps|].
  destruct (etcd_serve _ _ _ _ _ _ _ _ _ _ _ _ _) as [[s1 [[msgs1 rc1] err1]]|] eqn:E; [|done]. simpl.
  intros [= <- <- <- <-]. split; [|done]. eapply etcd_serve_writes in E; [exact E|]. rewrite En. simpl. congruence.
Qed.
End etcd.

(** The rewrite plugin writes the reply for the plugins behind it when they
    have not, and passes their error on. *)
Section rewrite.
Context `{DnsNames} `{MOk : DnsMsgsOk} `{GoRegexp} {W : Type} (next : option (Handler W)) (Hn : keeps_next false next).

Lemma apply_edns0_opcode r edit r' resp res : apply_edns0 r edit = Some (r', resp, res) -> mOpcode r' = mOpcode r.
Proof.
  unfold apply_edns0, setupEdns0Opt.
  assert (forall r1 i, (o ← mExtra r1 !! i; match edit (opt_options o) with
            | None => Some (r1, [], RewriteIgnored)
            | Some os => r2 ← put_options r1 i os; Some (r2, [], RewriteDone)
            end) = Some (r', resp, res) -> mOpcode r' = mOpcode r1) as Hi.
  { intros r1 i. destruct (mExtra r1 !! i) as [o|] eqn:Eo; [|done]. cbn [mbind option_bind].
    destruct (edit (opt_options o)); [|by intros [= <- _ _]]. unfold put_options. rewrite Eo. by intros [= <- _ _]. }
  destruct (IsEdns0 r) as [i|]; [apply Hi|]. destruct (IsEdns0 (SetEdns0 4096 false r)) as [i|]; [|done]. cbn [mbind option_bind].
  intros ->%Hi. by rewrite SetEdns0_ok.
Qed.

Lemma rule_Rewrite_opcode rule ctx w r r' resp res : rule_Rewrite rule ctx w r = Some (r', resp, res) -> mOpcode r' = mOpcode r.
Proof.
  unfold rule_Rewrite. destruct (mQuestion r) as [|q qs]; [done|].
  destruct rule; try (apply apply_edns0_opcode); unfold put_question;
    try (cbn [ttl_matches]; repeat case_match; intros E; by simplify_eq).
  unfold edns0VariableRule_Rewrite. destruct (ruleData _ _ _) as [[data|]|]; [|by intros [= <- _ _]|done]. apply apply_edns0_opcode.
Qed.

(** The message that the next plugin gets. *)
Definition outcome_msg (o : Outcome) : option Msg :=
  match o with rw_invalid _ => None | rw_stop r _ | rw_end r _ => Some r end.

Lemma rewrite_loop_opcode rules ctx w r resp o r' :
  rewrite_loop rules ctx w r resp = Some o -> outcome_msg o = Some r' -> mOpcode r' = mOpcode r.
Proof.
  revert r resp. induction rules as [|rule rules IH]; intros r resp; cbn [rewrite_loop]; [by intros [= <-] [= ->]|].
  destruct (rule_Rewrite rule ctx w r) as [[[r1 new] res]|] eqn:E; [|done]. cbn [mbind option_bind].
  apply rule_Rewrite_opcode in E. destruct res; [intros Hl Ho; rewrite <- E; by eapply IH|].
  destruct (mQuestion r1) as [|q qs]; [done|]. cbn [head mbind option_bind]. destruct (IsDomainName _); [|by intros [= <-]].
  case_decide; [by intros [= <-] [= ->]|]. intros Hl Ho. rewrite <- E. by eapply IH.
Qed.

Lemma next_reverted_replies policy orig resp r :
  mOpcode r <> OpcodeNotify -> replies false (next_reverted policy next orig resp (W:=W)) r.
Proof using Hn.
  intros Hr ctx w s s' msgs rcode err. unfold next_reverted.
  destruct (NextOrFailure _ _ _ _ _ _) as [[[[s1 msgs1] rc1] err1]|] eqn:E; [|done]. cbn [mbind option_bind].
  apply (next_keeps false) in E as [Hw Hs]; [|done..].
  destruct (mapM _ msgs1) as [ms|] eqn:Em; [|done]. cbn [mbind option_bind]. intros [= <- <- <- <-]. split; [|done].
  apply mapM_Some_1, Forall2_length in Em. unfold writes_ok in *. destruct (ClientWrite rc1); [lia|]. subst. by destruct ms.
Qed.

Lemma Rewrite_keeps sup policy Rules : keeps false (Rewrite_ServeDNS sup policy next Rules).
Proof using Hn MOk.
  intros r Hr ctx w s s' msgs rcode err. unfold Rewrite_ServeDNS. destruct (mQuestion r) as [|q qs]; [done|].
  cbn [head mbind option_bind]. destruct (rewrite_loop _ _ _ _ _) as [o|] eqn:El; [|done]. cbn [mbind option_bind].
  assert (forall r1, outcome_msg o = Some r1 -> mOpcode r1 <> OpcodeNotify) as Ho.
  { intros r1 E1. by rewrite (rewrite_loop_opcode _ _ _ _ _ _ _ El E1). }
  destruct o as [e|r1 resp|r1 resp].
  - direct.
  - destruct (negb _); [apply next_keeps; auto|].
    destruct (next_reverted _ _ _ _ _ _ _ _) as [[[[s1 msgs1] rc1] err1]|] eqn:E; [|done]. cbn [mbind option_bind].
    apply next_reverted_replies in E as [Hw Hs]; [|auto].
    destruct (ClientWrite rc1) eqn:Ec; [by intros [= <- <- <- <-]|]. unfold writes_ok in Hw. rewrite Ec in Hw. subst.
    destruct (SizeAndDo _ _ _) as [[[? res] ?]|]; [|done]. cbn [mbind option_bind].
    destruct (reverter_WriteMsg _ _ _ _) as [res'|]; [|done]. cbn [mbind option_bind]. intros [= <- <- <- <-]. by split.
  - destruct (_ || _)%bool; [apply next_keeps|apply next_reverted_replies]; auto.
Qed.
End rewrite.

(** The kubernetes plugin returns an error only when it has written nothing. *)
Section kubernetes.
Context `{DnsNames} `{DnsMsgsOk} {W : Type} (b : bool) (next : option (Handler W)) (Hn : keeps_next b next).
Context (conn : dnsController W) (k : Kubernetes) (up : Ctx -> Request -> string -> Z -> st W (string + option Msg)) (f16 : spec_float -> Z).

Definition kept (res : list Msg * Z * option string) : Prop :=
  writes_ok res.1.2 res.1.1 /\ (b = true -> res.2 <> None -> ClientWrite res.1.2 = false).

Lemma kube_switch_opcode ctx qname zone state :
  wlp (kube_switch conn k up f16 ctx qname zone state) (fun '(state', _) => same_opcode state state').
Proof.
  unfold kube_switch. do 7 (case_decide; [apply wlp_any; intros ?; by apply wlp_ret|]).
  case_decide; [case_decide; [apply wlp_any; intros ?|]; by apply wlp_ret|].
  case_decide; [|apply wlp_any; intros ?; apply wlp_any; intros ?; by apply wlp_ret].
  eapply wlp_bind; [apply NS_opcode|]. intros [st1 r] Ho. apply wlp_ret. unfold same_opcode in *.
  destruct (Req st1); [exact Ho|done].
Qed.

Lemma kube_error_kept zone rcode state : wlp (kube_error conn k up zone rcode state) kept.
Proof.
  unfold kube_error, BackendError. eapply (wlp_bind _ _ (fun '(_, rc, err) => rc = RcodeSuccess /\ err = None)).
  - apply wlp_any. intros m. apply wlp_any. intros soa. by apply wlp_ret.
  - intros [[m rc] e] [-> ->]. by apply wlp_ret.
Qed.

Lemma kube_serve_kept ctx w qname zone state :
  mOpcode <$> Req state <> Some OpcodeNotify -> wlp (kube_serve conn k up f16 next ctx w qname zone state) kept.
Proof using Hn.
  intros Ho. unfold kube_serve. case_decide; [by apply wlp_ret|].
  eapply wlp_bind; [apply kube_switch_opcode|]. intros [st1 res] Hop.
  apply (wlp_bind _ _ (fun r => mOpcode r <> OpcodeNotify)).
  { apply wlp_option. intros r E. unfold same_opcode in Hop. rewrite E in Hop. simpl in Hop. congruence. }
  intros r Hr. destruct res as [err|[[[|rr records] extra] truncated]]; [|apply kube_error_kept|by apply wlp_ret].
  destruct (kube_IsNameError err); [|by apply wlp_ret].
  destruct (Through _ _); [|apply wlp_any; intros synced; apply kube_error_kept].
  intros s s' [[msgs rc] e]. unfold kube_next.
  destruct (NextOrFailure _ _ _ _ _ _) as [[[[s1 msgs1] rc1] err1]|] eqn:E; [|done]. simpl. intros [= <- <- <- <-].
  by apply (next_keeps b) in E.
Qed.

Lemma Kubernetes_keeps : keeps b (Kubernetes_ServeDNS conn k up f16 next).
Proof using Hn.
  intros r Hr ctx w s s' msgs rcode err. unfold Kubernetes_ServeDNS. cbv zeta. case_decide; [by apply next_keeps|].
  destruct (if decide _ then _ else _) as [zone|]; [|done]. cbn [mbind option_bind].
  destruct (kube_serve _ _ _ _ _ _ _ _ _ _ _) as [[s1 [[msgs1 rc1] err1]]|] eqn:E; [|done]. simpl.
  intros [= <- <- <- <-]. eapply kube_serve_kept in E; [exact E|]. simpl. congruence.
Qed.

Lemma External_keeps e x upstream configured : keeps b (External_ServeDNS e x upstream f16 next configured).
Proof using Hn.
  intros r Hr ctx w s s' msgs rcode err. unfold External_ServeDNS. destruct (Name _) as [state name].
  case_decide; [by apply next_keeps|]. destruct (ext_apex _ _ _ _ _ _) as [[s1 [m|]]|]; [..|done]; simpl; [direct|].
  destruct (ext_answer _ _ _ _ _ _ _) as [[s2 m]|]; [|done]. simpl. direct.
Qed.
End kubernetes.

(** ** The forward plugin *)

Section forward.
Context `{DnsNames} `{DnsMsgsOk} {Conn W : Type} (b : bool) (next : option (Handler W)) (Hn : keeps_next b next).
Context (is_UDPConn : Conn -> bool) (net : Network (Conn := Conn) W) (fw : W -> Forward Conn) (put_fw : Forward Conn -> W -> W).

(** One reply without an error, or an error left to the server. *)
Definition answers_or_fails (res : list Msg * Z * option string) : Prop :=
  (exists m, res = ([m], RcodeSuccess, None)) \/ exists e, res = ([], RcodeServerFailure, e) \/ res = ([], RcodeRefused, e).

Lemma serve_turn_answers state l deadline s :
  wlp (serve_turn is_UDPConn net fw put_fw state l deadline s) (turn_ok (fun _ => True) answers_or_fails).
Proof.
  assert (forall e, answers_or_fails ([], RcodeServerFailure, e)) as Hfail by (intros e; right; eauto).
  unfold serve_turn. apply wlp_any. intros now. case_decide; [apply wlp_ret, Hfail|].
  destruct (if decide _ then _ else _) as [i fails]. do 3 (apply wlp_any; intros ?).
  destruct (_ && _)%bool; [by apply wlp_ret|]. do 2 (apply wlp_any; intros ?). destruct a3 as [ret [e|]].
  - apply wlp_any. intros _. case_decide; apply wlp_ret; [done|apply Hfail].
  - do 2 (apply wlp_any; intros ?). apply wlp_ret. left. eauto.
Qed.

Lemma forward_query_answers state : wlp (forward_query is_UDPConn net fw put_fw state) answers_or_fails.
Proof.
  unfold forward_query. do 2 (apply wlp_any; intros ?).
  apply (until_wlp _ (fun _ => True)); [|done]. intros s _. apply serve_turn_answers.
Qed.

Lemma forward_limited_answers state : wlp (forward_limited is_UDPConn net fw put_fw state) answers_or_fails.
Proof.
  unfold forward_limited. apply wlp_any. intros f. case_decide; [|apply forward_query_answers].
  do 2 (apply wlp_any; intros ?). eapply wlp_bind with (P := answers_or_fails).
  - case_decide; [apply wlp_ret; right; eauto|apply forward_query_answers].
  - intros res Hres. apply wlp_any. intros _. by apply wlp_ret.
Qed.

Lemma Forward_keeps : keeps b (Forward_ServeDNS is_UDPConn net fw put_fw next).
Proof using Hn.
  intros r Hr ctx w s s' msgs rcode err. unfold Forward_ServeDNS. cbv zeta.
  destruct (fw_match _ _); [|by apply next_keeps].
  destruct (forward_limited _ _ _ _ _ _) as [[s1 [[ms rc] e]]|] eqn:E; [|done]. cbn [mbind option_bind].
  apply forward_limited_answers in E as [(m & [= -> -> ->])|(e' & [[= -> -> ->]|[= -> -> ->]])]; direct.
Qed.
End forward.

(** ** Chains *)

Section chains.
Context `{GoRange} `{DnsNames} `{DnsMsgsOk} {W : Type}.

(** Chains of the modelled plugins, with whatever configuration and whatever
    they are given of the outside.  [strict] tells that no plugin of the chain
    returns an error with a reply it has written: the etcd plugin does, and
    minimal and autopath need to be before plugins that do not.  An acl that
    drops queries, and erratic, which does so for tests, are left out. *)
Inductive chain : bool -> Handler W -> Prop :=
  | chain_file b exch xfr up zones put_zones next Names :
      (forall h, next = Some h -> chain b h) -> chain b (File_ServeDNS exch xfr up zones put_zones next Names)
  | chain_cache b now wildcard put_wildcard data put_data c next :
      (forall h, next = Some h -> chain b h) -> chain b (Cache_ServeDNS now wildcard put_wildcard data put_data c next)
  | chain_hosts b hosts Fall next :
      (forall h, next = Some h -> chain b h) -> chain b (Hosts_ServeDNS hosts Fall next)
  | chain_etcd Get Unmarshal up unix f16 Zones Fall prefix next :
      (forall h, next = Some h -> chain false h) -> chain false (Etcd_ServeDNS Get Unmarshal up unix f16 Zones Fall prefix next)
  | chain_kubernetes b conn k up f16 next :
      (forall h, next = Some h -> chain b h) -> chain b (Kubernetes_ServeDNS conn k up f16 next)
  | chain_external b e x upstream f16 configured next :
      (forall h, next = Some h -> chain b h) -> chain b (External_ServeDNS e x upstream f16 next configured)
  | chain_forward b Conn is_UDPConn (net : Network (Conn := Conn) W) fw put_fw next :
      (forall h, next = Some h -> chain b h) -> chain b (Forward_ServeDNS is_UDPConn net fw put_fw next)
  | chain_rewrite `{GoRegexp} sup policy Rules next :
      (forall h, next = Some h -> chain false h) -> chain false (Rewrite_ServeDNS sup policy next Rules)
  | chain_dns64 b up now Prefix all allow4 next :
      (forall h, next = Some h -> chain b h) -> chain b (DNS64_ServeDNS up now Prefix all allow4 next)
  | chain_loadbalance b shuffle next :
      (forall h, next = Some h -> chain b h) -> chain b (LoadBalance_ServeDNS shuffle next)
  | chain_acl b Tree (GetByIP : Tree -> IP -> bool) rules next :
      Forall (fun rl => Forall (fun p => pAction p <> actionDrop) (rPolicies rl)) rules ->
      (forall h, next = Some h -> chain b h) -> chain b (ACL_ServeDNS GetByIP rules next)
  | chain_any b next : (forall h, next = Some h -> chain b h) -> chain b (Any_ServeDNS next)
  | chain_local b next : (forall h, next = Some h -> chain b h) -> chain b (Local_ServeDNS next)
  | chain_whoami b : chain b Whoami_ServeDNS
  | chain_chaos b Perm Hostname version authors next :
      (forall h, next = Some h -> chain b h) -> chain b (Chaos_ServeDNS next Perm Hostname version authors)
  | chain_header b QueryRules ResponseRules next :
      (forall h, next = Some h -> chain b h) -> chain b (Header_ServeDNS next QueryRules ResponseRules)
  | chain_bufsize b Size next : (forall h, next = Some h -> chain b h) -> chain b (Bufsize_ServeDNS next Size)
  | chain_nsid b Data next : (forall h, next = Some h -> chain b h) -> chain b (Nsid_ServeDNS next Data)
  | chain_loop b get put next : (forall h, next = Some h -> chain b h) -> chain b (Loop_ServeDNS next get put)
  | chain_minimal now next : (forall h, next = Some h -> chain true h) -> chain true (Minimal_ServeDNS next now)
  | chain_autopath Zones search searchFunc next :
      (forall h, next = Some h -> chain true h) -> chain true (AutoPath_ServeDNS next Zones search searchFunc)
  | chain_relax h : chain true h -> chain false h.

Lemma chain_keeps b h : chain b h -> keeps b h.
Proof.
  induction 1; eauto using File_keeps, Cache_keeps, Hosts_keeps, Etcd_keeps, Kubernetes_keeps, External_keeps, Forward_keeps, Rewrite_keeps, DNS64_keeps, LoadBalance_keeps, ACL_keeps,
    Any_keeps, Local_keeps, Whoami_keeps, Chaos_keeps, Header_keeps, Bufsize_keeps, Nsid_keeps, Loop_keeps,
    Minimal_keeps, AutoPath_keeps.
  intros r Hr ctx w s s' msgs rcode err E. apply IHchain in E as [Hw _]; [|done]. by split.
Qed.
End chains.


(** ** Examples *)

#[local] Existing Instance dns_reference.
#[local] Existing Instance msgs_reference.

(** header before local before whoami. *)
Definition chain_example : Handler unit :=
  Header_ServeDNS (Some (Local_ServeDNS (Some Whoami_ServeDNS))) [] [mkHeaderRule "ra" true].

Definition chain_server : Server unit :=
  mkServer "dns://:53"
    {[ dot := [mkConfig dot false false [] EmptyString [] (Some (mkHandler chain_example "header" None None)) None ∅ no_limits] ]}
    false false false no_limits.


(** A backend whose store cannot be reached. *)
Definition unreachable_etcd : Handler unit :=
  Etcd_ServeDNS (fun _ _ => mret (inl "context deadline exceeded"%string)) (fun _ => inl EmptyString)
    (fun _ _ _ _ => mret (inl "no"%string)) (fun _ => 0%Z) (fun _ => 0%Z) ["example.org."%string] [] "skydns" None.

