(* ===== verification/RewriteTheorems.v ===== *)
(** * What the rewrite plugin gives its clients

    A name rule is undone in the reply, TTL rules keep the TTLs in their range,
    every line of the configuration is read or refused. *)

From S2P Require Import Prelude.
From S2P Require Import GoStd.
From S2P Require Import GoNet.
From S2P Require Import GoText.
From S2P Require Import GoTime.
From S2P Require Import DnsNames.
From S2P Require Import DnsMsg.
From S2P Require Import DnsUtil.
From S2P Require Import Request.
From S2P Require Import Plugin.
From S2P Require Import ServerTheorems.
From S2P Require Import Metadata.
From S2P Require Import SmallPlugins.
From S2P Require Import FileTheorems.
From S2P Require Import Rewrite.
From S2P Require Import RewriteRules.

(** ** Rewriters *)

Section rewriters.
Context `{DnsNames} `{DnsMsgs} `{GoRegexp}.

Lemma remap_orig orig replacement : rewriteString (remapStringRewriter orig replacement) orig = replacement.
Proof. cbn [rewriteString]. unfold remap_rewriteString. by rewrite decide_True. Qed.

(** Below the name, too. *)
Lemma remap_below sub orig replacement :
  rewriteString (remapStringRewriter orig replacement) (sub +:+ "." +:+ orig) = sub +:+ "." +:+ replacement.
Proof.
  cbn [rewriteString]. unfold remap_rewriteString. rewrite decide_False.
  2:{ intros E. apply (f_equal String.length) in E. rewrite !slen_app in E. simpl in E. lia. }
  rewrite HasSuffix_app, <- (sapp_assoc sub "." orig), slen_app.
  replace (slen (sub +:+ ".") + slen orig - slen orig)%nat with (slen (sub +:+ ".")) by lia.
  rewrite stake_app. apply sapp_assoc.
Qed.

Lemma suffix_back name suffix replacement :
  HasSuffix name suffix = true ->
  rewriteString (suffixStringRewriter replacement suffix) (TrimSuffix name suffix +:+ replacement) = name.
Proof. intros [r ->]%HasSuffix_inv. cbn [rewriteString]. unfold suffix_rewriteString. by rewrite HasSuffix_app, !TrimSuffix_app. Qed.

(** ** Records *)

(** A record whose data is of the type its header says, as far as names go. *)
Definition rr_typed (rr : RR) : Prop := is_Some (getRecordValueForRewrite rr).

(** A record without a name in its data. *)
Definition rr_nameless (rr : RR) : Prop := getRecordValueForRewrite rr = Some EmptyString.

Lemma setRewritten_typed rr v : rr_typed rr -> exists rr', setRewrittenRecordValue rr v = Some rr' /\ rr_typed rr'.
Proof.
  destruct rr as [n t c ttl d]. unfold rr_typed, getRecordValueForRewrite, setRewrittenRecordValue. simpl. intros [x Hx].
  repeat (case_decide; [destruct d; try done; eexists; (split; [reflexivity|]); simpl; subst t; by eexists|]).
  eexists. split; [reflexivity|]. simpl. repeat (rewrite decide_False by done). by eexists.
Qed.

Lemma RewriteResponse_typed rule rr : rr_typed rr -> exists rr', RewriteResponse rule rr = Some rr' /\ rr_typed rr'.
Proof.
  intros Ht. destruct rule as [r|r|lo hi]; cbn [RewriteResponse].
  - by eexists.
  - destruct Ht as [v Hv]. unfold valueRewriter_RewriteResponse. rewrite Hv. cbn [mbind option_bind]. case_decide; [|eexists; split; [done|by exists v]].
    case_decide; [apply setRewritten_typed; by exists v|eexists; split; [done|by exists v]].
  - eexists. split; [done|]. unfold ttl_RewriteResponse. by repeat case_decide.
Qed.

Lemma rewriteResourceRecord_typed rules rr : rr_typed rr -> exists rr', rewriteResourceRecord rules rr = Some rr' /\ rr_typed rr'.
Proof.
  revert rr. induction rules as [|rule rules IH]; intros rr Ht; [by exists rr|]. cbn [rewriteResourceRecord].
  destruct (RewriteResponse_typed rule rr Ht) as (rr' & -> & Ht'). cbn [mbind option_bind]. by apply IH.
Qed.

Lemma rewrite_section rules rrs : Forall rr_typed rrs -> exists rrs', mapM (rewriteResourceRecord rules) rrs = Some rrs'.
Proof.
  intros Hf. apply mapM_is_Some. eapply Forall_impl; [exact Hf|]. intros rr Ht.
  destruct (rewriteResourceRecord_typed rules rr Ht) as (rr' & E & _). by exists rr'.
Qed.

(** A reply whose records are typed. *)
Definition reply_typed (m : Msg) : Prop :=
  mQuestion m <> [] /\ Forall rr_typed (mAnswer m) /\ Forall rr_typed (mNs m) /\ Forall rr_typed (mExtra m).

(** What the client gets: its question, and the answer section rewritten. *)
Definition restored (q : Question) (answer : list RR -> list RR) (m m' : Msg) : Prop :=
  head (mQuestion m') = Some q /\ mAnswer m' = answer (mAnswer m) /\ mRcode m' = mRcode m /\ mId m' = mId m /\
  length (mNs m') = length (mNs m) /\ length (mExtra m') = length (mExtra m).

Lemma reverter_restores policy q rules (f : RR -> RR) m :
  noRestore policy = false -> reply_typed m ->
  Forall (fun rr => rewriteResourceRecord rules rr = Some (f rr)) (mAnswer m) ->
  exists m', reverter_WriteMsg policy q rules m = Some m' /\ restored q (map f) m m'.
Proof.
  intros Hp (Hq & Ha & Hn & He) Hf. unfold reverter_WriteMsg, DoQuestionRestore. rewrite Hp. cbn [negb].
  destruct (mQuestion m) as [|q0 qs]; [done|]. cbn [mbind option_bind].
  assert (mapM (rewriteResourceRecord rules) (mAnswer m) = Some (map f (mAnswer m))) as Em.
  { apply mapM_Some_2. clear Ha. induction Hf; constructor; auto. }
  destruct rules as [|rule rules'].
  { eexists. split; [reflexivity|]. repeat split. simpl. clear -Hf. induction Hf as [|rr rrs E _ IH]; [done|]. simpl in *.
    injection E as E'. by rewrite <- E', <- IH. }
  set (rs := rule :: rules') in *. destruct (rewrite_section rs (mNs m) Hn) as [ns Ens].
  destruct (rewrite_section rs (mExtra m) He) as [ex Eex]. simpl mNs. simpl mAnswer. simpl mExtra.
  rewrite Ens, Em, Eex. cbn [mbind option_bind]. eexists. split; [reflexivity|]. repeat split.
  - by apply mapM_Some_1, Forall2_length in Ens.
  - by apply mapM_Some_1, Forall2_length in Eex.
Qed.

(** ** Name rules *)

(** Name rules that undo themselves in the reply. *)
Inductive auto_rule : RewriteRule -> Prop :=
  | auto_exact mode from to : auto_rule (newExactNameRule mode from to [])
  | auto_prefix mode from to : auto_rule (newPrefixNameRule mode true from to [])
  | auto_suffix mode from to : auto_rule (newSuffixNameRule mode true from to [])
  | auto_substring mode from to : auto_rule (newSubstringNameRule mode true from to [])
  | auto_regex mode p to : auto_rule (newRegexNameRule mode true p to []).

Lemma name_value_back r rr name :
  rewriteString r (hName rr) = name -> rr_nameless rr ->
  rewriteResourceRecord [nameRewriterResponseRule r; valueRewriterResponseRule r] rr = Some (set_hName name rr).
Proof.
  intros <- Hn. unfold rr_nameless in Hn. cbn [rewriteResourceRecord RewriteResponse mbind option_bind]. unfold valueRewriter_RewriteResponse.
  assert (getRecordValueForRewrite (set_hName (rewriteString r (hName rr)) rr) = getRecordValueForRewrite rr) as E by done.
  rewrite E, Hn. cbn [mbind option_bind]. by rewrite decide_False by (by intros []).
Qed.

Lemma auto_rule_back rule name b to rr :
  auto_rule rule -> renamed rule name = Some (b, to) -> hName rr = to -> rr_nameless rr ->
  rewriteResourceRecord (responseRuleFor b name to) rr = Some (set_hName name rr).
Proof.
  intros Hr Hren <- Hn. destruct Hr; cbn [renamed newExactNameRule newPrefixNameRule newSuffixNameRule newSubstringNameRule newRegexNameRule] in Hren;
    apply fmap_Some in Hren as (to' & Ht & [= -> <-]).
  3:{ cbn [responseRuleFor auto_ static app]. apply name_value_back; [|done]. unfold suffix_renamed in Ht.
      destruct (HasSuffix _ _) eqn:E; [|done]. injection Ht as <-. by apply suffix_back. }
  all: apply name_value_back; [apply remap_orig|done].
Qed.

Lemma auto_rule_Rewrite rule ctx w r q qs b to :
  let name := (Name (newRequest w (Some r))).2 in
  auto_rule rule -> mQuestion r = q :: qs -> renamed rule name = Some (b, to) ->
  rule_Rewrite rule ctx w r =
    Some (set_mQuestion (mkQuestion to (qType q) (qClass q) :: qs) r, responseRuleFor b name to, RewriteDone).
Proof.
  intros name Hr Hq Hren. unfold rule_Rewrite. fold name. rewrite Hq.
  destruct Hr; cbn [newExactNameRule newPrefixNameRule newSuffixNameRule newSubstringNameRule newRegexNameRule ttl_matches] in *;
    by rewrite Hren.
Qed.

Lemma rewrite_loop_skip before rules ctx w r resp :
  Forall (fun rule => rule_Rewrite rule ctx w r = Some (r, [], RewriteIgnored)) before ->
  rewrite_loop (before ++ rules) ctx w r resp = rewrite_loop rules ctx w r resp.
Proof. induction 1 as [|rule before E _ IH]; [done|]. cbn [app rewrite_loop]. by rewrite E. Qed.
End rewriters.

(** ** The handler *)

Section handler.
Context `{DnsNames} `{DnsMsgs} `{GoRegexp} {W : Type} (sup : gset Z) (policy : revertPolicy) (next : option (Handler W)).

Lemma next_reverted_restores q rules (f : RR -> RR) ctx w r s s' msgs rcode err :
  noRestore policy = false ->
  NextOrFailure Rewrite_Name next ctx w r s = Some (s', msgs, rcode, err) ->
  Forall reply_typed msgs ->
  Forall (fun m => Forall (fun rr => rewriteResourceRecord rules rr = Some (f rr)) (mAnswer m)) msgs ->
  exists msgs', next_reverted policy next q rules ctx w r s = Some (s', msgs', rcode, err) /\
    Forall2 (restored q (map f)) msgs msgs'.
Proof.
  intros Hp E Ht Hf. unfold next_reverted. rewrite E. cbn [mbind option_bind].
  assert (exists msgs', mapM (reverter_WriteMsg policy q rules) msgs = Some msgs' /\ Forall2 (restored q (map f)) msgs msgs')
    as (msgs' & -> & Hr).
  { clear E. induction Ht as [|m ms Hm _ IH]; [by exists []|]. apply Forall_cons in Hf as [Hfm Hfs].
    destruct (reverter_restores policy q rules f m Hp Hm Hfm) as (m' & Em & Hr). destruct (IH Hfs) as (ms' & Ems & Hrs).
    exists (m' :: ms'). cbn [mapM]. rewrite Em. cbn [mbind option_bind]. rewrite Ems. split; [done|by constructor]. }
  by exists msgs'.
Qed.
End handler.

(** C18 A name rule that undoes itself (exact, or prefix, suffix, substring and
    regex with an automatic answer rule) is invisible to the client: when the
    plugins behind answer the rewritten name with records of that name, the
    client gets the same reply with its own question, and with its own name,
    in lower case, as the owner of every record of the answer. *)
Theorem rewrite_transparent `{DnsNames} `{DnsMsgs} `{GoRegexp} {W : Type} (sup : gset Z) (h : Handler W)
    (before after : list RewriteRule) (rule : RewriteRule) (b : nameRuleBase) (to : string) (ctx : Ctx) (w : Writer)
    (r : Msg) (q : Question) (qs : list Question) (s s' : W) (msgs : list Msg) (rcode : Z) (err : option string) :
  let name := (Name (newRequest w (Some r))).2 in
  auto_rule rule -> rule_Mode rule = ModeStop -> mQuestion r = q :: qs ->
  Forall (fun rule => rule_Rewrite rule ctx w r = Some (r, [], RewriteIgnored)) before ->
  renamed rule name = Some (b, to) -> IsDomainName to = true ->
  h ctx w (set_mQuestion (mkQuestion to (qType q) (qClass q) :: qs) r) s = Some (s', msgs, rcode, err) ->
  ClientWrite rcode = true -> Forall reply_typed msgs ->
  Forall (fun m => Forall (fun rr => hName rr = to /\ rr_nameless rr) (mAnswer m)) msgs ->
  exists msgs',
    Rewrite_ServeDNS sup (mkRevertPolicy false false) (Some h) (before ++ rule :: after) ctx w r s =
      Some (s', msgs', rcode, err) /\
    Forall2 (restored q (map (set_hName name))) msgs msgs'.
Proof.
  intros name Hr Hm Hq Hb Hren Hd Hh Hc Ht Ha. unfold Rewrite_ServeDNS. rewrite Hq. cbn [head mbind option_bind].
  rewrite (rewrite_loop_skip before) by done. cbn [rewrite_loop].
  rewrite (auto_rule_Rewrite rule ctx w r q qs b to) by done. fold name. cbn [mbind option_bind mQuestion set_mQuestion head qName].
  rewrite Hd, decide_True by done. cbn [app DoRevert noRevert negb mbind option_bind].
  edestruct (next_reverted_restores (mkRevertPolicy false false) (Some h) q (responseRuleFor b name to) (set_hName name))
    as (msgs' & E & Hf); [done|exact Hh|done| |].
  { eapply Forall_impl; [exact Ha|]. intros m Hm'. eapply Forall_impl; [exact Hm'|]. intros rr [Hn Hl]. by eapply auto_rule_back. }
  rewrite E. cbn [mbind option_bind]. rewrite Hc. by exists msgs'.
Qed.

(** ** TTL rules *)

(** A range that is accepted is one of 32-bit numbers in order. *)
Lemma isValidTTL_range v lo hi : isValidTTL v = Some (lo, hi) -> (0 <= lo <= hi /\ hi < 2 ^ 32)%Z.
Proof.
  assert (forall n, 0 <= n < 2 ^ 32 -> u32 n = n)%Z as Hu by (intros n Hn; unfold u32; apply Z.mod_small; lia).
  unfold isValidTTL. destruct (strings_Split ch_dash v) as [|x [|y [|? ?]]]; try done.
  - destruct (ParseUint 32 x) as [num [e|]] eqn:E; [done|]. intros [= <- <-]. apply (ParseUint_exact 32) in E; [|done]. rewrite Hu; lia.
  - intros E. apply bind_Some in E as (mn & E1 & (mx & E2 & E3)%bind_Some).
    assert (0 <= mn < 2 ^ 32)%Z.
    { destruct (decide (x = EmptyString)); [injection E1 as <-; lia|]. destruct (ParseUint 32 x) as [num [e|]] eqn:E; [done|].
      injection E1 as <-. by apply (ParseUint_exact 32) in E. }
    assert (0 <= mx < 2 ^ 32)%Z.
    { destruct (decide (y = EmptyString)).
      - destruct (decide (x = EmptyString)); [done|]. injection E2 as <-. lia.
      - destruct (ParseUint 32 y) as [num [e|]] eqn:E; [done|]. injection E2 as <-. by apply (ParseUint_exact 32) in E. }
    case_decide; [done|]. injection E3 as <- <-. rewrite !Hu by done. lia.
Qed.

Section ttl.
Context `{DnsNames} `{DnsMsgs} `{GoRegexp}.

Definition ttl_range (lo hi : Z) (rr : RR) : Prop := (lo <= hTtl rr <= hi)%Z.

Lemma ttl_rule_range lo hi rr : (lo <= hi)%Z ->
  exists rr', RewriteResponse (ttlResponseRule lo hi) rr = Some rr' /\ ttl_range lo hi rr' /\
    (ttl_range lo hi rr -> rr' = rr).
Proof.
  intros Hr. eexists. split; [reflexivity|]. unfold ttl_range, ttl_RewriteResponse. destruct rr. repeat case_decide; simpl in *; split; try lia; done || lia.
Qed.

(** A TTL rule that was read has a range of 32-bit numbers. *)
Lemma newTTLRule_range mode args rule name b ok :
  newTTLRule mode args = inl rule -> ttl_matches rule name = Some (b, ok) ->
  exists lo hi, response b = ttlResponseRule lo hi /\ (0 <= lo <= hi /\ hi < 2 ^ 32)%Z.
Proof.
  unfold newTTLRule. case_decide; [done|]. set (s := match args with [_; s] => s | [_; _; s] => s | _ => EmptyString end).
  destruct (isValidTTL s) as [[lo hi]|] eqn:E; [|done]. apply isValidTTL_range in E. intros Hn Hm. exists lo, hi.
  repeat (case_match; simplify_eq; try (cbn in Hm; simplify_eq; by split)).
Qed.
End ttl.

(** ** Reading rules *)

Section reading.
Context `{DnsNames} `{GoRegexp} (StringToClass StringToType : string -> option Z).

Lemma answer_rules_total fuel name args last auto n rules :
  (length args < fuel)%nat -> answer_rules fuel name args last auto n rules <> None.
Proof.
  revert args last auto n rules. induction fuel as [|fuel IH]; intros args last auto n rules Hl; [lia|]. cbn [answer_rules].
  destruct args as [|arg more]; [done|]. cbn [length] in Hl. case_decide; [done|].
  assert (length (if decide (arg = AnswerMatch) then more else arg :: more) <= S (length more))%nat as Hm
    by (case_decide; simpl; lia).
  destruct (if decide (arg = AnswerMatch) then more else arg :: more) as [|last' more']; [done|]. cbn [length] in Hm.
  case_decide; [apply IH; lia|]. case_decide; [|done].
  destruct more' as [|from [|to rest]]; [done..|]. cbn [length] in Hm. destruct (isValidRegexPattern from to); [|done].
  case_decide; apply IH; lia.
Qed.

Lemma name_rule_answers_total t more : is_Some (name_rule_answers t more).
Proof.
  unfold name_rule_answers. destruct more as [|? [|? ?]]; [by eexists..|]. unfold parseAnswerRules.
  case_decide; [by eexists|]. apply not_eq_None_Some, answer_rules_total. lia.
Qed.

Lemma newNameRule_total mode args : newNameRule mode args <> None.
Proof.
  unfold newNameRule. destruct args as [|a [|b' more]]; [done..|]. destruct (name_rule_args a b' more) as [[t from] to].
  by destruct (name_rule_answers_total t more) as [x ->].
Qed.

(** Every line gives a rule or an error. *)
Lemma newRule_total args : newRule StringToClass StringToType args <> None.
Proof.
  assert (forall first mode t args, newRule_of StringToClass StringToType first mode t args <> None) as Hof.
  { intros first mode t args'. unfold newRule_of. case_decide; [done|]. case_decide.
    { pose proof (newNameRule_total mode args'). by destruct (newNameRule mode args'). }
    by repeat case_decide. }
  unfold newRule. destruct args as [|first more]; [done|]. case_decide; [destruct more; [done|apply Hof]|].
  case_decide; [destruct more; [done|apply Hof]|]. apply Hof.
Qed.
End reading.

(** ** Examples *)

#[local] Existing Instance dns_reference.
#[local] Existing Instance msgs_reference.
#[local] Existing Instance regexp_literal.

(** A plugin that answers every name with one address, and an OPT record. *)
Definition one_address : Handler unit := fun _ _ r s =>
  q ← head (mQuestion r);
  Some (s, [set_sections [mkRR (qName q) TypeA ClassINET 300 (A [10; 0; 0; 1]%Z)] [] [mkRR dot TypeOPT 4096 (2 ^ 15) (OPT [])]
              (SetReply zeroMsg r)], RcodeSuccess, None).

Definition suffix_rule : RewriteRule := newSuffixNameRule ModeStop true ".schmoogle.com." ".google.com." [].

Lemma rewrite_transparent_witness :
  exists msgs',
    Rewrite_ServeDNS ∅ (mkRevertPolicy false false) (Some one_address)
      ([newExactNameRule ModeStop "a.org." "b.org." []] ++ [suffix_rule]) (mkCtx 0 None) example_client
      (example_msg "WWW.Schmoogle.com." TypeA) tt = Some (tt, msgs', RcodeSuccess, None) /\
    Forall2 (restored (mkQuestion "WWW.Schmoogle.com." TypeA ClassINET) (map (set_hName "www.schmoogle.com.")))
      [set_sections [mkRR "www.google.com." TypeA ClassINET 300 (A [10; 0; 0; 1]%Z)] [] [mkRR dot TypeOPT 4096 (2 ^ 15) (OPT [])]
         (SetReply zeroMsg (example_msg "www.google.com." TypeA))] msgs'.
Proof.
  apply (@rewrite_transparent dns_reference msgs_reference regexp_literal unit ∅ one_address
    [newExactNameRule ModeStop "a.org." "b.org." []] [] suffix_rule
    (mkNameRuleBase ModeStop false ".google.com."
       [nameRewriterResponseRule (suffixStringRewriter ".google.com." ".schmoogle.com.");
        valueRewriterResponseRule (suffixStringRewriter ".google.com." ".schmoogle.com.")])
    "www.google.com." (mkCtx 0 None) example_client (example_msg "WWW.Schmoogle.com." TypeA)
    (mkQuestion "WWW.Schmoogle.com." TypeA ClassINET) [] tt tt).
  - apply auto_suffix.
  - reflexivity.
  - reflexivity.
  - constructor; [vm_compute; reflexivity|constructor].
  - vm_compute. reflexivity.
  - vm_compute. reflexivity.
  - vm_compute. reflexivity.
  - reflexivity.
  - constructor; [|constructor]. split; [discriminate|]. split; [|split]; repeat constructor; by eexists.
  - repeat constructor.
Defined.

(** Two rules of which the first lets the second see its name are undone in
    the order they were applied: the client that asks for a gets records of b. *)
Example continue_reverts_halfway :
  exists m,
    Rewrite_ServeDNS ∅ (mkRevertPolicy false false) (Some one_address)
      [newExactNameRule ModeContinue "a.org." "b.org." []; newExactNameRule ModeStop "b.org." "c.org." []]
      (mkCtx 0 None) example_client (example_msg "a.org." TypeA) tt = Some (tt, [m], RcodeSuccess, None) /\
    map qName (mQuestion m) = ["a.org."%string] /\ map hName (mAnswer m) = ["b.org."%string].
Proof. eexists. split; [vm_compute; reflexivity|]. vm_compute. split; reflexivity. Qed.

(** A TTL rule also changes the OPT record, whose TTL holds the flags: the DO
    bit of the reply is lost. *)
Example ttl_rule_clears_do :
  exists rule m,
    newTTLRule ModeStop ["a.org."; "10-30"]%string = inl rule /\
    Rewrite_ServeDNS ∅ (mkRevertPolicy false false) (Some one_address) [rule] (mkCtx 0 None) example_client
      (example_msg "a.org." TypeA) tt = Some (tt, [m], RcodeSuccess, None) /\
    map hTtl (mAnswer m) = [30%Z] /\ map OPT_Do (mExtra m) = [false].
Proof. eexists _, _. split; [vm_compute; reflexivity|]. split; [vm_compute; reflexivity|]. vm_compute. split; reflexivity. Qed.

(** "append" adds a second option of the same code. *)
Example append_adds_another :
  exists r,
    rule_Rewrite (edns0LocalRule ModeStop Append 65001 "new") (mkCtx 0 None) example_client
      (set_sections [] [] [mkRR dot TypeOPT 4096 0 (OPT [EDNS0_LOCAL 65001 "old"])] (example_msg "a.org." TypeA)) =
      Some (r, [], RewriteDone) /\
    map opt_options (mExtra r) = [[EDNS0_LOCAL 65001 "old"; EDNS0_LOCAL 65001 "new"]].
Proof. eexists. split; [vm_compute; reflexivity|]. vm_compute. reflexivity. Qed.

(** A prefix is normalised to a whole name, so that only its last label can be
    cut: the rule of the documentation for names that begin with "foo" does
    not match foobar.org. *)
Example prefix_needs_a_label :
  exists rule,
    newRule (fun _ => None) (fun _ => None) ["name"; "prefix"; "foo"; "bar"]%string = Some (inl (rule, [])) /\
    renamed rule "foobar.org." = None /\ option_map snd (renamed rule "foo.org.") = Some "bar.org."%string.
Proof. eexists. split; [vm_compute; reflexivity|]. vm_compute. split; reflexivity. Qed.
