(* ===== verification/SetupTheorems.v ===== *)
(** * The set-up of the plugins is total and in range

    Every parse function of SetupPlugins.v and SetupZones.v ends, with a
    configuration its plugin can work with or with an error, whatever the
    Corefile holds; and examples of what they do with particular Corefiles. *)

From S2P Require Import Prelude.
From S2P Require Import GoStd.
From S2P Require Import GoNet.
From S2P Require Import GoText.
From S2P Require Import GoTime.
From S2P Require Import DnsNames.
From S2P Require Import DnsMsg.
From S2P Require Import DnsUtil.
From S2P Require Import Request.
From S2P Require Import Tree.
From S2P Require Import Zone.
From S2P Require Import ZoneSpec.
From S2P Require Import Plugin.
From S2P Require Import Normalize.
From S2P Require Import Transfer.
From S2P Require Import FilePlugin.
From S2P Require Import LookupTheorems.
From S2P Require Import FileTheorems.
From S2P Require Import CachePlugin.
From S2P Require Import Hosts.
From S2P Require Import NormalizeTheorems.
From S2P Require Import Caddy.
From S2P Require Import Kubernetes.
From S2P Require Import KubeExternal.
From S2P Require Import KubernetesTheorems.
From S2P Require Import LoadBalance.
From S2P Require Import LoadBalanceTheorems.
From S2P Require Import Dns64.
From S2P Require Import Acl.
From S2P Require Import SmallPlugins.
From S2P Require Import Rewrite.
From S2P Require Import RewriteRules.
From S2P Require Import RewriteTheorems.
From S2P Require Import PkgTls.
From S2P Require Import SetupPlugins.
From S2P Require Import SetupZones.
From S2P Require Import Register.
From S2P Require Import Concurrency.
From S2P Require Import Forward.
From S2P Require Import SetupForward.

(** A set-up function whose steps need no invariant of their own. *)
Ltac c_auto :=
  repeat first
    [ c_step
    | match goal with |- ends _ (match ?x with _ => _ end) _ => destruct x eqn:? end
    | apply ends_ret ].

Section setups.
Context `{DOk : DnsNamesOk} `{NOk : NetworksOk} `{COk : CaddyOk}.
Context (Hkeys : forall c, keys_ok (c_ServerBlockKeys c)) (P : string -> Prop).

(** ** Shared *)

Lemma ends_origins args : ends P (c_origins args) (fun _ => True).
Proof using DOk NOk COk Hkeys.
  unfold c_origins. eapply ends_bind; [by apply (ends_keys _ keys_ok)|]. intros keys Hk. apply ends_lift.
  destruct (Origins_total args keys Hk) as [zs E]. by exists zs.
Qed.

Lemma ends_fall args : ends P (c_lift (SetZonesFromArgs args)) (fun _ => True).
Proof using DOk NOk.
  apply ends_lift. unfold SetZonesFromArgs.
  assert (is_Some (mapM NormalizeExact (if decide (args = []) then [dot] else args))) as [zs ->]; [|by eexists].
  apply mapM_is_Some, Forall_true, NormalizeExact_total.
Qed.

Lemma ends_once {A} (stanza : A -> cfg A) (I : A -> Prop) (a : A) :
  (forall a, I a -> ends P (stanza a) I) -> I a -> ends P (c_once stanza a) I.
Proof using COk.
  intros Hb Ha. unfold c_once. eapply (ends_bind _ _ _ (fun s => I s.2)); [|intros [seen a'] Ha'; by apply ends_ret].
  apply ends_while; [apply takes_next| |done]. intros [seen a'] Ha'. destruct seen; [apply ends_fail|].
  eapply ends_bind; [by apply Hb|]. intros a'' Ha''. by apply ends_ret.
Qed.

(** ** cache *)

Definition cache_in_range (ca : CacheConf) : Prop :=
  (0 <= ccPrefetch ca /\ 10 <= ccPercentage ca <= 90 /\ 0 <= ccFailttl ca <= 5 * Minute /\ 0 <= ccStaleUpTo ca)%Z.

Lemma cache_caps_ends ttl min : ends P (cache_caps ttl min) (fun _ => True).
Proof using COk. unfold cache_caps. c_auto; done. Qed.

Lemma cache_percentage_ends pct : pct <> EmptyString -> ends P (cache_percentage pct) (fun n => 10 <= n <= 90)%Z.
Proof using Type.
  intros Hp. unfold cache_percentage. rewrite decide_False by done.
  eapply (ends_bind _ _ _ (fun _ => True)); [apply ends_lift; by eexists|intros rest _]. c_auto; lia.
Qed.

Lemma cache_prefetch_ends ca :
  (forall t, P t -> t <> EmptyString) -> cache_in_range ca -> ends P (cache_prefetch ca) cache_in_range.
Proof using COk.
  intros HP Hca. unfold cache_prefetch. c_step. destruct a as [|a more]; [apply ends_argErr|].
  case_decide; [apply ends_argErr|]. c_step. case_decide; [apply ends_fail|]. destruct Hca as (Hp1 & Hp2 & Hp3 & Hp4).
  eapply (ends_bind _ _ _ (fun _ => True)); [destruct more; [by apply ends_ret|by apply ends_try]|intros dur _].
  eapply (ends_bind _ _ _ (fun n => 10 <= n <= 90)%Z).
  { destruct more as [|d [|p more]]; [by apply ends_ret..|]. apply cache_percentage_ends, HP.
    match goal with Hf : Forall P _ |- _ => by do 3 (apply Forall_cons in Hf as [? Hf]) end. }
  intros n Hn. apply ends_ret. unfold cache_in_range; simpl; lia.
Qed.

Lemma cache_stale_ends ca : cache_in_range ca -> ends P (cache_stale ca) cache_in_range.
Proof using COk.
  intros (Hp1 & Hp2 & Hp3 & Hp4). unfold cache_stale. c_step. case_decide; [apply ends_argErr|].
  eapply (ends_bind _ _ _ (fun d => 0 <= d)%Z); [destruct a; c_auto; unfold Hour, Minute, Second in *; lia|intros d Hd].
  eapply (ends_bind _ _ _ (fun _ => True)); [destruct a as [|? [|? ?]]; c_auto; done|intros v _].
  apply ends_ret. unfold cache_in_range. simpl. lia.
Qed.

Lemma cache_disable_ends ca : cache_in_range ca -> ends P (cache_disable ca) cache_in_range.
Proof using COk.
  intros Hca. unfold cache_disable. c_step. destruct a as [|what more]; [apply ends_argErr|].
  eapply (ends_bind _ _ _ (fun _ => True)); [c_auto; done|intros zs _]. c_auto; done.
Qed.

Lemma cache_block_ends args ca :
  (forall t, P t -> t <> EmptyString) -> cache_in_range ca -> ends P (cache_block args ca) cache_in_range.
Proof using COk.
  intros HP Hca. unfold cache_block. c_step.
  case_decide; [eapply ends_bind; [apply cache_caps_ends|intros [[? ?] ?] _; by apply ends_ret]|].
  case_decide; [eapply ends_bind; [apply cache_caps_ends|intros [[? ?] ?] _; by apply ends_ret]|].
  case_decide; [by apply cache_prefetch_ends|]. case_decide; [by apply cache_stale_ends|].
  case_decide; [|case_decide; [by apply cache_disable_ends|c_auto; done]].
  unfold cache_servfail. destruct Hca as (Hp1 & Hp2 & Hp3 & Hp4). c_auto. unfold cache_in_range; simpl; lia.
Qed.

Lemma cacheParse_ends : (forall t, P t -> t <> EmptyString) -> ends P cacheParse cache_in_range.
Proof using DOk NOk COk Hkeys.
  intros HP. apply ends_once; [|by repeat split].
  intros ca Hca. unfold cache_stanza. c_step.
  eapply (ends_bind _ _ _ (fun s => cache_in_range s.1)); [c_auto; done|]. intros [ca' args] Hca'.
  eapply ends_bind; [apply ends_origins|intros zs _].
  eapply ends_bind; [apply ends_while; [apply takes_nextBlock| |exact Hca']|intros ca'' Hca''; by apply ends_ret].
  intros s Hs. by apply cache_block_ends.
Qed.

(** ** hosts *)

Definition hosts_in_range (h : HostsConf) : Prop := (0 < hcTtl h <= 65535 /\ 0 <= hcReload h)%Z.

Lemma hosts_block_ends h : hosts_in_range h -> ends P (hosts_block h) hosts_in_range.
Proof using DOk NOk COk.
  intros [Ht Hr]. unfold hosts_block. c_step. case_decide.
  { c_step. eapply ends_bind; [apply ends_fall|intros zs _]. by apply ends_ret. }
  c_auto; (split; simpl; [|lia]); try lia. unfold u32; rewrite Z.mod_small; lia.
Qed.

Lemma hostsParse_ends root stat_error : ends P (hostsParse root stat_error) hosts_in_range.
Proof using DOk NOk COk Hkeys.
  apply ends_once; [|by repeat split]. intros h Hh. unfold hosts_stanza. c_step.
  eapply (ends_bind _ _ _ (fun s => hosts_in_range s.1)); [c_auto; done|]. intros [h' args] Hh'.
  eapply ends_bind; [apply ends_origins|intros zs _]. apply ends_while; [apply takes_nextBlock|apply hosts_block_ends|done].
Qed.

(** ** acl *)

Section acl.
Context {Tree : Type} (NewTree : Tree) (InsertNet : IPNet -> Tree -> Tree) (StringToType : string -> option Z).

Lemma acl_types_ends tokens qtypes : ends P (acl_types StringToType tokens qtypes) (fun _ => True).
Proof using Type. revert qtypes. induction tokens as [|t ts IH]; intros qtypes; simpl; c_auto; [done..|apply IH]. Qed.

Lemma acl_nets_ends tokens filter : ends P (acl_nets NewTree InsertNet tokens filter) (fun _ => True).
Proof using Type. revert filter. induction tokens as [|t ts IH]; intros filter; simpl; c_auto; [done..|apply IH]. Qed.

Lemma section_tokens_rest ts sec rest : section_tokens ts = (sec, rest) -> (length rest <= length ts)%nat.
Proof using Type.
  revert sec rest. induction ts as [|t ts IH]; simpl; [by intros ? ? [= <- <-]|]. intros sec rest.
  destruct (isPreservedIdentifier t); [by intros [= <- <-]|]. destruct (section_tokens ts) as [s r]. intros [= <- <-].
  specialize (IH _ _ eq_refl). lia.
Qed.

Lemma acl_sections_ends fuel remaining qtypes filter hasType hasNet :
  (length remaining < fuel)%nat ->
  ends P (acl_sections NewTree InsertNet StringToType fuel remaining qtypes filter hasType hasNet) (fun _ => True).
Proof using Type.
  revert remaining qtypes filter hasType hasNet. induction fuel as [|fuel IH]; intros remaining qtypes filter hasType hasNet Hf; [lia|].
  cbn [acl_sections]. destruct remaining as [|t ts]; [by apply ends_ret|]. destruct (isPreservedIdentifier t); [|apply ends_errf].
  destruct (section_tokens ts) as [tokens rest] eqn:E. apply section_tokens_rest in E. simpl in Hf.
  case_decide; [apply ends_errf|]. case_decide.
  - eapply ends_bind; [apply acl_types_ends|intros ? _]. apply IH. lia.
  - eapply ends_bind; [apply acl_nets_ends|intros ? _]. apply IH. lia.
Qed.

Lemma acl_policy_ends policies : ends P (acl_policy NewTree InsertNet StringToType policies) (fun _ => True).
Proof using COk.
  unfold acl_policy. c_step. eapply (ends_bind _ _ _ (fun _ => True)); [c_auto; done|intros act _]. c_step.
  eapply ends_bind; [apply acl_sections_ends; lia|]. intros [[[? ?] ?] ?] _. by apply ends_ret.
Qed.

Lemma acl_parse_ends : ends P (acl_parse NewTree InsertNet StringToType) (fun _ => True).
Proof using DOk NOk COk Hkeys.
  apply ends_while; [apply takes_next| |done]. intros rules _. c_step. eapply ends_bind; [apply ends_origins|intros zs _].
  eapply (ends_bind _ _ _ (fun _ => True)); [|intros ps _; by apply ends_ret].
  apply ends_while; [apply takes_nextBlock| |done]. intros ps _. apply acl_policy_ends.
Qed.
End acl.

(** ** dns64 *)

(** An IPv6 prefix of four to twelve bytes. *)
Definition dns64_prefix_ok (p : IPNet) : Prop :=
  exists k, (4 <= k <= 12)%nat /\ (Mask_Size (net_Mask p)).1 = (8 * Z.of_nat k)%Z /\ length (net_IP p) = 16%nat.

Lemma copy_bytes_total n i j from v6 :
  (i + n <= length v6)%nat -> (j + n <= length from)%nat -> exists v6', copy_bytes n i j from v6 = Some v6' /\ length v6' = length v6.
Proof using Type.
  revert i j v6. induction n as [|n IH]; intros i j v6 Hi Hj; simpl; [by exists v6|].
  destruct (lookup_lt_is_Some_2 from j) as [b ->]; [lia|]. simpl. unfold put. rewrite decide_True by lia. simpl.
  destruct (IH (S i) (S j) (<[i := b]> v6)) as (v6' & -> & Hl); [rewrite length_insert; lia|lia|].
  exists v6'. by rewrite length_insert in Hl.
Qed.

(** With such a prefix every address can be translated. *)
Lemma to6_total p addr : dns64_prefix_ok p -> is_Some (to6 p addr).
Proof using Type.
  intros (k & Hk & Em & Hl). unfold to6. destruct (To4 addr) as [a4|] eqn:E4; [|by eexists].
  assert (length a4 = 4%nat) as H4 by (revert E4; unfold To4; repeat case_decide; intros [= <-]; rewrite ?length_drop; lia).
  rewrite Em, Z.mul_comm, Z.quot_mul, Nat2Z.id by lia.
  destruct (copy_bytes_total k 0 0 (net_IP p) (replicate 16 0%Z)) as (v1 & -> & L1); [rewrite length_replicate; lia|lia|].
  rewrite length_replicate in L1. cbn [mbind option_bind].
  destruct (copy_bytes_total (8 - k) k 0 a4 v1) as (v2 & -> & L2); [lia|lia|]. cbn [mbind option_bind].
  destruct (copy_bytes_total (4 - (8 - k)) (if decide (Nat.max k 8 = 8)%nat then S (Nat.max k 8) else Nat.max k 8) (8 - k) a4 v2)
    as (v3 & -> & L3); [case_decide; lia|lia|]. by eexists.
Qed.

Lemma ParseCIDR_lengths s ip n :
  ParseCIDR s = Some (ip, n) -> (Mask_Size (net_Mask n)).2 = 128%Z -> length (net_IP n) = 16%nat.
Proof using Type.
  unfold ParseCIDR. destruct (IndexByte _ _); [|done]. cbn [mbind option_bind].
  destruct (ParseIP _) as [ip'|] eqn:Ei; [|done]. cbn [mbind option_bind]. apply ParseIP_bytes in Ei as [Hl _].
  destruct (dtoi _ _) as [[m ?]|]; [|done]. cbn [mbind option_bind]. case_decide; [done|]. intros [= <- <-]. simpl.
  match goal with |- context [IP_Mask _ ?x] => generalize x as mask end. intros mask Hm.
  unfold Mask_Size in Hm. destruct (simpleMaskLength mask); simpl in Hm; [|done]. assert (length mask = 16%nat) as Hk by lia.
  unfold IP_Mask. destruct (decide (length mask = 16%nat /\ length ip' = 4%nat /\ _)) as [(_ & ? & _)|_]; [lia|].
  destruct (decide (length mask = 4%nat /\ _)) as [[? _]|_]; [lia|]. rewrite decide_True by lia.
  rewrite length_zip_with. lia.
Qed.

Lemma parsePrefix_ends addr : ends P (parsePrefix addr) dns64_prefix_ok.
Proof using Type.
  unfold parsePrefix. destruct (ParseCIDR addr) as [[ip pref]|] eqn:E; [|apply ends_fail].
  pose proof (ParseCIDR_lengths _ _ _ E) as Hl. destruct (Mask_Size (net_Mask pref)) as [n total] eqn:Em. simpl in Hl.
  case_decide as Ht; [apply ends_errf|]. case_decide as Hn; [apply ends_errf|]. apply ends_ret.
  exists (Z.to_nat (n `quot` 8)). rewrite Em. simpl. pose proof (Z.quot_rem n 8 ltac:(lia)).
  assert (total = 128 /\ n `rem` 8 = 0 /\ 32 <= n <= 96)%Z as (-> & ? & ?) by lia.
  split; [lia|]. split; [lia|]. by apply Hl.
Qed.

Lemma dns64Parse_ends : ends P dns64Parse (fun d => dns64_prefix_ok (dPrefix d)).
Proof using COk.
  apply ends_while; [apply takes_next| |exists 12%nat; split; [lia|by vm_compute]]. intros d Hd. c_step.
  destruct a as [|addr [|? ?]]; [|eapply ends_bind; [apply parsePrefix_ends|intros p Hp; by apply ends_ret]|apply ends_argErr].
  apply ends_while; [apply takes_nextBlock| |done]. intros d' Hd'. unfold dns64_block. c_step. case_decide; [|c_auto; done].
  c_step. destruct a0; [|apply ends_argErr]. c_step. eapply ends_bind; [apply parsePrefix_ends|intros p Hp; by apply ends_ret].
Qed.

(** ** rewrite and loadbalance *)

Lemma rewriteParse_ends `{GoRegexp} StringToClass StringToType : ends P (rewriteParse StringToClass StringToType) (fun _ => True).
Proof using DOk COk.
  apply ends_while; [apply takes_next| |done]. intros [rules codes] _. c_step.
  eapply (ends_bind _ _ _ (fun _ => True)).
  { case_decide; [|by apply ends_ret]. apply ends_while; [apply takes_nextBlock| |done]. intros args _. c_auto. done. }
  intros args _. eapply (ends_bind _ _ _ (fun _ => True)).
  { apply ends_lift. pose proof (newRule_total StringToClass StringToType args) as Ht.
    destruct (newRule StringToClass StringToType args) as [res|]; [by exists res|done]. }
  intros res _. apply ends_try_bind. intros [rule new] _. by apply ends_ret.
Qed.

Lemma loadbalance_parse_ends root : ends P (loadbalance_parse root) (fun _ => True).
Proof using COk.
  unfold loadbalance_parse. c_auto; try done.
  eapply (ends_bind _ _ _ (fun _ => True)); [|intros d _; by apply ends_ret].
  apply ends_while; [apply takes_nextBlock| |done]. intros d _. unfold lb_reload. c_auto; done.
Qed.

(** ** Smaller plugins *)

Lemma pluginArgErr_ends {A} name (Q : A -> Prop) : ends P (c_pluginArgErr name) Q.
Proof using Type. done. Qed.

Lemma bufsize_parse_ends : ends P bufsize_parse (fun n => 512 <= n <= 4096)%Z.
Proof using COk. unfold bufsize_parse. c_auto; try apply pluginArgErr_ends; unfold defaultBufSize; lia. Qed.

Lemma nsidParse_ends Hostname : ends P (nsidParse Hostname) (fun _ => True).
Proof using COk. apply ends_once; [|done]. intros n _. c_auto. done. Qed.

Lemma chaos_parse_ends `{GoRange} `{GoSort} v owners : ends P (chaos_parse v owners) (fun _ => True).
Proof using COk. unfold chaos_parse. c_auto; done. Qed.

Lemma header_line_ends rules : ends P (header_line rules) (fun _ => True).
Proof using COk.
  unfold header_line. c_step. eapply (ends_bind _ _ _ (fun _ => True)).
  { case_decide; [by apply ends_ret|]. case_decide; [|apply ends_fail]. c_step.
    eapply (ends_bind _ _ _ (fun _ => True)); [destruct a0; [apply ends_val|by apply ends_ret]|intros ? _; by apply ends_ret]. }
  intros [selector action] _. c_auto. done.
Qed.

(** The configuration has a rule. *)
Lemma header_parse_ends : ends P header_parse (fun rules => rules.1 <> [] \/ rules.2 <> []).
Proof using COk.
  unfold header_parse. eapply ends_bind; [apply (ends_until _ _ _ (fun rules => rules.1 <> [] \/ rules.2 <> []))|].
  - apply takes_next.
  - eapply (ends_bind _ _ _ (fun _ => True)); [apply ends_while; [apply takes_nextBlock|intros rules _; apply header_line_ends|done]|].
    intros [q r] _. apply ends_ret. case_decide as Hd; [done|]. simpl in *. destruct q; [right; intros ->; by apply Hd|by left].
  - intros [rules|] Hr; [by apply ends_ret|apply ends_argErr].
Qed.

Lemma loop_parse_ends qname : ends P (loop_parse qname) (fun l => lSeen l = 0%Z /\ lOff l = false).
Proof using DOk COk Hkeys.
  unfold loop_parse. eapply (ends_bind _ _ _ (fun zones => exists z zs, zones = z :: zs)).
  - apply ends_once; [|by eexists _, _]. intros zones Hz. c_step. destruct a; [apply ends_argErr|].
    eapply ends_bind; [by apply (ends_keys _ keys_ok)|]. intros keys Hk. destruct keys as [|k keys]; [by apply ends_ret|].
    apply ends_lift. apply Forall_cons in Hk as [(z & zs & E) _]. exists (z :: zs). split; [done|]. by eexists _, _.
  - intros zones (z & zs & ->). eapply (ends_bind _ _ _ (fun _ => True)); [apply ends_lift; by exists z|]. intros ? _. by apply ends_ret.
Qed.

Definition erratic_in_range (e : ErraticConf) : Prop :=
  (0 <= ecDrop e < 2 ^ 64 /\ 0 <= ecDelay e < 2 ^ 64 /\ 0 <= ecTruncate e < 2 ^ 64)%Z.

Lemma erratic_amount_ends args : ends P (erratic_amount args) (fun n => match n with Some n => 0 <= n < 2 ^ 64 | None => True end)%Z.
Proof using Type. unfold erratic_amount. c_auto; [done|]. unfold u64. apply Z.mod_pos_bound. lia. Qed.

Lemma erratic_block_ends e : erratic_in_range e -> ends P (erratic_block e) erratic_in_range.
Proof using COk.
  intros (He1 & He2 & He3). unfold erratic_block. c_step. case_decide; [|case_decide; [|case_decide]].
  - c_step. case_decide; [apply ends_argErr|]. eapply ends_bind; [apply erratic_amount_ends|]. intros [n|] Hn; by apply ends_ret.
  - c_step. case_decide; [apply ends_argErr|]. eapply ends_bind; [apply erratic_amount_ends|]. intros n Hn.
    eapply (ends_bind _ _ _ (fun _ => True)); [destruct a0 as [|? [|? ?]]; [by apply ends_ret..|by apply ends_try]|].
    intros d _. apply ends_ret. unfold erratic_in_range. destruct n; simpl; lia.
  - c_step. case_decide; [apply ends_argErr|]. eapply ends_bind; [apply erratic_amount_ends|]. intros [n|] Hn; by apply ends_ret.
  - c_auto; by unfold erratic_in_range.
Qed.

Lemma parseErratic_ends : ends P parseErratic erratic_in_range.
Proof using COk.
  unfold parseErratic. eapply ends_bind; [apply (ends_while _ _ _ erratic_in_range)|].
  - apply takes_next.
  - intros e He. apply ends_while; [apply takes_nextBlock|apply erratic_block_ends|done].
  - unfold erratic_in_range; simpl; lia.
  - intros e (He1 & He2 & He3). apply ends_ret. case_decide; [|done]. unfold erratic_in_range; simpl; lia.
Qed.

Lemma autoPathParse_ends resolv : ends P (autoPathParse resolv) (fun _ => True).
Proof using DOk NOk COk Hkeys.
  apply ends_while; [apply takes_next| |done]. intros ap _. c_step. destruct (last a) as [file|]; [|apply ends_fail].
  eapply (ends_bind _ _ _ (fun _ => True)); [c_auto; done|]. intros [search mw] _.
  eapply ends_bind; [apply ends_origins|intros zs _]. by apply ends_ret.
Qed.

Lemma metadataParse_ends : ends P metadataParse (fun _ => True).
Proof using DOk NOk COk Hkeys.
  unfold metadataParse. c_step. c_step. eapply ends_bind; [apply ends_origins|intros zs _]. c_step.
  eapply (ends_bind _ _ _ (fun _ => True)); [destruct a1; [by apply ends_ret|apply ends_takes, takes_next]|].
  intros [] _; [apply pluginArgErr_ends|by apply ends_ret].
Qed.

(** ** transfer and etcd *)

Lemma parseTransfer_ends : ends P parseTransfer (Forall (fun x => xTo x <> [])).
Proof using DOk NOk COk Hkeys.
  apply ends_while; [apply takes_next| |done]. intros xfrs Hx. c_step. eapply ends_bind; [apply ends_origins|intros zs _].
  eapply (ends_bind _ _ _ (fun _ => True)).
  { apply ends_while; [apply takes_nextBlock| |done]. intros to _. unfold transfer_block. c_step.
    case_decide; [|done]. c_step. case_decide; [apply ends_argErr|]. by apply ends_try. }
  intros to _. case_decide; [done|]. apply ends_ret, Forall_app. by split; [|apply Forall_singleton].
Qed.

Lemma etcdParse_ends cert read certs client :
  ends P (etcdParse cert read certs client) (fun e => match e with Some e => etEndpoints e <> [] | None => True end).
Proof using DOk NOk COk Hkeys.
  unfold etcdParse. c_step. destruct a; [|by apply ends_ret]. c_step. eapply ends_bind; [apply ends_origins|intros zs _].
  eapply (ends_bind _ _ _ (fun e => etEndpoints e <> [])); [|intros e He; c_auto; done].
  apply ends_while; [apply takes_nextBlock| |done]. intros e He. unfold etcd_block. c_step. case_decide; [by apply ends_ret|].
  case_decide; [c_step; eapply ends_bind; [apply ends_fall|intros ? _; by apply ends_ret]|]. c_auto; done.
Qed.

(** ** kubernetes *)

Lemma primary_index_ok zones i j :
  primary_index zones i = Some j -> exists z, zones !! (j - i)%nat = Some z /\ (i <= j)%nat /\ (IsReverse z <= 0)%Z.
Proof using Type.
  revert i. induction zones as [|z zones IH]; intros i; simpl; [done|]. case_decide as Hr.
  - intros (z' & Hz & Hle & Hz')%IH. exists z'. replace (j - i)%nat with (S (j - S i)) by lia. simpl. split; [done|]. split; [lia|done].
  - intros [= ->]. exists z. rewrite Nat.sub_diag. simpl. split; [done|]. split; [done|lia].
Qed.

(** What the handlers rely on. *)
Definition kube_in_range (k : Kubernetes) : Prop :=
  (podMode k = podModeDisabled \/ podMode k = podModeInsecure \/ podMode k = podModeVerified) /\ (0 <= kTtl k <= 3600)%Z /\
  exists z, primaryZone k = Some z /\ (IsReverse z <= 0)%Z.

Lemma kube_labels_ends sel what : ends P (kube_labels sel what) (fun _ => True).
Proof using COk. unfold kube_labels. c_auto; done. Qed.

Lemma kube_block_ends sel s : kube_in_range s.1 -> ends P (kube_block sel s) (fun s => kube_in_range s.1).
Proof using DOk NOk COk.
  destruct s as [k o]. intros (Hp & Ht & Hz). unfold kube_block. c_step.
  do 5 (case_decide; [c_auto; (split; [|split]; done)|]).
  case_decide; [eapply ends_bind; [apply kube_labels_ends|intros l _; by apply ends_ret]|].
  case_decide; [eapply ends_bind; [apply kube_labels_ends|intros l _; by apply ends_ret]|].
  case_decide; [c_step; eapply ends_bind; [apply ends_fall|intros ? _; by apply ends_ret]|].
  case_decide; [|c_auto; by (split; [|split])].
  c_auto. split; [done|]. split; [|done]. simpl. unfold u32. rewrite Z.mod_small; lia.
Qed.

Lemma kube_in_range_ok k : kube_in_range k -> config_ok (initPodCache (init_opts k)) (init_opts k).
Proof using Type.
  intros (Hp & _ & z & Hz & _). split; [|by exists z]. simpl. intros Hd Hi. apply bool_decide_eq_true. by destruct Hp as [?|[?|?]].
Qed.

Lemma kubernetesParse_ends sel resolv :
  ends P (kubernetesParse sel resolv) (fun r => match r with
    | Some (k, o) => kube_in_range k /\ (Namespaces k = ∅ \/ koNamespaceLabels o = None)
    | None => True
    end).
Proof using DOk NOk COk Hkeys.
  apply ends_once; [|done]. intros _ _. unfold ParseStanza. 
  eapply (ends_bind _ _ _ (fun s => kube_in_range s.1 /\ (Namespaces s.1 = ∅ \/ koNamespaceLabels s.2 = None)));
    [|intros [k o] Hko; by apply ends_ret].
  c_step. eapply ends_bind; [apply ends_origins|intros zs _]. destruct (primary_index zs 0) as [j|] eqn:E; [|apply ends_fail].
  apply primary_index_ok in E as (z & Hz & _ & Hr). rewrite Nat.sub_0_r in Hz.
  eapply (ends_bind _ _ _ (fun s => kube_in_range s.1)).
  - apply ends_while; [apply takes_nextBlock|apply kube_block_ends|]. split; [by left|]. split; [by split|]. by exists z.
  - intros [k o] Hk. case_decide as Hd; [apply ends_errf|]. apply ends_ret. split; [done|]. simpl.
    destruct (decide (Namespaces k = ∅)); [by left|right]. simpl. destruct (koNamespaceLabels o); [|done]. exfalso. apply Hd. by split.
Qed.

Lemma external_parse_ends : ends P external_parse (fun e => 0 <= xtTtl e <= 3600)%Z.
Proof using DOk NOk COk Hkeys.
  apply ends_while; [apply takes_next| |done]. intros e He. c_step. eapply ends_bind; [apply ends_origins|intros zs _].
  apply ends_while; [apply takes_nextBlock| |done]. intros e' He'. unfold external_block. c_auto; try done.
  simpl. unfold u32. rewrite Z.mod_small; lia.
Qed.

(** ** forward *)

(** An upstream as the directive configures it: nothing has happened to it yet,
    and the health check goes over the same transport as the queries. *)
Definition proxy_configured {Conn} (f : Forward Conn) (p : FwProxy Conn) : Prop :=
  fails p = 0%Z /\ t_addr (transport p) = p_addr p /\ t_expire (transport p) = fw_expire f /\ cached_conns (transport p) = 0%nat /\
  exists h, health p = Some h /\ hcRecursionDesired h = opt_hcRecursionDesired (opts f) /\ hcDomain h = opt_hcDomain (opts f) /\
    hcTls h = t_tlsConfig (transport p) /\
    match t_tlsConfig (transport p) with
    | Some config => config = fw_tlsConfig f /\ hcNet h = "tcp-tls"%string
    | None => hcNet h = if forceTCP (opts f) then "tcp"%string else "udp"%string
    end.

Definition forward_limits {Conn} (f : Forward Conn) : Prop :=
  concurrent f = 0%Z /\ (0 <= maxfails f < 2 ^ 32)%Z /\ (0 <= hcInterval f)%Z /\ (0 <= fw_expire f)%Z /\ (0 <= maxConcurrent f)%Z /\
  ((0 < maxConcurrent f)%Z -> ErrLimitExceeded f <> None).

Definition forward_in_range {Conn} (f : Forward Conn) : Prop :=
  (1 <= length (proxies f) <= 15)%nat /\ forward_limits f /\ Forall (proxy_configured f) (proxies f).

Lemma c_need_ends : ends P c_need (fun _ => True).
Proof using COk. unfold c_need. c_step. destruct a; auto with caddy. Qed.

Lemma c_none_ends : ends P c_none (fun _ => True).
Proof using COk. unfold c_none. c_auto. done. Qed.

Lemma health_option_ends o : ends P (health_option o) (fun _ => True).
Proof using COk. unfold health_option. c_auto; done. Qed.

Lemma parseBlock_ends {Conn} cert read certs (ps : list (FwProxy Conn)) f :
  proxies f = ps /\ forward_limits f -> ends P (parseBlock cert read certs f) (fun f => proxies f = ps /\ forward_limits f).
Proof using DOk NOk COk.
  intros [Hps (Hc & Hm & Hh & He & Hl & Herr)]. unfold parseBlock. c_step.
  assert (forall (A : Type) (k : string -> cfg A) Q, (forall x, ends P (k x) Q) -> ends P (c_need ≫= k) Q) as Hneed.
  { intros A k Q Hk. eapply ends_bind; [apply c_need_ends|auto]. }
  case_decide; [|case_decide; [|case_decide; [|case_decide; [|case_decide; [|case_decide]]]]].
  - c_step. case_decide; [apply ends_argErr|]. eapply (ends_bind _ _ _ (fun _ => True)); [|intros zs _; by apply ends_ret].
    apply ends_lift. assert (is_Some (mapM NormalizeExact a0)) as [zs ->]; [|by eexists].
    apply mapM_is_Some, Forall_true, NormalizeExact_total.
  - apply Hneed. intros x. destruct (ParseUint 32 x) as [n [err|]] eqn:E; [apply ends_fail|]. apply ParseUint_exact in E; [|lia].
    by apply ends_ret.
  - apply Hneed. intros x. c_step. case_decide; [apply ends_fail|]. eapply (ends_bind _ _ _ (fun _ => True)).
    + apply ends_while; [apply takes_nextArg| |done]. intros o _. apply health_option_ends.
    + intros o _. apply ends_ret. split; [done|]. repeat split; simpl; try lia. done.
  - eapply ends_bind; [apply c_none_ends|intros _ _]. by apply ends_ret.
  - eapply ends_bind; [apply c_none_ends|intros _ _]. by apply ends_ret.
  - c_auto. done.
  - case_decide; [apply Hneed; intros x; by apply ends_ret|].
    case_decide; [apply Hneed; intros x; c_auto; split; [done|]; repeat split; simpl; try lia; done|].
    case_decide; [apply Hneed; intros x; eapply (ends_bind _ _ _ (fun _ => True)); [unfold policy_of; c_auto; done|intros ? _; by apply ends_ret]|].
    case_decide; [|apply ends_errf]. apply Hneed. intros x. c_auto. split; [done|]. repeat split; simpl; try lia; done.
Qed.

Lemma host_loop_nonempty conf l acc r : host_loop conf l acc = inl r -> r <> [].
Proof.
  revert acc. induction l as [|h l IH]; intros acc; simpl; [case_decide; by intros [= <-]|].
  destruct (host_servers conf h); [apply IH|done].
Qed.

(** An upstream that was just made, for its transport. *)
Definition proxy_new {Conn} (x : FwProxy Conn * string) : Prop := exists addr, x.1 = NewProxy addr x.2 /\ (x.2 = tDNS \/ x.2 = tTLS).

Lemma new_proxies_ok {Conn} hosts (ps : list (FwProxy Conn * string)) :
  new_proxies hosts = inl ps -> length ps = length hosts /\ Forall proxy_new ps.
Proof.
  revert ps. induction hosts as [|h hosts IH]; intros ps; simpl; [by intros [= <-]|].
  destruct (Transport h) as [trans a]. case_decide as Ht; [|done]. destruct (new_proxies hosts) as [ps'|]; [|done]. intros [= <-].
  destruct (IH ps' eq_refl) as [Hl Hf]. split; [simpl; lia|]. constructor; [by exists a|done].
Qed.

Lemma configure_proxy_ok {Conn} (f : Forward Conn) p trans :
  proxy_new (p, trans) -> exists p', configure_proxy f p trans = Some p' /\ proxy_configured f p'.
Proof.
  intros (addr & Hp & Ht). simpl in *. subst p. unfold configure_proxy. destruct (decide (trans = tTLS)) as [->|Hn].
  - eexists. split; [reflexivity|]. simpl. rewrite decide_False by naive_solver. repeat split. eexists. by repeat split.
  - destruct Ht as [->| ?]; [|done]. simpl. eexists. split; [reflexivity|]. repeat split. eexists. split; [reflexivity|].
    destruct (forceTCP (opts f)); [rewrite decide_True by done|rewrite decide_False by naive_solver]; by repeat split.
Qed.

(** The upstreams are there and each is configured. *)
Definition forward_ready {Conn} (f : Forward Conn) : Prop :=
  proxies f <> [] /\ forward_limits f /\ Forall (proxy_configured f) (proxies f).

Lemma configure_all {Conn} (f : Forward Conn) (ps : list (FwProxy Conn * string)) :
  Forall proxy_new ps ->
  exists l, mapM (fun '(p, trans) => configure_proxy f p trans) (zip (map fst ps) (map snd ps)) = Some l /\
    length l = length ps /\ Forall (proxy_configured f) l.
Proof.
  induction 1 as [|[p trans] ps Hp _ (l & E & Hl & Hf)]; [by exists []|].
  destruct (configure_proxy_ok f p trans Hp) as (p' & Ep & Hp'). exists (p' :: l). simpl. rewrite Ep. simpl.
  simpl in E. rewrite E. simpl. split; [done|]. split; [by rewrite Hl|by constructor].
Qed.

Lemma parseStanza_ends {Conn} conf cert read certs : ends P (parseStanza (Conn := Conn) conf cert read certs) forward_ready.
Proof using DOk NOk COk.
  unfold parseStanza. eapply ends_bind; [apply c_need_ends|intros orig _].
  eapply (ends_bind _ _ _ (fun _ => True)); [apply ends_lift; destruct (NormalizeExact_total orig) as [zs ->]; by eexists|intros zones _].
  destruct zones as [|zone zones]; [apply ends_fail|]. c_step. case_decide; [apply ends_argErr|].
  apply ends_try_bind. intros hosts Eh. apply host_loop_nonempty in Eh.
  apply ends_try_bind. intros ps Ep. apply new_proxies_ok in Ep as [Hl Hnew].
  eapply ends_bind; [apply (ends_while P _ _ (fun f => proxies f = map fst ps /\ forward_limits f));
    [apply takes_nextBlock|intros f Hf; by apply parseBlock_ends|]|].
  { split; [done|]. repeat split; simpl; try lia; done. }
  intros f [Hp Hlim]. set (f' := with_server_name f).
  assert (proxies f' = map fst ps /\ forward_limits f') as [-> Hlim'] by (unfold f', with_server_name; by case_decide).
  destruct (configure_all f' ps Hnew) as (l & El & Hll & Hcl).
  eapply (ends_bind _ _ _ (fun x => x = l)); [apply ends_lift; by exists l|]. intros x ->. apply ends_ret.
  split; [|by split]. simpl. intros ->. simpl in Hll. destruct hosts; [done|]. simpl in Hl. lia.
Qed.

Lemma forward_setup_ends {Conn} conf cert read certs :
  ends P (forward_setup (Conn := Conn) conf cert read certs) (Forall forward_in_range).
Proof using DOk NOk COk.
  assert (ends P (parseForward (Conn := Conn) conf cert read certs) (Forall forward_ready)) as Hp.
  { apply ends_while; [apply takes_next| |done]. intros fs Hfs. eapply ends_bind; [apply parseStanza_ends|].
    intros f Hf. apply ends_ret. apply Forall_app. by split; [|constructor]. }
  intros c Hc. specialize (Hp c Hc). unfold forward_setup.
  destruct (parseForward conf cert read certs c) as [[[fs c']|err]|]; [|done|done]. destruct Hp as [Hs Hf].
  destruct (list_find _ fs) as [[i f]|] eqn:E; [done|]. split; [done|]. apply list_find_None in E.
  apply Forall_forall. intros f Hin. rewrite Forall_forall in E, Hf. specialize (E f Hin). destruct (Hf f Hin) as (Hne & Hlim & Hall).
  split; [|by split]. unfold fw_max in E. destruct (proxies f); [done|]. simpl in *. lia.
Qed.
End setups.

(** ** file and secondary *)

Section zone_setups.
Context `{GR : GoRange} `{DOk : DnsNamesOk} `{NOk : NetworksOk} `{COk : CaddyOk}.

(** A token whose zones are names without escapes, and a key that stands for
    such a zone. *)
Definition zone_token (t : string) : Prop := exists zs, NormalizeExact t = Some zs /\ Forall fq_name zs.
Definition zone_key (k : string) : Prop := exists z zs, NormalizeExact k = Some (z :: zs) /\ fq_name z.

Context (Hkeys : forall c, Forall zone_key (c_ServerBlockKeys c)) (P : string -> Prop) (HP : forall t, P t -> zone_token t).

Lemma ends_origins_fq args : Forall P args -> ends P (c_origins args) (Forall fq_name).
Proof using COk Hkeys HP.
  intros Ha. unfold c_origins. eapply ends_bind; [by apply (ends_keys _ (Forall zone_key))|]. intros keys Hk. apply ends_lift.
  unfold OriginsFromArgsOrServerBlock. case_decide.
  - clear Ha. induction Hk as [|k keys (z & zs & E & Hz) _ (l & El & Hl)]; [by exists []|]. exists (z :: l).
    split; [simpl; rewrite E; simpl; by rewrite El|by constructor].
  - clear H2. induction Ha as [|a args (zs & E & Hz)%HP _ (l & El & Hl)]; [by exists []|].
    destruct (mapM NormalizeExact args) as [ls|] eqn:Em; [|done]. injection El as <-.
    exists (zs ++ concat ls). split; [simpl; rewrite E; simpl; by rewrite Em|by apply Forall_app].
Qed.

(** Every name has a well-formed zone of its own. *)
Definition zones_present (loaded : bool) (z : gmap string (option Zone)) (names : list string) : Prop :=
  Forall (fun n => exists zone, z !! n = Some (Some zone) /\ origin zone = n /\ zone_ok zone /\
                     (loaded = true -> aSOA (zApex zone) <> None)) names.

Lemma zones_present_put loaded z names o zone :
  zones_present loaded z names -> origin zone = o -> zone_ok zone -> (loaded = true -> aSOA (zApex zone) <> None) ->
  zones_present loaded (<[o := Some zone]> z) names.
Proof using Type.
  intros Hz Ho Hok Hl. eapply Forall_impl; [exact Hz|]. intros n (zn & E & Hn). destruct (decide (o = n)) as [Hon|Hne].
  - exists zone. rewrite <- Hon, lookup_insert_eq. by split_and!.
  - exists zn. by rewrite lookup_insert_ne.
Qed.

Lemma zones_present_add loaded z names o zone :
  zones_present loaded z names -> origin zone = o -> zone_ok zone -> (loaded = true -> aSOA (zApex zone) <> None) ->
  zones_present loaded (<[o := Some zone]> z) (names ++ [o]).
Proof using Type.
  intros Hz Ho Hok Hl. apply Forall_app. split; [by apply zones_present_put|]. apply Forall_singleton. exists zone.
  rewrite lookup_insert_eq. by split_and!.
Qed.

Lemma zones_present_weaken z names loaded : zones_present loaded z names -> zones_present false z names.
Proof using Type. intros Hz. eapply Forall_impl; [exact Hz|]. intros n (zn & ? & ? & ? & _). by exists zn. Qed.

Lemma NewZone_origin o file : fq_name o -> origin (NewZone o file) = o.
Proof using DOk. apply Fqdn_id. Qed.

Section file.
Context (root : string) (open_file : string -> (string -> ZoneParser) + string).
Context (Hopen : forall path parser o, open_file path = inl parser -> Forall rr_ok (zpRecords (parser o))).

Lemma load_zones_ok fileName parser openErr origins z names :
  Forall fq_name origins -> (forall p o, parser = Some p -> Forall rr_ok (zpRecords (p o))) ->
  (openErr = None -> is_Some parser) ->
  zones_present (bool_decide (openErr = None)) z names ->
  exists res, load_zones fileName parser openErr origins z names = Some res /\
    forall z' names', res = inl (z', names') ->
      zones_present (bool_decide (openErr = None)) z' names' /\ names' = names ++ origins.
Proof using DOk.
  intros Ho Hp Hopened. revert z names. induction Ho as [|o origins Ho _ IH]; intros z names Hz; cbn [load_zones].
  { eexists. split; [done|]. intros ? ? [= <- <-]. by rewrite app_nil_r. }
  assert (forall zone, origin zone = o -> zone_ok zone -> (openErr = None -> aSOA (zApex zone) <> None) ->
    exists res, load_zones fileName parser openErr origins (<[o := Some zone]> z) (names ++ [o]) = Some res /\
    forall z' names', res = inl (z', names') ->
      zones_present (bool_decide (openErr = None)) z' names' /\ names' = names ++ o :: origins) as Hgo.
  { intros zone Eo Hok Hl. rewrite (cons_middle o names origins), (app_assoc names [o] origins). apply IH.
    apply zones_present_add; [done..|]. intros He%bool_decide_eq_true. by apply Hl. }
  destruct openErr as [err|].
  - apply Hgo; [by apply NewZone_origin|by apply NewZone_ok|done].
  - destruct (Hopened eq_refl) as [p ->]. destruct (Parse_ok (p o) o fileName 0 Ho (Hp p o eq_refl)) as (res & -> & Hres).
    cbn [mbind option_bind]. destruct res as [err|zone]; [by eexists|]. destruct (Hres zone eq_refl) as (Hok & _ & Eo & Hs). by apply Hgo.
Qed.

Definition file_in_range (f : FileConf) : Prop :=
  zones_present (bool_decide (fcOpenErr f = None)) (fcZones f) (fcNames f) /\ Forall (fun n => is_Some (fcInterval f !! n)) (fcNames f).

Lemma intervals_put (reload : Z) names origins (m : gmap string Z) :
  Forall (fun n => is_Some (m !! n)) names ->
  Forall (fun n => is_Some (foldl (fun m o => <[o := reload]> m) m origins !! n)) (names ++ origins).
Proof using Type.
  revert names m. induction origins as [|o origins IH]; intros names m Hm; simpl; [by rewrite app_nil_r|].
  rewrite (cons_middle o names origins), (app_assoc names [o] origins). apply IH, Forall_app. split.
  - eapply Forall_impl; [exact Hm|]. intros n Hn. apply lookup_insert_is_Some'. by right.
  - apply Forall_singleton, lookup_insert_is_Some'. by left.
Qed.

Lemma file_stanza_ends f : file_in_range f -> ends P (file_stanza root open_file f) file_in_range.
Proof using DOk COk Hkeys HP Hopen.
  intros [Hz Hi]. unfold file_stanza. c_step. destruct a; [|apply ends_argErr]. c_step. c_step.
  eapply ends_bind; [by apply ends_origins_fq|]. intros origins Ho. cbv zeta. set (fileName := rooted_path root a).
  destruct (load_zones_ok fileName (match open_file (Clean fileName) with inl p => Some p | inr _ => None end)
    (match open_file (Clean fileName) with inr err => Some err | inl _ => fcOpenErr f end) origins (fcZones f) (fcNames f) Ho)
    as (res & -> & Hres).
  - intros p o. destruct (open_file (Clean fileName)) as [p'|] eqn:Eo; [|done]. intros [= <-]. by eapply Hopen.
  - destruct (open_file (Clean fileName)); [by eexists|done].
  - destruct (open_file (Clean fileName)); [done|]. by eapply zones_present_weaken.
  - eapply (ends_bind _ _ _ (fun r => r = res)); [apply ends_lift; by exists res|]. intros ? ->.
    apply ends_try_bind. intros [z' names'] ->. destruct (Hres z' names' eq_refl) as [Hz' ->].
    eapply (ends_bind _ _ _ (fun _ => True)).
    { apply ends_while; [apply takes_nextBlock| |done]. intros d _. unfold file_block. c_auto; done. }
    intros reload _. apply ends_ret. split; [exact Hz'|]. by apply intervals_put.
Qed.

Lemma fileParse_ends : ends P (fileParse root open_file) file_in_range.
Proof using DOk COk Hkeys HP Hopen.
  unfold fileParse. eapply ends_bind; [apply ends_while; [apply takes_next|apply file_stanza_ends|split; constructor]|].
  intros f Hf. c_auto; done.
Qed.
End file.

Lemma zones_present_fold origins z names :
  Forall fq_name origins -> zones_present false z names ->
  zones_present false (foldl (fun z o => <[o := Some (NewZone o "stdin")]> z) z origins) (names ++ origins).
Proof using DOk.
  intros Ho. revert z names. induction Ho as [|o origins Ho _ IH]; intros z names Hz; simpl; [by rewrite app_nil_r|].
  rewrite (cons_middle o names origins), (app_assoc names [o] origins). apply IH.
  by apply zones_present_add; [|apply NewZone_origin|apply NewZone_ok|].
Qed.

Lemma add_primaries_ok origins f z names :
  zones_present false z names -> incl origins names -> exists z', add_primaries origins f z = Some z' /\ zones_present false z' names.
Proof using Type.
  revert z. induction origins as [|o origins IH]; intros z Hz Hin; [by exists z|]. unfold add_primaries, FileZones in *. simpl.
  pose proof Hz as Hz'. unfold zones_present in Hz'. rewrite Forall_forall in Hz'.
  destruct (Hz' o) as (zone & E & Eo & Hok & _); [apply list_elem_of_In, Hin; by left|]. rewrite E. simpl.
  destruct (IH (<[o := Some (set_TransferFrom (TransferFrom zone ++ f) zone)]> z)) as (z' & E' & Hz2).
  - by apply zones_present_put.
  - intros x Hx. apply Hin. by right.
  - exists z'. by split.
Qed.

Lemma secondaryParse_ends : ends P secondaryParse (fun s => zones_present false s.1 s.2).
Proof using DOk COk Hkeys HP.
  apply ends_while; [apply takes_next| |constructor]. intros [z names] Hz. unfold secondary_stanza. c_step.
  case_decide; [|by apply ends_ret]. c_step. eapply ends_bind; [by apply ends_origins_fq|]. intros origins Ho. simpl.
  eapply (ends_bind _ _ _ (fun z => zones_present false z (names ++ origins))); [|intros z' Hz'; by apply ends_ret].
  apply ends_while; [apply takes_nextBlock| |by apply zones_present_fold]. intros z' Hz'. c_step. case_decide; [|apply ends_errf].
  eapply (ends_bind _ _ _ (fun _ => True)); [unfold parse_TransferIn; c_auto; by apply ends_try|]. intros f _. apply ends_lift.
  apply add_primaries_ok; [done|]. apply incl_appr, incl_refl.
Qed.
End zone_setups.

(** ** Theorems *)

Definition any_token (t : string) : Prop := True.
Definition filled (t : string) : Prop := t <> EmptyString.



(** ** Examples *)

Definition example_keys : list string := ["example.org"]%string.

Definition example_kube : Dispenser :=
  corefile [["kubernetes"; "cluster.local"; "10.0.0.0/24"; "{"]; ["pods"; "verified"]; ["ttl"; "60"]; ["namespaces"; "default"]; ["}"]]%string.

Lemma example_keys_ok c : @keys_ok dns_reference networks_reference (@c_ServerBlockKeys (caddy_reference example_keys) c).
Proof. constructor; [|constructor]. exists "example.org."%string, []. reflexivity. Qed.


Lemma example_zone_keys c :
  Forall (@zone_key dns_reference networks_reference) (@c_ServerBlockKeys (caddy_reference example_keys) c).
Proof. constructor; [|constructor]. exists "example.org."%string, []. split; [reflexivity|decided]. Qed.

Definition example_file : Dispenser := corefile [["file"; "db.example.org"; "{"]; ["reload"; "10s"]; ["}"]]%string.


Section corefiles.
#[local] Existing Instance range_sorted.
#[local] Existing Instance sort_merge.
#[local] Existing Instance dns_reference.
#[local] Existing Instance networks_reference.
#[local] Instance example_caddy : Caddy := caddy_reference example_keys.

Definition result {A B} (f : A -> B) (r : option ((A * Controller) + string)) : option (B + string) :=
  match r with Some (inl (a, _)) => Some (inl (f a)) | Some (inr err) => Some (inr err) | None => None end.

(** keepttl is refused when the directive names its zones, since the check
    looks at the arguments of the directive. *)
Example keepttl_with_zone :
  result ccKeepttl (cacheParse (corefile [["cache"; "{"]; ["keepttl"]; ["}"]]%string)) = Some (inl true) /\
  result ccKeepttl (cacheParse (corefile [["cache"; "example.org"; "{"]; ["keepttl"]; ["}"]]%string)) =
    Some (inr "Wrong argument count or unexpected line ending after 'keepttl'"%string).
Proof. vm_compute. split; reflexivity. Qed.

(** An empty percentage makes the set-up panic. *)
Example empty_percentage_panics :
  result ccPercentage (cacheParse (corefile [["cache"; "{"]; ["prefetch"; "1"; "1m"; EmptyString]; ["}"]]%string)) = None.
Proof. vm_compute. reflexivity. Qed.

(** A block behind a prefix is read as further directives, and has no effect. *)
Example dns64_block_ignored :
  result dTranslateAll (dns64Parse (corefile [["dns64"; "64:ff9b::/96"; "{"]; ["translate_all"]; ["}"]]%string)) = Some (inl false) /\
  result dTranslateAll (dns64Parse (corefile [["dns64"; "{"]; ["translate_all"]; ["}"]]%string)) = Some (inl true).
Proof. vm_compute. split; reflexivity. Qed.

(** A prefix of 72 bits is accepted; it covers the byte that RFC 6052 reserves. *)
Example dns64_prefix_72 :
  result (fun d => to6 (dPrefix d) [192; 0; 2; 1]%Z) (dns64Parse (corefile [["dns64"; "2001:db8:0:0:ff00::/72"]]%string)) =
  Some (inl (Some (inr [32; 1; 13; 184; 0; 0; 0; 0; 255; 192; 0; 2; 1; 0; 0; 0]%Z))).
Proof. vm_compute. reflexivity. Qed.

(** After a file that cannot be opened, the zones of the files behind it are
    not loaded although their files can be. *)
Definition second_opens (path : string) : (string -> ZoneParser) + string :=
  if decide (path = "/db.org"%string) then inl (fun _ => mkParser example_records None) else inr "no such file"%string.

Example open_error_sticks :
  result (fun f => omap (fun z => aSOA (zApex z)) (omap id (map snd (map_to_list (fcZones f)))))
    (fileParse EmptyString second_opens (corefile [["file"; "/db.net"; "example.net"]; ["file"; "/db.org"; "example.org"]]%string)) = Some (inl []) /\
  result (fun f => length (omap (fun z => aSOA (zApex z)) (omap id (map snd (map_to_list (fcZones f))))))
    (fileParse EmptyString second_opens (corefile [["file"; "/db.org"; "example.org"]; ["file"; "/db.net"; "example.net"]]%string)) =
    Some (inl 1%nat).
Proof. vm_compute. split; reflexivity. Qed.

(** Inline entries behind fallthrough are not accepted. *)
Example hosts_entry_after_fallthrough :
  result hcInline (hostsParse EmptyString (fun _ => None)
    (corefile [["hosts"; "{"]; ["10.0.0.1"; "a.org"]; ["fallthrough"]; ["}"]]%string)) = Some (inl ["10.0.0.1 a.org"%string]) /\
  result hcInline (hostsParse EmptyString (fun _ => None)
    (corefile [["hosts"; "{"]; ["fallthrough"]; ["10.0.0.1"; "a.org"]; ["}"]]%string)) =
    Some (inr "Parse error: unknown property '10.0.0.1'"%string).
Proof. vm_compute. split; reflexivity. Qed.

(** A transfer from a primary, and a secondary without one. *)
Example secondary_primaries :
  result (fun s => (s.2, (TransferFrom <$> mjoin (s.1 !! "example.org."%string)) ))
    (secondaryParse (corefile [["secondary"; "{"]; ["transfer"; "from"; "10.0.0.1"; "10.0.0.2:5353"]; ["}"]]%string)) =
    Some (inl (["example.org."]%string, Some ["10.0.0.1:53"; "10.0.0.2:5353"]%string)).
Proof. vm_compute. reflexivity. Qed.

(** A file with the upstreams is read for plain DNS also when the directive
    asks for TLS. *)
Definition example_resolv (path : string) : (list string * string) + string :=
  if decide (path = "/etc/resolv.conf"%string) then inl (["10.0.0.1"], "53")%string else inr "no such file"%string.

Definition forward_of (lines : list (list string)) : option ((list (Forward bool) * Controller) + string) :=
  forward_setup example_resolv (fun _ _ => None) (fun s => inl s) (fun _ => true) (corefile lines).

Definition upstreams (fs : list (Forward bool)) : list (string * list (string * bool)) :=
  map (fun f => (from f, map (fun p => (p_addr p, bool_decide (is_Some (t_tlsConfig (transport p))))) (proxies f))) fs.

Example forward_tls_file :
  result upstreams (forward_of [["forward"; "."; "tls://10.0.0.1"]]%string) = Some (inl [(".", [("10.0.0.1:853", true)])]%string) /\
  result upstreams (forward_of [["forward"; "."; "tls:///etc/resolv.conf"]]%string) = Some (inl [(".", [("10.0.0.1:53", false)])]%string).
Proof. vm_compute. split; reflexivity. Qed.

(** A host behind except that cannot be read is dropped without an error. *)
Example forward_except_dropped :
  result (map ignored) (forward_of [["forward"; "."; "10.0.0.1"; "{"]; ["except"; "a.org:"; "B.org"]; ["}"]]%string) =
    Some (inl [["b.org."]%string]).
Proof. vm_compute. reflexivity. Qed.

Example forward_errors :
  result upstreams (forward_of [["forward"; "."; "10.0.0.1"; "{"]; ["expire"; "-90s"]; ["}"]]%string) =
    Some (inr "plugin/forward: expire can't be negative: -1m30s"%string) /\
  result upstreams (forward_of [["forward"; "."; "grpc://10.0.0.1"]]%string) =
    Some (inr "plugin/forward: 'grpc' is not supported as a destination protocol in forward: grpc://10.0.0.1:443"%string).
Proof. vm_compute. split; reflexivity. Qed.
End corefiles.
